(** * OntoViz: the tree builders of [src/ontoloviz/obo_utils.py]

    A shallow embedding of the two forest builders
    ([build_non_separator_based_tree] for tab separated files and
    [build_tree_from_obo_ontology] for .obo term graphs) and of the
    dispatcher [get_remote_ontology].

    Python dictionaries keep insertion order and both builders iterate
    over them, so a dictionary is an association list with the update
    discipline of [dict]: assignment to an existing key replaces the
    value in place, assignment to a new key appends.  Node dictionaries
    are mutable objects that several containers may reference, so they
    live in a store (a list indexed by address) and trees hold
    addresses. *)

From Stdlib Require Import ZArith Lia.
From stdpp Require Import base list strings.

Open Scope string_scope.
Open Scope list_scope.
Open Scope Z_scope.

(** ** Outcomes of a Python computation *)

Inductive exn : Type :=
  | KeyError
  | IndexError
  | AttributeError
  | HTTPError
  | DanglingRef. (* a reference outside the store: excluded by the invariants *)

Inductive result (A : Type) : Type :=
  | Ok (a : A)
  | Raise (e : exn)
  | OutOfFuel.
Arguments Ok {A} a.
Arguments Raise {A} e.
Arguments OutOfFuel {A}.

Definition bind {A B : Type} (m : result A) (k : A -> result B) : result B :=
  match m with
  | Ok a => k a
  | Raise e => Raise e
  | OutOfFuel => OutOfFuel
  end.

Notation "'let*' x := m 'in' k" := (bind m (fun x => k))
  (at level 10, x name, m at level 100, k at level 200).
Notation "'let*' ' p := m 'in' k" := (bind m (fun x => let 'p := x in k))
  (at level 10, p pattern, m at level 100, k at level 200).

Definition from_option {A : Type} (e : exn) (o : option A) : result A :=
  match o with
  | Some a => Ok a
  | None => Raise e
  end.

(** ** Numbers

    [counts] and [imported_counts] hold either a Python [int] or one of
    the two float constants of the module, which are only ever stored
    and compared; a float is represented by its source literal. *)

Inductive number : Type :=
  | Int (z : Z)
  | Float (literal : string).

Definition zero : number := Float "0.000001337".
Definition fake_one : number := Float "1.000001337".

(** ** Insertion ordered dictionaries with string keys *)

Abbreviation dict V := (list (string * V)) (only parsing).

Section Dict.
Context {V : Type}.
Abbreviation dict := (dict V).

Definition keys (d : dict) : list string := fst <$> d.
Definition values (d : dict) : list V := snd <$> d.

(* d[k], as an option: None is a KeyError *)
Fixpoint dict_get (d : dict) (k : string) : option V :=
  match d with
  | [] => None
  | (k', v) :: d' => if String.eqb k k' then Some v else dict_get d' k
  end.

(* k in d.keys() *)
Definition dict_mem (d : dict) (k : string) : bool :=
  match dict_get d k with
  | Some _ => true
  | None => false
  end.

(* d[k] = v *)
Fixpoint dict_set (d : dict) (k : string) (v : V) : dict :=
  match d with
  | [] => [(k, v)]
  | (k', v') :: d' =>
      if String.eqb k k' then (k', v) :: d' else (k', v') :: dict_set d' k v
  end.

(* del d[k] *)
Fixpoint dict_del (d : dict) (k : string) : result dict :=
  match d with
  | [] => Raise KeyError
  | (k', v') :: d' =>
      if String.eqb k k' then Ok d'
      else let* d'' := dict_del d' k in Ok ((k', v') :: d'')
  end.
End Dict.

(** Objects are referred to by their address in the store. *)
Abbreviation addr := nat (only parsing).

(** A tree maps node ids to node objects, a forest maps root ids to trees. *)
Abbreviation tree := (dict addr) (only parsing).
Abbreviation forest := (dict tree) (only parsing).

(** ** Flat mode: [build_non_separator_based_tree] *)

Module Flat.

(** One node dictionary, as built on lines 31 to 40. *)
Record node : Type := Node {
  id : string;
  parent : string;
  level : Z;
  label : string;
  description : string;
  counts : number;
  imported_counts : number;
  color : string
}.

Definition set_level (n : node) (l : Z) : node :=
  {| id := id n; parent := parent n; level := l; label := label n;
     description := description n; counts := counts n;
     imported_counts := imported_counts n; color := color n |}.

(** A data line after [split("\t")], the first field after [split("|")].
    [r_count] is the outcome of [int(line_data[3])], [None] standing for
    the [ValueError] branch. *)
Record row : Type := Row {
  r_ids : list string;
  r_parent : string;
  r_label : string;
  r_description : string;
  r_count : option Z;
  r_color : string
}.

Abbreviation store := (list node) (only parsing).

Record state : Type := State {
  heap : store;
  trees : forest;
  to_process : list (Z * addr);
  printed : list string
}.

Definition make_node (r : row) (node_id : string) : node :=
  let count := match r_count r with Some c => c | None => 0 end in
  {| id := node_id;
     parent := r_parent r;
     level := 0;
     label := r_label r;
     description := r_description r;
     counts := if count =? 0 then zero else Int count;
     imported_counts := if count =? 0 then fake_one else Int count;
     color := r_color r |}.

(* the body of [for node_id in node_ids] *)
Definition read_id (r : row) (st : state) (node_id : string) : state :=
  let a := length (heap st) in
  let h := heap st ++ [make_node r node_id] in
  if String.eqb (r_parent r) "" then
    State h (dict_set (trees st) node_id (dict_set [] node_id a))
          (to_process st) (printed st)
  else
    State h (trees st) (to_process st ++ [(0, a)]) (printed st).

Definition read_row (st : state) (r : row) : state :=
  fold_left (read_id r) (r_ids r) st.

Definition read_rows (rows : list row) : state :=
  fold_left read_row rows (State [] [] [] []).

Definition drop_message (node_id : string) : string :=
  String.append
    "Dropping node because no suitable parent was found after 20 attempts: "
    node_id.

(** The inner [for sub_tree_id, sub_tree in tree.items()] for the node at
    address [a], entry number [idx] of the queue.  The [continue] at its
    end goes on with the next tree: the node is put into every tree that
    holds its parent, and [idx] is recorded once per such tree. *)
Fixpoint scan_trees (a : addr) (idx : nat) (f : forest) (h : store)
    (drop_idxs : list nat) : result (forest * store * list nat) :=
  match f with
  | [] => Ok ([], h, drop_idxs)
  | (sub_tree_id, sub_tree) :: f' =>
      let* n := from_option DanglingRef (h !! a) in
      match dict_get sub_tree (parent n) with
      | Some b =>
          let* p := from_option DanglingRef (h !! b) in
          let h1 := <[a := set_level n (level p + 1)]> h in
          let sub_tree1 := dict_set sub_tree (id n) a in
          let* '(f1, h2, d2) := scan_trees a idx f' h1 (drop_idxs ++ [idx]) in
          Ok ((sub_tree_id, sub_tree1) :: f1, h2, d2)
      | None =>
          let* '(f1, h2, d2) := scan_trees a idx f' h drop_idxs in
          Ok ((sub_tree_id, sub_tree) :: f1, h2, d2)
      end
  end.

Record pass_state : Type := PassState {
  p_heap : store;
  p_trees : forest;
  p_drop_idxs : list nat;
  p_printed : list string
}.

(** [for idx, (attempts, node) in enumerate(to_process)].  [attempts] is
    the loop's own variable, unpacked from the entry: [attempts += 1]
    rebinds it and leaves the entry of [to_process] as it was. *)
Fixpoint scan_queue (idx : nat) (q : list (Z * addr)) (ps : pass_state)
    : result pass_state :=
  match q with
  | [] => Ok ps
  | (attempts, a) :: q' =>
      if 20 <=? attempts then
        let* n := from_option DanglingRef (p_heap ps !! a) in
        scan_queue (S idx) q'
          (PassState (p_heap ps) (p_trees ps) (p_drop_idxs ps ++ [idx])
                     (p_printed ps ++ [drop_message (id n)]))
      else
        let* '(f, h, d) := scan_trees a idx (p_trees ps) (p_heap ps) (p_drop_idxs ps) in
        let attempts := attempts + 1 in
        scan_queue (S idx) q' (PassState h f d (p_printed ps))
  end.

(* sorted(drop_idxs, reverse=True) *)
Fixpoint insert_desc (i : nat) (l : list nat) : list nat :=
  match l with
  | [] => [i]
  | j :: l' => if (j <=? i)%nat then i :: l else j :: insert_desc i l'
  end.

Definition sorted_reverse (l : list nat) : list nat :=
  fold_right insert_desc [] l.

(* del l[i] *)
Fixpoint del_index {A : Type} (l : list A) (i : nat) : result (list A) :=
  match l, i with
  | [], _ => Raise IndexError
  | _ :: l', O => Ok l'
  | x :: l', S i' => let* l'' := del_index l' i' in Ok (x :: l'')
  end.

Fixpoint del_indices {A : Type} (l : list A) (idxs : list nat)
    : result (list A) :=
  match idxs with
  | [] => Ok l
  | i :: idxs' => let* l' := del_index l i in del_indices l' idxs'
  end.

(** One turn of the [while True] loop, up to the test of [to_process]. *)
Definition pass (st : state) : result state :=
  let* ps := scan_queue 0 (to_process st)
          (PassState (heap st) (trees st) [] (printed st)) in
  let* q := del_indices (to_process st) (sorted_reverse (p_drop_idxs ps)) in
  Ok (State (p_heap ps) (p_trees ps) q (p_printed ps)).

Fixpoint loop (fuel : nat) (st : state) : result state :=
  match fuel with
  | O => OutOfFuel
  | S fuel' =>
      let* st' := pass st in
      match to_process st' with
      | [] => Ok st'
      | _ :: _ => loop fuel' st'
      end
  end.

(** The forest and the store its addresses point into. *)
Definition build_non_separator_based_tree (fuel : nat) (rows : list row)
    : result (forest * store) :=
  let* st := loop fuel (read_rows rows) in
  Ok (trees st, heap st).

(* the state after [n] turns of the loop, whatever the exit test says *)
Fixpoint passes (n : nat) (st : state) : result state :=
  match n with
  | O => Ok st
  | S n' => let* st' := pass st in passes n' st'
  end.

End Flat.

(** ** Graph mode: [build_tree_from_obo_ontology] *)

Module Obo.

(** A term dictionary ([new_entity]) of [parse_obo_file].  The last six keys are absent
    from a parsed term and added by the builder: [None] is an absent
    key, reading it raises [KeyError].  The list valued keys are never
    mutated after parsing, so the shallow [copy()] may share them. *)
Record entity : Type := Entity {
  id : string;
  label : option string;
  namespace : option string;
  def : option string;
  comment : option string;
  is_obsolete : bool;
  xrefs : list string;
  is_a : list (list string);
  disjoint_from : list (list string);
  synonyms : list (list string);
  level : option Z;
  parent : option string;
  imported_counts : option number;
  counts : option number;
  color : option string;
  description : option string
}.

Definition set_level (l : Z) (t : entity) : entity :=
  Entity (id t) (label t) (namespace t) (def t) (comment t) (is_obsolete t)
       (xrefs t) (is_a t) (disjoint_from t) (synonyms t)
       (Some l) (parent t) (imported_counts t) (counts t) (color t)
       (description t).

Definition set_parent (p : string) (t : entity) : entity :=
  Entity (id t) (label t) (namespace t) (def t) (comment t) (is_obsolete t)
       (xrefs t) (is_a t) (disjoint_from t) (synonyms t)
       (level t) (Some p) (imported_counts t) (counts t) (color t)
       (description t).

Definition set_imported_counts (c : number) (t : entity) : entity :=
  Entity (id t) (label t) (namespace t) (def t) (comment t) (is_obsolete t)
       (xrefs t) (is_a t) (disjoint_from t) (synonyms t)
       (level t) (parent t) (Some c) (counts t) (color t) (description t).

Definition set_counts (c : number) (t : entity) : entity :=
  Entity (id t) (label t) (namespace t) (def t) (comment t) (is_obsolete t)
       (xrefs t) (is_a t) (disjoint_from t) (synonyms t)
       (level t) (parent t) (imported_counts t) (Some c) (color t)
       (description t).

Definition set_color (c : string) (t : entity) : entity :=
  Entity (id t) (label t) (namespace t) (def t) (comment t) (is_obsolete t)
       (xrefs t) (is_a t) (disjoint_from t) (synonyms t)
       (level t) (parent t) (imported_counts t) (counts t) (Some c)
       (description t).

Definition set_description (d : string) (t : entity) : entity :=
  Entity (id t) (label t) (namespace t) (def t) (comment t) (is_obsolete t)
       (xrefs t) (is_a t) (disjoint_from t) (synonyms t)
       (level t) (parent t) (imported_counts t) (counts t) (color t)
       (Some d).

(* the dictionary a [Term] line starts, with its id and is_a lines read *)
Definition new_entity (i : string) (parents : list (list string)) : entity :=
  Entity i None None None None false [] parents [] [] None None None None
         None None.

Abbreviation store := (list entity) (only parsing).

(* h[a] = g(h[a]): an assignment to a key of the object at [a] *)
Definition update (h : store) (a : addr) (g : entity -> entity) : result store :=
  let* t := from_option DanglingRef (h !! a) in
  Ok (<[a := g t]> h).

(* the object tree[s][k] *)
Definition node_ref (f : forest) (s k : string) : result addr :=
  let* sub := from_option KeyError (dict_get f s) in
  from_option KeyError (dict_get sub k).

(* is_a[0] *)
Definition first (is_a : list string) : result string :=
  from_option IndexError (head is_a).

(** *** Building the first level (lines 231 to 247) *)

(* tree[k] = {}; tree[k][k] = val; tree[k][k]["level"] = 0;
   tree[k][k]["parent"] = "" *)
Definition seed (k : string) (val : addr) (f : forest) (h : store)
    : result (forest * store) :=
  let f1 := dict_set f k [] in
  let* sub := from_option KeyError (dict_get f1 k) in
  let f2 := dict_set f1 k (dict_set sub k val) in
  let* a := node_ref f2 k k in
  let* h1 := update h a (set_level 0) in
  let* a' := node_ref f2 k k in
  let* h2 := update h1 a' (set_parent "") in
  Ok (f2, h2).

(* for is_a in val["is_a"]: if root_id == is_a[0]: ... *)
Fixpoint seed_children (root_id term : string) (val : addr)
    (is_as : list (list string)) (f : forest) (h : store)
    : result (forest * store) :=
  match is_as with
  | [] => Ok (f, h)
  | is_a :: is_as' =>
      let* is_a_id := first is_a in
      if String.eqb root_id is_a_id then
        let* '(f1, h1) := seed term val f h in
        seed_children root_id term val is_as' f1 h1
      else seed_children root_id term val is_as' f h
  end.

(* for term, val in raw_terms.items(): ... *)
Fixpoint seed_below (root_id : string) (items : list (string * addr))
    (f : forest) (h : store) : result (forest * store) :=
  match items with
  | [] => Ok (f, h)
  | (term, val) :: items' =>
      let* t := from_option DanglingRef (h !! val) in
      let* '(f1, h1) := seed_children root_id term val (is_a t) f h in
      seed_below root_id items' f1 h1
  end.

(* [_["id"] for _ in raw_terms.values() if not _["is_a"]] *)
Fixpoint root_terms (vals : list addr) (h : store) : result (list string) :=
  match vals with
  | [] => Ok []
  | a :: vals' =>
      let* t := from_option DanglingRef (h !! a) in
      let* l := root_terms vals' h in
      Ok (match is_a t with [] => id t :: l | _ :: _ => l end)
  end.

(* for root_term in root_terms: ... raw_terms[root_term] ... *)
Fixpoint seed_roots (raw_terms : dict addr) (roots : list string)
    (f : forest) (h : store) : result (forest * store) :=
  match roots with
  | [] => Ok (f, h)
  | root_term :: roots' =>
      let* val := from_option KeyError (dict_get raw_terms root_term) in
      let* '(f1, h1) := seed root_term val f h in
      seed_roots raw_terms roots' f1 h1
  end.

(* truth value of an optional string: None and "" are false *)
Definition truthy (s : option string) : option string :=
  match s with
  | Some r => if String.eqb r "" then None else Some r
  | None => None
  end.

Definition build_first_level (root_id : option string)
    (raw_terms : dict addr) (h : store) : result (forest * store) :=
  match truthy root_id with
  | Some r => seed_below r raw_terms [] h
  | None =>
      let* roots := root_terms (values raw_terms) h in
      seed_roots raw_terms roots [] h
  end.

(** *** Propagation (lines 250 to 268) *)

(** The body of the [if] on lines 259 to 261.  [copied] is the value of
    [val.copy()]; it becomes an object of the store when it is put into
    the tree, the only place where the copy is referenced. *)
Definition insert_term (term : string) (copied : entity) (is_a_id : string)
    (sub_tree : tree) (h : store) : result (tree * store) :=
  (* sub_tree[term] = copied_value *)
  let a := length h in
  let h1 := h ++ [copied] in
  let sub_tree1 := dict_set sub_tree term a in
  (* sub_tree[term]["level"] = sub_tree[is_a_id]["level"] + 1 *)
  let* b := from_option KeyError (dict_get sub_tree1 is_a_id) in
  let* p := from_option DanglingRef (h1 !! b) in
  let* l := from_option KeyError (level p) in
  let* a1 := from_option KeyError (dict_get sub_tree1 term) in
  let* h2 := update h1 a1 (set_level (l + 1)) in
  (* sub_tree[term]["parent"] = sub_tree[is_a_id]["id"] *)
  let* b' := from_option KeyError (dict_get sub_tree1 is_a_id) in
  let* p' := from_option DanglingRef (h2 !! b') in
  let* a2 := from_option KeyError (dict_get sub_tree1 term) in
  let* h3 := update h2 a2 (set_parent (id p')) in
  Ok (sub_tree1, h3).

(* for is_a in copied_value["is_a"]: ... *)
Fixpoint attach (term : string) (copied : entity)
    (is_as : list (list string)) (sub_tree : tree) (h : store)
    (had_content : bool) : result (tree * store * bool) :=
  match is_as with
  | [] => Ok (sub_tree, h, had_content)
  | is_a :: is_as' =>
      let* is_a_id := first is_a in
      if dict_mem sub_tree is_a_id && negb (dict_mem sub_tree term) then
        let* '(sub_tree1, h1) :=
          insert_term term copied is_a_id sub_tree h in
        attach term copied is_as' sub_tree1 h1 true
      else attach term copied is_as' sub_tree h had_content
  end.

(* for term, val in raw_terms.items(): copied_value = val.copy(); ... *)
Fixpoint scan_terms (items : list (string * addr)) (sub_tree : tree)
    (h : store) (had_content : bool) : result (tree * store * bool) :=
  match items with
  | [] => Ok (sub_tree, h, had_content)
  | (term, val) :: items' =>
      let* copied := from_option DanglingRef (h !! val) in
      let* '(sub_tree1, h1, had1) :=
        attach term copied (is_a copied) sub_tree h had_content in
      scan_terms items' sub_tree1 h1 had1
  end.

(* for sub_tree_id, sub_tree in tree.items(): ... *)
Fixpoint scan_forest (raw_terms : dict addr) (f : forest) (h : store)
    (had_content : bool) : result (forest * store * bool) :=
  match f with
  | [] => Ok ([], h, had_content)
  | (sub_tree_id, sub_tree) :: f' =>
      let* '(sub_tree1, h1, had1) :=
        scan_terms raw_terms sub_tree h had_content in
      let* '(f1, h2, had2) := scan_forest raw_terms f' h1 had1 in
      Ok ((sub_tree_id, sub_tree1) :: f1, h2, had2)
  end.

(* the [while True] loop; [fuel] bounds the number of passes *)
Fixpoint propagate (fuel : nat) (raw_terms : dict addr) (f : forest)
    (h : store) : result (forest * store) :=
  match fuel with
  | O => OutOfFuel
  | S fuel' =>
      let* '(f1, h1, had_content) := scan_forest raw_terms f h false in
      if had_content then propagate fuel' raw_terms f1 h1 else Ok (f1, h1)
  end.

(** *** Cleaning (lines 270 to 285) *)

(* for key, val in sub_tree.items():
     if val["parent"] and val["parent"] not in sub_tree.keys(): ... *)
Fixpoint missing_in_tree (sub_tree_id : string) (sub_tree : tree)
    (items : list (string * addr)) (h : store)
    (acc : list (string * string)) : result (list (string * string)) :=
  match items with
  | [] => Ok acc
  | (key, a) :: items' =>
      let* val := from_option DanglingRef (h !! a) in
      let* p := from_option KeyError (parent val) in
      if negb (String.eqb p "") && negb (dict_mem sub_tree p) then
        missing_in_tree sub_tree_id sub_tree items' h
          (acc ++ [(sub_tree_id, key)])
      else missing_in_tree sub_tree_id sub_tree items' h acc
  end.

Fixpoint missing_in_forest (f : forest) (h : store)
    (acc : list (string * string)) : result (list (string * string)) :=
  match f with
  | [] => Ok acc
  | (sub_tree_id, sub_tree) :: f' =>
      let* acc1 := missing_in_tree sub_tree_id sub_tree sub_tree h acc in
      missing_in_forest f' h acc1
  end.

(* for sub_tree_id, node_id in nodes_with_missing_parent:
     del tree[sub_tree_id][node_id] *)
Fixpoint delete_nodes (f : forest) (l : list (string * string))
    : result forest :=
  match l with
  | [] => Ok f
  | (sub_tree_id, node_id) :: l' =>
      let* sub_tree := from_option KeyError (dict_get f sub_tree_id) in
      let* sub_tree1 := dict_del sub_tree node_id in
      delete_nodes (dict_set f sub_tree_id sub_tree1) l'
  end.

Fixpoint clean (fuel : nat) (f : forest) (h : store) : result forest :=
  match fuel with
  | O => OutOfFuel
  | S fuel' =>
      let* nodes_with_missing_parent := missing_in_forest f h [] in
      match nodes_with_missing_parent with
      | [] => Ok f
      | _ :: _ =>
          let* f1 := delete_nodes f nodes_with_missing_parent in
          clean fuel' f1 h
      end
  end.

(** *** Counts, color and description (lines 287 to 293) *)

(* str() of a value that is a string or None *)
Definition str (o : option string) : string :=
  match o with
  | Some s => s
  | None => "None"
  end.

Definition newline : string := String (Ascii.ascii_of_nat 10) "".

Definition describe (t : entity) : string :=
  String.append "Definition: "
    (String.append (str (def t))
       (String.append newline
          (String.append "Comment: " (str (comment t))))).

Definition annotate_node (h : store) (a : addr) : result store :=
  let* h1 := update h a (set_imported_counts (Float "1.000001337")) in
  let* h2 := update h1 a (set_counts (Float "0.000001337")) in
  let* h3 := update h2 a (set_color "#FFFFFF") in
  let* t := from_option DanglingRef (h3 !! a) in
  update h3 a (set_description (describe t)).

Fixpoint annotate_tree (nodes : list addr) (h : store) : result store :=
  match nodes with
  | [] => Ok h
  | a :: nodes' =>
      let* h1 := annotate_node h a in
      annotate_tree nodes' h1
  end.

Fixpoint annotate (sub_trees : list tree) (h : store) : result store :=
  match sub_trees with
  | [] => Ok h
  | sub_tree :: sub_trees' =>
      let* h1 := annotate_tree (values sub_tree) h in
      annotate sub_trees' h1
  end.

(** *** Dropping small trees (lines 298 to 304) *)

Fixpoint sub_tree_ids_to_drop (f : forest) (min_node_size : Z)
    : list string :=
  match f with
  | [] => []
  | (sub_tree_id, sub_tree) :: f' =>
      if Z.of_nat (length sub_tree) <? min_node_size
      then sub_tree_id :: sub_tree_ids_to_drop f' min_node_size
      else sub_tree_ids_to_drop f' min_node_size
  end.

Fixpoint drop_trees (f : forest) (ids : list string) : result forest :=
  match ids with
  | [] => Ok f
  | sub_tree_id :: ids' =>
      let* f1 := dict_del f sub_tree_id in
      drop_trees f1 ids'
  end.

(* [if min_node_size:] is false for None and for 0 *)
Definition prune (min_node_size : option Z) (f : forest) : result forest :=
  match min_node_size with
  | None => Ok f
  | Some m =>
      if m =? 0 then Ok f
      else drop_trees f (sub_tree_ids_to_drop f m)
  end.

(** *** The builder and its callers *)

(** The part of [app] the module reads: [app.obo].  Status messages
    ([app.set_status]) are not modelled. *)
Record obo_settings : Type := OboSettings {
  custom_url : option string;
  obo_description : option string;
  obo_root_id : option string;
  obo_min_node_size : option Z
}.

Section Builder.
(** [parse_obo_file] downloads and parses a file: given the url it
    yields the dictionary of the parsed terms, allocated in the store,
    or raises. *)
Variable parse_obo_file :
  option string -> store -> result (dict addr * store).

(* the steps after [raw_terms] is known *)
Definition build_tree (fuel : nat) (root_id : option string)
    (raw_terms : dict addr) (min_node_size : option Z) (h : store)
    : result (forest * store) :=
  let* '(f0, h0) := build_first_level root_id raw_terms h in
  let* '(f1, h1) := propagate fuel raw_terms f0 h0 in
  let* f2 := clean fuel f1 h1 in
  let* h2 := annotate (values f2) h1 in
  let* f3 := prune min_node_size f2 in
  Ok (f3, h2).

(* if not raw_terms: raw_terms = parse_obo_file(url=url, ...) *)
Definition terms_to_use (url : option string)
    (raw_terms : option (dict addr)) (h : store)
    : result (dict addr * store) :=
  match raw_terms with
  | Some (x :: r) => Ok (x :: r, h)
  | Some [] | None => parse_obo_file url h
  end.

Definition build_tree_from_obo_ontology (fuel : nat) (url : option string)
    (root_id : option string) (raw_terms : option (dict addr))
    (min_node_size : option Z) (h : store) : result (forest * store) :=
  let* '(raw, h0) := terms_to_use url raw_terms h in
  build_tree fuel root_id raw min_node_size h0.

(* {v["label"]: v["id"] for k, v in raw_terms.items() if not v["is_a"]}
   read at the key [name]: the last root term with that label *)
Fixpoint root_term_id (vals : list addr) (h : store) (name : string)
    (found : option string) : result (option string) :=
  match vals with
  | [] => Ok found
  | a :: vals' =>
      let* t := from_option DanglingRef (h !! a) in
      match is_a t, label t with
      | [], Some l =>
          root_term_id vals' h name
            (if String.eqb l name then Some (id t) else found)
      | _, _ => root_term_id vals' h name found
      end
  end.

Definition root_term_translation (ontology_short : string) : string :=
  if String.eqb ontology_short "go_mf" then "molecular_function"
  else if String.eqb ontology_short "go_cp" then "cellular_component"
  else "biological_process".

(** [None] in the result is Python's [None]: the function falls off
    its last [elif]. *)
Definition get_remote_ontology (fuel : nat) (ontology_short : option string)
    (app : option obo_settings) (h : store)
    : result (option (forest * store)) :=
  let build url root_id raw min_node_size :=
    let* r := build_tree_from_obo_ontology fuel url root_id raw
                min_node_size h in
    Ok (Some r) in
  match ontology_short with
  | None => Ok None
  | Some o =>
      if String.eqb o "hpo" then
        build (Some "https://purl.obolibrary.org/obo/hp.obo")
              (Some "HP:0000118") None None
      else if String.eqb o "go_mf" || String.eqb o "go_cp"
              || String.eqb o "go_bp" then
        let* '(raw_terms, h0) :=
          parse_obo_file
            (Some "https://current.geneontology.org/ontology/go.obo") h in
        let* found :=
          root_term_id (values raw_terms) h0 (root_term_translation o)
            None in
        let* root_id := from_option KeyError found in
        let* r := build_tree_from_obo_ontology fuel None (Some root_id)
                    (Some raw_terms) (Some 2) h0 in
        Ok (Some r)
      else if String.eqb o "po" then
        build (Some "https://purl.obolibrary.org/obo/po.obo")
              (Some "PO:0009011") None (Some 5)
      else if String.eqb o "cl" then
        build (Some "https://purl.obolibrary.org/obo/cl/cl-basic.obo")
              None None (Some 2)
      else if String.eqb o "chebi" then
        build (Some "https://purl.obolibrary.org/obo/chebi/chebi_lite.obo")
              (Some "CHEBI:23367") None None
      else if String.eqb o "uberon" then
        build (Some "https://purl.obolibrary.org/obo/uberon/basic.obo")
              (Some "UBERON:0000061") None (Some 2)
      else if String.eqb o "doid" then
        build (Some "https://purl.obolibrary.org/obo/doid.obo")
              (Some "DOID:4") None None
      else if String.eqb o "custom_url" then
        let* s := from_option AttributeError app in
        build (custom_url s) (obo_root_id s) None (obo_min_node_size s)
      else Ok None
  end.
End Builder.

End Obo.

(** ** Strings

    A [str] is represented by the bytes of its UTF-8 encoding.  Every
    separator and pattern the module searches for is ASCII, and an ASCII
    byte never occurs inside the encoding of another character, so
    searching, splitting and replacing on bytes does what the code does
    on characters. *)

Module Str.

Definition chr (n : nat) : string := String (Ascii.ascii_of_nat n) "".

Definition quote : string := chr 34.
Definition tab : string := chr 9.
Definition newline : string := chr 10.

(* s.startswith(p) *)
Definition startswith (s p : string) : bool := String.prefix p s.

(** [s.replace(old, new)] for a non empty [old]: the occurrences of [old]
    are found from the left and do not overlap.  [skip] counts the
    characters of a found occurrence still to pass over. *)
Fixpoint replace_from (old new : string) (skip : nat) (s : string) : string :=
  match s with
  | EmptyString => EmptyString
  | String c s' =>
      match skip with
      | S k => replace_from old new k s'
      | O =>
          if String.prefix old s
          then String.append new
                 (replace_from old new (String.length old - 1) s')
          else String c (replace_from old new 0 s')
      end
  end.

Definition replace (s old new : string) : string := replace_from old new 0 s.

(** [s.split(sep)] for a non empty [sep].  The result of [split] is
    never empty: [split1] gives its first field and the other fields,
    which is what [first, *others = s.split(sep)] binds. *)
Fixpoint split1_from (sep : string) (skip : nat) (s : string)
    : string * list string :=
  match s with
  | EmptyString => (EmptyString, [])
  | String c s' =>
      match skip with
      | S k => split1_from sep k s'
      | O =>
          if String.prefix sep s
          then let '(field, fields) :=
                 split1_from sep (String.length sep - 1) s' in
               (EmptyString, field :: fields)
          else let '(field, fields) := split1_from sep 0 s' in
               (String c field, fields)
      end
  end.

Definition split1 (s sep : string) : string * list string :=
  split1_from sep 0 s.

Definition split (s sep : string) : list string :=
  let '(field, fields) := split1 s sep in field :: fields.

(* s.rstrip(c) and s.lstrip(c) for a single character c *)
Fixpoint rstrip (s : string) (c : Ascii.ascii) : string :=
  match s with
  | EmptyString => EmptyString
  | String x s' =>
      match rstrip s' c with
      | EmptyString => if Ascii.eqb x c then EmptyString else String x EmptyString
      | r => String x r
      end
  end.

Fixpoint lstrip (s : string) (c : Ascii.ascii) : string :=
  match s with
  | EmptyString => EmptyString
  | String x s' => if Ascii.eqb x c then lstrip s' c else s
  end.

(* sep.join(fields) *)
Fixpoint join (sep : string) (fields : list string) : string :=
  match fields with
  | [] => EmptyString
  | [field] => field
  | field :: fields' => String.append field (String.append sep (join sep fields'))
  end.

End Str.

(** ** [sanitize_string] *)

(** The character class of [illegal_chars_pattern]: the nine listed
    characters, the range from 0 to 31 and the newline. *)
Definition illegal_char (c : Ascii.ascii) : bool :=
  existsb (Ascii.eqb c)
    (Ascii.ascii_of_nat 34 :: String.list_ascii_of_string "<>:/\|?*")
  || (Ascii.nat_of_ascii c <=? 31)%nat
  || Ascii.eqb c (Ascii.ascii_of_nat 10).

(* re.sub(illegal_chars_pattern, '_', filename) *)
Fixpoint sanitize_string (filename : string) : string :=
  match filename with
  | EmptyString => EmptyString
  | String c s =>
      String (if illegal_char c then Ascii.ascii_of_nat 95 else c)
             (sanitize_string s)
  end.


(** ** Reading the tab separated file (lines 17 to 48)

    The file is given by its lines, as the iteration over the file
    object yields them.  The forest and the queue that reading builds
    are those of [Flat.read_id]. *)

Module FlatFile.

Section Reader.
(** [int(s)], [None] standing for [ValueError]. *)
Variable int : string -> option Z.

(* line_data[i] *)
Definition item (line_data : list string) (i : nat) : result string :=
  from_option IndexError (line_data !! i).

(** The body of [for node_id in node_ids]: the fields are read from
    [line_data] for every node id anew. *)
Definition read_node (node_ids line_data : list string) (st : Flat.state)
    (node_id : string) : result Flat.state :=
  let* parent := item line_data 0 in
  (* try: count = int(line_data[3]); except ValueError: pass *)
  let* c := item line_data 3 in
  let count := int c in
  let* label := item line_data 1 in
  let* description := item line_data 2 in
  let* color := item line_data 4 in
  Ok (Flat.read_id
        (Flat.Row node_ids parent label description count color)
        st node_id).

Fixpoint read_nodes (node_ids line_data : list string)
    (todo : list string) (st : Flat.state) : result Flat.state :=
  match todo with
  | [] => Ok st
  | node_id :: todo' =>
      let* st1 := read_node node_ids line_data st node_id in
      read_nodes node_ids line_data todo' st1
  end.

(* node_ids_unformatted, *line_data = line.rstrip("\n").split("\t") *)
Definition read_line (st : Flat.state) (line : string)
    : result Flat.state :=
  let '(node_ids_unformatted, line_data) :=
    Str.split1 (Str.rstrip line (Ascii.ascii_of_nat 10)) Str.tab in
  let node_ids := Str.split node_ids_unformatted "|" in
  read_nodes node_ids line_data node_ids st.

Fixpoint read_lines (lines : list string) (st : Flat.state)
    : result Flat.state :=
  match lines with
  | [] => Ok st
  | line :: lines' =>
      let* st1 := read_line st line in
      read_lines lines' st1
  end.

(* if line_idx == 0: continue *)
Definition read_file (lines : list string) : result Flat.state :=
  read_lines (tail lines) (Flat.State [] [] [] []).

Definition build_non_separator_based_tree (fuel : nat)
    (lines : list string) : result (forest * Flat.store) :=
  let* st := read_file lines in
  let* st' := Flat.loop fuel st in
  Ok (Flat.trees st', Flat.heap st').
End Reader.

End FlatFile.

(** ** [parse_obo_file]: the text of an .obo file (lines 161 to 208)

    The download is input and output; the function is modelled from the
    text it has put together, [''.join(chunks)].

    [new_entity] is [None] until the first [Term] line; after that it is
    the dictionary made by the last [Term] line.  The store is the list
    of the dictionaries made so far, in the order of their making, the
    last one being [new_entity]: a term filed in [raw_terms] is kept by
    its address, its index in this list, and shares every later
    assignment to [new_entity] until the next [Term] line. *)

Module Parse.

Inductive error : Type :=
  | TypeError   (* a key of [new_entity] is used while it is [None] *)
  | ValueError. (* [text.index("")] finds no empty line *)

Inductive outcome (A : Type) : Type :=
  | Parsed (a : A)
  | Fails (e : error).
Arguments Parsed {A} a.
Arguments Fails {A} e.

Record term : Type := Term {
  id : option string;
  label : option string;
  namespace : option string;
  def : option string;
  comment : option string;
  is_obsolete : bool;
  xrefs : list string;
  is_a : list (list string);
  disjoint_from : list (list string);
  synonyms : list (list string)
}.

(* the dictionary of a [Term] line *)
Definition fresh : term :=
  Term None None None None None false [] [] [] [].

Definition set_id (v : string) (t : term) : term :=
  Term (Some v) (label t) (namespace t) (def t) (comment t) (is_obsolete t)
       (xrefs t) (is_a t) (disjoint_from t) (synonyms t).

Definition set_label (v : string) (t : term) : term :=
  Term (id t) (Some v) (namespace t) (def t) (comment t) (is_obsolete t)
       (xrefs t) (is_a t) (disjoint_from t) (synonyms t).

Definition set_namespace (v : string) (t : term) : term :=
  Term (id t) (label t) (Some v) (def t) (comment t) (is_obsolete t)
       (xrefs t) (is_a t) (disjoint_from t) (synonyms t).

Definition set_def (v : string) (t : term) : term :=
  Term (id t) (label t) (namespace t) (Some v) (comment t) (is_obsolete t)
       (xrefs t) (is_a t) (disjoint_from t) (synonyms t).

Definition set_comment (v : string) (t : term) : term :=
  Term (id t) (label t) (namespace t) (def t) (Some v) (is_obsolete t)
       (xrefs t) (is_a t) (disjoint_from t) (synonyms t).

Definition set_is_obsolete (v : bool) (t : term) : term :=
  Term (id t) (label t) (namespace t) (def t) (comment t) v
       (xrefs t) (is_a t) (disjoint_from t) (synonyms t).

Definition add_xref (v : string) (t : term) : term :=
  Term (id t) (label t) (namespace t) (def t) (comment t) (is_obsolete t)
       (xrefs t ++ [v]) (is_a t) (disjoint_from t) (synonyms t).

Definition add_is_a (v : list string) (t : term) : term :=
  Term (id t) (label t) (namespace t) (def t) (comment t) (is_obsolete t)
       (xrefs t) (is_a t ++ [v]) (disjoint_from t) (synonyms t).

Definition add_disjoint_from (v : list string) (t : term) : term :=
  Term (id t) (label t) (namespace t) (def t) (comment t) (is_obsolete t)
       (xrefs t) (is_a t) (disjoint_from t ++ [v]) (synonyms t).

Definition add_synonym (v : list string) (t : term) : term :=
  Term (id t) (label t) (namespace t) (def t) (comment t) (is_obsolete t)
       (xrefs t) (is_a t) (disjoint_from t) (synonyms t ++ [v]).

(** [raw_terms]: a key is the value of the ["id"] key of a term, a
    string or [None]. *)
Abbreviation terms := (list (option string * addr)) (only parsing).

(* raw_terms[k] = a *)
Fixpoint file (d : terms) (k : option string) (a : addr) : terms :=
  match d with
  | [] => [(k, a)]
  | (k', a') :: d' =>
      if bool_decide (k = k') then (k', a) :: d'
      else (k', a') :: file d' k a
  end.

Record state : Type := State {
  older : list term;
  new_entity : option term;
  raw_terms : terms
}.

(* the dictionaries made so far *)
Definition store (st : state) : list term :=
  older st ++ option_list (new_entity st).

(** The branches from [id: ] to [is_obsolete: true], in their order:
    what the line assigns to [new_entity], [None] when it is none of
    these lines. *)
Definition update (line : string) : option (term -> term) :=
  if Str.startswith line "id: " then
    Some (set_id (Str.replace line "id: " ""))
  else if Str.startswith line "name: " then
    Some (set_label (Str.replace line "name: " ""))
  else if Str.startswith line "def: " then
    Some (set_def
            (Str.split1
               (Str.replace line (String.append "def: " Str.quote) "")
               (String.append Str.quote " [")).1)
  else if Str.startswith line "comment: " then
    Some (set_comment (Str.replace line "comment: " ""))
  else if Str.startswith line "xref: " then
    Some (add_xref (Str.replace line "xref: " ""))
  else if Str.startswith line "is_a: " then
    Some (add_is_a (Str.split (Str.replace line "is_a: " "") " ! "))
  else if Str.startswith line "disjoint_from: " then
    Some (add_disjoint_from
            (Str.split (Str.replace line "disjoint_from: " "") " ! "))
  else if Str.startswith line "namespace: " then
    Some (set_namespace (Str.replace line "namespace: " ""))
  else if Str.startswith line "synonym: " then
    Some (add_synonym
            (Str.split
               (Str.lstrip (Str.replace line "synonym: " "")
                  (Ascii.ascii_of_nat 34))
               (String.append Str.quote " ")))
  else if String.eqb line "is_obsolete: true" then
    Some (set_is_obsolete true)
  else None.

(* new_entity[...] = ... and new_entity[...].append(...) *)
Definition assign (st : state) (g : term -> term) : outcome state :=
  match new_entity st with
  | Some t => Parsed (State (older st) (Some (g t)) (raw_terms st))
  | None => Fails TypeError
  end.

(** The body of [for line in text]. *)
Definition step (exclude_obsolete_terms : bool) (st : state)
    (line : string) : outcome state :=
  if String.eqb line "[Term]" then
    Parsed (State (store st) (Some fresh) (raw_terms st))
  else
    match update line with
    | Some g => assign st g
    | None =>
        if String.eqb line "" then
          match new_entity st with
          | None => Fails TypeError
          | Some t =>
              if exclude_obsolete_terms && is_obsolete t then Parsed st
              else Parsed (State (older st) (new_entity st)
                             (file (raw_terms st) (id t)
                                (length (older st))))
          end
        else Parsed st
    end.

Fixpoint parse_lines (exclude_obsolete_terms : bool) (text : list string)
    (st : state) : outcome state :=
  match text with
  | [] => Parsed st
  | line :: text' =>
      match step exclude_obsolete_terms st line with
      | Parsed st1 => parse_lines exclude_obsolete_terms text' st1
      | Fails e => Fails e
      end
  end.

(* text.index("") *)
Fixpoint index (text : list string) : option nat :=
  match text with
  | [] => None
  | line :: text' =>
      if String.eqb line "" then Some O else S <$> index text'
  end.

(** The function from the downloaded text on; the result is [raw_terms]
    with the store its addresses point into. *)
Definition parse_obo_file (text : string) (exclude_obsolete_terms : bool)
    : outcome (terms * list term) :=
  let text := Str.split text Str.newline in
  (* text = text[text.index("") + 1:] *)
  match index text with
  | None => Fails ValueError
  | Some i =>
      match parse_lines exclude_obsolete_terms (drop (S i) text)
              (State [] None []) with
      | Parsed st => Parsed (raw_terms st, store st)
      | Fails e => Fails e
      end
  end.

End Parse.
(** * Vocabulary of the statements *)

(** ** Graph mode *)

(** A dictionary of parsed terms as [parse_obo_file] builds it from
    [Term] stanzas: no key occurs twice, a key is the id of the term
    filed under it, and every [is_a] entry, the result of a [split], has
    a first element. *)
Definition wf_raw (raw_terms : dict addr) (h : Obo.store) : Prop :=
  NoDup (keys raw_terms) /\
  forall k a, (k, a) ∈ raw_terms ->
    exists t, h !! a = Some t /\ Obo.id t = k
              /\ Forall (fun e => e <> []) (Obo.is_a t).

(** *** The first level *)

(** What seeding does to a term: level 0 and an empty parent. *)
Definition mark_root (t : Obo.entity) : Obo.entity :=
  Obo.set_parent "" (Obo.set_level 0 t).

(* the objects at the addresses [nodes] rewritten by [g], one by one *)
Definition apply_at (g : Obo.entity -> Obo.entity) (nodes : list addr)
    (h : Obo.store) : Obo.store :=
  fold_left
    (fun h a => match h !! a with Some t => <[a := g t]> h | None => h end)
    nodes h.

Definition mark_all : list addr -> Obo.store -> Obo.store := apply_at mark_root.

(** [names_parent r t]: some [is_a] entry of [t] starts with [r]. *)
Definition names_parent (r : string) (t : Obo.entity) : bool :=
  existsb (fun e => match head e with
                    | Some x => String.eqb r x
                    | None => false
                    end) (Obo.is_a t).

Definition no_parent (t : Obo.entity) : bool :=
  match Obo.is_a t with [] => true | _ :: _ => false end.

(** The terms that start a tree: below an explicit root id, the terms
    naming it in [is_a]; without one, the terms with no [is_a] at all. *)
Definition starts_tree (root_id : option string) (h : Obo.store)
    (item : string * addr) : bool :=
  match h !! item.2 with
  | Some t =>
      match Obo.truthy root_id with
      | Some r => names_parent r t
      | None => no_parent t
      end
  | None => false
  end.

Definition tree_starts (root_id : option string) (h : Obo.store)
    (raw_terms : dict addr) : list (string * addr) :=
  filter (fun item => starts_tree root_id h item = true) raw_terms.

(** One tree per item, holding that item alone. *)
Definition seeds_of (items : list (string * addr)) : forest :=
  (fun item => (item.1, [item])) <$> items.

(* a run of seedings into the forest [f] *)
Definition plant (items : list (string * addr)) (f : forest) : forest :=
  fold_left (fun f item => dict_set f item.1 [item]) items f.

(* seeding leaves the [is_a] lists of the store as they are *)
Definition same_is_a (h h' : Obo.store) : Prop :=
  forall a, Obo.is_a <$> (h' !! a) = Obo.is_a <$> (h !! a).

(** *** Trees under construction *)

(** A node [k] of the tree [t] with root id [s]: the object is in the
    store, filed under its own id, with a level and a parent; it is the
    seed of the tree, or it lies one level below its parent, which is a
    node of the same tree. *)
Definition node_ok (h : Obo.store) (s : string) (t : tree) (k : string)
    (a : addr) : Prop :=
  exists n l p,
    h !! a = Some n /\ Obo.id n = k /\ Obo.level n = Some l
    /\ Obo.parent n = Some p
    /\ ((k = s /\ l = 0 /\ p = "")
        \/ (exists b m lm, dict_get t p = Some b /\ h !! b = Some m
                           /\ Obo.level m = Some lm /\ l = lm + 1)).

Definition tree_ok (raw_terms : dict addr) (h : Obo.store) (s : string)
    (t : tree) : Prop :=
  NoDup (keys t)
  /\ (forall k a, (k, a) ∈ t -> node_ok h s t k a)
  /\ (forall k, k ∈ keys t -> k ∈ keys raw_terms).

(* the node objects of a forest, tree after tree *)
Definition addrs (f : forest) : list addr :=
  concat ((fun st => values st.2) <$> f).

Definition forest_ok (raw_terms : dict addr) (h : Obo.store) (f : forest)
    : Prop :=
  NoDup (keys f)
  /\ (forall s t, (s, t) ∈ f -> tree_ok raw_terms h s t)
  /\ NoDup (addrs f)
  /\ Forall (fun a => (a < length h)%nat) (addrs f).

(** [closed raw h f]: the fixed point of the propagation.  A term with an
    [is_a] entry whose id is a node of a tree is a node of that tree. *)
Definition closed (raw_terms : dict addr) (h : Obo.store) (f : forest) : Prop :=
  forall s t k a n e x,
    (s, t) ∈ f -> (k, a) ∈ raw_terms -> h !! a = Some n ->
    e ∈ Obo.is_a n -> head e = Some x -> x ∈ keys t -> k ∈ keys t.

(* the number of nodes of a forest *)
Definition total (f : forest) : nat := length (addrs f).

(** *** Cleaning *)

(** A node of the tree [t] whose recorded parent id is not empty and is
    not a key of [t]. *)
Definition orphan (h : Obo.store) (t : tree) (item : string * addr) : bool :=
  match h !! item.2 with
  | Some n =>
      match Obo.parent n with
      | Some p => negb (String.eqb p "") && negb (dict_mem t p)
      | None => false
      end
  | None => false
  end.

(* every tree without its orphans *)
Definition drop_orphans (h : Obo.store) (f : forest) : forest :=
  (fun st => (st.1, filter (fun item => orphan h st.2 item = false) st.2)) <$> f.

(* the pairs (tree id, node id) of the orphans, tree after tree *)
Definition orphans (h : Obo.store) (f : forest) : list (string * string) :=
  concat ((fun st => (fun item => (st.1, item.1))
                       <$> filter (fun item => orphan h st.2 item = true) st.2)
            <$> f).

(** The nodes of the forest are objects of the store with a [parent] key. *)
Definition nodes_have_parent (h : Obo.store) (f : forest) : Prop :=
  forall s t k a, (s, t) ∈ f -> (k, a) ∈ t ->
    exists n p, h !! a = Some n /\ Obo.parent n = Some p.

(** A forest is a dictionary of dictionaries: no key occurs twice. *)
Definition wf_forest (f : forest) : Prop :=
  NoDup (keys f) /\ forall s t, (s, t) ∈ f -> NoDup (keys t).

(** Closure: the parent id of a node with a non empty parent id is a key
    of the node's own tree. *)
Definition parent_closed (h : Obo.store) (f : forest) : Prop :=
  forall s t k a n p, (s, t) ∈ f -> (k, a) ∈ t -> h !! a = Some n ->
    Obo.parent n = Some p -> p <> "" -> p ∈ keys t.

(** The forest after [i] turns of the cleaning loop: every turn takes
    the orphans out of every tree. *)
Definition cleaned (h : Obo.store) (f : forest) (i : nat) : forest :=
  Nat.iter i (drop_orphans h) f.

(** A tree that is a dictionary of objects with a [parent] key. *)
Definition tree_sound (h : Obo.store) (t : tree) : Prop :=
  NoDup (keys t)
  /\ forall k a, (k, a) ∈ t ->
       exists n p, h !! a = Some n /\ Obo.parent n = Some p.

(** A forest that is a dictionary of such trees. *)
Definition forest_sound (h : Obo.store) (f : forest) : Prop :=
  NoDup (keys f) /\ Forall (fun st => tree_sound h st.2) f.

(* the objects of [h] are objects of [h'], and those with a [parent] key
   still have one *)
Definition parents_kept (h h' : Obo.store) : Prop :=
  forall a n p, h !! a = Some n -> Obo.parent n = Some p ->
    exists n' p', h' !! a = Some n' /\ Obo.parent n' = Some p'.

(** [sub_forest f' f]: the trees of [f'] are trees of [f] that lost nodes,
    under the same ids. *)
Definition sub_forest (f' f : forest) : Prop :=
  keys f' = keys f
  /\ forall s t', (s, t') ∈ f' -> exists t, (s, t) ∈ f /\ sublist t' t.

(** *** Counts, color, description; small trees *)

(** What lines 290 to 293 make of a node. *)
Definition annotated (t : Obo.entity) : Obo.entity :=
  Obo.set_description (Obo.describe t)
    (Obo.set_color "#FFFFFF"
       (Obo.set_counts (Float "0.000001337")
          (Obo.set_imported_counts (Float "1.000001337") t))).

(* a tree that [min_node_size] condemns *)
Definition small (min_node_size : Z) (st : string * tree) : bool :=
  Z.of_nat (length st.2) <? min_node_size.

(* the trees that pruning keeps *)
Definition kept (min_node_size : option Z) (f : forest) : forest :=
  match min_node_size with
  | Some T => filter (fun st => T <= Z.of_nat (length st.2)) f
  | None => f
  end.

(** The builder with the two last steps in the order of the
    specification: small trees are dropped first, the nodes of the trees
    that are left are annotated afterwards. *)
Definition build_tree_prune_first (fuel : nat) (root_id : option string)
    (raw_terms : dict addr) (min_node_size : option Z) (h : Obo.store)
    : result (forest * Obo.store) :=
  let* '(f0, h0) := Obo.build_first_level root_id raw_terms h in
  let* '(f1, h1) := Obo.propagate fuel raw_terms f0 h0 in
  let* f2 := Obo.clean fuel f1 h1 in
  let* f3 := Obo.prune min_node_size f2 in
  let* h2 := Obo.annotate (values f3) h1 in
  Ok (f3, h2).

(** *** The dispatcher *)

(** The identifiers [get_remote_ontology] knows. *)
Definition known_ontologies : list string :=
  ["hpo"; "go_mf"; "go_cp"; "go_bp"; "po"; "cl"; "chebi"; "uberon"; "doid";
   "custom_url"].

(** ** The level invariant *)

Definition level_invariant_obo (h : Obo.store) (f : forest) : Prop :=
  forall s t k a n p,
    (s, t) ∈ f -> (k, a) ∈ t -> h !! a = Some n -> Obo.parent n = Some p ->
    (p = "" -> Obo.level n = Some 0)
    /\ (p <> "" ->
        exists b m l, dict_get t p = Some b /\ h !! b = Some m
                      /\ Obo.id m = p /\ Obo.level m = Some l
                      /\ Obo.level n = Some (l + 1)).

Definition level_invariant_flat (h : Flat.store) (f : forest) : Prop :=
  forall s t k a n,
    (s, t) ∈ f -> (k, a) ∈ t -> h !! a = Some n ->
    (Flat.parent n = "" -> Flat.level n = 0)
    /\ (Flat.parent n <> "" ->
        exists b m, dict_get t (Flat.parent n) = Some b /\ h !! b = Some m
                    /\ Flat.id m = Flat.parent n
                    /\ Flat.level n = Flat.level m + 1).

(** ** Flat mode *)

(** The node ids of a file, in the order of the nodes. *)
Definition file_ids (rows : list Flat.row) : list string :=
  concat (Flat.r_ids <$> rows).

(* the node ids of a forest, tree after tree *)
Definition all_keys (f : forest) : list string :=
  concat ((fun st => keys st.2) <$> f).

(** Flat mode, trees under construction: ids are unique in the store and
    in the forest, a node is filed under its id, and levels follow the
    parents. *)
Definition flat_ok (h : Flat.store) (f : forest) : Prop :=
  NoDup (Flat.id <$> h)
  /\ NoDup (all_keys f)
  /\ (forall s t k a, (s, t) ∈ f -> (k, a) ∈ t ->
        exists n, h !! a = Some n /\ Flat.id n = k)
  /\ level_invariant_flat h f.

(* the queued nodes are objects of the store with a parent id *)
Definition queue_ok (h : Flat.store) (q : list (Z * addr)) : Prop :=
  forall c a, (c, a) ∈ q -> exists n, h !! a = Some n /\ Flat.parent n <> "".

(* the store [h'] is the store [h] with other levels *)
Definition relevelled (h h' : Flat.store) : Prop :=
  length h' = length h
  /\ forall a n, h !! a = Some n ->
       exists l, h' !! a = Some (Flat.set_level n l).

(** The state after reading some lines: [ids] are the node ids read so
    far; a root is alone in its tree, at level 0. *)
Definition read_ok (ids : list string) (st : Flat.state) : Prop :=
  Flat.id <$> Flat.heap st = ids
  /\ NoDup (keys (Flat.trees st))
  /\ (forall k, k ∈ keys (Flat.trees st) -> k ∈ ids)
  /\ (forall s t, (s, t) ∈ Flat.trees st ->
        exists a n, t = [(s, a)] /\ Flat.heap st !! a = Some n
                    /\ Flat.id n = s /\ Flat.parent n = ""
                    /\ Flat.level n = 0)
  /\ queue_ok (Flat.heap st) (Flat.to_process st).

(** ** Inputs of the examples *)

(* a data line with an empty description *)
Definition line (ids : list string) (parent label : string)
    (count : option Z) (color : string) : Flat.row :=
  Flat.Row ids parent label "" count color.

(** Scenario 2: a root, and a node whose parent id appears nowhere. *)
Definition rows_unresolved : list Flat.row :=
  [ line ["A"] "" "root" None "#112233";
    line ["D"] "X" "lost" None "#445566" ].

(** Scenario 1: a chain A, B, C given in the order C, A, B. *)
Definition rows_chain : list Flat.row :=
  [ line ["C"] "B" "c" None "#000000";
    line ["A"] "" "a" None "#000000";
    line ["B"] "A" "b" None "#000000" ].

(** A file with one root that carries a count and a color. *)
Definition rows_counted : list Flat.row :=
  [ line ["A"] "" "root" (Some 7) "#112233" ].

(** A node id on two lines: X below A and X below B; Y is read between
    them and put below the first X. *)
Definition rows_repeated_id : list Flat.row :=
  [ line ["A"] "" "a" None "#000000";
    line ["B"] "A" "b" None "#000000";
    line ["X"] "A" "x" None "#000000";
    line ["Y"] "X" "y" None "#000000";
    line ["X"] "B" "x" None "#000000" ].

(* what [parse_obo_file] does when there is nothing to download *)
Definition no_download (url : option string) (h : Obo.store)
    : result (dict addr * Obo.store) :=
  Raise HTTPError.

(** Two terms, the second a child of the first. *)
Definition store_root_child : Obo.store :=
  [ Obo.new_entity "R" []; Obo.new_entity "T1" [["R"; "the root"]] ].

Definition terms_root_child : dict addr := [("R", 0%nat); ("T1", 1%nat)].

(** Two roots and a term below both. *)
Definition store_two_parents : Obo.store :=
  [ Obo.new_entity "P" []; Obo.new_entity "Q" [];
    Obo.new_entity "T" [["P"; "p"]; ["Q"; "q"]] ].

Definition terms_two_parents : dict addr :=
  [("P", 0%nat); ("Q", 1%nat); ("T", 2%nat)].

(** Three root terms; the first has two children, the others none. *)
Definition store_three_roots : Obo.store :=
  [ Obo.new_entity "A" []; Obo.new_entity "B" []; Obo.new_entity "C" [];
    Obo.new_entity "A1" [["A"; "a"]]; Obo.new_entity "A2" [["A"; "a"]] ].

Definition terms_three_roots : dict addr :=
  [("A", 0%nat); ("B", 1%nat); ("C", 2%nat); ("A1", 3%nat); ("A2", 4%nat)].

(** A term whose id is the empty string, and a term below it. *)
Definition store_empty_id : Obo.store :=
  [ Obo.new_entity "" []; Obo.new_entity "X" [[""; "nameless"]] ].

Definition terms_empty_id : dict addr := [("", 0%nat); ("X", 1%nat)].
(** * Vocabulary of the further properties *)

(* the characters of a string *)
Definition chars (s : string) : list Ascii.ascii := String.list_ascii_of_string s.

(** A line of the flat file starts a tree: its parent field is empty. *)
Definition root_line (r : Flat.row) : Prop := Flat.r_parent r = "".

(** The three identifiers of the Gene Ontology. *)
Definition go_ontologies : list string := ["go_mf"; "go_cp"; "go_bp"].

(** [labelled_root name h a]: the object at [a] is a root term (no
    [is_a]) with the label [name]. *)
Definition labelled_root (name : string) (h : Obo.store) (a : addr) : Prop :=
  exists t, h !! a = Some t /\ Obo.is_a t = [] /\ Obo.label t = Some name.

(* a download that yields the two terms R and T1 *)
Definition download_root_child (url : option string) (h : Obo.store)
    : result (dict addr * Obo.store) :=
  Ok (terms_root_child, store_root_child).

(** ** Graph mode: what a tree holds *)

(** [is_a_edge raw h k p]: the term filed under [k] names [p] in its
    [is_a] list. *)
Definition is_a_edge (raw_terms : dict addr) (h : Obo.store)
    (k p : string) : Prop :=
  exists a t, (k, a) ∈ raw_terms /\ h !! a = Some t
              /\ names_parent p t = true.

(** The terms below [s]: [s] itself and every term that reaches [s]
    along [is_a] entries. *)
Inductive descends (raw_terms : dict addr) (h : Obo.store) (s : string)
    : string -> Prop :=
  | descends_seed : descends raw_terms h s s
  | descends_step k p :
      descends raw_terms h s p -> is_a_edge raw_terms h k p ->
      descends raw_terms h s k.

(** The history of a tree under propagation, [n0] being the number of
    objects when the propagation starts.  The first node is the seed,
    filed under the id of the tree.  Every later node is kept in an
    object made during the propagation: a copy of its term with a level
    and a parent, the parent being an id the term names in [is_a] and a
    node that comes earlier in the tree. *)
Definition grown (raw_terms : dict addr) (n0 : nat) (h : Obo.store)
    (s : string) (t : tree) : Prop :=
  (exists a, t !! 0%nat = Some (s, a) /\ (s, a) ∈ raw_terms)
  /\ forall i k a, t !! S i = Some (k, a) ->
       (n0 <= a)%nat
       /\ exists val copied e p l,
            (k, val) ∈ raw_terms /\ h !! val = Some copied
            /\ e ∈ Obo.is_a copied /\ head e = Some p
            /\ p ∈ keys (take (S i) t)
            /\ h !! a = Some (Obo.set_parent p (Obo.set_level l copied)).

(** The keys of a term that [parse_obo_file] fills: a node of a tree
    has them from its term. *)
Definition same_term (n t : Obo.entity) : Prop :=
  Obo.id n = Obo.id t /\ Obo.label n = Obo.label t
  /\ Obo.namespace n = Obo.namespace t /\ Obo.def n = Obo.def t
  /\ Obo.comment n = Obo.comment t
  /\ Obo.is_obsolete n = Obo.is_obsolete t /\ Obo.xrefs n = Obo.xrefs t
  /\ Obo.is_a n = Obo.is_a t
  /\ Obo.disjoint_from n = Obo.disjoint_from t
  /\ Obo.synonyms n = Obo.synonyms t.

(** ** Flat mode: the queue and the files that resolve *)

(** The indices recorded in a pass over the queue, given which entries
    were put into a tree: [marked idx flags] counts from [idx]. *)
Fixpoint marked (idx : nat) (flags : list bool) : list nat :=
  match flags with
  | [] => []
  | true :: flags' => idx :: marked (S idx) flags'
  | false :: flags' => marked (S idx) flags'
  end.

(* the entries that were not put into a tree *)
Fixpoint unmarked {A : Type} (l : list A) (flags : list bool) : list A :=
  match l, flags with
  | x :: l', true :: flags' => unmarked l' flags'
  | x :: l', false :: flags' => x :: unmarked l' flags'
  | _, _ => l
  end.

(** [below rows s i]: following parent ids from the node id [i] leads to
    [s], the id of a line without parent.  An empty parent field ends
    the way up, also when the empty string is the id of some node. *)
Inductive below (rows : list Flat.row) (s : string) : string -> Prop :=
  | below_root r :
      r ∈ rows -> Flat.r_parent r = "" -> s ∈ Flat.r_ids r ->
      below rows s s
  | below_child r i :
      r ∈ rows -> i ∈ Flat.r_ids r -> Flat.r_parent r <> "" ->
      below rows s (Flat.r_parent r) ->
      below rows s i.

Definition leads_to_root (rows : list Flat.row) (i : string) : Prop :=
  exists s, below rows s i.

(* the node objects of the queue *)
Definition queued (q : list (Z * addr)) : list addr := snd <$> q.

(** The state between two passes, for a file without a repeated id:
    every node is in a tree or in the queue, never both; the counters
    of the queue are 0; and a node of the tree [s] leads to [s]. *)
Definition flat_inv (rows : list Flat.row) (st : Flat.state) : Prop :=
  flat_ok (Flat.heap st) (Flat.trees st)
  /\ queue_ok (Flat.heap st) (Flat.to_process st)
  /\ Forall (fun e => e.1 = 0) (Flat.to_process st)
  /\ NoDup (queued (Flat.to_process st))
  /\ (forall a n, Flat.heap st !! a = Some n ->
        Flat.id n ∈ all_keys (Flat.trees st)
        <-> a ∉ queued (Flat.to_process st))
  /\ (forall s t k, (s, t) ∈ Flat.trees st -> k ∈ keys t -> below rows s k)
  /\ relevelled (Flat.heap (Flat.read_rows rows)) (Flat.heap st).

(* the nodes of the store are the nodes of the lines *)
Definition from_rows (rows : list Flat.row) (h : Flat.store) : Prop :=
  forall a n, h !! a = Some n ->
    exists r, r ∈ rows /\ Flat.id n ∈ Flat.r_ids r
              /\ Flat.parent n = Flat.r_parent r.

(* reading the file: a node is in the queue or it is a root *)
Definition read_part (st : Flat.state) : Prop :=
  NoDup (queued (Flat.to_process st))
  /\ Forall (fun a => (a < length (Flat.heap st))%nat)
       (queued (Flat.to_process st))
  /\ forall a n, Flat.heap st !! a = Some n ->
       Flat.id n ∈ keys (Flat.trees st)
       <-> a ∉ queued (Flat.to_process st).

(* every tree starts with the node it is named after *)
Definition headed (f : forest) : Prop :=
  forall s t, (s, t) ∈ f -> exists a rest, t = (s, a) :: rest.

(** ** Flat mode: the lines of the file *)

Definition tab_char : Ascii.ascii := Ascii.ascii_of_nat 9.
Definition newline_char : Ascii.ascii := Ascii.ascii_of_nat 10.
Definition bar_char : Ascii.ascii := Ascii.ascii_of_nat 124.

(** The tab separated fields of a line. *)
Definition fields (line : string) : list string :=
  Str.split (Str.rstrip line newline_char) Str.tab.

(* the field number [i], empty when the line is too short *)
Definition field (line : string) (i : nat) : string :=
  default "" (fields line !! i).

(** The data line that a line of at least six fields stands for. *)
Definition row_of (int : string -> option Z) (line : string) : Flat.row :=
  Flat.Row (Str.split (field line 0) "|") (field line 1) (field line 2)
           (field line 3) (int (field line 4)) (field line 5).

(* a field that can be written into a line as it is *)
Definition plain (f : string) : Prop :=
  (tab_char ∉ chars f) /\ (newline_char ∉ chars f).

(* a reading of numbers for the examples: every count is 7 *)
Definition int_seven (s : string) : option Z := Some 7.

(* the lines of the examples, joined by tabs and closed by a newline *)
Definition tsv (fs : list string) : string :=
  String.append (Str.join Str.tab fs) Str.newline.

(** A file with a header and the chain A, B, C given in the order C, A,
    B. *)
Definition file_chain : list string :=
  [ tsv ["id"; "parent"; "label"; "description"; "count"; "color"];
    tsv ["C"; "B"; "c"; ""; "1"; "#000000"];
    tsv ["A"; ""; "a"; ""; "1"; "#000000"];
    tsv ["B"; "A"; "b"; ""; "1"; "#000000"] ].

(** ** The parser *)

(** The text of a file given by its lines. *)
Definition text_of (lines : list string) : string :=
  Str.join Str.newline lines.

(* a line that can be written into a text as it is *)
Definition one_line (line : string) : Prop := newline_char ∉ chars line.

(** A line inside a stanza: not the line that starts one, not the empty
    line that ends one. *)
Definition body_line (line : string) : Prop :=
  line <> "[Term]" /\ line <> "".

(** The lines of a stanza: its first line, its body, the empty line. *)
Definition stanza (body : list string) : list string :=
  "[Term]" :: body ++ [""].

(** What the lines of a body make of the entity [t]. *)
Definition read_body (t : Parse.term) (body : list string) : Parse.term :=
  fold_left
    (fun t line => match Parse.update line with
                   | Some g => g t
                   | None => t
                   end)
    body t.

(* the term of a stanza *)
Definition term_of (body : list string) : Parse.term :=
  read_body Parse.fresh body.

(* a term that the empty line after it does not file *)
Definition skipped (exclude_obsolete_terms : bool) (t : Parse.term) : bool :=
  exclude_obsolete_terms && Parse.is_obsolete t.

(** The state after a stanza. *)
Definition after_stanza (exclude_obsolete_terms : bool) (st : Parse.state)
    (body : list string) : Parse.state :=
  let t := term_of body in
  Parse.State (Parse.store st) (Some t)
    (if skipped exclude_obsolete_terms t then Parse.raw_terms st
     else Parse.file (Parse.raw_terms st) (Parse.id t)
            (length (Parse.store st))).

Definition initial : Parse.state := Parse.State [] None [].

(** A parsed term as the builder takes it: a term without id is not
    one. *)
Definition to_entity (t : Parse.term) : option Obo.entity :=
  match Parse.id t with
  | Some i =>
      Some (Obo.Entity i (Parse.label t) (Parse.namespace t) (Parse.def t)
              (Parse.comment t) (Parse.is_obsolete t) (Parse.xrefs t)
              (Parse.is_a t) (Parse.disjoint_from t) (Parse.synonyms t)
              None None None None None None)
  | None => None
  end.

Definition to_store (h : list Parse.term) : option Obo.store :=
  mapM to_entity h.

Definition to_terms (d : list (option string * addr)) : option (dict addr) :=
  mapM (fun item => match item.1 with
                    | Some k => Some (k, item.2)
                    | None => None
                    end) d.

(** [last_filed ex bodies k a]: the stanza number [a] is the last one
    with the id [k] among the stanzas that are filed. *)
Definition last_filed (exclude_obsolete_terms : bool)
    (bodies : list (list string)) (k : option string) (a : nat) : Prop :=
  exists body,
    bodies !! a = Some body /\ Parse.id (term_of body) = k
    /\ skipped exclude_obsolete_terms (term_of body) = false
    /\ forall a' body',
         (a < a')%nat -> bodies !! a' = Some body' ->
         skipped exclude_obsolete_terms (term_of body') = false ->
         Parse.id (term_of body') <> k.

(* a line of a header: not empty, and one line *)
Definition header_line (line : string) : Prop :=
  line <> "" /\ one_line line.

(* a line of a stanza in a text *)
Definition stanza_line (line : string) : Prop :=
  body_line line /\ one_line line.

(** [occurs p s]: the text [p] is found somewhere in [s]. *)
Definition occurs (p s : string) : Prop :=
  exists a b, s = String.append a (String.append p b).

(* the stanzas of the examples *)
Definition body_root : list string := ["id: A:1"; "name: root"].
Definition body_child : list string :=
  ["id: A:2"; "name: child"; "is_a: A:1 ! root"].
Definition body_gone : list string :=
  ["id: A:3"; "name: gone"; "is_obsolete: true"].
Definition body_typedef : list string :=
  ["[Typedef]"; "id: part_of"; "name: part of"].

(* [occurs], computed *)
Fixpoint occursb (p s : string) : bool :=
  String.prefix p s
  || match s with
     | EmptyString => false
     | String _ s' => occursb p s'
     end.

(** ** Flat mode: a parent in two trees *)

(* every node of a tree is an object of the store *)
Definition tree_refs_ok (h : Flat.store) (f : forest) : Prop :=
  forall s t k b, (s, t) ∈ f -> (k, b) ∈ t -> is_Some (h !! b).

(** The trees that hold the node id [p]. *)
Definition holders (p : string) (f : forest) : forest :=
  filter (fun st => p ∈ keys st.2) f.

(** A node X with two parents, given on two lines, and a node below
    it. *)
Definition rows_two_parents : list Flat.row :=
  [ line ["A"] "" "a" None "#000000";
    line ["B"] "" "b" None "#000000";
    line ["X"] "A" "x" None "#000000";
    line ["X"] "B" "x" None "#000000";
    line ["Y"] "X" "y" None "#000000" ].

(** A node X with two parents, a node W, a node Y below X, and a node Z
    whose parent Q is no node of the file. *)
Definition rows_lost_node : list Flat.row :=
  [ line ["A"] "" "a" None "#000000";
    line ["B"] "" "b" None "#000000";
    line ["X"] "A" "x" None "#000000";
    line ["X"] "B" "x" None "#000000";
    line ["W"] "A" "w" None "#000000";
    line ["Y"] "X" "y" None "#000000";
    line ["Z"] "Q" "z" None "#000000" ].

(** ** Files with [Typedef] stanzas *)

(** [parsed_as text raw_terms h]: for the text, [parse_obo_file] returns
    the dictionary [raw_terms] over the objects [h]. *)
Definition parsed_as (text : string) (raw_terms : dict addr)
    (h : Obo.store) : Prop :=
  exists d s,
    Parse.parse_obo_file text true = Parse.Parsed (d, s)
    /\ to_terms d = Some raw_terms /\ to_store s = Some h.

(* a parsed term with an id, a name and [is_a] entries *)
Definition named_term (i name : string) (parents : list (list string))
    : Obo.entity :=
  Obo.Entity i (Some name) None None None false [] parents [] [] None None
             None None None None.

(** The terms A:1, B:1 (below A:1), A:3 (below A:2 and B:1) and A:2
    (below A:1), followed by a [Typedef] stanza. *)
Definition text_typedef : string :=
  text_of
    [ "format-version: 1.2"; "";
      "[Term]"; "id: A:1"; "name: root"; "";
      "[Term]"; "id: B:1"; "name: other child"; "is_a: A:1 ! root"; "";
      "[Term]"; "id: A:3"; "name: grandchild"; "is_a: A:2 ! child";
      "is_a: B:1 ! other child"; "";
      "[Term]"; "id: A:2"; "name: child"; "is_a: A:1 ! root"; "";
      "[Typedef]"; "id: part_of"; "name: part of"; "" ].

(** What the parser makes of it: the lines of the [Typedef] stanza are
    read into the term A:2, the last one made, and that object is filed
    once more, under its new id. *)
Definition store_typedef : Obo.store :=
  [ named_term "A:1" "root" [];
    named_term "B:1" "other child" [["A:1"; "root"]];
    named_term "A:3" "grandchild" [["A:2"; "child"]; ["B:1"; "other child"]];
    named_term "part_of" "part of" [["A:1"; "root"]] ].

Definition terms_typedef : dict addr :=
  [("A:1", 0%nat); ("B:1", 1%nat); ("A:3", 2%nat); ("A:2", 3%nat);
   ("part_of", 3%nat)].

(** One term, followed by two [Typedef] stanzas of which the second has
    an [is_a] line. *)
Definition text_two_typedefs : string :=
  text_of
    [ "format-version: 1.2"; "";
      "[Term]"; "id: A:1"; "name: root"; "";
      "[Typedef]"; "id: part_of"; "name: part of"; "";
      "[Typedef]"; "id: positively_regulates";
      "name: positively regulates"; "is_a: part_of ! part of"; "" ].

(* one object, filed under three ids *)
Definition store_two_typedefs : Obo.store :=
  [ named_term "positively_regulates" "positively regulates"
      [["part_of"; "part of"]] ].

Definition terms_two_typedefs : dict addr :=
  [("A:1", 0%nat); ("part_of", 0%nat); ("positively_regulates", 0%nat)].
(** * Properties *)

(** ** The result monad *)

Lemma bind_Ok {A B : Type} (m : result A) (k : A -> result B) (b : B) :
  bind m k = Ok b -> exists a, m = Ok a /\ k a = Ok b.
Proof. destruct m; simpl; intros H; try discriminate. eauto. Qed.

Lemma from_option_Ok {A : Type} (e : exn) (o : option A) (a : A) :
  from_option e o = Ok a -> o = Some a.
Proof. destruct o; simpl; congruence. Qed.

(* Take apart a hypothesis [bind m k = Ok b], repeatedly. *)
Ltac inv_bind H :=
  let x := fresh "x" in
  let Hx := fresh "Hx" in
  apply bind_Ok in H; destruct H as (x & Hx & H);
  try (apply from_option_Ok in Hx).

(** ** Dictionaries *)

Section DictFacts.
Context {V : Type}.
Implicit Types (d : dict V) (k : string) (v : V).

Lemma dict_get_set_eq d k v : dict_get (dict_set d k v) k = Some v.
Proof.
  induction d as [|[k' v'] d IH]; simpl.
  - by rewrite String.eqb_refl.
  - destruct (String.eqb k k') eqn:E; simpl; rewrite E; auto.
Qed.

Lemma dict_get_set_ne d k k' v :
  k <> k' -> dict_get (dict_set d k v) k' = dict_get d k'.
Proof.
  intros Hne. induction d as [|[k1 v1] d IH]; simpl.
  - destruct (String.eqb_spec k' k); congruence.
  - destruct (String.eqb_spec k k1) as [->|]; simpl.
    + destruct (String.eqb_spec k' k1); congruence.
    + by rewrite IH.
Qed.

Lemma dict_get_Some_elem d k v : dict_get d k = Some v -> (k, v) ∈ d.
Proof.
  induction d as [|[k' v'] d IH]; simpl; [discriminate|].
  destruct (String.eqb_spec k k') as [->|]; intros H.
  - injection H as ->. left.
  - right. auto.
Qed.

Lemma dict_get_None d k : dict_get d k = None <-> k ∉ keys d.
Proof.
  induction d as [|[k' v'] d IH]; simpl.
  - split; [intros _; apply not_elem_of_nil | done].
  - rewrite not_elem_of_cons.
    destruct (String.eqb_spec k k') as [->|]; split; try discriminate;
      intuition.
Qed.

Lemma dict_get_is_Some d k : is_Some (dict_get d k) <-> k ∈ keys d.
Proof.
  rewrite <- not_eq_None_Some, dict_get_None.
  destruct (decide (k ∈ keys d)); intuition.
Qed.

Lemma dict_mem_true d k : dict_mem d k = true <-> k ∈ keys d.
Proof.
  unfold dict_mem. rewrite <- dict_get_is_Some.
  destruct (dict_get d k); split; try discriminate; eauto.
  intros [? ?]. discriminate.
Qed.

Lemma dict_mem_false d k : dict_mem d k = false <-> k ∉ keys d.
Proof.
  rewrite <- dict_mem_true. destruct (dict_mem d k); intuition congruence.
Qed.

Lemma elem_keys d k v : (k, v) ∈ d -> k ∈ keys d.
Proof. intros H. unfold keys. apply list_elem_of_fmap. by exists (k, v). Qed.

Lemma elem_dict_get d k v : NoDup (keys d) -> (k, v) ∈ d -> dict_get d k = Some v.
Proof.
  induction d as [|[k' v'] d IH]; simpl; intros Hnd Hin.
  - by apply elem_of_nil in Hin.
  - apply NoDup_cons in Hnd as [Hk Hnd].
    apply elem_of_cons in Hin as [Heq|Hin].
    + injection Heq as <- <-. by rewrite String.eqb_refl.
    + destruct (String.eqb_spec k k') as [->|]; auto.
      exfalso. apply Hk. eapply elem_keys; eauto.
Qed.

Lemma keys_dict_set_mem d k v : k ∈ keys d -> keys (dict_set d k v) = keys d.
Proof.
  induction d as [|[k' v'] d IH]; simpl; intros H.
  - by apply elem_of_nil in H.
  - destruct (String.eqb_spec k k') as [->|]; simpl; [done|].
    apply elem_of_cons in H as [?|H]; [done|]. by rewrite IH.
Qed.

Lemma keys_dict_set_new d k v :
  k ∉ keys d -> keys (dict_set d k v) = keys d ++ [k].
Proof.
  induction d as [|[k' v'] d IH]; simpl; intros H; [done|].
  apply not_elem_of_cons in H as [Hne H].
  destruct (String.eqb_spec k k'); [done|]. simpl. by rewrite IH.
Qed.

Lemma dict_set_new d k v : k ∉ keys d -> dict_set d k v = d ++ [(k, v)].
Proof.
  induction d as [|[k' v'] d IH]; simpl; intros H; [done|].
  apply not_elem_of_cons in H as [Hne H].
  destruct (String.eqb_spec k k'); [done|]. simpl. by rewrite IH.
Qed.

Lemma NoDup_keys_dict_set d k v :
  NoDup (keys d) -> NoDup (keys (dict_set d k v)).
Proof.
  intros Hnd. destruct (decide (k ∈ keys d)) as [Hin|Hin].
  - by rewrite keys_dict_set_mem.
  - rewrite keys_dict_set_new by done.
    apply NoDup_app. split; [done|]. split.
    + intros x Hx Hx'. apply list_elem_of_singleton in Hx'. by subst.
    + apply NoDup_singleton.
Qed.

End DictFacts.

(** ** Flat mode: the queue and its attempt counters *)

Section FlatQueue.
Import Flat.

Lemma del_index_elem {A : Type} (l l' : list A) (i : nat) (x : A) :
  del_index l i = Ok l' -> x ∈ l' -> x ∈ l.
Proof.
  revert i l'. induction l as [|y l IH]; intros [|i] l' H Hx; simpl in H;
    try discriminate.
  - injection H as ->. by right.
  - inv_bind H. injection H as <-.
    apply elem_of_cons in Hx as [->|Hx]; [left | right; eauto].
Qed.

Lemma del_indices_elem {A : Type} (idxs : list nat) (l l' : list A) (x : A) :
  del_indices l idxs = Ok l' -> x ∈ l' -> x ∈ l.
Proof.
  revert l. induction idxs as [|i idxs IH]; intros l H Hx; simpl in H.
  - by injection H as ->.
  - inv_bind H. eapply del_index_elem; eauto.
Qed.

(** A pass prints only for an entry whose counter is at the ceiling. *)
Lemma scan_queue_printed q : forall idx ps ps',
  Forall (fun e => e.1 < 20) q ->
  scan_queue idx q ps = Ok ps' -> p_printed ps' = p_printed ps.
Proof.
  induction q as [|[attempts a] q IH]; intros idx ps ps' Hq H; simpl in H.
  - by injection H as <-.
  - apply Forall_cons in Hq as [Ha Hq]. simpl in Ha.
    destruct (Z.leb_spec 20 attempts); [lia|].
    inv_bind H. destruct x as [[f h] d].
    apply IH in H; auto.
Qed.

Lemma pass_queue st st' e :
  pass st = Ok st' -> e ∈ to_process st' -> e ∈ to_process st.
Proof.
  unfold pass. intros H He. inv_bind H. inv_bind H. injection H as <-.
  simpl in He. eapply del_indices_elem; eauto.
Qed.

Lemma pass_printed st st' :
  Forall (fun e => e.1 < 20) (to_process st) ->
  pass st = Ok st' -> printed st' = printed st.
Proof.
  unfold pass. intros Hq H. inv_bind H. inv_bind H. injection H as <-.
  simpl. eapply scan_queue_printed in Hx; eauto.
Qed.

Lemma read_rows_queue_aux r ids : forall st,
  Forall (fun e => e.1 = 0) (to_process st) -> printed st = [] ->
  Forall (fun e => e.1 = 0) (to_process (fold_left (read_id r) ids st))
  /\ printed (fold_left (read_id r) ids st) = [].
Proof.
  induction ids as [|i ids IH]; intros st Hq Hp; simpl; [done|].
  apply IH; unfold read_id; destruct (String.eqb (r_parent r) ""); simpl;
    auto.
  apply Forall_app. split; [done|]. by apply Forall_singleton.
Qed.

Lemma read_rows_queue rows :
  Forall (fun e => e.1 = 0) (to_process (read_rows rows))
  /\ printed (read_rows rows) = [].
Proof.
  unfold read_rows.
  assert (forall st, Forall (fun e => e.1 = 0) (to_process st) ->
            printed st = [] ->
            Forall (fun e => e.1 = 0) (to_process (fold_left read_row rows st))
            /\ printed (fold_left read_row rows st) = []) as H.
  { induction rows as [|r rows IH]; intros st Hq Hp; simpl; [done|].
    destruct (read_rows_queue_aux r (r_ids r) st Hq Hp). by apply IH. }
  apply H; simpl; [apply Forall_nil|]; done.
Qed.
End FlatQueue.

(** ** Graph mode: the first level *)

Section FirstLevel.
Import Obo.

Lemma dict_set_set {V : Type} (d : dict V) k v v' :
  dict_set (dict_set d k v) k v' = dict_set d k v'.
Proof.
  induction d as [|[k1 v1] d IH]; simpl.
  - by rewrite String.eqb_refl.
  - destruct (String.eqb k k1) eqn:E; simpl; rewrite E; [done|].
    by rewrite IH.
Qed.

Lemma update_ok (h : store) a g t :
  h !! a = Some t -> update h a g = Ok (<[a := g t]> h).
Proof. unfold update. by intros ->. Qed.

Lemma mark_root_idem t : mark_root (mark_root t) = mark_root t.
Proof. by destruct t. Qed.

Lemma mark_root_is_a t : is_a (mark_root t) = is_a t.
Proof. done. Qed.

Lemma seed_ok k a f (h : store) t :
  h !! a = Some t ->
  seed k a f h = Ok (dict_set f k [(k, a)], <[a := mark_root t]> h).
Proof.
  intros Ha. unfold seed, node_ref.
  rewrite dict_get_set_eq. cbn [from_option bind].
  rewrite dict_set_set. rewrite dict_get_set_eq. cbn [from_option bind].
  simpl dict_set. simpl dict_get. rewrite String.eqb_refl.
  cbn [from_option bind].
  rewrite (update_ok _ _ _ _ Ha). cbn [bind].
  assert ((a < length h)%nat) as Hlt by (eapply lookup_lt_Some; eauto).
  erewrite update_ok by (by apply list_lookup_insert_eq).
  cbn [bind]. by rewrite list_insert_insert_eq.
Qed.

Lemma apply_at_cons g a nodes (h : store) t :
  h !! a = Some t ->
  apply_at g (a :: nodes) h = apply_at g nodes (<[a := g t]> h).
Proof. unfold apply_at. simpl. by intros ->. Qed.

Lemma apply_at_cons_None g a nodes (h : store) :
  h !! a = None -> apply_at g (a :: nodes) h = apply_at g nodes h.
Proof. unfold apply_at. simpl. by intros ->. Qed.

Lemma mark_all_cons a nodes (h : store) t :
  h !! a = Some t ->
  mark_all (a :: nodes) h = mark_all nodes (<[a := mark_root t]> h).
Proof. apply apply_at_cons. Qed.

Lemma seed_children_ok r k a is_as : forall f (h : store) t,
  h !! a = Some t -> Forall (fun e => e <> []) is_as ->
  seed_children r k a is_as f h =
    Ok (if existsb (fun e => match head e with
                             | Some x => String.eqb r x
                             | None => false
                             end) is_as
        then (dict_set f k [(k, a)], <[a := mark_root t]> h)
        else (f, h)).
Proof.
  induction is_as as [|e is_as IH]; intros f h t Ha Hne; simpl; [done|].
  apply Forall_cons in Hne as [He Hne].
  destruct e as [|x e]; [done|]. simpl.
  destruct (String.eqb r x) eqn:E; simpl.
  - rewrite (seed_ok _ _ _ _ _ Ha). cbn [bind].
    assert ((a < length h)%nat) as Hlt by (eapply lookup_lt_Some; eauto).
    erewrite IH; [|by apply list_lookup_insert_eq|done].
    rewrite dict_set_set, list_insert_insert_eq, mark_root_idem.
    by destruct (existsb _ is_as).
  - by apply IH.
Qed.

Lemma same_is_a_mark (h : store) a t :
  h !! a = Some t -> same_is_a h (<[a := mark_root t]> h).
Proof.
  intros Ha b. destruct (decide (a = b)) as [<-|Hne].
  - rewrite list_lookup_insert_eq by (eapply lookup_lt_Some; eauto).
    by rewrite Ha.
  - by rewrite list_lookup_insert_ne.
Qed.

Lemma starts_tree_same root (h h' : store) item :
  same_is_a h h' -> starts_tree root h' item = starts_tree root h item.
Proof.
  intros Hs. unfold starts_tree, names_parent, no_parent.
  specialize (Hs item.2).
  destruct (h' !! item.2) as [t'|], (h !! item.2) as [t|]; simpl in Hs;
    try discriminate; [|done].
  injection Hs as ->. done.
Qed.

Lemma filter_starts_tree_same root (h h' : store)
    (items : list (string * addr)) :
  same_is_a h h' ->
  filter (fun i => starts_tree root h' i = true) items
  = filter (fun i => starts_tree root h i = true) items.
Proof.
  intros Hs. apply list_filter_iff. intros i.
  by rewrite (starts_tree_same _ _ _ _ Hs).
Qed.

Lemma seed_below_ok r root items : forall f (h : store),
  truthy root = Some r ->
  (forall k a, (k, a) ∈ items ->
     exists t, h !! a = Some t /\ Forall (fun e => e <> []) (is_a t)) ->
  seed_below r items f h =
    Ok (plant (tree_starts root h items) f,
        mark_all (values (tree_starts root h items)) h).
Proof.
  intros f h Hr. revert f h.
  induction items as [|[k a] items IH]; intros f h Hwf; simpl; [done|].
  destruct (Hwf k a) as (t & Ha & Hne); [left|].
  rewrite Ha. cbn [from_option bind].
  rewrite (seed_children_ok _ _ _ _ _ _ _ Ha Hne).
  assert (starts_tree root h (k, a) = names_parent r t) as Hst.
  { unfold starts_tree. simpl. by rewrite Ha, Hr. }
  unfold tree_starts. rewrite filter_cons. unfold names_parent in Hst.
  destruct (existsb _ (is_a t)) eqn:E; cbn [bind].
  - rewrite decide_True by done.
    rewrite IH.
    + unfold tree_starts.
      rewrite (filter_starts_tree_same _ h) by (by apply same_is_a_mark).
      unfold values. rewrite fmap_cons. cbn [snd].
      by rewrite (mark_all_cons _ _ _ _ Ha).
    + intros k' a' Hin. destruct (Hwf k' a') as (t' & Ha' & Hne');
        [by right|].
      destruct (decide (a = a')) as [<-|Hd].
      * exists (mark_root t). split; [|by rewrite Ha in Ha'; injection Ha' as <-].
        apply list_lookup_insert_eq. eapply lookup_lt_Some; eauto.
      * exists t'. by rewrite list_lookup_insert_ne.
  - rewrite decide_False by (by rewrite Hst).
    apply IH. intros k' a' Hin. apply (Hwf k'). by right.
Qed.

Lemma root_terms_ok root (h : store) items :
  truthy root = None ->
  (forall k a, (k, a) ∈ items -> exists t, h !! a = Some t /\ id t = k) ->
  root_terms (values items) h = Ok (keys (tree_starts root h items)).
Proof.
  intros Hr. induction items as [|[k a] items IH]; intros Hwf; [done|].
  unfold values. rewrite fmap_cons. cbn [snd root_terms].
  destruct (Hwf k a) as (t & Ha & Hid); [left|].
  rewrite Ha. cbn [from_option bind].
  fold (values items). rewrite IH by (intros k' a' ?; apply Hwf; by right).
  cbn [bind]. unfold tree_starts. rewrite filter_cons.
  assert (starts_tree root h (k, a) = no_parent t) as Hst.
  { unfold starts_tree. simpl. by rewrite Ha, Hr. }
  unfold no_parent in Hst. destruct (is_a t).
  - rewrite decide_True by done. unfold keys. rewrite fmap_cons.
    by rewrite Hid.
  - rewrite decide_False by (by rewrite Hst). done.
Qed.

Lemma seed_roots_ok raw sel : forall f (h : store),
  (forall k a, (k, a) ∈ sel -> dict_get raw k = Some a /\ is_Some (h !! a)) ->
  seed_roots raw (keys sel) f h = Ok (plant sel f, mark_all (values sel) h).
Proof.
  induction sel as [|[k a] sel IH]; intros f h Hwf; [done|].
  unfold keys, values. rewrite !fmap_cons. cbn [fst snd seed_roots].
  destruct (Hwf k a) as (Hk & t & Ha); [left|].
  rewrite Hk. cbn [from_option bind].
  rewrite (seed_ok _ _ _ _ _ Ha). cbn [bind].
  fold (keys sel). rewrite IH.
  - by rewrite (mark_all_cons _ _ _ _ Ha).
  - intros k' a' Hin. destruct (Hwf k' a') as (Hk' & Hs); [by right|].
    split; [done|]. apply lookup_lt_is_Some. rewrite length_insert.
    by apply lookup_lt_is_Some.
Qed.

Lemma plant_seeds_of sel : forall f,
  NoDup (keys f ++ keys sel) -> plant sel f = f ++ seeds_of sel.
Proof.
  induction sel as [|[k a] sel IH]; intros f Hnd; simpl.
  - by rewrite app_nil_r.
  - unfold keys in Hnd. rewrite fmap_cons in Hnd. simpl in Hnd.
    assert (k ∉ keys f) as Hk.
    { apply NoDup_app in Hnd as (_ & Hd & _). intros Hin.
      apply (Hd _ Hin). left. }
    unfold plant in *. simpl. rewrite dict_set_new by done.
    rewrite IH.
    + by rewrite <- app_assoc.
    + unfold keys. rewrite fmap_app. simpl. rewrite <- app_assoc. done.
Qed.

Lemma apply_at_lookup g nodes : forall (h : store) a,
  (forall t, g (g t) = g t) ->
  apply_at g nodes h !! a
  = if decide (a ∈ nodes) then g <$> h !! a else h !! a.
Proof.
  induction nodes as [|b nodes IH]; intros h a Hg.
  - rewrite decide_False by apply not_elem_of_nil. done.
  - destruct (h !! b) as [t|] eqn:Hb.
    + rewrite (apply_at_cons _ _ _ _ _ Hb).
      rewrite IH by done. destruct (decide (a = b)) as [->|Hne].
      * rewrite list_lookup_insert_eq by (eapply lookup_lt_Some; eauto).
        rewrite Hb. rewrite (decide_True (P := b ∈ b :: nodes)) by left.
        simpl. rewrite Hg. by destruct (decide (b ∈ nodes)).
      * rewrite list_lookup_insert_ne by done.
        destruct (decide (a ∈ nodes)).
        -- rewrite decide_True by (by right). done.
        -- rewrite decide_False; [done|].
           rewrite not_elem_of_cons. done.
    + rewrite (apply_at_cons_None _ _ _ _ Hb).
      rewrite IH by done. destruct (decide (a = b)) as [->|Hne].
      * rewrite Hb. simpl. by repeat case_decide.
      * destruct (decide (a ∈ nodes)).
        -- rewrite decide_True by (by right). done.
        -- rewrite decide_False; [done|].
           rewrite not_elem_of_cons. done.
Qed.

Lemma length_apply_at g nodes : forall h : store,
  length (apply_at g nodes h) = length h.
Proof.
  induction nodes as [|b nodes IH]; intros h; [done|].
  destruct (h !! b) as [t|] eqn:Hb.
  - rewrite (apply_at_cons _ _ _ _ _ Hb), IH. apply length_insert.
  - by rewrite (apply_at_cons_None _ _ _ _ Hb), IH.
Qed.

Lemma mark_all_lookup nodes (h : store) a :
  mark_all nodes h !! a
  = if decide (a ∈ nodes) then mark_root <$> h !! a else h !! a.
Proof. apply apply_at_lookup, mark_root_idem. Qed.

Lemma length_mark_all nodes (h : store) :
  length (mark_all nodes h) = length h.
Proof. apply length_apply_at. Qed.

Lemma tree_starts_elem root (h : store) raw k a :
  (k, a) ∈ tree_starts root h raw -> (k, a) ∈ raw.
Proof. unfold tree_starts. rewrite list_elem_of_filter. tauto. Qed.

Lemma NoDup_keys_tree_starts root (h : store) raw :
  NoDup (keys raw) -> NoDup (keys (tree_starts root h raw)).
Proof.
  unfold tree_starts. induction raw as [|[k a] raw IH]; intros Hnd; [done|].
  unfold keys in Hnd. rewrite fmap_cons in Hnd.
  apply NoDup_cons in Hnd as [Hk Hnd]. rewrite filter_cons.
  case_decide; [|by apply IH].
  unfold keys. rewrite fmap_cons. apply NoDup_cons. split; [|by apply IH].
  intros Hin. apply Hk. simpl in *.
  apply list_elem_of_fmap in Hin as ([k' a'] & Heq & Hin).
  apply list_elem_of_filter in Hin as [_ Hin]. simpl in Heq. subst k'.
  eapply elem_keys; eauto.
Qed.

Lemma build_first_level_ok root raw (h : store) :
  wf_raw raw h ->
  build_first_level root raw h
  = Ok (seeds_of (tree_starts root h raw),
        mark_all (values (tree_starts root h raw)) h).
Proof.
  intros [Hnd Hwf]. unfold build_first_level.
  change (seeds_of (tree_starts root h raw))
    with ([] ++ seeds_of (tree_starts root h raw)).
  rewrite <- (plant_seeds_of _ []) by (by apply NoDup_keys_tree_starts).
  destruct (truthy root) as [r|] eqn:Hr.
  - apply seed_below_ok; [done|].
    intros k a Hin. destruct (Hwf k a Hin) as (t & ? & ? & ?). eauto.
  - rewrite (root_terms_ok root) by
      (try done; intros k a Hin; destruct (Hwf k a Hin) as (t & ? & ? & ?);
       eauto).
    cbn [bind]. apply seed_roots_ok.
    intros k a Hin. apply tree_starts_elem in Hin. split.
    + by apply elem_dict_get.
    + destruct (Hwf k a Hin) as (t & -> & _). eauto.
Qed.
End FirstLevel.

(** ** Graph mode: propagation *)

Section Propagation.
Import Obo.

Lemma dict_get_app_l {V : Type} (d d' : dict V) k v :
  dict_get d k = Some v -> dict_get (d ++ d') k = Some v.
Proof.
  induction d as [|[k1 v1] d IH]; simpl; [discriminate|].
  destruct (String.eqb k k1); auto.
Qed.

Lemma dict_get_app_new {V : Type} (d : dict V) k v :
  k ∉ keys d -> dict_get (d ++ [(k, v)]) k = Some v.
Proof.
  induction d as [|[k1 v1] d IH]; simpl; intros H.
  - by rewrite String.eqb_refl.
  - apply not_elem_of_cons in H as [Hne H].
    destruct (String.eqb_spec k k1); [done|]. auto.
Qed.

Lemma insert_last {A : Type} (l : list A) (x y : A) :
  <[length l := y]> (l ++ [x]) = l ++ [y].
Proof.
  replace (length l) with (length l + 0)%nat by lia.
  by rewrite insert_app_r.
Qed.

Lemma lookup_last {A : Type} (l : list A) (x : A) :
  (l ++ [x]) !! length l = Some x.
Proof.
  rewrite lookup_app_r by lia. by rewrite Nat.sub_diag.
Qed.

(** The object put into the tree by [insert_term]. *)
Lemma insert_term_ok term copied x (sub : tree) (h : store) b p l :
  dict_get sub x = Some b -> term ∉ keys sub ->
  h !! b = Some p -> level p = Some l ->
  insert_term term copied x sub h
  = Ok (sub ++ [(term, length h)],
        h ++ [set_parent (id p) (set_level (l + 1) copied)]).
Proof.
  intros Hx Hterm Hb Hl. unfold insert_term.
  rewrite dict_set_new by done.
  rewrite (dict_get_app_l _ _ _ _ Hx). cbn [from_option bind].
  rewrite (lookup_app_l_Some _ _ _ _ Hb). cbn [from_option bind].
  rewrite Hl. cbn [from_option bind].
  rewrite (dict_get_app_new _ _ _ Hterm). cbn [from_option bind].
  rewrite (update_ok _ _ _ _ (lookup_last _ _)). cbn [bind].
  rewrite insert_last.
  assert ((b < length h)%nat) as Hlt by (eapply lookup_lt_Some; eauto).
  rewrite (lookup_app_l_Some _ _ _ _ Hb). cbn [from_option bind].
  rewrite (update_ok _ _ _ _ (lookup_last _ _)). cbn [bind].
  by rewrite insert_last.
Qed.

Lemma node_ok_grow (h : store) news s (t : tree) new k a :
  node_ok h s t k a -> node_ok (h ++ news) s (t ++ new) k a.
Proof.
  intros (n & l & p & Ha & Hid & Hl & Hp & Hcase).
  exists n, l, p. split; [by apply lookup_app_l_Some|].
  repeat split; auto.
  destruct Hcase as [?|(b & m & lm & Hb & Hm & Hlm & ->)]; [by left|].
  right. exists b, m, lm. split; [by apply dict_get_app_l|].
  split; [by apply lookup_app_l_Some|]. done.
Qed.

Lemma node_ok_store (h : store) news s (t : tree) k a :
  node_ok h s t k a -> node_ok (h ++ news) s t k a.
Proof.
  intros H. apply (node_ok_grow _ news _ _ [] _ _) in H.
  by rewrite app_nil_r in H.
Qed.

Lemma tree_ok_store raw (h : store) news s (t : tree) :
  tree_ok raw h s t -> tree_ok raw (h ++ news) s t.
Proof.
  intros (Hnd & Hn & Hk). split; [done|]. split; [|done].
  intros k a Hin. apply node_ok_store. auto.
Qed.

Lemma wf_raw_store raw (h : store) news :
  wf_raw raw h -> wf_raw raw (h ++ news).
Proof.
  intros [Hnd Hwf]. split; [done|]. intros k a Hin.
  destruct (Hwf k a Hin) as (t & Ha & ?). exists t.
  split; [by apply lookup_app_l_Some|done].
Qed.

Lemma tree_ok_insert raw (h : store) s (t : tree) term copied x b p l :
  tree_ok raw h s t ->
  dict_get t x = Some b -> term ∉ keys t -> term ∈ keys raw ->
  id copied = term -> h !! b = Some p -> level p = Some l ->
  tree_ok raw (h ++ [set_parent (id p) (set_level (l + 1) copied)]) s
          (t ++ [(term, length h)]).
Proof.
  intros (Hnd & Hn & Hk) Hx Hterm Hraw Hid Hb Hl. split; [|split].
  - unfold keys. rewrite fmap_app. apply NoDup_app. split; [done|].
    split; [|apply NoDup_singleton].
    intros y Hy Hy'. apply list_elem_of_singleton in Hy'. simpl in Hy'.
    by subst.
  - intros k a Hin. apply elem_of_app in Hin as [Hin|Hin].
    + apply node_ok_grow. auto.
    + apply list_elem_of_singleton in Hin. injection Hin as -> ->.
      exists (set_parent (id p) (set_level (l + 1) copied)), (l + 1), (id p).
      split; [apply lookup_last|]. repeat split; auto.
      right. exists b, p, l.
      destruct (Hn x b (dict_get_Some_elem _ _ _ Hx))
        as (n' & l' & p' & Hb' & Hid' & _).
      assert (n' = p) as -> by congruence. rewrite Hid'.
      split; [by apply dict_get_app_l|].
      split; [by apply lookup_app_l_Some|]. done.
  - intros k Hin. unfold keys in Hin. rewrite fmap_app in Hin.
    apply elem_of_app in Hin as [Hin|Hin]; [by apply Hk|].
    apply list_elem_of_singleton in Hin. simpl in Hin. by subst.
Qed.

(** One term against one tree: nothing changes, or the term is put at
    the end of the tree as a new object at the end of the store. *)
Lemma attach_spec raw s term copied is_as : forall (t : tree) (h : store) had,
  tree_ok raw h s t -> term ∈ keys raw -> id copied = term ->
  Forall (fun e => e <> []) is_as ->
  exists t' news had',
    attach term copied is_as t h had = Ok (t', h ++ news, had')
    /\ tree_ok raw (h ++ news) s t'
    /\ ((t' = t /\ news = [] /\ had' = had
         /\ forall e x, e ∈ is_as -> head e = Some x -> x ∈ keys t ->
                        term ∈ keys t)
        \/ (exists n, t' = t ++ [(term, length h)] /\ news = [n]
                      /\ had' = true)).
Proof.
  induction is_as as [|e is_as IH]; intros t h had Hok Hraw Hid Hne.
  - exists t, [], had. rewrite app_nil_r. split; [done|]. split; [done|].
    left. repeat split; auto. intros e x He. by apply elem_of_nil in He.
  - apply Forall_cons in Hne as [He Hne].
    destruct e as [|x e]; [done|]. cbn [attach first head from_option bind].
    destruct (dict_mem t x && negb (dict_mem t term)) eqn:Hc.
    + apply andb_true_iff in Hc as [Hx Hterm].
      apply negb_true_iff, dict_mem_false in Hterm.
      apply dict_mem_true, dict_get_is_Some in Hx as [b Hx].
      destruct Hok as (Hnd & Hn & Hk).
      destruct (Hn x b (dict_get_Some_elem _ _ _ Hx))
        as (p & l & pp & Hb & Hidp & Hl & _).
      rewrite (insert_term_ok _ _ _ _ _ _ _ _ Hx Hterm Hb Hl).
      cbn [bind].
      pose proof (tree_ok_insert raw h s t term copied x b p l
                    (conj Hnd (conj Hn Hk)) Hx Hterm Hraw Hid Hb Hl) as Hok'.
      destruct (IH _ _ true Hok' Hraw Hid Hne)
        as (t' & news & had' & Heq & Hok'' & Hcase).
      destruct Hcase as [(-> & -> & -> & _)|(n & -> & _ & _)].
      * eexists _, [_], true. split; [by rewrite app_nil_r in Heq|].
        split; [done|]. right. eauto.
      * (* a second insertion of the same term cannot happen *)
        exfalso. destruct Hok'' as (Hnd' & _).
        unfold keys in Hnd'. rewrite !fmap_app in Hnd'. simpl in Hnd'.
        rewrite <- app_assoc in Hnd'. apply NoDup_app in Hnd' as (_ & _ & Hnd').
        simpl in Hnd'. apply NoDup_cons in Hnd' as [Hnd' _].
        apply Hnd'. left.
    + destruct (IH t h had Hok Hraw Hid Hne)
        as (t' & news & had' & Heq & Hok' & Hcase).
      exists t', news, had'. split; [done|]. split; [done|].
      destruct Hcase as [(-> & -> & -> & Hcl)|?]; [left|by right].
      repeat split; auto. intros e' x' He' Hh Hx'.
      apply elem_of_cons in He' as [->|He']; [|eauto].
      simpl in Hh. injection Hh as <-.
      apply andb_false_iff in Hc as [Hc|Hc].
      * apply dict_mem_false in Hc. done.
      * apply negb_false_iff, dict_mem_true in Hc. done.
Qed.

(** All terms against one tree: the new nodes go to the end of the tree,
    their objects to the end of the store, in the same order. *)
Lemma scan_terms_spec raw s items : forall (t : tree) (h : store) had,
  wf_raw raw h -> tree_ok raw h s t ->
  (forall k a, (k, a) ∈ items -> (k, a) ∈ raw) ->
  exists new news had',
    scan_terms items t h had = Ok (t ++ new, h ++ news, had')
    /\ tree_ok raw (h ++ news) s (t ++ new)
    /\ values new = seq (length h) (length news)
    /\ match news with
       | [] => had' = had
               /\ forall k a n e x,
                    (k, a) ∈ items -> h !! a = Some n -> e ∈ is_a n ->
                    head e = Some x -> x ∈ keys t -> k ∈ keys t
       | _ :: _ => had' = true
       end.
Proof.
  induction items as [|[term val] items IH]; intros t h had Hwf Hok Hsub.
  - exists [], [], had. rewrite !app_nil_r.
    do 4 (split; [done|]).
    intros k a n e x Hin. by apply elem_of_nil in Hin.
  - cbn [scan_terms].
    assert ((term, val) ∈ raw) as Hraw by (apply Hsub; left).
    destruct Hwf as [Hnd Hwf].
    destruct (Hwf term val Hraw) as (copied & Hval & Hid & Hne).
    rewrite Hval. cbn [from_option bind].
    destruct (attach_spec raw s term copied (is_a copied) t h had Hok
                (elem_keys _ _ _ Hraw) Hid Hne)
      as (t' & news & had' & Heq & Hok' & Hcase).
    rewrite Heq. cbn [bind].
    assert (forall k a, (k, a) ∈ items -> (k, a) ∈ raw) as Hsub'
      by (intros; apply Hsub; by right).
    destruct Hcase as [(-> & -> & -> & Hcl)|(n & -> & -> & ->)].
    + rewrite app_nil_r in *.
      destruct (IH t h had (conj Hnd Hwf) Hok Hsub')
        as (new & news & had' & Heq' & Hok'' & Hv & Hm).
      exists new, news, had'. do 3 (split; [done|]).
      destruct news; [|done]. destruct Hm as [-> Hcl']. split; [done|].
      intros k a n e x Hin Ha He Hh Hx.
      apply elem_of_cons in Hin as [Hin|Hin]; [|eauto].
      injection Hin as -> ->. assert (n = copied) as -> by congruence.
      eauto.
    + destruct (IH _ _ true (wf_raw_store _ _ [n] (conj Hnd Hwf)) Hok' Hsub')
        as (new & news & had' & Heq' & Hok'' & Hv & Hm).
      exists ((term, length h) :: new), (n :: news), true.
      rewrite <- !app_assoc in Heq', Hok''. simpl in Heq', Hok''.
      assert (had' = true) as -> by (destruct news; tauto).
      do 2 (split; [done|]). split; [|done].
      unfold values in *. rewrite fmap_cons. simpl. rewrite Hv.
      rewrite length_app. simpl. f_equal. f_equal. lia.
Qed.

Lemma fresh_frame (l1 l2 : list nat) (n k : nat) :
  NoDup (l1 ++ l2) -> Forall (fun a => (a < n)%nat) (l1 ++ l2) ->
  NoDup ((l1 ++ seq n k) ++ l2)
  /\ Forall (fun a => (a < n + k)%nat) ((l1 ++ seq n k) ++ l2).
Proof.
  intros Hnd Hlt. apply NoDup_app in Hnd as (H1 & H12 & H2).
  apply Forall_app in Hlt as [Hl1 Hl2].
  rewrite Forall_forall in Hl1, Hl2. split.
  - apply NoDup_app. split; [|split; [|done]].
    + apply NoDup_app. split; [done|]. split; [|apply NoDup_seq].
      intros x Hx Hs. apply elem_of_seq in Hs. specialize (Hl1 x Hx). lia.
    + intros x Hx Hx2. apply elem_of_app in Hx as [Hx|Hs]; [by eapply H12|].
      apply elem_of_seq in Hs. specialize (Hl2 x Hx2). lia.
  - rewrite !Forall_app. repeat split; apply Forall_forall; intros x Hx.
    + specialize (Hl1 x Hx). lia.
    + apply elem_of_seq in Hx. lia.
    + specialize (Hl2 x Hx). lia.
Qed.

Lemma values_app {V : Type} (d d' : dict V) :
  values (d ++ d') = values d ++ values d'.
Proof. unfold values. apply fmap_app. Qed.

Lemma addrs_cons s (t : tree) (f : forest) :
  addrs ((s, t) :: f) = values t ++ addrs f.
Proof. done. Qed.

(** A pass over the forest. *)
Lemma scan_forest_spec raw : forall (f : forest) (h : store) had pre,
  wf_raw raw h ->
  (forall s t, (s, t) ∈ f -> tree_ok raw h s t) ->
  NoDup (pre ++ addrs f) ->
  Forall (fun a => (a < length h)%nat) (pre ++ addrs f) ->
  exists f' news had',
    scan_forest raw f h had = Ok (f', h ++ news, had')
    /\ keys f' = keys f
    /\ (forall s t, (s, t) ∈ f' -> tree_ok raw (h ++ news) s t)
    /\ NoDup (pre ++ addrs f')
    /\ Forall (fun a => (a < length (h ++ news))%nat) (pre ++ addrs f')
    /\ total f' = (total f + length news)%nat
    /\ match news with
       | [] => f' = f /\ had' = had /\ closed raw h f
       | _ :: _ => had' = true
       end.
Proof.
  induction f as [|[s t] f IH]; intros h had pre Hwf Hok Hnd Hlt.
  - exists [], [], had. change (addrs []) with (@nil nat) in *.
    rewrite !app_nil_r in *.
    do 8 (split; [done|]).
    intros s t k a n e x Hin. by apply elem_of_nil in Hin.
  - cbn [scan_forest].
    destruct (scan_terms_spec raw s raw t h had Hwf (Hok s t ltac:(left))
                ltac:(auto))
      as (new & news1 & had1 & Heq1 & Hok1 & Hv1 & Hm1).
    rewrite Heq1. cbn [bind].
    rewrite addrs_cons, app_assoc in Hnd, Hlt.
    destruct (fresh_frame _ _ _ (length news1) Hnd Hlt) as [Hnd1 Hlt1].
    rewrite <- Hv1 in Hnd1, Hlt1.
    rewrite <- (app_assoc pre), <- values_app in Hnd1, Hlt1.
    rewrite <- length_app in Hlt1.
    destruct (IH (h ++ news1) had1 (pre ++ values (t ++ new))
                (wf_raw_store _ _ _ Hwf)) as
      (f' & news2 & had2 & Heq2 & Hk2 & Hok2 & Hnd2 & Hlt2 & Htot & Hm2);
      auto.
    { intros s' t' Hin. apply tree_ok_store. apply Hok. by right. }
    rewrite Heq2. cbn [bind].
    exists ((s, t ++ new) :: f'), (news1 ++ news2), had2.
    rewrite !app_assoc. split; [done|].
    split; [unfold keys in *; rewrite !fmap_cons; by rewrite Hk2|].
    split.
    { intros s' t' Hin. apply elem_of_cons in Hin as [Hin|Hin]; [|auto].
      injection Hin as -> ->. by apply tree_ok_store. }
    rewrite addrs_cons, (app_assoc pre).
    split; [done|]. split; [done|]. split.
    { unfold total in *. rewrite !addrs_cons, !length_app, Htot.
      rewrite values_app, length_app, Hv1, length_seq. lia. }
    destruct news1 as [|n1 news1].
    + rewrite app_nil_r in *. destruct Hm1 as [-> Hcl1].
      assert (new = []) as ->.
      { destruct new; [done|]. discriminate. }
      rewrite app_nil_r in *. simpl.
      destruct news2; [|done]. destruct Hm2 as (-> & -> & Hcl2).
      do 2 (split; [done|]).
      intros s' t' k a n e x Hin Hr Hn He Hh Hx.
      apply elem_of_cons in Hin as [Hin|Hin].
      * injection Hin as -> ->. eauto.
      * eapply Hcl2; eauto.
    + simpl. simpl in Hm1. destruct news2; [|done].
      destruct Hm2 as (_ & -> & _). done.
Qed.

Lemma length_tree_le raw (h : store) s (t : tree) :
  tree_ok raw h s t -> (length t <= length raw)%nat.
Proof.
  intros (Hnd & _ & Hk).
  rewrite <- (length_fmap fst t), <- (length_fmap fst raw).
  apply submseteq_length, NoDup_submseteq; done.
Qed.

Lemma total_bound raw (h : store) (f : forest) :
  (forall s t, (s, t) ∈ f -> tree_ok raw h s t) ->
  (total f <= length f * length raw)%nat.
Proof.
  unfold total. induction f as [|[s t] f IH]; intros Hok; [done|].
  rewrite addrs_cons, length_app. unfold values. rewrite length_fmap.
  simpl. pose proof (length_tree_le raw h s t (Hok s t ltac:(left))).
  assert (length (addrs f) <= length f * length raw)%nat; [|lia].
  apply IH. intros s' t' Hin. apply Hok. by right.
Qed.

Lemma length_keys {V : Type} (d : dict V) : length (keys d) = length d.
Proof. apply length_fmap. Qed.

(** The loop of the propagation ends: every pass but the last one adds
    a node, and a forest of [length f] trees over [length raw_terms]
    terms has room for [length f * length raw_terms] nodes. *)
Lemma propagate_spec raw : forall fuel (f : forest) (h : store),
  wf_raw raw h -> forest_ok raw h f ->
  (length f * length raw - total f < fuel)%nat ->
  exists f' news,
    propagate fuel raw f h = Ok (f', h ++ news)
    /\ wf_raw raw (h ++ news) /\ forest_ok raw (h ++ news) f'
    /\ closed raw (h ++ news) f' /\ keys f' = keys f.
Proof.
  induction fuel as [|fuel IH]; intros f h Hwf Hfo Hfuel; [lia|].
  pose proof Hfo as (Hk & Hok & Hnd & Hlt).
  cbn [propagate].
  destruct (scan_forest_spec raw f h false [] Hwf Hok Hnd Hlt)
    as (f1 & news & had & Heq & Hk1 & Hok1 & Hnd1 & Hlt1 & Htot & Hm).
  rewrite Heq. cbn [bind]. simpl in Hnd1, Hlt1.
  destruct news as [|n news].
  - destruct Hm as (-> & -> & Hcl). exists f, []. rewrite app_nil_r in *.
    do 4 (split; [done|]). done.
  - rewrite Hm.
    assert (length f1 = length f) as Hlen
      by (rewrite <- !length_keys; by rewrite Hk1).
    pose proof (total_bound raw _ f1 Hok1) as Hb. simpl in Htot.
    destruct (IH f1 (h ++ n :: news)) as (f' & news' & Heq' & ? & ? & ? & ?).
    + by apply wf_raw_store.
    + split; [by rewrite Hk1|]. split; [done|]. split; done.
    + rewrite Hlen in *. lia.
    + exists f', ((n :: news) ++ news'). rewrite app_assoc.
      do 4 (split; [done|]). congruence.
Qed.

(** *** The first level is a forest in good order *)

Lemma NoDup_values_raw raw (h : store) : wf_raw raw h -> NoDup (values raw).
Proof.
  intros [Hnd Hwf]. apply NoDup_fmap_2_strong.
  - intros [k1 a1] [k2 a2] H1 H2 Heq. simpl in Heq. subst a2.
    destruct (Hwf _ _ H1) as (t1 & Ht1 & <- & _).
    destruct (Hwf _ _ H2) as (t2 & Ht2 & <- & _).
    congruence.
  - eapply NoDup_fmap_1. exact Hnd.
Qed.

Lemma wf_raw_mark_all raw nodes (h : store) :
  wf_raw raw h -> wf_raw raw (mark_all nodes h).
Proof.
  intros [Hnd Hwf]. split; [done|]. intros k a Hin.
  destruct (Hwf k a Hin) as (t & Ha & Hid & Hne).
  rewrite mark_all_lookup, Ha. case_decide; eauto.
Qed.

Lemma NoDup_values_filter {V : Type} (P : string * V -> Prop)
    `{forall x, Decision (P x)} (d : dict V) :
  NoDup (values d) -> NoDup (values (filter P d)).
Proof.
  unfold values. induction d as [|[k v] d IH]; intros Hnd; [done|].
  rewrite fmap_cons in Hnd. apply NoDup_cons in Hnd as [Hv Hnd].
  rewrite filter_cons. case_decide; [|by apply IH].
  rewrite fmap_cons. apply NoDup_cons. split; [|by apply IH].
  intros Hin. apply Hv.
  apply list_elem_of_fmap in Hin as (x & Heq & Hin).
  apply list_elem_of_filter in Hin as [_ Hin].
  apply list_elem_of_fmap. by exists x.
Qed.

Lemma keys_seeds_of items : keys (seeds_of items) = keys items.
Proof.
  induction items as [|[k a] items IH]; [done|].
  unfold keys, seeds_of in *. rewrite !fmap_cons. simpl. by rewrite IH.
Qed.

Lemma addrs_seeds_of items : addrs (seeds_of items) = values items.
Proof.
  induction items as [|[k a] items IH]; [done|].
  unfold seeds_of. rewrite fmap_cons. rewrite addrs_cons.
  fold (seeds_of items). rewrite IH. done.
Qed.

Lemma forest_ok_first_level root raw (h : store) :
  wf_raw raw h ->
  forest_ok raw (mark_all (values (tree_starts root h raw)) h)
            (seeds_of (tree_starts root h raw)).
Proof.
  intros Hwf. pose proof (NoDup_values_raw _ _ Hwf) as Hv.
  destruct Hwf as [Hnd Hwf].
  set (sel := tree_starts root h raw).
  pose proof (keys_seeds_of sel) as Hks.
  pose proof (addrs_seeds_of sel) as Has.
  split; [|split; [|split]].
  - rewrite Hks. by apply NoDup_keys_tree_starts.
  - intros s t Hin. unfold seeds_of in Hin.
    apply list_elem_of_fmap in Hin as ([k a] & Heq & Hin).
    simpl in Heq. injection Heq as -> ->.
    pose proof (tree_starts_elem _ _ _ _ _ Hin) as Hraw.
    destruct (Hwf k a Hraw) as (t & Ha & Hid & Hne).
    split; [|split].
    + unfold keys. simpl. apply NoDup_singleton.
    + intros k' a' Hin'. apply list_elem_of_singleton in Hin'.
      injection Hin' as -> ->.
      exists (mark_root t), 0, "". rewrite mark_all_lookup, Ha.
      rewrite decide_True by (apply list_elem_of_fmap; by exists (k, a)).
      repeat split; auto.
    + intros k' Hin'. unfold keys in Hin'. simpl in Hin'.
      apply list_elem_of_singleton in Hin'. subst k'.
      eapply elem_keys; eauto.
  - rewrite Has. by apply NoDup_values_filter.
  - rewrite Has. apply Forall_forall. intros a Hin.
    apply list_elem_of_fmap in Hin as ([k a'] & Heq & Hin). simpl in Heq.
    subst a'. apply tree_starts_elem in Hin.
    destruct (Hwf k a Hin) as (t & Ha & _).
    rewrite length_mark_all. eapply lookup_lt_Some; eauto.
Qed.
End Propagation.

(** ** Graph mode: cleaning *)

Section Cleaning.
Import Obo.

Lemma missing_in_tree_spec s (t : tree) (h : store) items : forall acc,
  (forall k a, (k, a) ∈ items -> exists n p, h !! a = Some n /\ parent n = Some p) ->
  missing_in_tree s t items h acc
  = Ok (acc ++ ((fun item => (s, item.1))
                  <$> filter (fun item => orphan h t item = true) items)).
Proof.
  induction items as [|[k a] items IH]; intros acc Hv; simpl.
  - by rewrite app_nil_r.
  - destruct (Hv k a) as (n & p & Ha & Hp); [left|].
    rewrite Ha. cbn [from_option bind]. rewrite Hp. cbn [from_option bind].
    assert (orphan h t (k, a)
            = negb (String.eqb p "") && negb (dict_mem t p)) as Ho.
    { unfold orphan. simpl. by rewrite Ha, Hp. }
    rewrite filter_cons.
    destruct (negb (String.eqb p "") && negb (dict_mem t p)).
    + rewrite decide_True by done.
      rewrite IH by (intros k' a' ?; apply (Hv k'); by right).
      rewrite fmap_cons. simpl. by rewrite <- app_assoc.
    + rewrite decide_False by (by rewrite Ho).
      apply IH. intros k' a' ?. apply (Hv k'). by right.
Qed.

Lemma missing_in_forest_spec (h : store) (f : forest) : forall acc,
  nodes_have_parent h f ->
  missing_in_forest f h acc = Ok (acc ++ orphans h f).
Proof.
  induction f as [|[s t] f IH]; intros acc Hv; simpl.
  - by rewrite app_nil_r.
  - rewrite missing_in_tree_spec
      by (intros k a Hin; apply (Hv s t k a); [left|done]).
    cbn [bind].
    rewrite IH by (intros s' t' k a Hin; apply (Hv s' t' k a); by right).
    unfold orphans. rewrite fmap_cons. simpl. by rewrite <- app_assoc.
Qed.

Lemma filter_all {A : Type} (P : A -> Prop) `{forall x, Decision (P x)}
    (l : list A) :
  Forall P l -> filter P l = l.
Proof.
  induction 1 as [|x l Hx Hl IH]; [done|].
  rewrite filter_cons, decide_True by done. by rewrite IH.
Qed.

Lemma filter_iff_elem {A : Type} (P Q : A -> Prop)
    `{forall x, Decision (P x)} `{forall x, Decision (Q x)} (l : list A) :
  (forall x, x ∈ l -> P x <-> Q x) -> filter P l = filter Q l.
Proof.
  induction l as [|x l IH]; intros Hpq; [done|].
  rewrite !filter_cons.
  rewrite IH by (intros y Hy; apply Hpq; by right).
  destruct (decide (P x)) as [Hp|Hp], (decide (Q x)) as [Hq|Hq]; try done;
    exfalso; apply (Hpq x ltac:(left)) in Hp || apply (Hpq x ltac:(left)) in Hq;
    done.
Qed.

Lemma NoDup_keys_filter {V : Type} (P : string * V -> Prop)
    `{forall x, Decision (P x)} (d : dict V) :
  NoDup (keys d) -> NoDup (keys (filter P d)).
Proof.
  unfold keys. induction d as [|[k v] d IH]; intros Hnd; [done|].
  rewrite fmap_cons in Hnd. apply NoDup_cons in Hnd as [Hv Hnd].
  rewrite filter_cons. case_decide; [|by apply IH].
  rewrite fmap_cons. apply NoDup_cons. split; [|by apply IH].
  intros Hin. apply Hv.
  apply list_elem_of_fmap in Hin as (x & Heq & Hin).
  apply list_elem_of_filter in Hin as [_ Hin].
  apply list_elem_of_fmap. by exists x.
Qed.

Lemma dict_del_ok {V : Type} (d : dict V) k :
  NoDup (keys d) -> k ∈ keys d ->
  dict_del d k = Ok (filter (fun item => item.1 <> k) d).
Proof.
  induction d as [|[k1 v1] d IH]; intros Hnd Hin.
  - by apply elem_of_nil in Hin.
  - unfold keys in Hnd, Hin. rewrite fmap_cons in Hnd, Hin. simpl in *.
    apply NoDup_cons in Hnd as [Hk Hnd]. rewrite filter_cons. simpl.
    destruct (String.eqb_spec k k1) as [->|Hne].
    + rewrite decide_False by tauto. f_equal.
      symmetry. apply filter_all. apply Forall_forall.
      intros [k2 v2] Hin2. simpl. intros ->. apply Hk.
      eapply elem_keys; eauto.
    + apply elem_of_cons in Hin as [?|Hin]; [done|].
      rewrite IH by done. cbn [bind]. rewrite decide_True by congruence.
      done.
Qed.

Lemma dict_get_middle {V : Type} (pre suf : dict V) s v :
  s ∉ keys pre -> dict_get (pre ++ (s, v) :: suf) s = Some v.
Proof.
  induction pre as [|[k1 v1] pre IH]; simpl; intros Hs.
  - by rewrite String.eqb_refl.
  - apply not_elem_of_cons in Hs as [Hne Hs].
    destruct (String.eqb_spec s k1); [done|]. auto.
Qed.

Lemma dict_set_middle {V : Type} (pre suf : dict V) s v v' :
  s ∉ keys pre ->
  dict_set (pre ++ (s, v) :: suf) s v' = pre ++ (s, v') :: suf.
Proof.
  induction pre as [|[k1 v1] pre IH]; simpl; intros Hs.
  - by rewrite String.eqb_refl.
  - apply not_elem_of_cons in Hs as [Hne Hs].
    destruct (String.eqb_spec s k1); [done|]. by rewrite IH.
Qed.

(* the deletions that concern one tree *)
Lemma delete_nodes_tree (pre suf : forest) (s : string) (ks : list string) :
  forall (t : tree) (rest : list (string * string)),
  s ∉ keys pre -> NoDup (keys t) -> NoDup ks ->
  (forall k, k ∈ ks -> k ∈ keys t) ->
  delete_nodes (pre ++ (s, t) :: suf) (((fun k => (s, k)) <$> ks) ++ rest)
  = delete_nodes
      (pre ++ (s, filter (fun item => item.1 ∉ ks) t) :: suf) rest.
Proof.
  induction ks as [|k ks IH]; intros t rest Hs Hnd Hks Hin.
  - simpl. rewrite filter_all; [done|].
    apply Forall_forall. intros x _. apply not_elem_of_nil.
  - rewrite fmap_cons. cbn [app delete_nodes].
    rewrite dict_get_middle by done. cbn [from_option bind].
    rewrite dict_del_ok by (try done; apply Hin; left). cbn [bind].
    rewrite dict_set_middle by done.
    apply NoDup_cons in Hks as [Hk Hks].
    rewrite IH; try done.
    + rewrite list_filter_filter. do 4 f_equal.
      apply list_filter_iff. intros [k' a']. simpl.
      rewrite not_elem_of_cons. tauto.
    + by apply NoDup_keys_filter.
    + intros k' Hk'. assert (k' ∈ keys t) as Hkt by (apply Hin; by right).
      apply list_elem_of_fmap in Hkt as ([k2 a2] & -> & Hin2).
      apply list_elem_of_fmap. exists (k2, a2). split; [done|].
      apply list_elem_of_filter. split; [|done]. simpl. intros ->. done.
Qed.

Lemma filter_not_in_keys {V : Type} (o : string * V -> bool) (d : dict V) :
  NoDup (keys d) ->
  filter (fun item => item.1 ∉ keys (filter (fun i => o i = true) d)) d
  = filter (fun item => o item = false) d.
Proof.
  intros Hnd. apply filter_iff_elem. intros [k a] Hin. simpl. split.
  - intros Hk. destruct (o (k, a)) eqn:E; [|done].
    exfalso. apply Hk. apply list_elem_of_fmap. exists (k, a).
    split; [done|]. by apply list_elem_of_filter.
  - intros Ho Hk. apply list_elem_of_fmap in Hk as ([k' a'] & Heq & Hk).
    simpl in Heq. subst k'. apply list_elem_of_filter in Hk as [Ho' Hin'].
    pose proof (elem_dict_get _ _ _ Hnd Hin) as H1.
    pose proof (elem_dict_get _ _ _ Hnd Hin') as H2.
    assert (a = a') as -> by congruence. congruence.
Qed.

Lemma orphan_keys (h : store) (t : tree) :
  NoDup (keys t) ->
  filter (fun item => item.1 ∉ keys (filter (fun i => orphan h t i = true) t)) t
  = filter (fun item => orphan h t item = false) t.
Proof. apply filter_not_in_keys. Qed.

Lemma delete_nodes_forest (h : store) : forall (suf pre : forest),
  NoDup (keys (pre ++ suf)) ->
  (forall s t, (s, t) ∈ suf -> NoDup (keys t)) ->
  delete_nodes (pre ++ suf) (orphans h suf)
  = Ok (pre ++ drop_orphans h suf).
Proof.
  induction suf as [|[s t] suf IH]; intros pre Hnd Ht; [done|].
  unfold orphans, drop_orphans. rewrite !fmap_cons. cbn [concat fst snd].
  fold (orphans h suf). fold (drop_orphans h suf).
  assert (s ∉ keys pre) as Hs.
  { unfold keys in *. rewrite fmap_app, fmap_cons in Hnd.
    apply NoDup_app in Hnd as (_ & Hd & _). intros Hin.
    apply (Hd _ Hin). left. }
  assert (NoDup (keys t)) as Hndt by (apply (Ht s); left).
  replace ((λ item : string * nat, (s, item.1))
             <$> filter (λ item, orphan h t item = true) t)
    with ((fun k => (s, k)) <$> keys (filter (λ item, orphan h t item = true) t))
    by (unfold keys; by rewrite <- list_fmap_compose).
  rewrite delete_nodes_tree; try done.
  - rewrite orphan_keys by done.
    rewrite (cons_middle _ pre), app_assoc. rewrite IH.
    + by rewrite <- app_assoc.
    + unfold keys in *. rewrite !fmap_app, !fmap_cons in *.
      simpl in *. by rewrite <- app_assoc.
    + intros s' t' Hin. apply (Ht s'). by right.
  - by apply NoDup_keys_filter.
  - intros k Hk. apply list_elem_of_fmap in Hk as (x & -> & Hx).
    apply list_elem_of_filter in Hx as [_ Hx].
    apply list_elem_of_fmap. by exists x.
Qed.

Lemma keys_drop_orphans (h : store) (f : forest) :
  keys (drop_orphans h f) = keys f.
Proof.
  unfold keys, drop_orphans. rewrite <- list_fmap_compose.
  by apply list_fmap_ext.
Qed.

Lemma elem_drop_orphans (h : store) (f : forest) s t' :
  (s, t') ∈ drop_orphans h f ->
  exists t, (s, t) ∈ f /\ t' = filter (fun item => orphan h t item = false) t.
Proof.
  unfold drop_orphans. intros Hin.
  apply list_elem_of_fmap in Hin as ([s0 t] & Heq & Hin).
  simpl in Heq. injection Heq as -> ->. eauto.
Qed.

Lemma wf_drop_orphans (h : store) (f : forest) :
  wf_forest f -> wf_forest (drop_orphans h f).
Proof.
  intros [Hk Ht]. split; [by rewrite keys_drop_orphans|].
  intros s t' Hin. apply elem_drop_orphans in Hin as (t & Hin & ->).
  apply NoDup_keys_filter. eauto.
Qed.

Lemma nodes_have_parent_drop (h : store) (f : forest) :
  nodes_have_parent h f -> nodes_have_parent h (drop_orphans h f).
Proof.
  intros Hv s t' k a Hin Hk.
  apply elem_drop_orphans in Hin as (t & Hin & ->).
  apply list_elem_of_filter in Hk as [_ Hk]. eauto.
Qed.

Lemma sub_forest_drop (h : store) (f : forest) :
  sub_forest (drop_orphans h f) f.
Proof.
  split; [apply keys_drop_orphans|]. intros s t' Hin.
  apply elem_drop_orphans in Hin as (t & Hin & ->).
  exists t. split; [done|]. apply sublist_filter.
Qed.

Lemma sub_forest_refl (f : forest) : sub_forest f f.
Proof. split; [done|]. intros s t Hin. exists t. split; [done|]. done. Qed.

Lemma sub_forest_trans (f1 f2 f3 : forest) :
  sub_forest f1 f2 -> sub_forest f2 f3 -> sub_forest f1 f3.
Proof.
  intros [Hk1 H1] [Hk2 H2]. split; [congruence|].
  intros s t1 Hin. destruct (H1 s t1 Hin) as (t2 & Hin2 & Hs1).
  destruct (H2 s t2 Hin2) as (t3 & Hin3 & Hs2).
  exists t3. split; [done|]. by etrans.
Qed.

Lemma length_filter_split {A : Type} (o : A -> bool) (l : list A) :
  (length (filter (fun x => o x = false) l)
   + length (filter (fun x => o x = true) l))%nat = length l.
Proof.
  induction l as [|x l IH]; [done|]. rewrite !filter_cons.
  destruct (o x) eqn:E.
  - rewrite decide_False by done. rewrite decide_True by done.
    simpl. lia.
  - rewrite decide_True by done. rewrite decide_False by done.
    simpl. lia.
Qed.

(** Every deletion takes a node away: the forest shrinks by the number
    of orphans found. *)
Lemma total_drop_orphans (h : store) (f : forest) :
  (total (drop_orphans h f) + length (orphans h f))%nat = total f.
Proof.
  unfold total. induction f as [|[s t] f IH]; [done|].
  unfold drop_orphans, orphans in *. rewrite !fmap_cons.
  rewrite !addrs_cons. cbn [concat fst snd].
  rewrite !length_app. unfold values. rewrite !length_fmap.
  pose proof (length_filter_split (orphan h t) t). lia.
Qed.

Lemma orphans_nil_closed (h : store) (f : forest) :
  orphans h f = [] -> parent_closed h f.
Proof.
  intros Ho s t k a n p Hin Hk Ha Hp Hne.
  assert (orphan h t (k, a) = false) as Hf.
  { induction f as [|[s0 t0] f IH]; [by apply elem_of_nil in Hin|].
    unfold orphans in Ho. rewrite fmap_cons in Ho. simpl in Ho.
    apply app_eq_nil in Ho as [Ho1 Ho2].
    apply elem_of_cons in Hin as [Hin|Hin]; [|by apply IH].
    injection Hin as <- <-. apply fmap_nil_inv in Ho1.
    destruct (orphan h t (k, a)) eqn:E; [|done].
    exfalso. eapply (filter_nil_not_elem_of _ _ (k, a)); eauto. }
  unfold orphan in Hf. simpl in Hf. rewrite Ha, Hp in Hf.
  apply andb_false_iff in Hf as [Hf|Hf].
  - apply negb_false_iff, String.eqb_eq in Hf. done.
  - by apply negb_false_iff, dict_mem_true in Hf.
Qed.

Lemma clean_step fuel (f : forest) (h : store) :
  wf_forest f -> nodes_have_parent h f ->
  clean (S fuel) f h
  = match orphans h f with
    | [] => Ok f
    | _ :: _ => clean fuel (drop_orphans h f) h
    end.
Proof.
  intros [Hk Ht] Hv. cbn [clean].
  rewrite (missing_in_forest_spec h f [] Hv). cbn [bind app].
  destruct (orphans h f) eqn:E; [done|]. rewrite <- E.
  pose proof (delete_nodes_forest h f [] Hk Ht) as Hd. simpl in Hd.
  rewrite Hd. done.
Qed.
End Cleaning.

(** ** Graph mode: annotation and pruning *)

Section Finishing.
Import Obo.

Lemma annotated_idem t : annotated (annotated t) = annotated t.
Proof. by destruct t. Qed.

Lemma annotate_node_ok (h : store) a t :
  h !! a = Some t -> annotate_node h a = Ok (<[a := annotated t]> h).
Proof.
  intros Ha. unfold annotate_node.
  assert ((a < length h)%nat) as Hlt by (eapply lookup_lt_Some; eauto).
  rewrite (update_ok _ _ _ _ Ha). cbn [bind].
  erewrite update_ok by (by apply list_lookup_insert_eq). cbn [bind].
  rewrite list_insert_insert_eq.
  erewrite update_ok by (by apply list_lookup_insert_eq). cbn [bind].
  rewrite list_insert_insert_eq.
  rewrite list_lookup_insert_eq by done. cbn [from_option bind].
  erewrite update_ok by (by apply list_lookup_insert_eq).
  by rewrite list_insert_insert_eq.
Qed.

Lemma annotate_node_Ok (h h' : store) a :
  annotate_node h a = Ok h' -> (a < length h)%nat.
Proof.
  unfold annotate_node, update. intros H. inv_bind H. inv_bind Hx.
  eapply lookup_lt_Some; eauto.
Qed.

Lemma apply_at_app g l1 l2 (h : store) :
  apply_at g (l1 ++ l2) h = apply_at g l2 (apply_at g l1 h).
Proof. unfold apply_at. apply fold_left_app. Qed.

Lemma annotate_tree_ok nodes : forall h : store,
  Forall (fun a => (a < length h)%nat) nodes ->
  annotate_tree nodes h = Ok (apply_at annotated nodes h).
Proof.
  induction nodes as [|a nodes IH]; intros h Hv; [done|].
  apply Forall_cons in Hv as [Ha Hv].
  apply lookup_lt_is_Some in Ha as [t Ha].
  cbn [annotate_tree]. rewrite (annotate_node_ok _ _ _ Ha). cbn [bind].
  rewrite (apply_at_cons _ _ _ _ _ Ha). apply IH.
  eapply Forall_impl; [exact Hv|]. intros b. simpl.
  by rewrite length_insert.
Qed.

Lemma annotate_tree_Ok nodes : forall h h' : store,
  annotate_tree nodes h = Ok h' ->
  Forall (fun a => (a < length h)%nat) nodes /\ length h' = length h.
Proof.
  induction nodes as [|a nodes IH]; intros h h' H; simpl in H.
  - injection H as <-. split; [constructor|done].
  - inv_bind H. pose proof (annotate_node_Ok _ _ _ Hx) as Ha.
    apply lookup_lt_is_Some in Ha as [t Ha].
    rewrite (annotate_node_ok _ _ _ Ha) in Hx. injection Hx as <-.
    apply IH in H as [Hv Hl]. rewrite length_insert in Hl.
    split; [|done]. apply Forall_cons. split.
    + eapply lookup_lt_Some; eauto.
    + eapply Forall_impl; [exact Hv|]. intros b. simpl.
      by rewrite length_insert.
Qed.

Lemma annotate_ok (sub_trees : list tree) : forall h : store,
  Forall (fun a => (a < length h)%nat) (concat (values <$> sub_trees)) ->
  annotate sub_trees h
  = Ok (apply_at annotated (concat (values <$> sub_trees)) h).
Proof.
  induction sub_trees as [|t sub_trees IH]; intros h Hv; [done|].
  rewrite fmap_cons in *. simpl concat in *.
  apply Forall_app in Hv as [Ht Hv].
  cbn [annotate]. rewrite (annotate_tree_ok _ _ Ht). cbn [bind].
  rewrite apply_at_app. apply IH.
  eapply Forall_impl; [exact Hv|]. intros b. simpl.
  by rewrite length_apply_at.
Qed.

Lemma annotate_Ok (sub_trees : list tree) : forall h h' : store,
  annotate sub_trees h = Ok h' ->
  Forall (fun a => (a < length h)%nat) (concat (values <$> sub_trees)).
Proof.
  induction sub_trees as [|t sub_trees IH]; intros h h' H; simpl in H.
  - constructor.
  - inv_bind H. apply annotate_tree_Ok in Hx as [Ht Hl].
    apply IH in H. rewrite fmap_cons. simpl. apply Forall_app.
    split; [done|]. eapply Forall_impl; [exact H|]. intros b. simpl.
    by rewrite Hl.
Qed.

Lemma addrs_values (f : forest) : addrs f = concat (values <$> values f).
Proof. unfold addrs, values. by rewrite <- list_fmap_compose. Qed.

Lemma elem_of_concat {A : Type} (x : A) (ls : list (list A)) :
  x ∈ concat ls <-> exists l, x ∈ l /\ l ∈ ls.
Proof.
  induction ls as [|l ls IH]; simpl.
  - split; [intros H; by apply elem_of_nil in H|].
    intros (l & _ & H). by apply elem_of_nil in H.
  - rewrite elem_of_app, IH. split.
    + intros [H|(l' & H & Hl')]; [exists l; split; [done|left]|].
      exists l'. split; [done|by right].
    + intros (l' & H & Hl'). apply elem_of_cons in Hl' as [->|Hl'];
        [by left|right; eauto].
Qed.

Lemma elem_addrs (f : forest) s (t : tree) k a :
  (s, t) ∈ f -> (k, a) ∈ t -> a ∈ addrs f.
Proof.
  intros Hin Hk. unfold addrs. apply elem_of_concat.
  exists (values t). split.
  - apply list_elem_of_fmap. by exists (k, a).
  - apply list_elem_of_fmap. by exists (s, t).
Qed.

Lemma annotate_forest_ok (f : forest) (h : store) :
  Forall (fun a => (a < length h)%nat) (addrs f) ->
  annotate (values f) h = Ok (apply_at annotated (addrs f) h).
Proof. rewrite addrs_values. apply annotate_ok. Qed.

Lemma annotate_forest_Ok (f : forest) (h h' : store) :
  annotate (values f) h = Ok h' ->
  Forall (fun a => (a < length h)%nat) (addrs f)
  /\ h' = apply_at annotated (addrs f) h.
Proof.
  intros H. pose proof (annotate_Ok _ _ _ H) as Hv.
  rewrite <- addrs_values in Hv. split; [done|].
  rewrite (annotate_forest_ok _ _ Hv) in H. by injection H.
Qed.

(** *** Pruning *)

Lemma sub_tree_ids_to_drop_spec (f : forest) m :
  sub_tree_ids_to_drop f m = keys (filter (fun st => small m st = true) f).
Proof.
  induction f as [|[s t] f IH]; [done|]. cbn [sub_tree_ids_to_drop].
  rewrite filter_cons.
  assert (small m (s, t) = (Z.of_nat (length t) <? m)) as Hs by done.
  destruct (Z.of_nat (length t) <? m).
  - rewrite decide_True by done. unfold keys. rewrite fmap_cons.
    simpl. by rewrite IH.
  - rewrite decide_False by (by rewrite Hs). done.
Qed.

Lemma drop_trees_ok (ks : list string) : forall f : forest,
  NoDup (keys f) -> NoDup ks -> (forall k, k ∈ ks -> k ∈ keys f) ->
  drop_trees f ks = Ok (filter (fun st => st.1 ∉ ks) f).
Proof.
  induction ks as [|k ks IH]; intros f Hnd Hks Hin.
  - simpl. rewrite filter_all; [done|].
    apply Forall_forall. intros x _. apply not_elem_of_nil.
  - cbn [drop_trees].
    rewrite dict_del_ok by (try done; apply Hin; left). cbn [bind].
    apply NoDup_cons in Hks as [Hk Hks].
    rewrite IH; try done.
    + rewrite list_filter_filter. f_equal.
      apply list_filter_iff. intros [k' a']. simpl.
      rewrite not_elem_of_cons. tauto.
    + by apply NoDup_keys_filter.
    + intros k' Hk'. assert (k' ∈ keys f) as Hkt by (apply Hin; by right).
      apply list_elem_of_fmap in Hkt as ([k2 a2] & -> & Hin2).
      apply list_elem_of_fmap. exists (k2, a2). split; [done|].
      apply list_elem_of_filter. split; [|done]. simpl. intros ->. done.
Qed.

Lemma prune_ok (f : forest) (m : Z) :
  NoDup (keys f) ->
  prune (Some m) f = Ok (filter (fun st => m <= Z.of_nat (length st.2)) f).
Proof.
  intros Hnd. unfold prune. destruct (Z.eqb_spec m 0) as [->|Hm].
  - rewrite filter_all; [done|]. apply Forall_forall. intros x _. lia.
  - rewrite sub_tree_ids_to_drop_spec. rewrite drop_trees_ok; try done.
    + rewrite filter_not_in_keys by done. f_equal.
      apply list_filter_iff. intros [s t]. unfold small. simpl.
      destruct (Z.ltb_spec (Z.of_nat (length t)) m); split; try done; lia.
    + by apply NoDup_keys_filter.
    + intros k Hk. apply list_elem_of_fmap in Hk as (x & -> & Hx).
      apply list_elem_of_filter in Hx as [_ Hx].
      apply list_elem_of_fmap. by exists x.
Qed.
End Finishing.

(** ** Graph mode: the whole builder *)

Section WholeBuilder.
Import Obo.

Lemma filter_none {A : Type} (P : A -> Prop) `{forall x, Decision (P x)}
    (l : list A) :
  Forall (fun x => ~ P x) l -> filter P l = [].
Proof.
  induction 1 as [|x l Hx Hl IH]; [done|].
  by rewrite filter_cons, decide_False.
Qed.

Lemma node_ok_not_orphan (h : store) s (t : tree) k a :
  node_ok h s t k a -> orphan h t (k, a) = false.
Proof.
  intros (n & l & p & Ha & _ & _ & Hp & Hcase).
  unfold orphan. simpl. rewrite Ha, Hp.
  destruct Hcase as [(_ & _ & ->)|(b & m & lm & Hb & _)]; [done|].
  unfold dict_mem. rewrite Hb. simpl. apply andb_false_r.
Qed.

Lemma forest_ok_no_orphans raw (h : store) (f : forest) :
  forest_ok raw h f -> orphans h f = [].
Proof.
  intros (_ & Hok & _). unfold orphans.
  induction f as [|[s t] f IH]; [done|].
  rewrite fmap_cons. simpl.
  rewrite IH by (intros s' t' ?; apply Hok; by right).
  rewrite app_nil_r.
  destruct (Hok s t ltac:(left)) as (_ & Hn & _).
  rewrite filter_none; [done|].
  apply Forall_forall. intros [k a] Hin.
  rewrite (node_ok_not_orphan _ _ _ _ _ (Hn k a Hin)). done.
Qed.

Lemma forest_ok_wf raw (h : store) (f : forest) :
  forest_ok raw h f -> wf_forest f /\ nodes_have_parent h f.
Proof.
  intros (Hk & Hok & _). split; [split; [done|]|].
  - intros s t Hin. by destruct (Hok s t Hin).
  - intros s t k a Hin Hka. destruct (Hok s t Hin) as (_ & Hn & _).
    destruct (Hn k a Hka) as (n & l & p & ? & _ & _ & ? & _). eauto.
Qed.

Lemma length_tree_starts root (h : store) raw :
  (length (tree_starts root h raw) <= length raw)%nat.
Proof. unfold tree_starts. apply length_filter. Qed.

Lemma prune_kept (f : forest) m :
  NoDup (keys f) -> prune m f = Ok (kept m f).
Proof. destruct m as [T|]; [apply prune_ok|done]. Qed.

(** With enough passes allowed the builder returns: the forest of the
    propagation, without its small trees, over the annotated store. *)
Lemma build_tree_spec fuel root raw m (h : store) :
  wf_raw raw h -> (1 <= fuel)%nat -> (length raw * length raw <= fuel)%nat ->
  exists f1 h1,
    build_tree fuel root raw m h
    = Ok (kept m f1, apply_at annotated (addrs f1) h1)
    /\ wf_raw raw h1 /\ forest_ok raw h1 f1 /\ closed raw h1 f1.
Proof.
  intros Hwf Hfuel1 Hfuel. unfold build_tree.
  rewrite (build_first_level_ok root raw h Hwf). cbn [bind].
  set (sel := tree_starts root h raw).
  pose proof (forest_ok_first_level root raw h Hwf) as Hfo. fold sel in Hfo.
  pose proof (wf_raw_mark_all raw (values sel) h Hwf) as Hwf0.
  destruct (propagate_spec raw fuel _ _ Hwf0 Hfo)
    as (f1 & news & Heq & Hwf1 & Hfo1 & Hcl & Hk).
  { unfold total. rewrite addrs_seeds_of. unfold seeds_of, values.
    rewrite !length_fmap.
    pose proof (length_tree_starts root h raw). fold sel in H. nia. }
  rewrite Heq. cbn [bind].
  destruct fuel as [|fuel']; [lia|].
  destruct (forest_ok_wf _ _ _ Hfo1) as [Hwff Hnp].
  rewrite clean_step by done.
  rewrite (forest_ok_no_orphans _ _ _ Hfo1). cbn [bind].
  pose proof Hfo1 as (Hkeys & _ & _ & Hlt).
  rewrite (annotate_forest_ok _ _ Hlt). cbn [bind].
  rewrite (prune_kept _ m Hkeys). cbn [bind].
  eauto 10.
Qed.
End WholeBuilder.

(** ** Flat mode: levels *)

Section FlatLevels.
Import Flat.

Lemma all_keys_app (f g : forest) : all_keys (f ++ g) = all_keys f ++ all_keys g.
Proof. unfold all_keys. by rewrite fmap_app, concat_app. Qed.

Lemma all_keys_cons s (t : tree) (f : forest) :
  all_keys ((s, t) :: f) = keys t ++ all_keys f.
Proof. done. Qed.

Lemma elem_all_keys (f : forest) s (t : tree) k :
  (s, t) ∈ f -> k ∈ keys t -> k ∈ all_keys f.
Proof.
  intros Hin Hk. unfold all_keys. apply elem_of_concat.
  exists (keys t). split; [done|]. apply list_elem_of_fmap. by exists (s, t).
Qed.

Lemma all_keys_elem (f : forest) k :
  k ∈ all_keys f -> exists s t, (s, t) ∈ f /\ k ∈ keys t.
Proof.
  unfold all_keys. intros Hk. apply elem_of_concat in Hk as (l & Hk & Hl).
  apply list_elem_of_fmap in Hl as ([s t] & -> & Hin). eauto.
Qed.

Lemma keys_elem {V : Type} (d : dict V) k :
  k ∈ keys d -> exists v, (k, v) ∈ d.
Proof.
  intros Hk. apply list_elem_of_fmap in Hk as ([k' v] & -> & Hin). eauto.
Qed.

(* a key of the tree in the middle is a key of no other tree *)
Lemma unique_tree (pre suf : forest) s (t : tree) s' (t' : tree) x :
  NoDup (all_keys (pre ++ (s, t) :: suf)) ->
  (s', t') ∈ pre ++ (s, t) :: suf -> x ∈ keys t' -> x ∈ keys t -> t' = t.
Proof.
  rewrite all_keys_app, all_keys_cons. intros Hnd Hin Hx' Hx.
  apply NoDup_app in Hnd as (_ & Hpre & Hnd).
  apply NoDup_app in Hnd as (_ & Hsuf & _).
  apply elem_of_app in Hin as [Hin|Hin].
  - exfalso. apply (Hpre x); [by eapply elem_all_keys|].
    apply elem_of_app. by left.
  - apply elem_of_cons in Hin as [Hin|Hin]; [by injection Hin|].
    exfalso. apply (Hsuf x Hx). by eapply elem_all_keys.
Qed.

Lemma NoDup_keys_middle (pre suf : forest) s (t : tree) :
  NoDup (all_keys (pre ++ (s, t) :: suf)) -> NoDup (keys t).
Proof.
  rewrite all_keys_app, all_keys_cons. intros Hnd.
  apply NoDup_app in Hnd as (_ & _ & Hnd). by apply NoDup_app in Hnd as (? & _).
Qed.

Lemma lookup_id_inj (h : store) a a' n n' :
  NoDup (id <$> h) -> h !! a = Some n -> h !! a' = Some n' ->
  id n = id n' -> a = a'.
Proof.
  intros Hnd Ha Ha' Hid.
  eapply NoDup_lookup; [exact Hnd| |].
  - rewrite list_lookup_fmap, Ha. done.
  - rewrite list_lookup_fmap, Ha'. simpl. by rewrite Hid.
Qed.

Lemma dict_set_id {V : Type} (d : dict V) k v :
  dict_get d k = Some v -> dict_set d k v = d.
Proof.
  induction d as [|[k1 v1] d IH]; simpl; [discriminate|].
  destruct (String.eqb_spec k k1) as [->|]; intros H.
  - by injection H as ->.
  - by rewrite IH.
Qed.

Lemma set_level_same n : set_level n (level n) = n.
Proof. by destruct n. Qed.

Lemma fmap_id_insert (h : store) a n l :
  h !! a = Some n -> id <$> <[a := set_level n l]> h = id <$> h.
Proof.
  intros Ha. rewrite list_fmap_insert. simpl.
  apply list_insert_id. rewrite list_lookup_fmap, Ha. done.
Qed.

(** Putting a queued node below its parent keeps the forest in order. *)
Lemma flat_insert_step (h : store) (pre suf : forest) s (t : tree) a n b pn :
  flat_ok h (pre ++ (s, t) :: suf) ->
  h !! a = Some n -> parent n <> "" ->
  dict_get t (parent n) = Some b -> h !! b = Some pn ->
  flat_ok (<[a := set_level n (level pn + 1)]> h)
          (pre ++ (s, dict_set t (id n) a) :: suf).
Proof.
  intros Hok Ha Hp Hb Hpn. pose proof Hok as (Hids & Hkeys & Hfiled & Hlev).
  assert ((s, t) ∈ pre ++ (s, t) :: suf) as Hst
    by (apply elem_of_app; right; left).
  assert ((parent n, b) ∈ t) as Hpb by (by apply dict_get_Some_elem).
  assert (id pn = parent n) as Hidp.
  { destruct (Hfiled s t _ _ Hst Hpb) as (m & Hm & Hid). congruence. }
  assert (a <> b) as Hab.
  { intros ->. assert (pn = n) as -> by congruence.
    destruct (Hlev s t _ _ _ Hst Hpb Ha) as [_ H2].
    destruct (H2 Hp) as (b2 & m & Hb2 & Hm & _ & Hl).
    rewrite Hb in Hb2. injection Hb2 as <-.
    rewrite Ha in Hm. injection Hm as <-. lia. }
  destruct (decide (id n ∈ all_keys (pre ++ (s, t) :: suf))) as [Hin|Hnew].
  - (* the node is in the forest already: nothing changes *)
    apply all_keys_elem in Hin as (s' & t' & Hst' & Hk').
    apply keys_elem in Hk' as (a' & Hka').
    destruct (Hfiled s' t' _ _ Hst' Hka') as (n' & Hn' & Hid').
    assert (a' = a) as -> by (eapply lookup_id_inj; eauto).
    destruct (Hlev s' t' _ _ _ Hst' Hka' Ha) as [_ H2].
    destruct (H2 Hp) as (b2 & m & Hb2 & Hm & _ & Hl).
    assert (t' = t) as ->.
    { eapply unique_tree; eauto; apply dict_get_is_Some; eauto. }
    rewrite Hb in Hb2. injection Hb2 as <-.
    rewrite Hpn in Hm. injection Hm as <-.
    rewrite <- Hl, set_level_same, list_insert_id by done.
    rewrite dict_set_id; [done|].
    apply elem_dict_get; [|done]. by eapply NoDup_keys_middle.
  - (* a new node of the tree *)
    assert (id n ∉ keys t) as Hkt.
    { intros Hk. apply Hnew. by eapply elem_all_keys. }
    rewrite dict_set_new by done.
    set (n1 := set_level n (level pn + 1)).
    assert (forall s' t' k' a', (s', t') ∈ pre ++ (s, t) :: suf ->
              (k', a') ∈ t' -> a' <> a) as Hfresh.
    { intros s' t' k' a' Hst' Hka' ->.
      destruct (Hfiled s' t' _ _ Hst' Hka') as (n' & Hn' & Hid').
      assert (n' = n) as -> by congruence.
      apply Hnew. rewrite Hid'. eapply elem_all_keys; eauto.
      eapply elem_keys; eauto. }
    assert (forall s' t', (s', t') ∈ pre ++ (s, t ++ [(id n, a)]) :: suf ->
              (s', t') ∈ pre ++ (s, t) :: suf
              \/ (s', t') = (s, t ++ [(id n, a)])) as Hcase.
    { intros s' t' Hin. rewrite elem_of_app, elem_of_cons in Hin.
      rewrite elem_of_app, elem_of_cons. tauto. }
    split; [|split; [|split]].
    + unfold n1. by rewrite (fmap_id_insert _ _ _ _ Ha).
    + rewrite all_keys_app, all_keys_cons in *.
      unfold keys at 1. rewrite fmap_app. simpl.
      rewrite <- app_assoc. simpl.
      rewrite <- Permutation_middle, <- Permutation_middle.
      apply NoDup_cons. split; done.
    + intros s' t' k' a' Hin Hka'.
      destruct (Hcase _ _ Hin) as [Hin'|Heq].
      * destruct (Hfiled _ _ _ _ Hin' Hka') as (n' & Hn' & Hid').
        exists n'. split; [|done].
        assert (a' <> a) as Hne' by (by eapply Hfresh).
        by rewrite list_lookup_insert_ne.
      * injection Heq as -> ->. apply elem_of_app in Hka' as [Hka'|Hka'].
        -- destruct (Hfiled _ _ _ _ Hst Hka') as (n' & Hn' & Hid').
           exists n'. split; [|done].
           assert (a' <> a) as Hne' by (by eapply Hfresh).
           by rewrite list_lookup_insert_ne.
        -- apply list_elem_of_singleton in Hka'. injection Hka' as -> ->.
           exists n1. split; [|done].
           apply list_lookup_insert_eq. eapply lookup_lt_Some; eauto.
    + intros s' t' k' a' n' Hin Hka' Hn'.
      assert (forall t0, (s', t0) ∈ pre ++ (s, t) :: suf -> (k', a') ∈ t0 ->
                (forall p b0, dict_get t0 p = Some b0 -> dict_get t' p = Some b0) ->
                (parent n' = "" -> level n' = 0)
                /\ (parent n' <> "" ->
                    exists b0 m, dict_get t' (parent n') = Some b0
                      /\ <[a:=n1]> h !! b0 = Some m
                      /\ id m = parent n' /\ level n' = level m + 1)) as Hold.
      { intros t0 Hin0 Hka0 Hsub.
        assert (a' <> a) as Hne' by (by eapply Hfresh).
        rewrite list_lookup_insert_ne in Hn' by done.
        destruct (Hlev _ _ _ _ _ Hin0 Hka0 Hn') as [H1 H2].
        split; [done|]. intros Hpar.
        destruct (H2 Hpar) as (b0 & m & Hb0 & Hm & Hidm & Hl).
        exists b0, m. split; [by apply Hsub|]. split; [|done].
        assert (b0 <> a) as Hne
          by (eapply (Hfresh _ _ _ _ Hin0); by apply dict_get_Some_elem).
        by rewrite list_lookup_insert_ne. }
      destruct (Hcase _ _ Hin) as [Hin'|Heq].
      * by apply (Hold t').
      * injection Heq as -> ->. apply elem_of_app in Hka' as [Hka'|Hka'].
        -- apply (Hold t); [done|done|].
           intros p b0. apply dict_get_app_l.
        -- apply list_elem_of_singleton in Hka'. injection Hka' as -> ->.
           rewrite list_lookup_insert_eq in Hn'
             by (eapply lookup_lt_Some; eauto).
           injection Hn' as <-. split; [done|]. intros _.
           exists b, pn. split; [by apply dict_get_app_l|].
           split; [by rewrite list_lookup_insert_ne|]. done.
Qed.

Lemma set_level_set_level n l l' :
  set_level (set_level n l) l' = set_level n l'.
Proof. done. Qed.

Lemma relevelled_refl (h : store) : relevelled h h.
Proof.
  split; [done|]. intros a n Ha. exists (level n).
  by rewrite set_level_same.
Qed.

Lemma relevelled_trans (h1 h2 h3 : store) :
  relevelled h1 h2 -> relevelled h2 h3 -> relevelled h1 h3.
Proof.
  intros [L12 H12] [L23 H23]. split; [congruence|].
  intros a n Ha. destruct (H12 a n Ha) as (l & Hl).
  destruct (H23 _ _ Hl) as (l' & Hl'). exists l'.
  by rewrite set_level_set_level in Hl'.
Qed.

Lemma relevelled_insert (h : store) a n l :
  h !! a = Some n -> relevelled h (<[a := set_level n l]> h).
Proof.
  intros Ha. split; [apply length_insert|].
  intros x m Hx. destruct (decide (a = x)) as [<-|Hne].
  - exists l. rewrite list_lookup_insert_eq
      by (eapply lookup_lt_Some; eauto). congruence.
  - exists (level m). rewrite list_lookup_insert_ne by done.
    by rewrite set_level_same.
Qed.

Lemma queue_ok_relevelled (h h' : store) q :
  relevelled h h' -> queue_ok h q -> queue_ok h' q.
Proof.
  intros [_ Hr] Hq c a Hin. destruct (Hq c a Hin) as (n & Ha & Hp).
  destruct (Hr a n Ha) as (l & Hl). eauto.
Qed.

(* a node of the later store is a node of the earlier one, relevelled *)
Lemma relevelled_back (h h' : store) a n' :
  relevelled h h' -> h' !! a = Some n' ->
  exists n, h !! a = Some n /\ n' = set_level n (level n').
Proof.
  intros [Hl Hr] Ha.
  assert (is_Some (h !! a)) as [n Hn].
  { apply lookup_lt_is_Some. rewrite <- Hl. eapply lookup_lt_Some; eauto. }
  destruct (Hr a n Hn) as (l & Hl'). exists n. split; [done|].
  assert (n' = set_level n l) as -> by congruence. done.
Qed.

Lemma scan_trees_ok a idx : forall (todo pre : forest) (h : store) drops
    todo' h' drops',
  flat_ok h (pre ++ todo) ->
  (forall n, h !! a = Some n -> parent n <> "") ->
  scan_trees a idx todo h drops = Ok (todo', h', drops') ->
  flat_ok h' (pre ++ todo') /\ relevelled h h'.
Proof.
  induction todo as [|[s t] todo IH];
    intros pre h drops todo' h' drops' Hok Hp H; cbn [scan_trees] in H.
  - injection H as <- <- <-. split; [done|apply relevelled_refl].
  - inv_bind H. rename x into n. rename Hx into Ha.
    destruct (dict_get t (parent n)) as [b|] eqn:Hb.
    + inv_bind H. rename x into pn. rename Hx into Hpn.
      inv_bind H. destruct x as [[f1 h2] d2]. injection H as <- <- <-.
      pose proof (flat_insert_step h pre todo s t a n b pn Hok Ha
                    (Hp n Ha) Hb Hpn) as Hok1.
      rewrite (cons_middle _ pre), app_assoc in Hok1.
      apply (IH (pre ++ [(s, dict_set t (id n) a)])) in Hx as [Hok2 Hr];
        [|done|].
      * rewrite <- app_assoc in Hok2. split; [done|].
        eapply relevelled_trans; [|exact Hr]. by apply relevelled_insert.
      * intros n' Hn'. rewrite list_lookup_insert_eq in Hn'
          by (eapply lookup_lt_Some; eauto).
        injection Hn' as <-. simpl. by apply Hp.
    + inv_bind H. destruct x as [[f1 h2] d2]. injection H as <- <- <-.
      rewrite (cons_middle _ pre), app_assoc in Hok.
      apply (IH (pre ++ [(s, t)])) in Hx as [Hok2 Hr]; [|done|done].
      rewrite <- app_assoc in Hok2. done.
Qed.

Lemma scan_queue_ok q : forall idx ps ps',
  flat_ok (p_heap ps) (p_trees ps) -> queue_ok (p_heap ps) q ->
  scan_queue idx q ps = Ok ps' ->
  flat_ok (p_heap ps') (p_trees ps')
  /\ relevelled (p_heap ps) (p_heap ps').
Proof.
  induction q as [|[attempts a] q IH]; intros idx ps ps' Hok Hq H;
    cbn [scan_queue] in H.
  - injection H as <-. split; [done|apply relevelled_refl].
  - assert (queue_ok (p_heap ps) q) as Hq'
      by (intros c a' Hin; apply (Hq c); by right).
    destruct (20 <=? attempts).
    + inv_bind H. apply IH in H; done.
    + inv_bind H. destruct x as [[f h] d].
      destruct (Hq attempts a ltac:(left)) as (n & Ha & Hp).
      apply (scan_trees_ok _ _ _ []) in Hx as [Hok1 Hr1]; [|done|].
      * apply IH in H as [Hok2 Hr2]; simpl; [|done|].
        -- split; [done|]. simpl in Hr2. by eapply relevelled_trans.
        -- by eapply queue_ok_relevelled.
      * intros n' Hn'. congruence.
Qed.

Lemma pass_ok st st' :
  flat_ok (heap st) (trees st) -> queue_ok (heap st) (to_process st) ->
  pass st = Ok st' ->
  flat_ok (heap st') (trees st') /\ queue_ok (heap st') (to_process st')
  /\ relevelled (heap st) (heap st').
Proof.
  intros Hok Hq H. pose proof (pass_queue st st') as Hsub.
  specialize (fun e => Hsub e H).
  unfold pass in H. inv_bind H. inv_bind H. injection H as <-. simpl in *.
  apply scan_queue_ok in Hx as [Hok' Hr]; [|done|done]. simpl in *.
  split; [done|]. split; [|done].
  intros c a Hin. apply Hsub in Hin.
  eapply queue_ok_relevelled; eauto.
Qed.

Lemma loop_ok fuel : forall st st',
  flat_ok (heap st) (trees st) -> queue_ok (heap st) (to_process st) ->
  loop fuel st = Ok st' ->
  flat_ok (heap st') (trees st') /\ relevelled (heap st) (heap st').
Proof.
  induction fuel as [|fuel IH]; intros st st' Hok Hq H; [discriminate|].
  cbn [loop] in H. inv_bind H.
  apply pass_ok in Hx as (Hok1 & Hq1 & Hr1); [|done|done].
  pose proof (IH x st' Hok1 Hq1) as Hgo.
  destruct (to_process x).
  - injection H as <-. done.
  - destruct (Hgo H) as [Hok2 Hr2].
    split; [done|]. by eapply relevelled_trans.
Qed.

(** *** Reading the file *)

Lemma read_id_ok r ids st i :
  read_ok ids st -> i ∉ ids -> read_ok (ids ++ [i]) (read_id r st i).
Proof.
  intros (Hids & Hnd & Hsub & Htrees & Hq) Hi. unfold read_id.
  assert (forall a n, heap st !! a = Some n ->
            (heap st ++ [make_node r i]) !! a = Some n) as Hold
    by (intros; by apply lookup_app_l_Some).
  assert (queue_ok (heap st ++ [make_node r i]) (to_process st)) as Hq'.
  { intros c a Hin. destruct (Hq c a Hin) as (n & Ha & Hp). eauto. }
  assert (forall s t, (s, t) ∈ trees st ->
            exists a n, t = [(s, a)]
              /\ (heap st ++ [make_node r i]) !! a = Some n
              /\ id n = s /\ parent n = "" /\ level n = 0) as Htrees'.
  { intros s t Hin. destruct (Htrees s t Hin) as (a & n & ? & ? & ?).
    exists a, n. eauto. }
  destruct (String.eqb_spec (r_parent r) "") as [Hroot|Hroot];
    unfold read_ok; cbn [heap trees to_process printed dict_set].
  - assert (i ∉ keys (trees st)) as Hik by (intros ?; apply Hi; auto).
    split; [by rewrite fmap_app, Hids|].
    split; [by apply NoDup_keys_dict_set|].
    rewrite dict_set_new by done.
    split; [|split; [|done]].
    + intros k Hk. unfold keys in Hk. rewrite fmap_app in Hk.
      apply elem_of_app in Hk as [Hk|Hk]; apply elem_of_app; auto.
    + intros s t Hin. apply elem_of_app in Hin as [Hin|Hin]; [auto|].
      apply list_elem_of_singleton in Hin. injection Hin as -> ->.
      exists (length (heap st)), (make_node r i).
      split; [done|]. split; [apply lookup_last|]. done.
  - split; [by rewrite fmap_app, Hids|]. split; [done|].
    split; [intros k Hk; apply elem_of_app; auto|]. split; [done|].
    intros c a Hin. apply elem_of_app in Hin as [Hin|Hin]; [eauto|].
    apply list_elem_of_singleton in Hin. injection Hin as -> ->.
    exists (make_node r i). split; [apply lookup_last|done].
Qed.

Lemma read_row_ok r : forall new ids st,
  read_ok ids st -> NoDup (ids ++ new) ->
  read_ok (ids ++ new) (fold_left (read_id r) new st).
Proof.
  induction new as [|i new IH]; intros ids st Hok Hnd; simpl.
  - by rewrite app_nil_r.
  - rewrite (cons_middle i ids new), app_assoc in *. apply IH; [|done].
    apply read_id_ok; [done|].
    apply NoDup_app in Hnd as (Hnd & _ & _).
    apply NoDup_app in Hnd as (_ & Hd & _).
    intros Hin. apply (Hd _ Hin). left.
Qed.

Lemma read_rows_fold rows : forall ids st,
  read_ok ids st -> NoDup (ids ++ file_ids rows) ->
  read_ok (ids ++ file_ids rows) (fold_left read_row rows st).
Proof.
  induction rows as [|r rows IH]; intros ids st Hok Hnd; simpl.
  - unfold file_ids. simpl. by rewrite app_nil_r.
  - unfold file_ids in *. rewrite fmap_cons in *. simpl in *.
    rewrite app_assoc in *. apply IH; [|done].
    apply read_row_ok; [done|]. by apply NoDup_app in Hnd as (? & _).
Qed.

Lemma read_rows_ok rows :
  NoDup (file_ids rows) -> read_ok (file_ids rows) (read_rows rows).
Proof.
  intros Hnd. apply (read_rows_fold rows [] (State [] [] [] [])); [|done].
  split; [done|]. split; [constructor|].
  split; [intros k Hk; by apply elem_of_nil in Hk|].
  split; [intros s t Hin; by apply elem_of_nil in Hin|].
  intros c a Hin. by apply elem_of_nil in Hin.
Qed.

Lemma all_keys_roots (f : forest) :
  (forall s t, (s, t) ∈ f -> exists a : nat, t = [(s, a)]) ->
  all_keys f = keys f.
Proof.
  induction f as [|[s t] f IH]; intros Hf; [done|].
  rewrite all_keys_cons. destruct (Hf s t ltac:(left)) as (a & ->).
  rewrite IH by (intros s' t' Hin; apply (Hf s' t'); by right).
  done.
Qed.

Lemma read_ok_flat_ok ids st :
  read_ok ids st -> NoDup ids -> flat_ok (heap st) (trees st).
Proof.
  intros (Hids & Hnd & Hsub & Htrees & Hq) Hnd'.
  split; [by rewrite Hids|]. split; [|split].
  - rewrite all_keys_roots; [done|].
    intros s t Hin. destruct (Htrees s t Hin) as (a & n & ? & _). eauto.
  - intros s t k a Hin Hka.
    destruct (Htrees s t Hin) as (a' & n & -> & Ha & Hid & _).
    apply list_elem_of_singleton in Hka. injection Hka as -> ->. eauto.
  - intros s t k a n Hin Hka Hn.
    destruct (Htrees s t Hin) as (a' & n' & -> & Ha & Hid & Hp & Hl).
    apply list_elem_of_singleton in Hka. injection Hka as -> ->.
    assert (n' = n) as -> by congruence. split; [done|]. done.
Qed.

(** The flat builder keeps the level invariant, for a file without a
    repeated node id. *)
Lemma flat_levels rows fuel (f : forest) (h : store) :
  NoDup (file_ids rows) ->
  build_non_separator_based_tree fuel rows = Ok (f, h) ->
  level_invariant_flat h f /\ relevelled (heap (read_rows rows)) h.
Proof.
  intros Hnd H. unfold build_non_separator_based_tree in H.
  inv_bind H. injection H as <- <-.
  pose proof (read_rows_ok rows Hnd) as Hr.
  pose proof (read_ok_flat_ok _ _ Hr Hnd) as Hok.
  destruct Hr as (_ & _ & _ & _ & Hq).
  apply loop_ok in Hx as [(_ & _ & _ & Hlev) Hrel]; done.
Qed.
End FlatLevels.

(** ** Flat mode: what a node keeps from its line *)

Section FlatFields.
Import Flat.

Lemma scan_trees_relevelled a idx : forall (todo : forest) (h : store) drops
    todo' h' drops',
  scan_trees a idx todo h drops = Ok (todo', h', drops') -> relevelled h h'.
Proof.
  induction todo as [|[s t] todo IH]; intros h drops todo' h' drops' H;
    cbn [scan_trees] in H.
  - injection H as <- <- <-. apply relevelled_refl.
  - inv_bind H. rename x into n. rename Hx into Ha.
    destruct (dict_get t (parent n)) as [b|].
    + inv_bind H. inv_bind H. destruct x0 as [[f1 h2] d2].
      injection H as <- <- <-. apply IH in Hx0.
      eapply relevelled_trans; [|exact Hx0]. by apply relevelled_insert.
    + inv_bind H. destruct x as [[f1 h2] d2]. injection H as <- <- <-.
      by apply IH in Hx.
Qed.

Lemma scan_queue_relevelled q : forall idx ps ps',
  scan_queue idx q ps = Ok ps' -> relevelled (p_heap ps) (p_heap ps').
Proof.
  induction q as [|[attempts a] q IH]; intros idx ps ps' H;
    cbn [scan_queue] in H.
  - injection H as <-. apply relevelled_refl.
  - destruct (20 <=? attempts).
    + inv_bind H. by apply IH in H.
    + inv_bind H. destruct x as [[f h] d].
      apply scan_trees_relevelled in Hx. apply IH in H. simpl in H.
      by eapply relevelled_trans.
Qed.

Lemma pass_relevelled st st' :
  pass st = Ok st' -> relevelled (heap st) (heap st').
Proof.
  unfold pass. intros H. inv_bind H. inv_bind H. injection H as <-.
  by apply scan_queue_relevelled in Hx.
Qed.

Lemma loop_relevelled fuel : forall st st',
  loop fuel st = Ok st' -> relevelled (heap st) (heap st').
Proof.
  induction fuel as [|fuel IH]; intros st st' H; [discriminate|].
  cbn [loop] in H. inv_bind H. apply pass_relevelled in Hx.
  pose proof (IH x st') as Hgo.
  destruct (to_process x).
  - by injection H as <-.
  - eapply relevelled_trans; eauto.
Qed.

(* every object of the store after reading was made from a line *)
Lemma read_rows_made rows a n :
  heap (read_rows rows) !! a = Some n ->
  exists r i, r ∈ rows /\ i ∈ r_ids r /\ n = make_node r i.
Proof.
  unfold read_rows.
  assert (forall rs st,
            (forall a n, heap st !! a = Some n ->
               exists r i, r ∈ rows /\ i ∈ r_ids r /\ n = make_node r i) ->
            (forall r, r ∈ rs -> r ∈ rows) ->
            forall a n, heap (fold_left read_row rs st) !! a = Some n ->
              exists r i, r ∈ rows /\ i ∈ r_ids r /\ n = make_node r i)
    as Hfold.
  { induction rs as [|r rs IH]; intros st Hst Hsub; [done|].
    simpl. apply IH; [|intros; apply Hsub; by right].
    assert (r ∈ rows) as Hr by (apply Hsub; left).
    unfold read_row.
    assert (forall ids st0,
              (forall a n, heap st0 !! a = Some n ->
                 exists r i, r ∈ rows /\ i ∈ r_ids r /\ n = make_node r i) ->
              (forall i, i ∈ ids -> i ∈ r_ids r) ->
              forall a n, heap (fold_left (read_id r) ids st0) !! a = Some n ->
                exists r i, r ∈ rows /\ i ∈ r_ids r /\ n = make_node r i)
      as Hids.
    { induction ids as [|i ids IHi]; intros st0 Hst0 Hsub0; [done|].
      simpl. apply IHi; [|intros; apply Hsub0; by right].
      intros a0 n0 Ha0.
      assert (heap (read_id r st0 i) = heap st0 ++ [make_node r i]) as Hh
        by (unfold read_id; by destruct (String.eqb (r_parent r) "")).
      rewrite Hh in Ha0. apply lookup_app_Some in Ha0 as [Ha0|[_ Ha0]];
        [eauto|].
      apply list_lookup_singleton_Some in Ha0 as [_ <-].
      exists r, i. split; [done|]. split; [apply Hsub0; left|done]. }
    apply Hids; auto. }
  apply Hfold; [|done]. intros a0 n0 Ha0. simpl in Ha0.
  by rewrite lookup_nil in Ha0.
Qed.

Lemma flat_fields rows fuel (f : forest) (h : store) a n :
  build_non_separator_based_tree fuel rows = Ok (f, h) ->
  h !! a = Some n ->
  exists r i, r ∈ rows /\ i ∈ r_ids r
              /\ n = set_level (make_node r i) (level n).
Proof.
  intros H Ha. unfold build_non_separator_based_tree in H.
  inv_bind H. injection H as <- <-.
  apply loop_relevelled in Hx.
  destruct (relevelled_back _ _ _ _ Hx Ha) as (n0 & Hn0 & Heq).
  destruct (read_rows_made _ _ _ Hn0) as (r & i & Hr & Hi & ->). eauto.
Qed.
End FlatFields.

(** ** Graph mode: the returned forest *)

Section Returned.
Import Obo.

Lemma dict_del_elem {V : Type} (d d' : dict V) k x :
  dict_del d k = Ok d' -> x ∈ d' -> x ∈ d.
Proof.
  revert d'. induction d as [|[k1 v1] d IH]; intros d' H Hx; simpl in H;
    [discriminate|].
  destruct (String.eqb k k1).
  - injection H as <-. by right.
  - inv_bind H. injection H as <-.
    apply elem_of_cons in Hx as [->|Hx]; [left|right; eauto].
Qed.

Lemma drop_trees_elem ids : forall (f f' : forest) x,
  drop_trees f ids = Ok f' -> x ∈ f' -> x ∈ f.
Proof.
  induction ids as [|i ids IH]; intros f f' x H Hx; simpl in H.
  - by injection H as <-.
  - inv_bind H. eapply dict_del_elem; eauto.
Qed.

Lemma prune_elem m (f f' : forest) x : prune m f = Ok f' -> x ∈ f' -> x ∈ f.
Proof.
  unfold prune. destruct m as [T|]; [|by intros [= <-]].
  destruct (T =? 0); [by intros [= <-]|]. apply drop_trees_elem.
Qed.

Lemma kept_elem m (f : forest) x : x ∈ kept m f -> x ∈ f.
Proof.
  unfold kept. destruct m; [|done]. rewrite list_elem_of_filter. tauto.
Qed.

Lemma annotated_lookup (f : forest) (h : store) a :
  apply_at annotated (addrs f) h !! a
  = if decide (a ∈ addrs f) then annotated <$> h !! a else h !! a.
Proof. apply apply_at_lookup, annotated_idem. Qed.

Lemma graph_levels raw (h : store) (f : forest) m :
  forest_ok raw h f -> "" ∉ keys raw ->
  level_invariant_obo (apply_at annotated (addrs f) h) (kept m f).
Proof.
  intros (_ & Hok & _) Hempty s t k a n p Hin Hka Hn Hp.
  apply kept_elem in Hin.
  destruct (Hok s t Hin) as (Hnd & Hnode & Hsub).
  destruct (Hnode k a Hka) as (n1 & l & p1 & Ha & Hid & Hl & Hp1 & Hcase).
  rewrite annotated_lookup, Ha in Hn.
  rewrite decide_True in Hn by (by eapply elem_addrs).
  injection Hn as <-. simpl in Hp. rewrite Hp1 in Hp. injection Hp as <-.
  split.
  - intros ->. destruct Hcase as [(_ & -> & _)|(b & _ & _ & Hb & _)];
      [done|].
    exfalso. apply Hempty, Hsub. apply dict_get_is_Some. eauto.
  - intros Hne. destruct Hcase as [(_ & _ & ->)|(b & m1 & lm & Hb & Hm & Hlm & ->)];
      [done|].
    exists b, (annotated m1), lm.
    pose proof (dict_get_Some_elem _ _ _ Hb) as Hpb.
    destruct (Hnode _ _ Hpb) as (m2 & _ & _ & Hm2 & Hidm & _).
    assert (m2 = m1) as -> by congruence.
    split; [done|]. rewrite annotated_lookup, Hm.
    rewrite decide_True by (by eapply elem_addrs). done.
Qed.

(* two trees of a forest share no object *)
Lemma addrs_disjoint (f : forest) st1 st2 a :
  NoDup (addrs f) -> st1 ∈ f -> st2 ∈ f -> st1.1 <> st2.1 ->
  a ∈ values st1.2 -> a ∈ values st2.2 -> False.
Proof.
  induction f as [|[s t] f IH]; intros Hnd H1 H2 Hne Ha1 Ha2.
  - by apply elem_of_nil in H1.
  - rewrite addrs_cons in Hnd. apply NoDup_app in Hnd as (_ & Hd & Hnd).
    assert (forall st, st ∈ f -> a ∈ values st.2 -> a ∈ addrs f) as Hin.
    { intros [s' t'] Hst Ha. apply list_elem_of_fmap in Ha as ([k a'] & -> & Hk).
      by eapply elem_addrs. }
    apply elem_of_cons in H1 as [->|H1], H2 as [->|H2]; simpl in *.
    + done.
    + apply (Hd a Ha1). eauto.
    + apply (Hd a Ha2). eauto.
    + eauto.
Qed.

Lemma closed_annotated raw (h : store) (f : forest) m :
  closed raw h f -> closed raw (apply_at annotated (addrs f) h) (kept m f).
Proof.
  intros Hcl s t k a n e x Hin Hraw Hn He Hx Hxt.
  apply kept_elem in Hin. rewrite annotated_lookup in Hn.
  destruct (h !! a) as [n1|] eqn:Ha;
    [|by destruct (decide (a ∈ addrs f))].
  assert (is_a n = is_a n1) as Heq.
  { destruct (decide (a ∈ addrs f)); simpl in Hn; by injection Hn as <-. }
  rewrite Heq in He. eapply Hcl; eauto.
Qed.

Lemma from_ontology_unfold parse fuel url root given m (h h0 : store) raw :
  terms_to_use parse url given h = Ok (raw, h0) ->
  build_tree_from_obo_ontology parse fuel url root given m h
  = build_tree fuel root raw m h0.
Proof. unfold build_tree_from_obo_ontology. by intros ->. Qed.
End Returned.

(** ** Graph mode on any dictionary

    Whatever [raw_terms] holds, a forest the builder has made is a
    dictionary of dictionaries of objects with a [parent] key. *)

Section AnyTerms.
Import Obo.

Lemma parents_kept_refl (h : store) : parents_kept h h.
Proof. intros a n p Ha Hp. eauto. Qed.

Lemma parents_kept_trans (h1 h2 h3 : store) :
  parents_kept h1 h2 -> parents_kept h2 h3 -> parents_kept h1 h3.
Proof.
  intros H12 H23 a n p Ha Hp.
  destruct (H12 a n p Ha Hp) as (n2 & p2 & Ha2 & Hp2). eauto.
Qed.

Lemma parents_kept_insert (h : store) a n' p' :
  parent n' = Some p' -> parents_kept h (<[a := n']> h).
Proof.
  intros Hp' a0 n p Ha0 Hp. destruct (decide (a0 = a)) as [->|Hne].
  - exists n', p'. split; [|done]. apply list_lookup_insert_eq.
    by eapply lookup_lt_Some.
  - exists n, p. by rewrite list_lookup_insert_ne.
Qed.

Lemma parents_kept_app (h news : store) : parents_kept h (h ++ news).
Proof.
  intros a n p Ha Hp. exists n, p. split; [|done].
  by apply lookup_app_l_Some.
Qed.

Lemma tree_sound_kept (h h' : store) (t : tree) :
  parents_kept h h' -> tree_sound h t -> tree_sound h' t.
Proof.
  intros Hk [Hnd Hn]. split; [done|]. intros k a Hin.
  destruct (Hn k a Hin) as (n & p & Ha & Hp). eauto.
Qed.

Lemma forest_sound_kept (h h' : store) (f : forest) :
  parents_kept h h' -> forest_sound h f -> forest_sound h' f.
Proof.
  intros Hk [Hnd Hf]. split; [done|].
  eapply Forall_impl; [exact Hf|]. intros st. by apply tree_sound_kept.
Qed.

Lemma Forall_dict_set {V : Type} (P : V -> Prop) (d : dict V) k v :
  Forall (fun item => P item.2) d -> P v ->
  Forall (fun item => P item.2) (dict_set d k v).
Proof.
  intros Hd Hv. induction Hd as [|[k1 v1] d H1 Hd IH]; simpl.
  - by constructor.
  - destruct (String.eqb k k1); constructor; done.
Qed.

Lemma forest_sound_set (h : store) (f : forest) k (t : tree) :
  forest_sound h f -> tree_sound h t -> forest_sound h (dict_set f k t).
Proof.
  intros [Hnd Hf] Ht. split; [by apply NoDup_keys_dict_set|].
  by apply (Forall_dict_set (tree_sound h)).
Qed.

Lemma forest_sound_wf (h : store) (f : forest) :
  forest_sound h f <-> wf_forest f /\ nodes_have_parent h f.
Proof.
  unfold forest_sound, wf_forest, nodes_have_parent, tree_sound.
  rewrite Forall_forall. split.
  - intros [Hnd Hf]. split; [split; [done|]|].
    + intros s t Hin. by destruct (Hf (s, t) Hin).
    + intros s t k a Hin Hka. destruct (Hf (s, t) Hin) as [_ Hn]. eauto.
  - intros [[Hnd Ht] Hn]. split; [done|]. intros [s t] Hin. simpl.
    split; eauto.
Qed.

(* every node of a sound forest is an object of the store *)
Lemma sound_addrs (h : store) (f : forest) :
  nodes_have_parent h f -> Forall (fun a => (a < length h)%nat) (addrs f).
Proof.
  intros Hn. apply Forall_forall. intros a Ha. unfold addrs in Ha.
  apply elem_of_concat in Ha as (l & Ha & Hl).
  apply list_elem_of_fmap in Hl as ([s t] & -> & Hst).
  apply list_elem_of_fmap in Ha as ([k a'] & -> & Hk).
  destruct (Hn s t k a' Hst Hk) as (n & p & Hh & _).
  by eapply lookup_lt_Some.
Qed.

(** *** The first level *)

Lemma seed_Ok k val (f f' : forest) (h h' : store) :
  seed k val f h = Ok (f', h') ->
  exists t, h !! val = Some t /\ f' = dict_set f k [(k, val)]
            /\ h' = <[val := mark_root t]> h.
Proof.
  intros H. destruct (h !! val) as [t|] eqn:Hv.
  - rewrite (seed_ok _ _ _ _ _ Hv) in H. injection H as <- <-. eauto.
  - exfalso. unfold seed, node_ref, update in H.
    rewrite dict_get_set_eq in H. cbn [from_option bind] in H.
    rewrite dict_set_set, dict_get_set_eq in H. cbn [from_option bind] in H.
    simpl dict_set in H. simpl dict_get in H. rewrite String.eqb_refl in H.
    cbn [from_option bind] in H. rewrite Hv in H. discriminate.
Qed.

Lemma seed_sound k val (f f' : forest) (h h' : store) :
  forest_sound h f -> seed k val f h = Ok (f', h') ->
  forest_sound h' f' /\ parents_kept h h'.
Proof.
  intros Hf H. apply seed_Ok in H as (t & Hv & -> & ->).
  assert (parents_kept h (<[val := mark_root t]> h)) as Hk
    by (by apply (parents_kept_insert h val (mark_root t) "")).
  split; [|done]. apply forest_sound_set.
  - by apply (forest_sound_kept h).
  - split.
    + unfold keys. simpl. apply NoDup_singleton.
    + intros k' a Hin. apply list_elem_of_singleton in Hin.
      injection Hin as -> ->. exists (mark_root t), "". split; [|done].
      apply list_lookup_insert_eq. by eapply lookup_lt_Some.
Qed.

Lemma seed_children_sound r k val is_as : forall (f f' : forest) (h h' : store),
  forest_sound h f -> seed_children r k val is_as f h = Ok (f', h') ->
  forest_sound h' f' /\ parents_kept h h'.
Proof.
  induction is_as as [|e is_as IH]; intros f f' h h' Hf H; simpl in H.
  - injection H as <- <-. split; [done|apply parents_kept_refl].
  - inv_bind H. destruct (String.eqb r x).
    + inv_bind H. destruct x0 as [f1 h1].
      destruct (seed_sound _ _ _ _ _ _ Hf Hx0) as [Hf1 Hk1].
      destruct (IH _ _ _ _ Hf1 H) as [Hf' Hk']. split; [done|].
      by eapply parents_kept_trans.
    + apply (IH _ _ _ _ Hf H).
Qed.

Lemma seed_below_sound r items : forall (f f' : forest) (h h' : store),
  forest_sound h f -> seed_below r items f h = Ok (f', h') ->
  forest_sound h' f' /\ parents_kept h h'.
Proof.
  induction items as [|[term val] items IH]; intros f f' h h' Hf H;
    simpl in H.
  - injection H as <- <-. split; [done|apply parents_kept_refl].
  - inv_bind H. inv_bind H. destruct x0 as [f1 h1].
    destruct (seed_children_sound _ _ _ _ _ _ _ _ Hf Hx0) as [Hf1 Hk1].
    destruct (IH _ _ _ _ Hf1 H) as [Hf' Hk']. split; [done|].
    by eapply parents_kept_trans.
Qed.

Lemma seed_roots_sound raw roots : forall (f f' : forest) (h h' : store),
  forest_sound h f -> seed_roots raw roots f h = Ok (f', h') ->
  forest_sound h' f' /\ parents_kept h h'.
Proof.
  induction roots as [|r roots IH]; intros f f' h h' Hf H; simpl in H.
  - injection H as <- <-. split; [done|apply parents_kept_refl].
  - inv_bind H. inv_bind H. destruct x0 as [f1 h1].
    destruct (seed_sound _ _ _ _ _ _ Hf Hx0) as [Hf1 Hk1].
    destruct (IH _ _ _ _ Hf1 H) as [Hf' Hk']. split; [done|].
    by eapply parents_kept_trans.
Qed.

Lemma build_first_level_sound root raw (h h0 : store) (f0 : forest) :
  build_first_level root raw h = Ok (f0, h0) -> forest_sound h0 f0.
Proof.
  assert (forest_sound h []) as Hnil by (split; constructor).
  unfold build_first_level. destruct (truthy root) as [r|]; intros H.
  - by destruct (seed_below_sound _ _ _ _ _ _ Hnil H).
  - inv_bind H. by destruct (seed_roots_sound _ _ _ _ _ _ Hnil H).
Qed.

(** *** The propagation *)

Lemma insert_term_Ok term copied x (sub t' : tree) (h h' : store) :
  tree_sound h sub -> x ∈ keys sub -> term ∉ keys sub ->
  insert_term term copied x sub h = Ok (t', h') ->
  exists p l, t' = sub ++ [(term, length h)]
              /\ h' = h ++ [set_parent p (set_level l copied)].
Proof.
  intros [_ Hn] Hx Hterm H.
  apply dict_get_is_Some in Hx as [b Hb].
  destruct (Hn x b (dict_get_Some_elem _ _ _ Hb)) as (n & p & Hh & _).
  destruct (level n) as [l|] eqn:Hl.
  - rewrite (insert_term_ok _ _ _ _ _ _ _ _ Hb Hterm Hh Hl) in H.
    injection H as <- <-. eauto.
  - exfalso. unfold insert_term in H. rewrite dict_set_new in H by done.
    rewrite (dict_get_app_l _ _ _ _ Hb) in H. cbn [from_option bind] in H.
    rewrite (lookup_app_l_Some _ _ _ _ Hh) in H.
    cbn [from_option bind] in H. rewrite Hl in H. discriminate.
Qed.

Lemma attach_sound term copied is_as : forall (t t' : tree) (h h' : store)
    had had',
  tree_sound h t -> attach term copied is_as t h had = Ok (t', h', had') ->
  tree_sound h' t' /\ parents_kept h h'.
Proof.
  induction is_as as [|e is_as IH]; intros t t' h h' had had' Ht H;
    simpl in H.
  - injection H as <- <- <-. split; [done|apply parents_kept_refl].
  - inv_bind H. destruct (dict_mem t x && negb (dict_mem t term)) eqn:Hc.
    + apply andb_true_iff in Hc as [Hin Hterm].
      apply dict_mem_true in Hin.
      apply negb_true_iff, dict_mem_false in Hterm.
      inv_bind H. destruct x0 as [t1 h1].
      destruct (insert_term_Ok _ _ _ _ _ _ _ Ht Hin Hterm Hx0)
        as (p & l & -> & ->).
      assert (tree_sound (h ++ [set_parent p (set_level l copied)])
                (t ++ [(term, length h)])) as Ht1.
      { destruct Ht as [Hnd Hn]. split.
        - unfold keys. rewrite fmap_app. apply NoDup_app.
          split; [done|]. split; [|apply NoDup_singleton].
          intros k Hk Hk'. apply list_elem_of_singleton in Hk'.
          simpl in Hk'. by subst.
        - intros k a Hka. apply elem_of_app in Hka as [Hka|Hka].
          + destruct (Hn k a Hka) as (n & q & Ha & Hq).
            exists n, q. split; [by apply lookup_app_l_Some|done].
          + apply list_elem_of_singleton in Hka. injection Hka as -> ->.
            eexists _, p. split; [apply lookup_last|done]. }
      destruct (IH _ _ _ _ _ _ Ht1 H) as [Ht' Hk']. split; [done|].
      eapply parents_kept_trans; [apply parents_kept_app|exact Hk'].
    + by apply (IH _ _ _ _ _ _ Ht H).
Qed.

Lemma scan_terms_sound items : forall (t t' : tree) (h h' : store) had had',
  tree_sound h t -> scan_terms items t h had = Ok (t', h', had') ->
  tree_sound h' t' /\ parents_kept h h'.
Proof.
  induction items as [|[term val] items IH]; intros t t' h h' had had' Ht H;
    simpl in H.
  - injection H as <- <- <-. split; [done|apply parents_kept_refl].
  - inv_bind H. inv_bind H. destruct x0 as [[t1 h1] had1].
    destruct (attach_sound _ _ _ _ _ _ _ _ _ Ht Hx0) as [Ht1 Hk1].
    destruct (IH _ _ _ _ _ _ Ht1 H) as [Ht' Hk']. split; [done|].
    by eapply parents_kept_trans.
Qed.

Lemma scan_forest_sound raw : forall (f f' : forest) (h h' : store) had had',
  Forall (fun st => tree_sound h st.2) f ->
  scan_forest raw f h had = Ok (f', h', had') ->
  keys f' = keys f /\ Forall (fun st => tree_sound h' st.2) f'
  /\ parents_kept h h'.
Proof.
  induction f as [|[s t] f IH]; intros f' h h' had had' Hf H; simpl in H.
  - injection H as <- <- <-. split; [done|]. split; [done|].
    apply parents_kept_refl.
  - apply Forall_cons in Hf as [Ht Hf]. simpl in Ht.
    inv_bind H. destruct x as [[t1 h1] had1].
    inv_bind H. destruct x as [[f1 h2] had2]. injection H as <- <- <-.
    destruct (scan_terms_sound _ _ _ _ _ _ _ Ht Hx) as [Ht1 Hk1].
    destruct (IH f1 h1 h2 had1 had2) as (Hkeys & Hf1 & Hk2); [|done|].
    { eapply Forall_impl; [exact Hf|]. intros st.
      by apply tree_sound_kept. }
    split; [unfold keys in *; rewrite !fmap_cons; by f_equal|].
    split; [|by eapply parents_kept_trans].
    constructor; [|done]. simpl. by apply (tree_sound_kept h1).
Qed.

Lemma propagate_sound raw : forall fuel (f f' : forest) (h h' : store),
  forest_sound h f -> propagate fuel raw f h = Ok (f', h') ->
  forest_sound h' f'.
Proof.
  induction fuel as [|fuel IH]; intros f f' h h' [Hnd Hf] H; [done|].
  cbn [propagate] in H. inv_bind H. destruct x as [[f1 h1] had].
  destruct (scan_forest_sound _ _ _ _ _ _ _ Hf Hx) as (Hkeys & Hf1 & _).
  assert (forest_sound h1 f1) as Hs by (split; [by rewrite Hkeys|done]).
  destruct had; [by apply (IH f1 f' h1 h')|]. by injection H as <- <-.
Qed.

(** *** The cleaning loop *)

Lemma cleaned_sound (h : store) (f : forest) i :
  wf_forest f -> nodes_have_parent h f ->
  wf_forest (cleaned h f i) /\ nodes_have_parent h (cleaned h f i).
Proof.
  intros Hwf Hn. induction i as [|i [IH1 IH2]]; [done|].
  unfold cleaned in *. simpl. split.
  - by apply wf_drop_orphans.
  - by apply nodes_have_parent_drop.
Qed.

Lemma cleaned_shift (h : store) (f : forest) i :
  cleaned h (drop_orphans h f) i = cleaned h f (S i).
Proof.
  unfold cleaned. induction i as [|i IH]; [done|]. simpl. by rewrite IH.
Qed.

(* the loop takes nodes away, never a tree *)
Lemma sub_forest_cleaned (h : store) (f : forest) i :
  sub_forest (cleaned h f i) f.
Proof.
  induction i as [|i IH]; [apply sub_forest_refl|].
  change (cleaned h f (S i)) with (drop_orphans h (cleaned h f i)).
  eapply sub_forest_trans; [apply sub_forest_drop|exact IH].
Qed.

(** The loop makes [i] turns that find orphans and ends on the first
    forest without any. *)
Lemma clean_turns (h : store) : forall fuel (f : forest),
  wf_forest f -> nodes_have_parent h f -> (total f < fuel)%nat ->
  exists i,
    (i <= total f)%nat
    /\ (forall j, (j < i)%nat -> orphans h (cleaned h f j) <> [])
    /\ orphans h (cleaned h f i) = []
    /\ clean fuel f h = Ok (cleaned h f i).
Proof.
  induction fuel as [|fuel IH]; intros f Hwf Hn Hfuel; [lia|].
  rewrite clean_step by done. destruct (orphans h f) eqn:E.
  - exists 0%nat. split; [lia|]. split; [lia|]. done.
  - pose proof (total_drop_orphans h f) as Htot. rewrite E in Htot.
    simpl in Htot.
    destruct (IH (drop_orphans h f)) as (i & Hi & Hbefore & Hlast & Heq).
    + by apply wf_drop_orphans.
    + by apply nodes_have_parent_drop.
    + lia.
    + exists (S i). rewrite <- cleaned_shift. split; [lia|].
      split; [|done]. intros [|j] Hj.
      * unfold cleaned. simpl. by rewrite E.
      * rewrite <- cleaned_shift. apply Hbefore. lia.
Qed.

Lemma clean_Ok_sound (h : store) : forall fuel (f f' : forest),
  wf_forest f -> nodes_have_parent h f -> clean fuel f h = Ok f' ->
  wf_forest f' /\ nodes_have_parent h f' /\ orphans h f' = [].
Proof.
  induction fuel as [|fuel IH]; intros f f' Hwf Hn H; [done|].
  rewrite clean_step in H by done. destruct (orphans h f) eqn:E.
  - by injection H as <-.
  - apply (IH (drop_orphans h f)); [|  |done].
    + by apply wf_drop_orphans.
    + by apply nodes_have_parent_drop.
Qed.

(** *** The builder *)

Lemma parent_closed_annotated (h : store) (f : forest) m :
  parent_closed h f ->
  parent_closed (apply_at annotated (addrs f) h) (kept m f).
Proof.
  intros Hcl s t k a n p Hin Hka Hn Hp Hne. apply kept_elem in Hin.
  rewrite annotated_lookup in Hn.
  rewrite decide_True in Hn by (by eapply elem_addrs).
  destruct (h !! a) as [n1|] eqn:Ha; [|done]. injection Hn as <-.
  eapply (Hcl s t k a n1 p); eauto.
Qed.

(** What the builder returns, from the forest its cleaning loop ends
    with. *)
Lemma build_tree_stages fuel root raw m (h h1 h2 : store)
    (f0 f1 f2 : forest) :
  build_first_level root raw h = Ok (f0, h1) ->
  propagate fuel raw f0 h1 = Ok (f1, h2) ->
  clean fuel f1 h2 = Ok f2 ->
  build_tree fuel root raw m h
  = Ok (kept m f2, apply_at annotated (addrs f2) h2)
  /\ wf_forest f1 /\ nodes_have_parent h2 f1
  /\ wf_forest f2 /\ orphans h2 f2 = [].
Proof.
  intros H0 H1 H2. unfold build_tree. rewrite H0. cbn [bind].
  rewrite H1. cbn [bind]. rewrite H2. cbn [bind].
  pose proof (build_first_level_sound _ _ _ _ _ H0) as Hs0.
  pose proof (propagate_sound _ _ _ _ _ _ Hs0 H1) as Hs1.
  apply forest_sound_wf in Hs1 as [Hwf1 Hn1].
  destruct (clean_Ok_sound _ _ _ _ Hwf1 Hn1 H2) as (Hwf2 & Hn2 & Ho2).
  rewrite (annotate_forest_ok _ _ (sound_addrs _ _ Hn2)). cbn [bind].
  rewrite (prune_kept _ m (proj1 Hwf2)). cbn [bind]. done.
Qed.
End AnyTerms.

(** * The properties of the specification *)

(* membership in a list given by its elements *)
Ltac elems H :=
  repeat (apply elem_of_cons in H as [H|H]); try (by apply elem_of_nil in H).

Lemma NoDup_decide {A : Type} `{EqDecision A} (l : list A) :
  bool_decide (NoDup l) = true -> NoDup l.
Proof. apply bool_decide_eq_true_1. Qed.

(** C1 (flat mode): on a file with a node whose parent id appears nowhere
    the loop of [build_non_separator_based_tree] never ends: whatever the
    number of passes allowed, the builder has not returned. *)
Theorem flat_loop_diverges_on_unresolved_parent :
  forall fuel : nat,
    Flat.build_non_separator_based_tree fuel rows_unresolved = OutOfFuel.
Proof.
  intros fuel. unfold Flat.build_non_separator_based_tree.
  set (st0 := Flat.read_rows rows_unresolved).
  assert (Flat.pass st0 = Ok st0) as Hp by reflexivity.
  assert (Flat.loop fuel st0 = OutOfFuel) as ->; [|done].
  induction fuel as [|fuel IH]; [done|].
  cbn [Flat.loop]. rewrite Hp. cbn [bind].
  change (Flat.to_process st0) with [(0, 1%nat)]. exact IH.
Qed.

(** C2: the attempt counter of a queued node never moves and the
    diagnostic is never printed.  On every input, after any number of
    passes, every node still queued has counter 0 and nothing was
    printed; so no node is ever dropped for having reached 20 attempts. *)
Theorem flat_attempts_never_reach_ceiling :
  forall (rows : list Flat.row) (n : nat) (st : Flat.state),
    Flat.passes n (Flat.read_rows rows) = Ok st ->
    Forall (fun e => e.1 = 0) (Flat.to_process st) /\ Flat.printed st = [].
Proof.
  intros rows n.
  destruct (read_rows_queue rows) as [Hq Hp].
  revert Hq Hp. generalize (Flat.read_rows rows).
  induction n as [|n IH]; intros st0 Hq Hp st H; simpl in H.
  - by injection H as <-.
  - inv_bind H. eapply IH; [| |exact H].
    + apply Forall_forall. intros e He.
      eapply pass_queue in He; eauto.
      rewrite Forall_forall in Hq. auto.
    + erewrite pass_printed; eauto.
      eapply Forall_impl; [exact Hq|]. simpl. intros e ->. lia.
Qed.

Lemma flat_attempts_never_reach_ceiling_witness :
  exists st,
    Flat.passes 25 (Flat.read_rows rows_unresolved) = Ok st
    /\ Flat.to_process st = [(0, 1%nat)] /\ Flat.printed st = []
    /\ Forall (fun e => e.1 = 0) (Flat.to_process st).
Proof.
  assert (exists st, Flat.passes 25 (Flat.read_rows rows_unresolved) = Ok st
            /\ Flat.to_process st = [(0, 1%nat)] /\ Flat.printed st = [])
    as (st & H & Hq & Hp).
  { eexists. split; [vm_compute; reflexivity|]. split; reflexivity. }
  exists st. repeat split; auto.
  exact (proj1 (flat_attempts_never_reach_ceiling rows_unresolved 25 st H)).
Defined.

(** Graph mode always returns: for a dictionary of [n] parsed terms, [n]
    at least 1, the propagation is over within [n * n] passes. *)
Lemma graph_builder_returns :
  forall parse (url root_id : option string) (given : option (dict addr))
    (m : option Z) (h h0 : Obo.store) (raw_terms : dict addr),
    Obo.terms_to_use parse url given h = Ok (raw_terms, h0) ->
    wf_raw raw_terms h0 -> raw_terms <> [] ->
    exists f h',
      Obo.build_tree_from_obo_ontology parse
        (length raw_terms * length raw_terms) url root_id given m h
      = Ok (f, h').
Proof.
  intros parse url root given m h h0 raw Hterms Hwf Hne.
  rewrite (from_ontology_unfold _ _ _ _ _ _ _ _ _ Hterms).
  destruct (build_tree_spec (length raw * length raw) root raw m h0 Hwf)
    as (f1 & h1 & Heq & _); [|lia|eauto].
  destruct raw; [done|]. simpl. lia.
Qed.

(** C3, as the code has it.  With a dictionary that files every term
    under its own id and whose [is_a] entries have a first element, the
    first level is one tree per starting term, filed under the id of
    that term and holding that term alone, at level 0 and with an empty
    parent.  Given an explicit root id the starting terms are exactly
    the terms that name it in [is_a], its children: a term that does not
    name it starts no tree, the root term included unless it names
    itself.  Without a root id they are the terms with an empty [is_a]
    list. *)
Theorem first_level_seeds :
  forall (root_id : option string) (raw_terms : dict addr) (h : Obo.store),
    wf_raw raw_terms h ->
    exists h',
      Obo.build_first_level root_id raw_terms h
      = Ok (seeds_of (tree_starts root_id h raw_terms), h')
      /\ length h' = length h
      /\ (forall k a, (k, a) ∈ tree_starts root_id h raw_terms ->
            exists t, h !! a = Some t /\ h' !! a = Some (mark_root t))
      /\ (forall a, a ∉ values (tree_starts root_id h raw_terms) ->
            h' !! a = h !! a)
      /\ (forall k a, (k, a) ∈ raw_terms ->
            starts_tree root_id h (k, a) = false ->
            (k ∉ keys (seeds_of (tree_starts root_id h raw_terms)))
            /\ (a ∉ addrs (seeds_of (tree_starts root_id h raw_terms)))).
Proof.
  intros root raw h Hwf.
  exists (mark_all (values (tree_starts root h raw)) h).
  split; [by apply build_first_level_ok|].
  split; [apply length_mark_all|]. split; [|split].
  - intros k a Hin. destruct Hwf as [_ Hwf].
    destruct (Hwf k a (tree_starts_elem _ _ _ _ _ Hin)) as (t & Ha & _).
    exists t. split; [done|]. rewrite mark_all_lookup, Ha.
    rewrite decide_True; [done|].
    apply list_elem_of_fmap. by exists (k, a).
  - intros a Hin. rewrite mark_all_lookup. by rewrite decide_False.
  - intros k a Hraw Hno. destruct Hwf as [Hnd Hwf].
    assert (forall k' a', (k', a') ∈ tree_starts root h raw ->
              k' = k \/ a' = a -> False) as Hout.
    { intros k' a' Hin Hsame.
      pose proof (tree_starts_elem _ _ _ _ _ Hin) as Hraw'.
      assert ((k', a') = (k, a)) as Heq.
      { destruct Hsame as [->| ->].
        - f_equal. pose proof (elem_dict_get _ _ _ Hnd Hraw) as H1.
          pose proof (elem_dict_get _ _ _ Hnd Hraw') as H2. congruence.
        - f_equal. destruct (Hwf k a Hraw) as (t & Ht & Hid & _).
          destruct (Hwf k' a Hraw') as (t' & Ht' & Hid' & _). congruence. }
      rewrite Heq in Hin. unfold tree_starts in Hin.
      apply list_elem_of_filter in Hin as [Hs _]. congruence. }
    rewrite keys_seeds_of, addrs_seeds_of. split.
    + intros Hin. apply list_elem_of_fmap in Hin as ([k' a'] & -> & Hin).
      apply (Hout _ _ Hin). by left.
    + intros Hin. apply list_elem_of_fmap in Hin as ([k' a'] & -> & Hin).
      apply (Hout _ _ Hin). by right.
Qed.

Lemma wf_root_child : wf_raw terms_root_child store_root_child.
Proof.
  split.
  - unfold terms_root_child, keys. simpl. apply NoDup_cons. split.
    + rewrite list_elem_of_singleton. discriminate.
    + apply NoDup_singleton.
  - intros k a Hin. unfold terms_root_child in Hin.
    apply elem_of_cons in Hin as [Heq|Hin].
    + injection Heq as -> ->. eexists. split; [reflexivity|].
      split; [reflexivity|]. constructor.
    + apply list_elem_of_singleton in Hin. injection Hin as -> ->.
      eexists. split; [reflexivity|]. split; [reflexivity|].
      apply Forall_singleton. discriminate.
Qed.

Lemma first_level_seeds_witness :
  exists h',
    Obo.build_first_level (Some "R") terms_root_child store_root_child
    = Ok ([("T1", [("T1", 1%nat)])], h')
    /\ Obo.level <$> h' !! 1%nat = Some (Some 0)
    /\ Obo.parent <$> h' !! 1%nat = Some (Some "")
    /\ ("R" ∉ keys [("T1", [("T1", 1%nat)])])
    /\ (0%nat ∉ addrs [("T1", [("T1", 1%nat)])]).
Proof.
  destruct (first_level_seeds (Some "R") terms_root_child store_root_child
              wf_root_child) as (h' & Hb & _ & Hs & _ & Hout).
  exists h'. split; [exact Hb|].
  destruct (Hs "T1" 1%nat) as (t & Ht & ->).
  - unfold tree_starts. apply list_elem_of_filter. split; [reflexivity|].
    right. left.
  - injection Ht as <-. split; [reflexivity|]. split; [reflexivity|].
    apply (Hout "R" 0%nat); [left|reflexivity].
Defined.

Lemma parsed_typedef : parsed_as text_typedef terms_typedef store_typedef.
Proof. eexists _, _. split; [vm_compute; reflexivity|]. by split. Qed.

(** C3 as stated fails for an explicit root id: for the terms R and T1
    (T1 is_a R) and root id R, the first level is the single tree of T1;
    no tree is filed under R and R is a node of no tree.  And the trees
    are filed under the keys of the dictionary, which need not be the
    ids of the terms: of the text that ends with a [Typedef] stanza the
    parser returns the term A:2 with the id part_of, and below the root
    id A:1 the tree filed under A:2 holds a node whose id is part_of. *)
Lemma explicit_root_starts_no_tree :
  (exists f h',
     Obo.build_first_level (Some "R") terms_root_child store_root_child
     = Ok (f, h')
     /\ f = [("T1", [("T1", 1%nat)])]
     /\ dict_get f "R" = None
     /\ (0%nat ∉ addrs f))
  /\ (parsed_as text_typedef terms_typedef store_typedef
      /\ exists f h' n,
           Obo.build_first_level (Some "A:1") terms_typedef store_typedef
           = Ok (f, h')
           /\ dict_get f "A:2" = Some [("A:2", 3%nat)]
           /\ h' !! 3%nat = Some n /\ Obo.id n = "part_of"
           /\ Obo.id n <> "A:2").
Proof.
  split.
  - eexists _, _. split; [reflexivity|]. split; [reflexivity|].
    split; [reflexivity|]. unfold addrs. simpl.
    rewrite list_elem_of_singleton. discriminate.
  - split; [exact parsed_typedef|].
    eexists _, _, _. split; [vm_compute; reflexivity|].
    split; [reflexivity|]. split; [reflexivity|]. split; [reflexivity|].
    discriminate.
Qed.

(** C4, for proper ids.  In the forest returned by either builder a node
    with an empty parent field has level 0, and a node with a non empty
    parent field lies one level below the node of the same tree whose id
    is that field, provided the node ids of the flat file are all
    different and, in graph mode, the dictionary files every term under
    its own id, no id is the empty string and every [is_a] entry has a
    first element.  The flat builder need not return; the graph builder
    returns once allowed as many passes as the square of the number of
    terms. *)
Theorem level_invariant_holds :
  (forall (rows : list Flat.row) (fuel : nat) (f : forest) (h : Flat.store),
     NoDup (file_ids rows) ->
     Flat.build_non_separator_based_tree fuel rows = Ok (f, h) ->
     level_invariant_flat h f)
  /\ (forall parse (fuel : nat) (url root_id : option string)
        (given : option (dict addr)) (m : option Z) (h h0 : Obo.store)
        (raw_terms : dict addr),
        Obo.terms_to_use parse url given h = Ok (raw_terms, h0) ->
        wf_raw raw_terms h0 -> "" ∉ keys raw_terms ->
        (1 <= fuel)%nat -> (length raw_terms * length raw_terms <= fuel)%nat ->
        exists f h',
          Obo.build_tree_from_obo_ontology parse fuel url root_id given m h
          = Ok (f, h')
          /\ level_invariant_obo h' f).
Proof.
  split.
  - intros rows fuel f h Hnd H. by destruct (flat_levels rows fuel f h Hnd H).
  - intros parse fuel url root given m h h0 raw Hterms Hwf Hempty Hf1 Hf2.
    rewrite (from_ontology_unfold _ _ _ _ _ _ _ _ _ Hterms).
    destruct (build_tree_spec fuel root raw m h0 Hwf Hf1 Hf2)
      as (f1 & h1 & Heq & _ & Hok & _).
    eexists _, _. split; [exact Heq|]. by apply (graph_levels raw).
Qed.

Lemma wf_two_parents : wf_raw terms_two_parents store_two_parents.
Proof.
  split.
  - by apply NoDup_decide.
  - intros k a Hin. unfold terms_two_parents in Hin. elems Hin;
      injection Hin as -> ->; eexists; (split; [reflexivity|]);
      (split; [reflexivity|]); repeat constructor; discriminate.
Qed.

Lemma level_invariant_holds_witness :
  (exists f h,
     Flat.build_non_separator_based_tree 5 rows_chain = Ok (f, h)
     /\ level_invariant_flat h f)
  /\ (exists f h',
        Obo.build_tree_from_obo_ontology no_download 9 None None
          (Some terms_two_parents) None store_two_parents = Ok (f, h')
        /\ level_invariant_obo h' f).
Proof.
  split.
  - eexists _, _. split; [vm_compute; reflexivity|].
    apply (proj1 level_invariant_holds rows_chain 5%nat).
    + by apply NoDup_decide.
    + vm_compute. reflexivity.
  - apply (proj2 level_invariant_holds no_download 9%nat None None
             (Some terms_two_parents) None store_two_parents
             store_two_parents terms_two_parents).
    + reflexivity.
    + exact wf_two_parents.
    + unfold terms_two_parents, keys. simpl. intros Hin.
      elems Hin; discriminate.
    + lia.
    + simpl. lia.
Defined.

Lemma parsed_two_typedefs :
  parsed_as text_two_typedefs terms_two_typedefs store_two_typedefs.
Proof. eexists _, _. split; [vm_compute; reflexivity|]. by split. Qed.

(** C4 as stated fails outside these ids.  Flat mode, a node id on two
    lines: Y is put one level below the first X and stays at level 2 when
    the second X, itself at level 2, takes the place of the first in the
    tree.  Graph mode, a term whose id is the empty string: the term X
    below it gets the empty string as parent and level 1.  Graph mode, a
    term filed under an id that is not its own: of the text with two
    [Typedef] stanzas the parser returns one object under the three ids
    A:1, part_of and positively_regulates; below the root id part_of the
    node positively_regulates of the tree part_of is at level 1 and is
    its own parent. *)
Lemma levels_need_proper_ids :
  (exists f h,
     Flat.build_non_separator_based_tree 5 rows_repeated_id = Ok (f, h)
     /\ ~ level_invariant_flat h f)
  /\ (exists f h',
        Obo.build_tree_from_obo_ontology no_download 9 None None
          (Some terms_empty_id) None store_empty_id = Ok (f, h')
        /\ ~ level_invariant_obo h' f)
  /\ (parsed_as text_two_typedefs terms_two_typedefs store_two_typedefs
      /\ ("" ∉ keys terms_two_typedefs)
      /\ exists f h',
           Obo.build_tree_from_obo_ontology no_download 9 None
             (Some "part_of") (Some terms_two_typedefs) None
             store_two_typedefs = Ok (f, h')
           /\ dict_get f "part_of"
              = Some [("part_of", 0%nat); ("A:1", 1%nat);
                      ("positively_regulates", 2%nat)]
           /\ Obo.parent <$> h' !! 2%nat = Some (Some "positively_regulates")
           /\ Obo.level <$> h' !! 2%nat = Some (Some 1)
           /\ ~ level_invariant_obo h' f).
Proof.
  split; [|split].
  - eexists _, _. split; [vm_compute; reflexivity|]. intros Hinv.
    destruct (Hinv "A" _ "Y" 3%nat _ ltac:(left)
                ltac:(right; right; right; left) eq_refl) as [_ H2].
    destruct H2 as (b & m & Hb & Hm & _ & Hl); [discriminate|].
    vm_compute in Hb. injection Hb as <-.
    vm_compute in Hm. injection Hm as <-.
    vm_compute in Hl. discriminate.
  - eexists _, _. split; [vm_compute; reflexivity|]. intros Hinv.
    destruct (Hinv "" _ "X" 2%nat _ "" ltac:(left) ltac:(right; left)
                eq_refl eq_refl) as [H1 _].
    specialize (H1 eq_refl). vm_compute in H1. discriminate.
  - split; [exact parsed_two_typedefs|]. split.
    { unfold terms_two_typedefs, keys. simpl. intros Hin.
      elems Hin; discriminate. }
    eexists _, _. split; [vm_compute; reflexivity|].
    split; [reflexivity|]. split; [reflexivity|]. split; [reflexivity|].
    intros Hinv.
    destruct (Hinv "part_of" _ "positively_regulates" 2%nat _
                "positively_regulates" ltac:(right; left)
                ltac:(right; right; left) eq_refl eq_refl) as [_ H2].
    destruct H2 as (b & m & l & Hb & Hm & _ & Hl & Hln); [discriminate|].
    vm_compute in Hb. injection Hb as <-.
    vm_compute in Hm. injection Hm as <-.
    vm_compute in Hl. injection Hl as <-.
    vm_compute in Hln. discriminate.
Qed.

(** C5: the cleaning loop of the builder.  Whatever the dictionary of
    terms, once the seeding and the propagation have returned a forest,
    the loop runs on it as follows.  Every turn finds exactly the
    orphans, the nodes with a non empty parent id that is no key of
    their tree; a turn that finds some deletes them all and leaves a
    smaller forest; after at most as many such turns as the forest has
    nodes a turn finds none and the loop ends, with the trees it started
    from, less the deleted nodes.  The builder then returns
    the forest of that last turn, small trees apart, and in it the
    parent id of every node with a non empty parent id is a key of the
    node's tree. *)
Theorem clean_terminates_closed :
  forall parse (fuel : nat) (url root_id : option string)
    (given : option (dict addr)) (m : option Z) (h h0 h1 h2 : Obo.store)
    (raw_terms : dict addr) (f0 f1 : forest),
    Obo.terms_to_use parse url given h = Ok (raw_terms, h0) ->
    Obo.build_first_level root_id raw_terms h0 = Ok (f0, h1) ->
    Obo.propagate fuel raw_terms f0 h1 = Ok (f1, h2) ->
    (total f1 < fuel)%nat ->
    exists (i : nat) (h' : Obo.store),
      (i <= total f1)%nat
      /\ (forall j, (j <= i)%nat ->
            Obo.missing_in_forest (cleaned h2 f1 j) h2 []
            = Ok (orphans h2 (cleaned h2 f1 j)))
      /\ (forall j, (j < i)%nat ->
            orphans h2 (cleaned h2 f1 j) <> []
            /\ Obo.delete_nodes (cleaned h2 f1 j)
                 (orphans h2 (cleaned h2 f1 j))
               = Ok (cleaned h2 f1 (S j))
            /\ (total (cleaned h2 f1 (S j)) < total (cleaned h2 f1 j))%nat)
      /\ orphans h2 (cleaned h2 f1 i) = []
      /\ Obo.clean fuel f1 h2 = Ok (cleaned h2 f1 i)
      /\ sub_forest (cleaned h2 f1 i) f1
      /\ Obo.build_tree_from_obo_ontology parse fuel url root_id given m h
         = Ok (kept m (cleaned h2 f1 i), h')
      /\ parent_closed h' (kept m (cleaned h2 f1 i)).
Proof.
  intros parse fuel url root given m h h0 h1 h2 raw f0 f1
    Hterms H0 H1 Hfuel.
  pose proof (build_first_level_sound _ _ _ _ _ H0) as Hs0.
  pose proof (propagate_sound _ _ _ _ _ _ Hs0 H1) as Hs1.
  apply forest_sound_wf in Hs1 as [Hwf1 Hn1].
  destruct (clean_turns h2 fuel f1 Hwf1 Hn1 Hfuel)
    as (i & Hi & Hbefore & Hlast & Hclean).
  exists i, (apply_at annotated (addrs (cleaned h2 f1 i)) h2).
  split; [done|]. split; [|split].
  - intros j _. destruct (cleaned_sound h2 f1 j Hwf1 Hn1) as [_ Hnj].
    by rewrite (missing_in_forest_spec _ _ [] Hnj).
  - intros j Hj. destruct (cleaned_sound h2 f1 j Hwf1 Hn1) as [[Hk Ht] _].
    split; [by apply Hbefore|]. split.
    + pose proof (delete_nodes_forest h2 (cleaned h2 f1 j) [] Hk Ht) as Hd.
      simpl in Hd. exact Hd.
    + pose proof (total_drop_orphans h2 (cleaned h2 f1 j)) as Htot.
      specialize (Hbefore j Hj).
      change (cleaned h2 f1 (S j)) with (drop_orphans h2 (cleaned h2 f1 j)).
      destruct (orphans h2 (cleaned h2 f1 j)); [done|].
      simpl in Htot. lia.
  - split; [done|]. split; [done|]. split; [apply sub_forest_cleaned|].
    rewrite (from_ontology_unfold _ _ _ _ _ _ _ _ _ Hterms).
    destruct (build_tree_stages fuel root raw m h0 h1 h2 f0 f1 _ H0 H1 Hclean)
      as (Heq & _). split; [exact Heq|].
    apply parent_closed_annotated. by apply orphans_nil_closed.
Qed.

(* On the terms of the text with a [Typedef] stanza the loop has work to
   do: A:3 was put into the tree A:2 with the parent part_of, the id of
   the object filed under A:2, which is no key of that tree. *)
Lemma clean_terminates_closed_witness :
  exists f1 h2 f h',
    Obo.propagate 25 terms_typedef
      [("B:1", [("B:1", 1%nat)]); ("A:2", [("A:2", 3%nat)]);
       ("part_of", [("part_of", 3%nat)])]
      (mark_all [1%nat; 3%nat] store_typedef) = Ok (f1, h2)
    /\ Obo.missing_in_forest f1 h2 [] = Ok [("A:2", "A:3")]
    /\ Obo.build_tree_from_obo_ontology no_download 25 None (Some "A:1")
         (Some terms_typedef) None store_typedef = Ok (f, h')
    /\ f = [("B:1", [("B:1", 1%nat); ("A:3", 4%nat)]);
            ("A:2", [("A:2", 3%nat)]); ("part_of", [("part_of", 3%nat)])]
    /\ parent_closed h' f.
Proof.
  assert (exists f0 h1 f1 h2,
            Obo.build_first_level (Some "A:1") terms_typedef store_typedef
            = Ok (f0, h1)
            /\ f0 = [("B:1", [("B:1", 1%nat)]); ("A:2", [("A:2", 3%nat)]);
                     ("part_of", [("part_of", 3%nat)])]
            /\ h1 = mark_all [1%nat; 3%nat] store_typedef
            /\ Obo.propagate 25 terms_typedef f0 h1 = Ok (f1, h2)
            /\ f1 = [("B:1", [("B:1", 1%nat); ("A:3", 4%nat)]);
                     ("A:2", [("A:2", 3%nat); ("A:3", 5%nat)]);
                     ("part_of", [("part_of", 3%nat)])]
            /\ Obo.missing_in_forest f1 h2 [] = Ok [("A:2", "A:3")]
            /\ Obo.clean 25 f1 h2
               = Ok [("B:1", [("B:1", 1%nat); ("A:3", 4%nat)]);
                     ("A:2", [("A:2", 3%nat)]);
                     ("part_of", [("part_of", 3%nat)])])
    as (f0 & h1 & f1 & h2 & H0 & Hf0 & Hh1 & H1 & Hf1 & Hm & Hc).
  { eexists _, _, _, _. split; [vm_compute; reflexivity|].
    split; [reflexivity|]. split; [reflexivity|].
    split; [vm_compute; reflexivity|]. split; [reflexivity|].
    split; vm_compute; reflexivity. }
  destruct (clean_terminates_closed no_download 25%nat None (Some "A:1")
              (Some terms_typedef) None store_typedef store_typedef h1 h2
              terms_typedef f0 f1 eq_refl H0 H1)
    as (i & h' & _ & _ & _ & _ & Hclean & _ & Hbuild & Hcl).
  { rewrite Hf1. unfold total, addrs. simpl. lia. }
  rewrite Hc in Hclean. injection Hclean as Hclean.
  rewrite <- Hclean in Hbuild, Hcl. rewrite Hf0, Hh1 in H1.
  eexists f1, h2, _, h'. split; [exact H1|]. split; [exact Hm|].
  split; [exact Hbuild|]. split; [reflexivity|]. exact Hcl.
Defined.

(** C6, as the code has it.  Graph mode: after a build every node of
    every tree of the returned forest carries the two sentinels and the
    default color.  Flat mode: a node is the node made from its line but
    for the level, so it keeps the color of the line and a count that is
    not zero; only a zero or unreadable count becomes the sentinels. *)
Theorem weights_after_build :
  (forall parse (fuel : nat) (url root_id : option string)
      (given : option (dict addr)) (m : option Z) (h : Obo.store)
      (f : forest) (h' : Obo.store),
      Obo.build_tree_from_obo_ontology parse fuel url root_id given m h
      = Ok (f, h') ->
      forall s t k a, (s, t) ∈ f -> (k, a) ∈ t ->
        exists n, h' !! a = Some n
                  /\ Obo.counts n = Some zero
                  /\ Obo.imported_counts n = Some fake_one
                  /\ Obo.color n = Some "#FFFFFF")
  /\ (forall (rows : list Flat.row) (fuel : nat) (f : forest)
        (h : Flat.store),
        Flat.build_non_separator_based_tree fuel rows = Ok (f, h) ->
        forall s t k a n, (s, t) ∈ f -> (k, a) ∈ t -> h !! a = Some n ->
          exists r i, r ∈ rows /\ i ∈ Flat.r_ids r
                      /\ n = Flat.set_level (Flat.make_node r i) (Flat.level n)).
Proof.
  split.
  - intros parse fuel url root given m h f h' H s t k a Hin Hka.
    unfold Obo.build_tree_from_obo_ontology in H. inv_bind H.
    destruct x as [raw h0]. unfold Obo.build_tree in H.
    inv_bind H. destruct x as [f0 h1].
    inv_bind H. destruct x as [f1 h2].
    inv_bind H. rename x into f2. inv_bind H. rename x into h3.
    inv_bind H. injection H as <- <-.
    apply annotate_forest_Ok in Hx3 as [Hv ->].
    pose proof (prune_elem _ _ _ _ Hx4 Hin) as Hin2.
    pose proof (elem_addrs _ _ _ _ _ Hin2 Hka) as Ha.
    rewrite Forall_forall in Hv. specialize (Hv a Ha).
    apply lookup_lt_is_Some in Hv as [n Hn].
    exists (annotated n). rewrite annotated_lookup, Hn.
    by rewrite decide_True.
  - intros rows fuel f h H s t k a n _ _ Hn.
    eapply flat_fields; eauto.
Qed.

Lemma weights_after_build_witness :
  (exists f h',
     Obo.build_tree_from_obo_ontology no_download 9 None None
       (Some terms_two_parents) None store_two_parents = Ok (f, h')
     /\ exists n, h' !! 4%nat = Some n /\ Obo.counts n = Some zero)
  /\ (exists f h n,
        Flat.build_non_separator_based_tree 5 rows_counted = Ok (f, h)
        /\ h !! 0%nat = Some n /\ Flat.counts n = Int 7).
Proof.
  split.
  - eexists _, _. split; [vm_compute; reflexivity|].
    destruct (proj1 weights_after_build no_download 9%nat None None
                (Some terms_two_parents) None store_two_parents _ _ eq_refl
                "Q" [("Q", 1%nat); ("T", 4%nat)] "T" 4%nat)
      as (n & Hn & Hc & _).
    + right. left.
    + right. left.
    + exists n. split; [exact Hn|exact Hc].
  - eexists _, _, _. split; [vm_compute; reflexivity|].
    split; [reflexivity|].
    destruct (proj2 weights_after_build rows_counted 5%nat _ _ eq_refl
                "A" [("A", 0%nat)] "A" 0%nat _ ltac:(left) ltac:(left) eq_refl)
      as (r & i & Hr & Hi & Heq).
    reflexivity.
Defined.

(** C6 as stated fails in flat mode: a line with count 7 and color
    #112233 gives a node with weight 7, original weight 7 and color
    #112233, not the sentinels and the default color. *)
Lemma flat_count_and_color_survive :
  exists f h n,
    Flat.build_non_separator_based_tree 5 rows_counted = Ok (f, h)
    /\ f = [("A", [("A", 0%nat)])]
    /\ h !! 0%nat = Some n
    /\ Flat.counts n = Int 7 /\ Flat.counts n <> zero
    /\ Flat.imported_counts n = Int 7 /\ Flat.imported_counts n <> fake_one
    /\ Flat.color n = "#112233" /\ Flat.color n <> "#FFFFFF".
Proof.
  eexists _, _, _. split; [vm_compute; reflexivity|].
  repeat split; try reflexivity; discriminate.
Qed.

(** C7, for terms filed under their own ids.  With a dictionary that
    files every term under its own id and whose [is_a] entries have a
    first element: at the fixed point a term with an [is_a] entry whose
    id is a node of a tree is a node of that tree, so a term reaching two
    trees is in both ([closed]); and no object is shared between two
    trees: writing the weight of a node of one tree leaves every node of
    every other tree as it was. *)
Theorem fan_out_copies_are_independent :
  forall parse (fuel : nat) (url root_id : option string)
    (given : option (dict addr)) (m : option Z) (h h0 : Obo.store)
    (raw_terms : dict addr),
    Obo.terms_to_use parse url given h = Ok (raw_terms, h0) ->
    wf_raw raw_terms h0 ->
    (1 <= fuel)%nat -> (length raw_terms * length raw_terms <= fuel)%nat ->
    exists f h',
      Obo.build_tree_from_obo_ontology parse fuel url root_id given m h
      = Ok (f, h')
      /\ closed raw_terms h' f
      /\ forall s1 t1 s2 t2 k1 a1 k2 a2,
           (s1, t1) ∈ f -> (s2, t2) ∈ f -> s1 <> s2 ->
           (k1, a1) ∈ t1 -> (k2, a2) ∈ t2 ->
           a1 <> a2
           /\ forall c, exists h'',
                Obo.update h' a1 (Obo.set_counts c) = Ok h''
                /\ h'' !! a2 = h' !! a2.
Proof.
  intros parse fuel url root given m h h0 raw Hterms Hwf Hf1 Hf2.
  rewrite (from_ontology_unfold _ _ _ _ _ _ _ _ _ Hterms).
  destruct (build_tree_spec fuel root raw m h0 Hwf Hf1 Hf2)
    as (f1 & h1 & Heq & _ & Hok & Hcl).
  eexists _, _. split; [exact Heq|]. split; [by apply closed_annotated|].
  intros s1 t1 s2 t2 k1 a1 k2 a2 Hin1 Hin2 Hne Hk1 Hk2.
  apply kept_elem in Hin1, Hin2. destruct Hok as (_ & _ & Hnd & Hlt).
  assert (a1 <> a2) as Hd.
  { intros ->.
    apply (addrs_disjoint f1 (s1, t1) (s2, t2) a2 Hnd Hin1 Hin2 Hne).
    - apply list_elem_of_fmap. by exists (k1, a2).
    - apply list_elem_of_fmap. by exists (k2, a2). }
  split; [done|]. intros c.
  assert (is_Some (apply_at annotated (addrs f1) h1 !! a1)) as [n Hn].
  { apply lookup_lt_is_Some. rewrite length_apply_at.
    rewrite Forall_forall in Hlt. apply Hlt.
    eapply elem_addrs; [exact Hin1|exact Hk1]. }
  eexists. split; [by apply update_ok|].
  by rewrite list_lookup_insert_ne.
Qed.

Lemma fan_out_copies_are_independent_witness :
  exists f h',
    Obo.build_tree_from_obo_ontology no_download 9 None None
      (Some terms_two_parents) None store_two_parents = Ok (f, h')
    /\ f = [("P", [("P", 0%nat); ("T", 3%nat)]);
            ("Q", [("Q", 1%nat); ("T", 4%nat)])]
    /\ 3%nat <> 4%nat
    /\ exists h'',
         Obo.update h' 3%nat (Obo.set_counts (Int 12)) = Ok h''
         /\ h'' !! 4%nat = h' !! 4%nat.
Proof.
  destruct (fan_out_copies_are_independent no_download 9%nat None None
              (Some terms_two_parents) None store_two_parents
              store_two_parents terms_two_parents eq_refl wf_two_parents)
    as (f & h' & Heq & _ & Hind); [lia|simpl; lia|].
  exists f, h'. split; [exact Heq|].
  assert (f = [("P", [("P", 0%nat); ("T", 3%nat)]);
               ("Q", [("Q", 1%nat); ("T", 4%nat)])]) as Hf.
  { pose proof Heq as Hc. vm_compute in Hc. by injection Hc as <- _. }
  split; [exact Hf|].
  destruct (Hind "P" [("P", 0%nat); ("T", 3%nat)] "Q"
              [("Q", 1%nat); ("T", 4%nat)] "T" 3%nat "T" 4%nat)
    as [Hd Hw].
  - rewrite Hf. left.
  - rewrite Hf. right. left.
  - discriminate.
  - right. left.
  - right. left.
  - split; [exact Hd|]. exact (Hw (Int 12)).
Defined.

(** C7 as stated fails when a term is filed under an id that is not its
    own.  Of the text that ends with a [Typedef] stanza the parser
    returns one object under the two ids A:2 and part_of.  Below the
    root id A:1 it is the seed of the tree A:2 and of the tree part_of:
    writing the weight of the node of one tree changes the node of the
    other.  And the term A:3, which names A:2 and B:1, is a node of the
    tree B:1 only: in the tree A:2 it was given the parent part_of and
    the cleaning took it out. *)
Lemma one_object_in_two_trees :
  parsed_as text_typedef terms_typedef store_typedef
  /\ exists f h',
       Obo.build_tree_from_obo_ontology no_download 25 None (Some "A:1")
         (Some terms_typedef) None store_typedef = Ok (f, h')
       /\ f = [("B:1", [("B:1", 1%nat); ("A:3", 4%nat)]);
               ("A:2", [("A:2", 3%nat)]); ("part_of", [("part_of", 3%nat)])]
       /\ ~ closed terms_typedef h' f
       /\ exists h'',
            Obo.update h' 3%nat (Obo.set_counts (Int 12)) = Ok h''
            /\ h'' !! 3%nat <> h' !! 3%nat.
Proof.
  split; [exact parsed_typedef|].
  eexists _, _. split; [vm_compute; reflexivity|]. split; [reflexivity|].
  split.
  - intros Hcl.
    assert ("A:3" ∈ keys [("A:2", 3%nat)]) as Hin.
    { eapply (Hcl "A:2" _ "A:3" 2%nat _ ["A:2"; "child"] "A:2").
      - right. left.
      - right. right. left.
      - reflexivity.
      - left.
      - reflexivity.
      - left. }
    unfold keys in Hin. simpl in Hin.
    apply list_elem_of_singleton in Hin. discriminate.
  - eexists. split; [vm_compute; reflexivity|]. discriminate.
Qed.

(** C8: pruning.  Whatever the dictionary of terms, let the cleaning
    loop of the builder end with a forest.  Without a threshold the
    builder returns that forest, every tree of it.  With a threshold [T]
    it returns the trees of that forest with at least [T] nodes, as they
    are and in their order, and none of the trees with fewer nodes; the
    objects are the same in both cases. *)
Theorem prune_removes_small_trees :
  forall parse (fuel : nat) (url root_id : option string)
    (given : option (dict addr)) (h h0 h1 h2 : Obo.store)
    (raw_terms : dict addr) (f0 f1 f2 : forest),
    Obo.terms_to_use parse url given h = Ok (raw_terms, h0) ->
    Obo.build_first_level root_id raw_terms h0 = Ok (f0, h1) ->
    Obo.propagate fuel raw_terms f0 h1 = Ok (f1, h2) ->
    Obo.clean fuel f1 h2 = Ok f2 ->
    exists h',
      Obo.build_tree_from_obo_ontology parse fuel url root_id given None h
      = Ok (f2, h')
      /\ forall T : Z,
           Obo.build_tree_from_obo_ontology parse fuel url root_id given
             (Some T) h
           = Ok (filter (fun st => T <= Z.of_nat (length st.2)) f2, h').
Proof.
  intros parse fuel url root given h h0 h1 h2 raw f0 f1 f2 Hterms H0 H1 H2.
  exists (apply_at annotated (addrs f2) h2).
  rewrite !(from_ontology_unfold _ _ _ _ _ _ _ _ _ Hterms). split.
  - by destruct (build_tree_stages fuel root raw None h0 h1 h2 f0 f1 f2
                   H0 H1 H2) as [Heq _].
  - intros T.
    rewrite (from_ontology_unfold _ _ _ _ _ _ _ _ _ Hterms).
    by destruct (build_tree_stages fuel root raw (Some T) h0 h1 h2 f0 f1 f2
                   H0 H1 H2) as [Heq _].
Qed.

Lemma prune_removes_small_trees_witness :
  exists f h' f',
    Obo.build_tree_from_obo_ontology no_download 25 None None
      (Some terms_three_roots) None store_three_roots = Ok (f, h')
    /\ f = [("A", [("A", 0%nat); ("A1", 5%nat); ("A2", 6%nat)]);
            ("B", [("B", 1%nat)]); ("C", [("C", 2%nat)])]
    /\ Obo.build_tree_from_obo_ontology no_download 25 None None
         (Some terms_three_roots) (Some 2) store_three_roots = Ok (f', h')
    /\ f' = [("A", [("A", 0%nat); ("A1", 5%nat); ("A2", 6%nat)])].
Proof.
  assert (exists f0 h1 f1 h2 f2,
            Obo.build_first_level None terms_three_roots store_three_roots
            = Ok (f0, h1)
            /\ Obo.propagate 25 terms_three_roots f0 h1 = Ok (f1, h2)
            /\ Obo.clean 25 f1 h2 = Ok f2
            /\ f2 = [("A", [("A", 0%nat); ("A1", 5%nat); ("A2", 6%nat)]);
                     ("B", [("B", 1%nat)]); ("C", [("C", 2%nat)])])
    as (f0 & h1 & f1 & h2 & f2 & H0 & H1 & H2 & Hf2).
  { eexists _, _, _, _, _. split; [vm_compute; reflexivity|].
    split; [vm_compute; reflexivity|].
    split; [vm_compute; reflexivity|]. reflexivity. }
  destruct (prune_removes_small_trees no_download 25%nat None None
              (Some terms_three_roots) store_three_roots store_three_roots
              h1 h2 terms_three_roots f0 f1 f2 eq_refl H0 H1 H2)
    as (h' & Hnone & Hsome).
  exists f2, h', (filter (fun st => 2 <= Z.of_nat (length st.2)) f2).
  split; [exact Hnone|]. split; [exact Hf2|].
  split; [exact (Hsome 2)|]. rewrite Hf2. reflexivity.
Defined.

(** C9, as the code has it.  The annotation runs before the pruning and
    rewrites the nodes of every tree, also of the trees dropped next.
    What the builder returns is the forest that pruning first and
    annotating afterwards returns, and the two stores agree on every node
    of that forest. *)
Theorem annotation_then_pruning :
  forall (fuel : nat) (root_id : option string) (raw_terms : dict addr)
    (m : option Z) (h : Obo.store) (f : forest) (h' : Obo.store),
    Obo.build_tree fuel root_id raw_terms m h = Ok (f, h') ->
    exists h'',
      build_tree_prune_first fuel root_id raw_terms m h = Ok (f, h'')
      /\ forall a, a ∈ addrs f -> h'' !! a = h' !! a.
Proof.
  intros fuel root raw m h f h' H.
  unfold Obo.build_tree in H. unfold build_tree_prune_first.
  inv_bind H. destruct x as [f0 h0]. rewrite Hx. cbn [bind].
  inv_bind H. destruct x as [f1 h1]. rewrite Hx0. cbn [bind].
  inv_bind H. rename x into f2. rewrite Hx1. cbn [bind].
  inv_bind H. rename x into h2. inv_bind H. injection H as <- <-.
  rewrite Hx3. cbn [bind].
  apply annotate_forest_Ok in Hx2 as [Hv ->].
  assert (forall a, a ∈ addrs x -> a ∈ addrs f2) as Hsub.
  { intros a Ha. unfold addrs in Ha. apply elem_of_concat in Ha as (l & Ha & Hl).
    apply list_elem_of_fmap in Hl as ([s t] & -> & Hst).
    apply list_elem_of_fmap in Ha as ([k a'] & -> & Hk).
    eapply elem_addrs; [|exact Hk]. eapply prune_elem; eauto. }
  rewrite annotate_forest_ok.
  - cbn [bind]. eexists. split; [done|]. intros a Ha.
    rewrite !annotated_lookup. rewrite decide_True by done.
    by rewrite decide_True by auto.
  - rewrite Forall_forall in *. auto.
Qed.

Lemma wf_three_roots : wf_raw terms_three_roots store_three_roots.
Proof.
  split.
  - by apply NoDup_decide.
  - intros k a Hin. unfold terms_three_roots in Hin. elems Hin;
      injection Hin as -> ->; eexists; (split; [reflexivity|]);
      (split; [reflexivity|]); repeat constructor; discriminate.
Qed.

Lemma annotation_then_pruning_witness :
  exists f h' h'',
    Obo.build_tree 25 None terms_three_roots (Some 2) store_three_roots
    = Ok (f, h')
    /\ build_tree_prune_first 25 None terms_three_roots (Some 2)
         store_three_roots = Ok (f, h'')
    /\ forall a, a ∈ addrs f -> h'' !! a = h' !! a.
Proof.
  assert (exists f h',
            Obo.build_tree 25 None terms_three_roots (Some 2) store_three_roots
            = Ok (f, h')) as (f & h' & H).
  { eexists _, _. vm_compute. reflexivity. }
  destruct (annotation_then_pruning _ _ _ _ _ _ _ H) as (h'' & H' & Hag).
  exists f, h', h''. split; [exact H|]. split; [exact H'|exact Hag].
Defined.

(** C9 as stated fails: the annotation is not confined to the final
    forest.  Of three roots A, B, C only A has children; with a minimum
    of 2 nodes the trees of B and C are dropped, yet the builder has
    written the sentinel weight into the node B, which pruning first
    would have left without a weight. *)
Lemma annotation_reaches_pruned_trees :
  exists f h' h'',
    Obo.build_tree 25 None terms_three_roots (Some 2) store_three_roots
    = Ok (f, h')
    /\ build_tree_prune_first 25 None terms_three_roots (Some 2)
         store_three_roots = Ok (f, h'')
    /\ keys f = ["A"] /\ (1%nat ∉ addrs f)
    /\ Obo.counts <$> h' !! 1%nat = Some (Some zero)
    /\ Obo.counts <$> h'' !! 1%nat = Some None
    /\ h' <> h''.
Proof.
  eexists _, _, _. split; [vm_compute; reflexivity|].
  split; [vm_compute; reflexivity|].
  split; [reflexivity|]. split.
  - unfold addrs. simpl. intros Hin. elems Hin; discriminate.
  - split; [reflexivity|]. split; [reflexivity|]. discriminate.
Qed.

(** C10: for an identifier that is not one of the ten known ones, and
    for no identifier at all, [get_remote_ontology] returns [None]: it
    builds nothing, downloads nothing and raises nothing. *)
Theorem unknown_ontology_gives_None :
  forall parse (fuel : nat) (ontology_short : option string)
    (app : option Obo.obo_settings) (h : Obo.store),
    (forall s, ontology_short = Some s -> s ∉ known_ontologies) ->
    Obo.get_remote_ontology parse fuel ontology_short app h = Ok None.
Proof.
  intros parse fuel [s|] app h Hs; [|done].
  specialize (Hs s eq_refl). unfold known_ontologies in Hs.
  repeat (apply not_elem_of_cons in Hs as [? Hs]).
  unfold Obo.get_remote_ontology.
  repeat match goal with
         | H : s <> ?x |- _ =>
             apply String.eqb_neq in H; rewrite H; clear H
         end.
  reflexivity.
Qed.

Lemma unknown_ontology_gives_None_witness :
  Obo.get_remote_ontology no_download 9 (Some "mesh") None [] = Ok None
  /\ Obo.get_remote_ontology no_download 9 None None [] = Ok None.
Proof.
  split; apply unknown_ontology_gives_None.
  - intros s [= <-]. unfold known_ontologies. intros Hin.
    elems Hin; discriminate.
  - intros s Hs. discriminate.
Defined.

(** * Further properties of the code *)

(** ** [sanitize_string] *)

Lemma underscore_is_legal : illegal_char (Ascii.ascii_of_nat 95) = false.
Proof. reflexivity. Qed.

Lemma sanitized_char_legal (c : Ascii.ascii) :
  illegal_char (if illegal_char c then Ascii.ascii_of_nat 95 else c) = false.
Proof. destruct (illegal_char c) eqn:E; [apply underscore_is_legal|exact E]. Qed.

Lemma sanitize_string_legal filename :
  Forall (fun c => illegal_char c = false) (chars (sanitize_string filename)).
Proof.
  induction filename as [|c s IH]; simpl; [constructor|].
  constructor; [apply sanitized_char_legal|done].
Qed.

(** X1: [sanitize_string] keeps the length of the name and leaves no
    character of the forbidden class in it: no angle bracket, colon,
    double quote, slash, backslash, bar, question mark or star, no
    control character, no newline. *)
Theorem sanitize_string_is_clean :
  forall filename : string,
    String.length (sanitize_string filename) = String.length filename
    /\ Forall (fun c => illegal_char c = false)
         (chars (sanitize_string filename)).
Proof.
  intros filename. split; [|apply sanitize_string_legal].
  induction filename as [|c s IH]; simpl; [done|]. by rewrite IH.
Qed.

(** X2: [sanitize_string] changes nothing in a name without forbidden
    characters, so sanitizing twice is sanitizing once; and it works
    character by character: the parts of a name can be sanitized one by
    one. *)
Theorem sanitize_string_idempotent :
  (forall filename,
     Forall (fun c => illegal_char c = false) (chars filename) ->
     sanitize_string filename = filename)
  /\ (forall filename,
        sanitize_string (sanitize_string filename) = sanitize_string filename)
  /\ (forall a b,
        sanitize_string (String.append a b)
        = String.append (sanitize_string a) (sanitize_string b)).
Proof.
  assert (forall filename,
            Forall (fun c => illegal_char c = false) (chars filename) ->
            sanitize_string filename = filename) as Hfix.
  { induction filename as [|c s IH]; simpl; intros H; [done|].
    apply Forall_cons in H as [Hc Hs]. rewrite Hc. by rewrite IH. }
  split; [exact Hfix|]. split.
  - intros s. apply Hfix. apply sanitize_string_legal.
  - induction a as [|c a IH]; intros b; simpl; [done|]. by rewrite IH.
Qed.

Lemma sanitize_string_idempotent_witness :
  sanitize_string "tree of life.tsv" = "tree of life.tsv"
  /\ sanitize_string (sanitize_string "a/b:c") = sanitize_string "a/b:c".
Proof.
  split.
  - apply (proj1 sanitize_string_idempotent). vm_compute.
    repeat constructor.
  - apply (proj1 (proj2 sanitize_string_idempotent)).
Defined.

(** ** [get_remote_ontology] *)

Lemma wrapped_not_None {A : Type} (m : result A) :
  (let* r := m in Ok (Some r)) <> Ok None.
Proof. by destruct m. Qed.

(* decide the string comparisons of the [elif] chain *)
Ltac decide_chain :=
  repeat match goal with
         | |- context [String.eqb ?a ?b] =>
             let v := eval vm_compute in (String.eqb a b) in
             change (String.eqb a b) with v
         end;
  cbn [orb].

(** X3: for each of the ten identifiers it knows, [get_remote_ontology]
    never returns [None]: it returns what the builder returns, or an
    exception is raised. *)
Theorem known_ontology_never_None :
  forall parse (fuel : nat) (s : string) (app : option Obo.obo_settings)
    (h : Obo.store),
    s ∈ known_ontologies ->
    Obo.get_remote_ontology parse fuel (Some s) app h <> Ok None.
Proof.
  intros parse fuel s app h Hs. unfold known_ontologies in Hs.
  unfold Obo.get_remote_ontology.
  elems Hs; subst s; decide_chain; try apply wrapped_not_None.
  1-3: destruct (parse _ h) as [[raw h0]| |]; [|done|done]; cbn [bind];
       destruct (Obo.root_term_id _ _ _ _) as [found| |]; [|done|done];
       cbn [bind]; destruct found; [|done]; cbn [from_option bind];
       apply wrapped_not_None.
  destruct app; [|done]. cbn [from_option bind]. apply wrapped_not_None.
Qed.

Lemma known_ontology_never_None_witness :
  Obo.get_remote_ontology no_download 9 (Some "hpo") None [] <> Ok None.
Proof.
  apply known_ontology_never_None. unfold known_ontologies.
  apply elem_of_cons. by left.
Defined.

Lemma root_term_id_none vals (h : Obo.store) name :
  (forall a, a ∈ vals -> is_Some (h !! a)) ->
  (forall a, a ∈ vals -> ~ labelled_root name h a) ->
  Obo.root_term_id vals h name None = Ok None.
Proof.
  induction vals as [|a vals IH]; intros Hs Hn; [done|].
  cbn [Obo.root_term_id].
  destruct (Hs a ltac:(left)) as [t Ht]. rewrite Ht. cbn [from_option bind].
  assert (Obo.root_term_id vals h name None = Ok None) as Hrest.
  { apply IH; intros; [apply Hs|apply Hn]; by right. }
  destruct (Obo.is_a t) eqn:Hi; [|done].
  destruct (Obo.label t) as [l|] eqn:Hl; [|done].
  destruct (String.eqb_spec l name) as [->|_]; [|done].
  exfalso. apply (Hn a ltac:(left)). exists t. done.
Qed.

Lemma root_term_id_some vals (h : Obo.store) name : forall found r,
  Obo.root_term_id vals h name found = Ok (Some r) ->
  found = Some r
  \/ exists a t, a ∈ vals /\ h !! a = Some t /\ Obo.is_a t = []
                 /\ Obo.label t = Some name /\ Obo.id t = r.
Proof.
  induction vals as [|a vals IH]; intros found r H.
  - left. simpl in H. congruence.
  - cbn [Obo.root_term_id] in H. inv_bind H.
    assert (forall found',
              Obo.root_term_id vals h name found' = Ok (Some r) ->
              found' = found \/ (Obo.is_a x = [] /\ Obo.label x = Some name
                                 /\ found' = Some (Obo.id x)) ->
              found = Some r
              \/ exists a0 t, a0 ∈ a :: vals /\ h !! a0 = Some t
                              /\ Obo.is_a t = [] /\ Obo.label t = Some name
                              /\ Obo.id t = r) as Hstep.
    { intros found' H' Hf. apply IH in H' as [H'|(a0 & t & ? & ? & ?)].
      - destruct Hf as [->|(? & ? & ->)]; [by left|].
        right. exists a, x. injection H' as <-.
        split; [left|done].
      - right. exists a0, t. split; [by right|done]. }
    destruct (Obo.is_a x) eqn:Hi; [|by apply (Hstep found); [|left]].
    destruct (Obo.label x) as [l|] eqn:Hl; [|by apply (Hstep found); [|left]].
    destruct (String.eqb_spec l name) as [->|_].
    + apply (Hstep _ H). by right.
    + apply (Hstep _ H). by left.
Qed.

(** X4: the Gene Ontology branch.  The file is downloaded once.  If no
    root term (a term without [is_a]) of the file carries the label of
    the namespace asked for, [KeyError] is raised; and whenever the
    branch returns a forest, it is the forest built from the downloaded
    terms below the id of a root term with that label, small trees (one
    node) dropped. *)
Theorem go_branch_root_lookup :
  forall parse (fuel : nat) (s : string) (app : option Obo.obo_settings)
    (h h0 : Obo.store) (raw_terms : dict addr),
    s ∈ go_ontologies ->
    parse (Some "https://current.geneontology.org/ontology/go.obo") h
    = Ok (raw_terms, h0) ->
    (forall a, a ∈ values raw_terms -> is_Some (h0 !! a)) ->
    ((forall a, a ∈ values raw_terms ->
        ~ labelled_root (Obo.root_term_translation s) h0 a) ->
     Obo.get_remote_ontology parse fuel (Some s) app h = Raise KeyError)
    /\ (forall r,
          Obo.get_remote_ontology parse fuel (Some s) app h = Ok r ->
          exists a t,
            a ∈ values raw_terms /\ h0 !! a = Some t /\ Obo.is_a t = []
            /\ Obo.label t = Some (Obo.root_term_translation s)
            /\ (let* b := Obo.build_tree fuel (Some (Obo.id t)) raw_terms
                            (Some 2) h0 in Ok (Some b)) = Ok r).
Proof.
  intros parse fuel s app h h0 raw Hs Hparse Hst.
  assert (Obo.get_remote_ontology parse fuel (Some s) app h
          = let* found := Obo.root_term_id (values raw) h0
                            (Obo.root_term_translation s) None in
            let* root_id := from_option KeyError found in
            let* r := Obo.build_tree_from_obo_ontology parse fuel None
                        (Some root_id) (Some raw) (Some 2) h0 in
            Ok (Some r)) as ->.
  { unfold go_ontologies in Hs. unfold Obo.get_remote_ontology.
    elems Hs; subst s; decide_chain; by rewrite Hparse. }
  split.
  - intros Hno. by rewrite root_term_id_none.
  - intros r H. inv_bind H. inv_bind H. subst x.
    apply root_term_id_some in Hx as [?|(a & t & Ha & Ht & Hi & Hl & <-)];
      [done|].
    exists a, t. do 4 (split; [done|]).
    rewrite <- H. f_equal.
    symmetry. apply (from_ontology_unfold parse).
    destruct raw; [by apply elem_of_nil in Ha|done].
Qed.

Lemma go_branch_root_lookup_witness :
  Obo.get_remote_ontology download_root_child 9 (Some "go_bp") None []
  = Raise KeyError.
Proof.
  apply (proj1 (go_branch_root_lookup download_root_child 9 "go_bp" None []
                  store_root_child terms_root_child
                  ltac:(right; right; left) eq_refl
                  ltac:(intros a Ha; vm_compute in Ha; elems Ha; subst a;
                        vm_compute; eauto))).
  intros a Ha (t & Ht & Hi & Hl).
  vm_compute in Ha. elems Ha; subst a; vm_compute in Ht;
    injection Ht as <-; discriminate.
Defined.

(** ** Graph mode: the history of a tree *)

Section Lineage.
Import Obo.

Lemma names_parent_true r (t : entity) :
  names_parent r t = true <-> exists e, e ∈ is_a t /\ head e = Some r.
Proof.
  unfold names_parent. rewrite existsb_exists. split.
  - intros (e & Hin & He). exists e. split; [by apply list_elem_of_In|].
    destruct (head e) as [x|]; [|done].
    apply String.eqb_eq in He. by subst.
  - intros (e & Hin & He). exists e. split; [by apply list_elem_of_In|].
    rewrite He. apply String.eqb_refl.
Qed.

(* a term that is a node of the tree is not put into it again *)
Lemma attach_present term copied is_as : forall (t : tree) (h : store) had,
  term ∈ keys t -> Forall (fun e => e <> []) is_as ->
  attach term copied is_as t h had = Ok (t, h, had).
Proof.
  induction is_as as [|e is_as IH]; intros t h had Hin Hne; [done|].
  apply Forall_cons in Hne as [He Hne]. destruct e as [|x e]; [done|].
  cbn [attach first head from_option bind].
  apply dict_mem_true in Hin. rewrite Hin. rewrite andb_false_r. auto.
  apply IH; [by apply dict_mem_true|done].
Qed.

(** What [attach] does, in full: nothing, or the term goes to the end
    of the tree as a copy whose parent is the first of its [is_a] ids
    that is a node of the tree. *)
Lemma attach_shape raw s term copied is_as : forall (t : tree) (h : store) had
    t' h' had',
  tree_ok raw h s t -> Forall (fun e => e <> []) is_as ->
  attach term copied is_as t h had = Ok (t', h', had') ->
  (t' = t /\ h' = h /\ had' = had)
  \/ (exists e x l,
        e ∈ is_as /\ head e = Some x /\ x ∈ keys t /\ (term ∉ keys t)
        /\ t' = t ++ [(term, length h)]
        /\ h' = h ++ [set_parent x (set_level l copied)] /\ had' = true).
Proof.
  induction is_as as [|e is_as IH]; intros t h had t' h' had' Hok Hne H.
  - left. simpl in H. by injection H as <- <- <-.
  - apply Forall_cons in Hne as [He Hne].
    destruct e as [|x e]; [done|].
    cbn [attach first head from_option bind] in H.
    destruct (dict_mem t x && negb (dict_mem t term)) eqn:Hc.
    + apply andb_true_iff in Hc as [Hx Hterm].
      apply negb_true_iff, dict_mem_false in Hterm.
      pose proof Hx as Hxk. apply dict_mem_true in Hxk.
      apply dict_mem_true, dict_get_is_Some in Hx as [b Hx].
      destruct Hok as (Hnd & Hn & Hk).
      destruct (Hn x b (dict_get_Some_elem _ _ _ Hx))
        as (p & l & pp & Hb & Hidp & Hl & _).
      rewrite (insert_term_ok _ _ _ _ _ _ _ _ Hx Hterm Hb Hl) in H.
      cbn [bind] in H. rewrite attach_present in H; [| |done].
      * injection H as <- <- <-. right. exists (x :: e), x, (l + 1).
        rewrite Hidp. split; [left|]. done.
      * unfold keys. rewrite fmap_app. apply elem_of_app. right. left.
    + apply (IH _ _ _ _ _ _ Hok Hne) in H
        as [?|(e' & x' & l & He' & ?)]; [by left|].
      right. exists e', x', l. split; [by right|done].
Qed.

Lemma grown_store raw n0 (h : store) news s (t : tree) :
  grown raw n0 h s t -> grown raw n0 (h ++ news) s t.
Proof.
  intros [Hseed Hrest]. split; [done|]. intros i k a Hi.
  destruct (Hrest i k a Hi)
    as (Hle & val & copied & e & p & l & ? & Hval & ? & ? & ? & Ha).
  split; [done|]. exists val, copied, e, p, l.
  do 1 (split; [done|]). split; [by apply lookup_app_l_Some|].
  do 3 (split; [done|]). by apply lookup_app_l_Some.
Qed.

Lemma grown_insert raw n0 (h : store) s (t : tree) term val copied e x l :
  grown raw n0 h s t -> (n0 <= length h)%nat ->
  (term, val) ∈ raw -> h !! val = Some copied ->
  e ∈ is_a copied -> head e = Some x -> x ∈ keys t ->
  grown raw n0 (h ++ [set_parent x (set_level l copied)]) s
        (t ++ [(term, length h)]).
Proof.
  intros Hg Hn0 Hraw Hval He Hh Hx.
  pose proof (grown_store raw n0 h [set_parent x (set_level l copied)] s t Hg)
    as [Hseed Hrest].
  split.
  - destruct Hseed as (a & H0 & ?). exists a.
    split; [by apply lookup_app_l_Some|done].
  - intros i k a Hi. apply lookup_app_Some in Hi as [Hi|[Hlen Hi]].
    + destruct (Hrest i k a Hi)
        as (Hle & val' & copied' & e' & p & l' & ? & ? & ? & ? & Hp & ?).
      split; [done|]. exists val', copied', e', p, l'.
      do 4 (split; [done|]). split; [|done].
      rewrite take_app_le; [done|].
      apply lookup_lt_Some in Hi. lia.
    + destruct (S i - length t)%nat as [|j] eqn:Hj; [|by destruct j].
      simpl in Hi. injection Hi as <- <-. split; [done|].
      exists val, copied, e, x, l. rewrite lookup_last.
      do 1 (split; [done|]). split; [by apply lookup_app_l_Some|].
      do 2 (split; [done|]). split; [|done].
      assert (S i = length t) as -> by lia.
      by rewrite take_app_length.
Qed.

Lemma scan_terms_grown raw n0 s items : forall (t : tree) (h : store) had
    t' h' had',
  wf_raw raw h -> tree_ok raw h s t -> (n0 <= length h)%nat ->
  (forall k a, (k, a) ∈ items -> (k, a) ∈ raw) ->
  grown raw n0 h s t ->
  scan_terms items t h had = Ok (t', h', had') ->
  grown raw n0 h' s t'.
Proof.
  induction items as [|[term val] items IH];
    intros t h had t' h' had' Hwf Hok Hn0 Hsub Hg H.
  - simpl in H. by injection H as <- <- <-.
  - cbn [scan_terms] in H.
    assert ((term, val) ∈ raw) as Hraw by (apply Hsub; left).
    pose proof Hwf as [Hnd Hwf'].
    destruct (Hwf' term val Hraw) as (copied & Hval & Hid & Hne).
    rewrite Hval in H. cbn [from_option bind] in H.
    destruct (attach_spec raw s term copied (is_a copied) t h had Hok
                (elem_keys _ _ _ Hraw) Hid Hne)
      as (t1 & news & had1 & Heq & Hok1 & _).
    rewrite Heq in H. cbn [bind] in H.
    assert (forall k a, (k, a) ∈ items -> (k, a) ∈ raw) as Hsub'
      by (intros; apply Hsub; by right).
    apply (IH _ _ _ _ _ _ (wf_raw_store _ _ news Hwf) Hok1) in H; try done.
    + rewrite length_app. lia.
    + apply (attach_shape raw s) in Heq
        as [(-> & Hh & _)|(e & x & l & He & Hx & Hxt & _ & -> & Hh & _)];
        try done.
      * rewrite Hh. done.
      * rewrite Hh. by eapply grown_insert.
Qed.

Lemma scan_forest_grown raw n0 : forall (f : forest) (h : store) had
    f' h' had',
  wf_raw raw h -> (n0 <= length h)%nat ->
  (forall s t, (s, t) ∈ f -> tree_ok raw h s t) ->
  (forall s t, (s, t) ∈ f -> grown raw n0 h s t) ->
  scan_forest raw f h had = Ok (f', h', had') ->
  (exists news, h' = h ++ news)
  /\ forall s t, (s, t) ∈ f' -> grown raw n0 h' s t.
Proof.
  induction f as [|[s t] f IH]; intros h had f' h' had' Hwf Hn0 Hok Hg H.
  - simpl in H. injection H as <- <- <-. split.
    + exists []. by rewrite app_nil_r.
    + intros s t Hin. by apply elem_of_nil in Hin.
  - cbn [scan_forest] in H.
    destruct (scan_terms_spec raw s raw t h had Hwf (Hok s t ltac:(left))
                ltac:(auto))
      as (new & news1 & had1 & Heq1 & Hok1 & _).
    pose proof (scan_terms_grown raw n0 s raw _ _ _ _ _ _ Hwf
                  (Hok s t ltac:(left)) Hn0 ltac:(auto)
                  (Hg s t ltac:(left)) Heq1) as Hg1.
    rewrite Heq1 in H. cbn [bind] in H.
    destruct (scan_forest raw f (h ++ news1) had1)
      as [[[f1 h2] had2]| |] eqn:E; [|done|done].
    cbn [bind] in H. injection H as <- <- <-.
    apply IH in E as [[news2 ->] Hg2].
    + split; [exists (news1 ++ news2); by rewrite app_assoc|].
      intros s' t' Hin. apply elem_of_cons in Hin as [Hin|Hin]; [|auto].
      injection Hin as -> ->. by apply grown_store.
    + by apply wf_raw_store.
    + rewrite length_app. lia.
    + intros s' t' Hin. apply tree_ok_store. apply Hok. by right.
    + intros s' t' Hin. apply grown_store. apply Hg. by right.
Qed.

Lemma propagate_grown raw n0 : forall fuel (f : forest) (h : store) f' h',
  wf_raw raw h -> forest_ok raw h f -> (n0 <= length h)%nat ->
  (forall s t, (s, t) ∈ f -> grown raw n0 h s t) ->
  propagate fuel raw f h = Ok (f', h') ->
  forall s t, (s, t) ∈ f' -> grown raw n0 h' s t.
Proof.
  induction fuel as [|fuel IH]; intros f h f' h' Hwf Hfo Hn0 Hg H; [done|].
  pose proof Hfo as (Hk & Hok & Hnd & Hlt).
  cbn [propagate] in H.
  destruct (scan_forest_spec raw f h false [] Hwf Hok Hnd Hlt)
    as (f1 & news & had & Heq & Hk1 & Hok1 & Hnd1 & Hlt1 & _).
  destruct (scan_forest_grown raw n0 _ _ _ _ _ _ Hwf Hn0 Hok Hg Heq)
    as [_ Hg1].
  rewrite Heq in H. cbn [bind] in H. simpl in Hnd1, Hlt1.
  destruct had.
  - intros s t Hin.
    eapply (IH f1 (h ++ news)); [| | | |exact H|exact Hin]; try done.
    + by apply wf_raw_store.
    + split; [by rewrite Hk1|]. done.
    + rewrite length_app. lia.
  - by injection H as <- <-.
Qed.

Lemma grown_first_level root raw (h : store) s t :
  (s, t) ∈ seeds_of (tree_starts root h raw) ->
  grown raw (length h) (mark_all (values (tree_starts root h raw)) h) s t.
Proof.
  intros Hin. unfold seeds_of in Hin.
  apply list_elem_of_fmap in Hin as ([k a] & Heq & Hin).
  simpl in Heq. injection Heq as -> ->. split.
  - exists a. split; [done|]. by eapply tree_starts_elem.
  - intros i k' a' Hi. done.
Qed.

(** The builder, step by step: the first level, the forest [f1] of the
    propagation over the store with the new objects [news], the
    cleaning that finds nothing to do, annotation and pruning. *)
Lemma build_tree_full fuel root raw m (h : store) :
  wf_raw raw h -> (1 <= fuel)%nat -> (length raw * length raw <= fuel)%nat ->
  exists f1 news,
    let sel := tree_starts root h raw in
    let h1 := mark_all (values sel) h ++ news in
    propagate fuel raw (seeds_of sel) (mark_all (values sel) h) = Ok (f1, h1)
    /\ clean fuel f1 h1 = Ok f1
    /\ build_tree fuel root raw m h
       = Ok (kept m f1, apply_at annotated (addrs f1) h1)
    /\ wf_raw raw h1 /\ forest_ok raw h1 f1 /\ closed raw h1 f1
    /\ keys f1 = keys sel
    /\ forall s t, (s, t) ∈ f1 -> grown raw (length h) h1 s t.
Proof.
  intros Hwf Hfuel1 Hfuel. unfold build_tree.
  rewrite (build_first_level_ok root raw h Hwf). cbn [bind].
  set (sel := tree_starts root h raw).
  pose proof (forest_ok_first_level root raw h Hwf) as Hfo. fold sel in Hfo.
  pose proof (wf_raw_mark_all raw (values sel) h Hwf) as Hwf0.
  destruct (propagate_spec raw fuel _ _ Hwf0 Hfo)
    as (f1 & news & Heq & Hwf1 & Hfo1 & Hcl & Hk).
  { unfold total. rewrite addrs_seeds_of. unfold seeds_of, values.
    rewrite !length_fmap.
    pose proof (length_tree_starts root h raw). fold sel in H. nia. }
  exists f1, news. cbn zeta. rewrite Heq. cbn [bind].
  split; [done|].
  destruct fuel as [|fuel']; [lia|].
  destruct (forest_ok_wf _ _ _ Hfo1) as [Hwff Hnp].
  rewrite clean_step by done.
  rewrite (forest_ok_no_orphans _ _ _ Hfo1). cbn [bind].
  split; [done|].
  pose proof Hfo1 as (Hkeys & _ & _ & Hlt).
  rewrite (annotate_forest_ok _ _ Hlt). cbn [bind].
  rewrite (prune_kept _ m Hkeys). cbn [bind].
  do 4 (split; [done|]). split; [by rewrite Hk, keys_seeds_of|].
  eapply (propagate_grown raw (length h)); [exact Hwf0|exact Hfo| | |exact Heq].
  - by rewrite length_mark_all.
  - intros s t Hin. by apply grown_first_level.
Qed.
End Lineage.

(** ** Graph mode: the forest that is returned *)

Section GraphResult.
Import Obo.

Lemma keys_lookup {V : Type} (d : dict V) k :
  k ∈ keys d -> exists i v, d !! i = Some (k, v).
Proof.
  intros Hin. apply list_elem_of_fmap in Hin as ([k' v] & -> & Hin).
  apply list_elem_of_lookup_1 in Hin as [i Hi]. eauto.
Qed.

Lemma lookup_keys {V : Type} (d : dict V) i k v :
  d !! i = Some (k, v) -> k ∈ keys d.
Proof.
  intros Hi. apply list_elem_of_lookup_2 in Hi. by eapply elem_keys.
Qed.

Lemma dict_value_unique {V : Type} (d : dict V) k v v' :
  NoDup (keys d) -> (k, v) ∈ d -> (k, v') ∈ d -> v = v'.
Proof.
  intros Hnd H1 H2. apply (elem_dict_get _ _ _ Hnd) in H1, H2. congruence.
Qed.

(* the object of a parsed term when the propagation runs *)
Lemma raw_object_marked nodes (h : store) news a t0 :
  h !! a = Some t0 ->
  (mark_all nodes h ++ news) !! a
  = Some (if decide (a ∈ nodes) then mark_root t0 else t0).
Proof.
  intros Ha. rewrite lookup_app_l
    by (rewrite length_mark_all; eapply lookup_lt_Some; eauto).
  rewrite mark_all_lookup, Ha. by case_decide.
Qed.

Lemma set_over_mark p l t :
  set_parent p (set_level l (mark_root t)) = set_parent p (set_level l t).
Proof. by destruct t. Qed.

Lemma same_term_annotated p l t :
  same_term (annotated (set_parent p (set_level l t))) t.
Proof. by destruct t. Qed.

Lemma describe_annotated p l t :
  description (annotated (set_parent p (set_level l t))) = Some (describe t).
Proof. by destruct t. Qed.

(* the seed of a tree of the propagation is a starting term *)
Lemma seed_is_start root raw (h : store) (f1 : forest) s a :
  NoDup (keys raw) -> keys f1 = keys (tree_starts root h raw) ->
  s ∈ keys f1 -> (s, a) ∈ raw -> (s, a) ∈ tree_starts root h raw.
Proof.
  intros Hnd Hk Hs Hraw. rewrite Hk in Hs.
  apply list_elem_of_fmap in Hs as ([s' a'] & -> & Hin). simpl in *.
  pose proof (tree_starts_elem _ _ _ _ _ Hin) as Hraw'.
  by rewrite (dict_value_unique raw s' a a' Hnd Hraw Hraw').
Qed.

Lemma elem_addrs_inv (f : forest) a :
  a ∈ addrs f -> exists s t k, (s, t) ∈ f /\ (k, a) ∈ t.
Proof.
  unfold addrs. intros Hin. apply elem_of_concat in Hin as (l & Ha & Hl).
  apply list_elem_of_fmap in Hl as ([s t] & -> & Hst).
  apply list_elem_of_fmap in Ha as ([k a'] & -> & Hk). eauto.
Qed.

(* every node of a grown tree descends from the seed *)
Lemma grown_descends raw n0 (h1 h0 : store) s (t : tree) :
  (forall k val c, (k, val) ∈ raw -> h1 !! val = Some c ->
     exists t0, h0 !! val = Some t0 /\ is_a c = is_a t0) ->
  grown raw n0 h1 s t ->
  forall i k a, t !! i = Some (k, a) -> descends raw h0 s k.
Proof.
  intros Hraw [(a0 & H0 & _) Hrest] i.
  induction i as [i IH] using lt_wf_ind. intros k a Hi.
  destruct i as [|j].
  - rewrite H0 in Hi. injection Hi as <- <-. constructor.
  - destruct (Hrest j k a Hi)
      as (_ & val & copied & e & p & l & Hk & Hval & He & Hp & Hin & _).
    apply list_elem_of_fmap in Hin as ([p' b] & -> & Hin). simpl in *.
    apply elem_of_take in Hin as (i' & Hi' & Hlt).
    apply (descends_step _ _ _ _ p'); [by apply (IH i' Hlt p' b)|].
    destruct (Hraw k val copied Hk Hval) as (t0 & Ht0 & Hisa).
    exists val, t0. do 2 (split; [done|]).
    apply names_parent_true. exists e. by rewrite <- Hisa.
Qed.

(* at the fixed point the descendants of the seed are in its tree *)
Lemma descends_in_tree raw (h1 h0 : store) (f : forest) s (t : tree) :
  (forall k val t0, (k, val) ∈ raw -> h0 !! val = Some t0 ->
     exists c, h1 !! val = Some c /\ is_a c = is_a t0) ->
  closed raw h1 f -> (s, t) ∈ f -> s ∈ keys t ->
  forall k, descends raw h0 s k -> k ∈ keys t.
Proof.
  intros Hraw Hcl Hin Hs k Hd. induction Hd as [|k p Hd IH Hedge]; [done|].
  destruct Hedge as (a & t0 & Hk & Ht0 & Hn).
  apply names_parent_true in Hn as (e & He & Hp).
  destruct (Hraw k a t0 Hk Ht0) as (c & Hc & Hisa).
  rewrite <- Hisa in He.
  exact (Hcl s t k a c e p Hin Hk Hc He Hp IH).
Qed.

(** The forest [build_tree] returns, with all that is known of it. *)
Lemma build_tree_result fuel root raw m (h : store) :
  wf_raw raw h -> (1 <= fuel)%nat -> (length raw * length raw <= fuel)%nat ->
  exists f1 h1,
    build_tree fuel root raw m h
    = Ok (kept m f1, apply_at annotated (addrs f1) h1)
    /\ forest_ok raw h1 f1
    /\ keys f1 = keys (tree_starts root h raw)
    /\ (length h <= length h1)%nat
    /\ (forall a t0, h !! a = Some t0 ->
          h1 !! a
          = Some (if decide (a ∈ values (tree_starts root h raw))
                  then mark_root t0 else t0))
    /\ (forall s t, (s, t) ∈ f1 -> grown raw (length h) h1 s t)
    /\ (forall s t, (s, t) ∈ f1 ->
          forall k, k ∈ keys t <-> descends raw h s k).
Proof.
  intros Hwf Hf1 Hf2.
  destruct (build_tree_full fuel root raw m h Hwf Hf1 Hf2)
    as (f1 & news & _ & _ & Heq & Hwf1 & Hfo & Hcl & Hk & Hg).
  cbn zeta in *.
  exists f1, (mark_all (values (tree_starts root h raw)) h ++ news).
  do 3 (split; [done|]).
  split; [rewrite length_app, length_mark_all; lia|].
  split; [intros a t0 Ha; by apply raw_object_marked|].
  split; [done|].
  intros s t Hin k. pose proof Hwf as [Hnd Hraw]. split.
  - intros Hkt. apply keys_lookup in Hkt as (i & a & Hi).
    eapply (grown_descends raw); [|by apply Hg|exact Hi].
    intros k' val c Hk' Hc. destruct (Hraw k' val Hk') as (t0 & Ht0 & _).
    exists t0. split; [done|].
    rewrite (raw_object_marked _ _ news _ _ Ht0) in Hc. injection Hc as <-.
    case_decide; [apply mark_root_is_a|done].
  - apply (descends_in_tree raw
             (mark_all (values (tree_starts root h raw)) h ++ news) h f1);
      try done.
    + intros k' val t0 Hk' Ht0. eexists.
      split; [by apply raw_object_marked|].
      case_decide; [apply mark_root_is_a|done].
    + destruct (Hg s t Hin) as [(a & H0 & _) _]. by eapply lookup_keys.
Qed.
End GraphResult.

(** X5: the trees of graph mode, for a dictionary that files every term
    under its own id and whose [is_a] entries have a first element.
    Every tree of the returned forest is filed under the id of a
    starting term (a child of the explicit root id, or a term without
    [is_a]), in the order of [raw_terms], and its first node is that
    term, the very object of [raw_terms].  A tree always holds its seed,
    so a minimal size of 1 or less drops nothing: then every starting
    term has its tree. *)
Theorem graph_forest_trees :
  forall parse (fuel : nat) (url root_id : option string)
    (given : option (dict addr)) (m : option Z) (h h0 : Obo.store)
    (raw_terms : dict addr),
    Obo.terms_to_use parse url given h = Ok (raw_terms, h0) ->
    wf_raw raw_terms h0 ->
    (1 <= fuel)%nat -> (length raw_terms * length raw_terms <= fuel)%nat ->
    exists f h',
      Obo.build_tree_from_obo_ontology parse fuel url root_id given m h
      = Ok (f, h')
      /\ sublist (keys f) (keys (tree_starts root_id h0 raw_terms))
      /\ ((forall T, m = Some T -> T <= 1) ->
          keys f = keys (tree_starts root_id h0 raw_terms))
      /\ forall s t, (s, t) ∈ f ->
           exists a rest, t = (s, a) :: rest
                          /\ (s, a) ∈ tree_starts root_id h0 raw_terms.
Proof.
  intros parse fuel url root given m h h0 raw Hterms Hwf Hf1 Hf2.
  rewrite (from_ontology_unfold _ _ _ _ _ _ _ _ _ Hterms).
  destruct (build_tree_result fuel root raw m h0 Hwf Hf1 Hf2)
    as (f1 & h1 & Heq & Hfo & Hk & _ & _ & Hg & _).
  eexists _, _. split; [exact Heq|].
  assert (forall s t, (s, t) ∈ f1 ->
            exists a rest, t = (s, a) :: rest
                           /\ (s, a) ∈ tree_starts root h0 raw) as Hseed.
  { intros s t Hin. destruct (Hg s t Hin) as [(a & H0 & Hraw) _].
    destruct t as [|x rest]; [done|]. simpl in H0. injection H0 as ->.
    exists a, rest. split; [done|].
    apply (seed_is_start root raw h0 f1); try done; [apply Hwf|].
    by eapply elem_keys. }
  split; [|split].
  - rewrite <- Hk. apply fmap_sublist. destruct m as [T|]; [|done].
    apply sublist_filter.
  - intros HT. rewrite <- Hk. f_equal. destruct m as [T|]; [|done].
    simpl. apply filter_all. apply Forall_forall. intros [s t] Hin.
    destruct (Hseed s t Hin) as (a & rest & -> & _).
    specialize (HT T eq_refl). simpl. lia.
  - intros s t Hin. apply Hseed. by eapply kept_elem.
Qed.

Lemma graph_forest_trees_witness :
  exists f h',
    Obo.build_tree_from_obo_ontology no_download 25 None None
      (Some terms_three_roots) (Some 1) store_three_roots = Ok (f, h')
    /\ keys f = keys (tree_starts None store_three_roots terms_three_roots)
    /\ keys f = ["A"; "B"; "C"].
Proof.
  destruct (graph_forest_trees no_download 25%nat None None
              (Some terms_three_roots) (Some 1) store_three_roots
              store_three_roots terms_three_roots eq_refl wf_three_roots)
    as (f & h' & Heq & _ & Hk & _); [lia|simpl; lia|].
  exists f, h'. split; [exact Heq|].
  assert (keys f = keys (tree_starts None store_three_roots
                           terms_three_roots)) as Hk'.
  { apply Hk. intros T [= <-]. lia. }
  split; [exact Hk'|]. rewrite Hk'. reflexivity.
Defined.

(** X6: what a tree of graph mode holds, for a dictionary that files
    every term under its own id and whose [is_a] entries have a first
    element.  In the returned forest the tree filed under [s] holds,
    once each, exactly the terms below [s]: [s] itself and the terms
    that reach [s] by following [is_a] entries of [raw_terms]. *)
Theorem tree_holds_descendants :
  forall parse (fuel : nat) (url root_id : option string)
    (given : option (dict addr)) (m : option Z) (h h0 : Obo.store)
    (raw_terms : dict addr),
    Obo.terms_to_use parse url given h = Ok (raw_terms, h0) ->
    wf_raw raw_terms h0 ->
    (1 <= fuel)%nat -> (length raw_terms * length raw_terms <= fuel)%nat ->
    exists f h',
      Obo.build_tree_from_obo_ontology parse fuel url root_id given m h
      = Ok (f, h')
      /\ forall s t, (s, t) ∈ f ->
           NoDup (keys t)
           /\ forall k, k ∈ keys t <-> descends raw_terms h0 s k.
Proof.
  intros parse fuel url root given m h h0 raw Hterms Hwf Hf1 Hf2.
  rewrite (from_ontology_unfold _ _ _ _ _ _ _ _ _ Hterms).
  destruct (build_tree_result fuel root raw m h0 Hwf Hf1 Hf2)
    as (f1 & h1 & Heq & Hfo & _ & _ & _ & _ & Hd).
  eexists _, _. split; [exact Heq|].
  intros s t Hin. apply kept_elem in Hin. split; [|by apply Hd].
  destruct Hfo as (_ & Hok & _). by destruct (Hok s t Hin).
Qed.

Lemma tree_holds_descendants_witness :
  exists f h',
    Obo.build_tree_from_obo_ontology no_download 25 None None
      (Some terms_two_parents) None store_two_parents = Ok (f, h')
    /\ forall s t, (s, t) ∈ f ->
         NoDup (keys t)
         /\ forall k, k ∈ keys t
                      <-> descends terms_two_parents store_two_parents s k.
Proof.
  apply (tree_holds_descendants no_download 25%nat None None
           (Some terms_two_parents) None store_two_parents
           store_two_parents terms_two_parents eq_refl wf_two_parents);
    [lia|simpl; lia].
Defined.

(** X7: the nodes of graph mode, for a dictionary that files every term
    under its own id and whose [is_a] entries have a first element.
    The node at the head of a tree is the
    object of its term in [raw_terms], at level 0 with an empty parent.
    Every other node is an object made by the builder, a copy of its
    term: the keys read from the file are those of the term, the parent
    is an id the term names in [is_a] and a node that comes earlier in
    the same tree.  All nodes carry the counts and the color of the
    annotation, and a description made of the term's [def] and
    [comment]. *)
Theorem graph_nodes_are_copies :
  forall parse (fuel : nat) (url root_id : option string)
    (given : option (dict addr)) (m : option Z) (h h0 : Obo.store)
    (raw_terms : dict addr),
    Obo.terms_to_use parse url given h = Ok (raw_terms, h0) ->
    wf_raw raw_terms h0 ->
    (1 <= fuel)%nat -> (length raw_terms * length raw_terms <= fuel)%nat ->
    exists f h',
      Obo.build_tree_from_obo_ontology parse fuel url root_id given m h
      = Ok (f, h')
      /\ forall s t i k a, (s, t) ∈ f -> t !! i = Some (k, a) ->
           exists val t0 n p l,
             (k, val) ∈ raw_terms /\ h0 !! val = Some t0
             /\ h' !! a = Some n
             /\ n = annotated (Obo.set_parent p (Obo.set_level l t0))
             /\ same_term n t0
             /\ Obo.description n = Some (Obo.describe t0)
             /\ match i with
                | O => k = s /\ a = val /\ p = "" /\ l = 0
                | S _ => (length h0 <= a)%nat
                         /\ names_parent p t0 = true
                         /\ p ∈ keys (take i t)
                end.
Proof.
  intros parse fuel url root given m h h0 raw Hterms Hwf Hf1 Hf2.
  rewrite (from_ontology_unfold _ _ _ _ _ _ _ _ _ Hterms).
  destruct (build_tree_result fuel root raw m h0 Hwf Hf1 Hf2)
    as (f1 & h1 & Heq & Hfo & Hk & _ & Hmark & Hg & _).
  eexists _, _. split; [exact Heq|].
  intros s t i k a Hin Hi. apply kept_elem in Hin.
  pose proof Hwf as [Hnd Hraw].
  assert (a ∈ addrs f1) as Ha
    by (eapply elem_addrs; [exact Hin|by eapply list_elem_of_lookup_2]).
  rewrite annotated_lookup, decide_True by done.
  destruct (Hg s t Hin) as [(a0 & H0 & Hs) Hrest].
  destruct i as [|j].
  - rewrite H0 in Hi. injection Hi as <- <-.
    destruct (Hraw s a0 Hs) as (t0 & Ht0 & _).
    exists a0, t0, (annotated (mark_root t0)), "", 0.
    do 2 (split; [done|]). rewrite (Hmark a0 t0 Ht0).
    rewrite decide_True.
    + split; [done|]. split; [done|].
      split; [apply same_term_annotated|].
      split; [apply describe_annotated|done].
    + apply list_elem_of_fmap. exists (s, a0). split; [done|].
      apply (seed_is_start root raw h0 f1); try done.
      by eapply elem_keys.
  - destruct (Hrest j k a Hi)
      as (Hle & val & copied & e & p & l & Hkv & Hval & He & Hp & Hpt & Hn).
    destruct (Hraw k val Hkv) as (t0 & Ht0 & _).
    rewrite (Hmark val t0 Ht0) in Hval. injection Hval as <-.
    exists val, t0, (annotated (Obo.set_parent p (Obo.set_level l t0))), p, l.
    do 2 (split; [done|]). rewrite Hn.
    assert (Obo.is_a (if decide (val ∈ values (tree_starts root h0 raw))
                      then mark_root t0 else t0) = Obo.is_a t0) as Hisa
      by (case_decide; [apply mark_root_is_a|done]).
    split; [case_decide; [by rewrite set_over_mark|done]|].
    split; [done|]. split; [apply same_term_annotated|].
    split; [apply describe_annotated|].
    split; [done|]. split; [|done].
    apply names_parent_true. exists e. by rewrite <- Hisa.
Qed.

Lemma graph_nodes_are_copies_witness :
  exists f h',
    Obo.build_tree_from_obo_ontology no_download 25 None None
      (Some terms_two_parents) None store_two_parents = Ok (f, h')
    /\ exists t0 n l,
         store_two_parents !! 2%nat = Some t0
         /\ h' !! 3%nat = Some n
         /\ n = annotated (Obo.set_parent "P" (Obo.set_level l t0))
         /\ Obo.description n = Some (Obo.describe t0).
Proof.
  destruct (graph_nodes_are_copies no_download 25%nat None None
              (Some terms_two_parents) None store_two_parents
              store_two_parents terms_two_parents eq_refl wf_two_parents)
    as (f & h' & Heq & Hn); [lia|simpl; lia|].
  exists f, h'. split; [exact Heq|].
  assert (f = [("P", [("P", 0%nat); ("T", 3%nat)]);
               ("Q", [("Q", 1%nat); ("T", 4%nat)])]) as Hf.
  { pose proof Heq as Hc. vm_compute in Hc. by injection Hc as <- _. }
  destruct (Hn "P" [("P", 0%nat); ("T", 3%nat)] 1%nat "T" 3%nat)
    as (val & t0 & n & p & l & Hraw & Ht0 & Hh & Hnn & _ & Hd & _ & _ & Hp).
  - rewrite Hf. left.
  - reflexivity.
  - assert (val = 2%nat) as ->.
    { unfold terms_two_parents in Hraw. elems Hraw; congruence. }
    assert (p = "P") as ->.
    { simpl in Hp. unfold keys in Hp. simpl in Hp.
      by apply list_elem_of_singleton in Hp. }
    exists t0, n, l. done.
Defined.

(** X8: the builder writes into its input (a dictionary that files
    every term under its own id and whose [is_a] entries have a first
    element).  The objects of the terms
    that start a tree are the seeds themselves, not copies: after a
    build they are at level 0 with an empty parent and carry counts,
    color and description, also when their tree was dropped as too
    small.  Every other object that existed before is left as it was. *)
Theorem builder_marks_starting_terms :
  forall parse (fuel : nat) (url root_id : option string)
    (given : option (dict addr)) (m : option Z) (h h0 : Obo.store)
    (raw_terms : dict addr),
    Obo.terms_to_use parse url given h = Ok (raw_terms, h0) ->
    wf_raw raw_terms h0 ->
    (1 <= fuel)%nat -> (length raw_terms * length raw_terms <= fuel)%nat ->
    exists f h',
      Obo.build_tree_from_obo_ontology parse fuel url root_id given m h
      = Ok (f, h')
      /\ forall a t0, h0 !! a = Some t0 ->
           h' !! a
           = Some (if decide (a ∈ values (tree_starts root_id h0 raw_terms))
                   then annotated (mark_root t0) else t0).
Proof.
  intros parse fuel url root given m h h0 raw Hterms Hwf Hf1 Hf2.
  rewrite (from_ontology_unfold _ _ _ _ _ _ _ _ _ Hterms).
  destruct (build_tree_result fuel root raw m h0 Hwf Hf1 Hf2)
    as (f1 & h1 & Heq & Hfo & Hk & _ & Hmark & Hg & _).
  eexists _, _. split; [exact Heq|].
  intros a t0 Ha. pose proof Hwf as [Hnd Hraw].
  rewrite annotated_lookup, (Hmark a t0 Ha).
  assert (a ∈ addrs f1 <-> a ∈ values (tree_starts root h0 raw)) as Hiff.
  { split.
    - intros Hin. apply elem_addrs_inv in Hin as (s & t & k & Hst & Hka).
      apply list_elem_of_lookup_1 in Hka as [i Hi].
      destruct (Hg s t Hst) as [(a0 & H0 & Hs) Hrest].
      destruct i as [|j].
      + rewrite H0 in Hi. injection Hi as <- <-.
        apply list_elem_of_fmap. exists (s, a0). split; [done|].
        apply (seed_is_start root raw h0 f1); try done.
        by eapply elem_keys.
      + destruct (Hrest j k a Hi) as [Hle _].
        apply lookup_lt_Some in Ha. lia.
    - intros Hin. apply list_elem_of_fmap in Hin as ([s a'] & -> & Hin).
      simpl. pose proof (elem_keys _ _ _ Hin) as Hs. rewrite <- Hk in Hs.
      apply list_elem_of_fmap in Hs as ([s' t] & -> & Hst). simpl in *.
      destruct (Hg s' t Hst) as [(a0 & H0 & Hs0) _].
      apply tree_starts_elem in Hin.
      rewrite (dict_value_unique raw s' a' a0 Hnd Hin Hs0).
      eapply elem_addrs; [exact Hst|]. by eapply list_elem_of_lookup_2. }
  destruct (decide (a ∈ values (tree_starts root h0 raw))) as [Hv|Hv].
  - rewrite decide_True by (by apply Hiff). done.
  - rewrite decide_False by (by rewrite Hiff). done.
Qed.

Lemma builder_marks_starting_terms_witness :
  exists f h',
    Obo.build_tree_from_obo_ontology no_download 25 None None
      (Some terms_three_roots) (Some 2) store_three_roots = Ok (f, h')
    /\ keys f = ["A"]
    /\ h' !! 1%nat = Some (annotated (mark_root (Obo.new_entity "B" [])))
    /\ h' !! 3%nat = Some (Obo.new_entity "A1" [["A"; "a"]]).
Proof.
  destruct (builder_marks_starting_terms no_download 25%nat None None
              (Some terms_three_roots) (Some 2) store_three_roots
              store_three_roots terms_three_roots eq_refl wf_three_roots)
    as (f & h' & Heq & Hm); [lia|simpl; lia|].
  exists f, h'. split; [exact Heq|]. split.
  - pose proof Heq as Hc. vm_compute in Hc. by injection Hc as <- _.
  - split.
    + exact (Hm 1%nat _ eq_refl).
    + exact (Hm 3%nat _ eq_refl).
Defined.

(** X9: nothing to start from (in a dictionary that files every term
    under its own id and whose [is_a] entries have a first element).
    When no term of [raw_terms] starts a
    tree (an explicit root id that no term names in [is_a], or, without
    a root id, no term with an empty [is_a] list) the builder returns
    the empty forest and leaves every object as it was; no error is
    raised. *)
Theorem no_starting_term_gives_empty_forest :
  forall parse (fuel : nat) (url root_id : option string)
    (given : option (dict addr)) (m : option Z) (h h0 : Obo.store)
    (raw_terms : dict addr),
    Obo.terms_to_use parse url given h = Ok (raw_terms, h0) ->
    wf_raw raw_terms h0 -> (1 <= fuel)%nat ->
    (forall k a, (k, a) ∈ raw_terms ->
       starts_tree root_id h0 (k, a) = false) ->
    Obo.build_tree_from_obo_ontology parse fuel url root_id given m h
    = Ok ([], h0).
Proof.
  intros parse fuel url root given m h h0 raw Hterms Hwf Hf1 Hno.
  rewrite (from_ontology_unfold _ _ _ _ _ _ _ _ _ Hterms).
  unfold Obo.build_tree. rewrite (build_first_level_ok root raw h0 Hwf).
  assert (tree_starts root h0 raw = []) as ->.
  { unfold tree_starts. apply filter_none. apply Forall_forall.
    intros [k a] Hin. rewrite (Hno k a Hin). done. }
  destruct fuel as [|fuel]; [lia|]. cbn.
  destruct m as [T|]; [|done]. simpl. by destruct (T =? 0).
Qed.

Lemma no_starting_term_gives_empty_forest_witness :
  Obo.build_tree_from_obo_ontology no_download 1 None (Some "HP:0000118")
    (Some terms_root_child) (Some 2) store_root_child
  = Ok ([], store_root_child).
Proof.
  apply (no_starting_term_gives_empty_forest no_download 1%nat None
           (Some "HP:0000118") (Some terms_root_child) (Some 2)
           store_root_child store_root_child terms_root_child eq_refl
           wf_root_child); [lia|].
  intros k a Hin. unfold terms_root_child in Hin.
  elems Hin; injection Hin as -> ->; reflexivity.
Defined.

(** ** Graph mode: the two loops *)

Lemma propagate_mono raw : forall fuel fuel' (f : forest) (h : Obo.store) r,
  Obo.propagate fuel raw f h = Ok r -> (fuel <= fuel')%nat ->
  Obo.propagate fuel' raw f h = Ok r.
Proof.
  induction fuel as [|fuel IH]; intros fuel' f h r H Hle; [done|].
  destruct fuel' as [|fuel']; [lia|]. cbn [Obo.propagate] in *.
  destruct (Obo.scan_forest raw f h false) as [[[f1 h1] had]| |];
    [|done|done].
  cbn [bind] in *. destruct had; [|done]. apply (IH fuel'); [done|lia].
Qed.

(** X10: graph mode returns, and the number of passes it needs is
    bounded by the square of the number of terms: for a dictionary that
    files every term under its own id and whose [is_a] entries have a
    first element there is one result that the builder gives for every
    allowance of at least that many passes (and at least one). *)
Theorem graph_mode_returns :
  forall parse (url root_id : option string) (given : option (dict addr))
    (m : option Z) (h h0 : Obo.store) (raw_terms : dict addr),
    Obo.terms_to_use parse url given h = Ok (raw_terms, h0) ->
    wf_raw raw_terms h0 ->
    exists f h',
      forall fuel : nat,
        (1 <= fuel)%nat ->
        (length raw_terms * length raw_terms <= fuel)%nat ->
        Obo.build_tree_from_obo_ontology parse fuel url root_id given m h
        = Ok (f, h').
Proof.
  intros parse url root given m h h0 raw Hterms Hwf.
  set (n := (1 `max` (length raw * length raw))%nat).
  destruct (build_tree_full n root raw m h0 Hwf)
    as (f1 & news & Hp & _ & Heq & _); [lia|lia|]. cbn zeta in *.
  eexists _, _. intros fuel Hf1 Hf2.
  rewrite (from_ontology_unfold _ _ _ _ _ _ _ _ _ Hterms).
  destruct (build_tree_full fuel root raw m h0 Hwf Hf1 Hf2)
    as (f1' & news' & Hp' & _ & Heq' & _). cbn zeta in *.
  apply (propagate_mono raw n fuel) in Hp; [|lia].
  rewrite Hp in Hp'. injection Hp' as <- Hh. rewrite <- Hh in Heq'.
  exact Heq'.
Qed.

Lemma graph_mode_returns_witness :
  exists f h',
    Obo.build_tree_from_obo_ontology no_download 25 None None
      (Some terms_three_roots) None store_three_roots = Ok (f, h')
    /\ Obo.build_tree_from_obo_ontology no_download 40 None None
         (Some terms_three_roots) None store_three_roots = Ok (f, h').
Proof.
  destruct (graph_mode_returns no_download None None (Some terms_three_roots)
              None store_three_roots store_three_roots terms_three_roots
              eq_refl wf_three_roots) as (f & h' & H).
  exists f, h'. split; apply H; simpl; lia.
Defined.

(** X11: the cleaning loop of graph mode has nothing to clean when
    every term is filed under its own id.  On a dictionary that files
    every term under its own id and whose [is_a] entries have a first
    element, the propagation leaves no node whose parent is missing
    from its tree: the first search for such nodes comes back empty and
    the forest goes on as it is. *)
Theorem cleaning_finds_no_orphan :
  forall (fuel : nat) (root_id : option string) (raw_terms : dict addr)
    (h : Obo.store),
    wf_raw raw_terms h ->
    (1 <= fuel)%nat -> (length raw_terms * length raw_terms <= fuel)%nat ->
    exists f0 h0 f1 h1,
      Obo.build_first_level root_id raw_terms h = Ok (f0, h0)
      /\ Obo.propagate fuel raw_terms f0 h0 = Ok (f1, h1)
      /\ Obo.missing_in_forest f1 h1 [] = Ok []
      /\ Obo.clean fuel f1 h1 = Ok f1.
Proof.
  intros fuel root raw h Hwf Hf1 Hf2.
  destruct (build_tree_full fuel root raw None h Hwf Hf1 Hf2)
    as (f1 & news & Hp & Hc & _ & _ & Hfo & _). cbn zeta in *.
  eexists _, _, f1, _. split; [by apply build_first_level_ok|].
  split; [exact Hp|]. split; [|exact Hc].
  destruct (forest_ok_wf _ _ _ Hfo) as [_ Hnp].
  rewrite (missing_in_forest_spec _ _ [] Hnp).
  by rewrite (forest_ok_no_orphans _ _ _ Hfo).
Qed.

Lemma cleaning_finds_no_orphan_witness :
  exists f0 h0 f1 h1,
    Obo.build_first_level None terms_two_parents store_two_parents
    = Ok (f0, h0)
    /\ Obo.propagate 9 terms_two_parents f0 h0 = Ok (f1, h1)
    /\ Obo.missing_in_forest f1 h1 [] = Ok []
    /\ Obo.clean 9 f1 h1 = Ok f1.
Proof.
  apply (cleaning_finds_no_orphan 9 None terms_two_parents store_two_parents
           wf_two_parents); [lia|simpl; lia].
Defined.

(** ** Flat mode: deleting the recorded entries *)

Section Deleting.
Import Flat.

Lemma insert_desc_last x l :
  Forall (fun j => (x < j)%nat) l -> insert_desc x l = l ++ [x].
Proof.
  induction 1 as [|j l Hj Hl IH]; [done|]. simpl.
  destruct (Nat.leb_spec j x); [lia|]. by rewrite IH.
Qed.

Lemma marked_lower flags : forall idx,
  Forall (fun j => (idx <= j)%nat) (marked idx flags).
Proof.
  induction flags as [|[|] flags IH]; intros idx; simpl.
  - constructor.
  - constructor; [lia|]. eapply Forall_impl; [apply (IH (S idx))|].
    simpl. intros; lia.
  - eapply Forall_impl; [apply (IH (S idx))|]. simpl. intros; lia.
Qed.

Lemma sorted_reverse_marked flags : forall idx,
  sorted_reverse (marked idx flags) = reverse (marked idx flags).
Proof.
  induction flags as [|[|] flags IH]; intros idx; simpl; [done| |done].
  rewrite IH, reverse_cons. apply insert_desc_last.
  apply Forall_reverse. eapply Forall_impl; [apply (marked_lower _ (S idx))|].
  simpl. intros; lia.
Qed.

Lemma del_indices_app {A : Type} (i1 i2 : list nat) : forall l : list A,
  del_indices l (i1 ++ i2)
  = let* l1 := del_indices l i1 in del_indices l1 i2.
Proof.
  induction i1 as [|i i1 IH]; intros l; simpl; [done|].
  destruct (del_index l i); simpl; auto.
Qed.

Lemma del_index_middle {A : Type} (pre : list A) x suf :
  del_index (pre ++ x :: suf) (length pre) = Ok (pre ++ suf).
Proof. induction pre as [|y pre IH]; simpl; [done|]. by rewrite IH. Qed.

Lemma del_marked {A : Type} flags : forall (l pre : list A),
  length flags = length l ->
  del_indices (pre ++ l) (reverse (marked (length pre) flags))
  = Ok (pre ++ unmarked l flags).
Proof.
  induction flags as [|b flags IH]; intros l pre Hlen.
  - destruct l; [done|discriminate].
  - destruct l as [|x l]; [discriminate|]. simpl in Hlen.
    assert (del_indices (pre ++ x :: l)
              (reverse (marked (S (length pre)) flags))
            = Ok (pre ++ x :: unmarked l flags)) as Hrest.
    { specialize (IH l (pre ++ [x])). rewrite length_app in IH. simpl in IH.
      rewrite Nat.add_1_r, <- !app_assoc in IH. simpl in IH.
      apply IH. lia. }
    destruct b; simpl.
    + rewrite reverse_cons, del_indices_app, Hrest. cbn [bind del_indices].
      by rewrite del_index_middle.
    + exact Hrest.
Qed.

(** Deleting the recorded indices, largest first, leaves the entries
    that were not put into a tree. *)
Lemma del_recorded {A : Type} (l : list A) flags :
  length flags = length l ->
  del_indices l (sorted_reverse (marked 0 flags)) = Ok (unmarked l flags).
Proof.
  intros Hlen. rewrite sorted_reverse_marked.
  apply (del_marked flags l [] Hlen).
Qed.

Lemma unmarked_sublist {A : Type} flags : forall l : list A,
  sublist (unmarked l flags) l.
Proof.
  induction flags as [|[|] flags IH]; intros [|x l]; simpl; try done.
  - by apply sublist_cons.
  - by apply sublist_skip.
Qed.

Lemma unmarked_keeps {A : Type} flags : forall (l : list A) j x,
  l !! j = Some x -> flags !! j = Some false -> x ∈ unmarked l flags.
Proof.
  induction flags as [|b flags IH]; intros [|y l] [|j] x Hl Hf; try done.
  - simpl in *. injection Hl as ->. injection Hf as ->. left.
  - simpl in *. destruct b; [eauto|right; eauto].
Qed.

Lemma unmarked_drops {A B : Type} (g : A -> B) flags : forall (l : list A) j x,
  NoDup (g <$> l) -> l !! j = Some x -> flags !! j = Some true ->
  g x ∉ g <$> unmarked l flags.
Proof.
  induction flags as [|b flags IH]; intros [|y l] [|j] x Hnd Hl Hf; try done;
    rewrite fmap_cons in Hnd; apply NoDup_cons in Hnd as [Hy Hnd];
    simpl in *.
  - injection Hl as ->. injection Hf as ->. intros Hin. apply Hy.
    eapply elem_of_sublist; [exact Hin|].
    apply fmap_sublist, unmarked_sublist.
  - destruct b.
    + eauto.
    + rewrite fmap_cons. apply not_elem_of_cons. split; [|eauto].
      intros Heq. apply Hy. rewrite <- Heq. apply list_elem_of_fmap.
      exists x. split; [done|]. by eapply list_elem_of_lookup_2.
Qed.

Lemma length_unmarked {A : Type} flags : forall (l : list A) j,
  length flags = length l -> flags !! j = Some true ->
  (length (unmarked l flags) < length l)%nat.
Proof.
  induction flags as [|b flags IH]; intros [|y l] [|j] Hlen Hf; try done;
    simpl in *.
  - injection Hf as ->. pose proof (sublist_length _ _ (unmarked_sublist flags l)).
    lia.
  - pose proof (sublist_length _ _ (unmarked_sublist flags l)).
    destruct b; simpl; [lia|].
    assert (length (unmarked l flags) < length l)%nat; [|lia].
    apply (IH l j); [lia|done].
Qed.
End Deleting.

(** ** Flat mode: one pass over the queue *)

Section FlatPass.
Import Flat.

Lemma keys_dict_set_iff {V : Type} (d : dict V) i v k :
  k ∈ keys (dict_set d i v) <-> k ∈ keys d \/ k = i.
Proof.
  destruct (decide (i ∈ keys d)) as [Hin|Hin].
  - rewrite keys_dict_set_mem by done. split; [by left|].
    intros [?| ->]; done.
  - rewrite keys_dict_set_new by done. rewrite elem_of_app.
    by rewrite list_elem_of_singleton.
Qed.

(** One queued node against the trees: it goes into the tree that holds
    its parent, if there is one, and its index is recorded once. *)
Lemma scan_trees_run a idx : forall (todo pre : forest) (h : store) drops n,
  flat_ok h (pre ++ todo) -> h !! a = Some n -> parent n <> "" ->
  exists todo' h' (b : bool),
    scan_trees a idx todo h drops
    = Ok (todo', h', drops ++ (if b then [idx] else []))
    /\ (b = true <-> parent n ∈ all_keys todo)
    /\ keys todo' = keys todo
    /\ (forall k, k ∈ all_keys todo'
                  <-> k ∈ all_keys todo \/ (b = true /\ k = id n))
    /\ (forall s t' k, (s, t') ∈ todo' -> k ∈ keys t' ->
          exists t, (s, t) ∈ todo
                    /\ (k ∈ keys t \/ (k = id n /\ parent n ∈ keys t))).
Proof.
  induction todo as [|[s t] todo IH]; intros pre h drops n Hok Ha Hp.
  - exists [], h, false. rewrite app_nil_r. split; [done|].
    split; [split; [done|intros H; by apply elem_of_nil in H]|].
    split; [done|]. split.
    + intros k. split; [by left|]. intros [?|[? _]]; done.
    + intros s t' k Hin. by apply elem_of_nil in Hin.
  - cbn [scan_trees]. rewrite Ha. cbn [from_option bind].
    pose proof Hok as (Hids & Hkeys & Hfiled & Hlev).
    assert ((s, t) ∈ pre ++ (s, t) :: todo) as Hst
      by (apply elem_of_app; right; left).
    destruct (dict_get t (parent n)) as [b0|] eqn:Hb.
    + destruct (Hfiled s t _ _ Hst (dict_get_Some_elem _ _ _ Hb))
        as (pn & Hpn & _).
      rewrite Hpn. cbn [from_option bind].
      pose proof (flat_insert_step h pre todo s t a n b0 pn Hok Ha Hp Hb Hpn)
        as Hok1.
      rewrite (cons_middle _ pre), app_assoc in Hok1.
      destruct (IH (pre ++ [(s, dict_set t (id n) a)]) _ (drops ++ [idx])
                  (set_level n (level pn + 1)) Hok1)
        as (todo' & h' & b' & Heq & Hb' & Hk' & Hall & Htree); [|done|].
      { apply list_lookup_insert_eq. eapply lookup_lt_Some; eauto. }
      assert (parent n ∈ keys t) as Hpt
        by (apply dict_get_is_Some; eauto).
      assert (b' = false) as ->.
      { destruct b'; [|done]. exfalso.
        rewrite all_keys_app, all_keys_cons in Hkeys.
        apply NoDup_app in Hkeys as (_ & _ & Hkeys).
        apply NoDup_app in Hkeys as (_ & Hd & _).
        apply (Hd _ Hpt). simpl in Hb'. by apply Hb'. }
      rewrite Heq. cbn [bind]. rewrite app_nil_r.
      exists ((s, dict_set t (id n) a) :: todo'), h', true.
      split; [done|]. split.
      { split; [|done]. intros _. rewrite all_keys_cons.
        apply elem_of_app. by left. }
      split; [unfold keys in *; rewrite !fmap_cons; by rewrite Hk'|].
      split.
      * intros k. rewrite !all_keys_cons, !elem_of_app, Hall.
        rewrite keys_dict_set_iff. simpl.
        split; [intros [[?|?]|[?|[? _]]]|intros [[?|?]|[_ ?]]]; auto.
        done.
      * intros s' t' k Hin Hk.
        apply elem_of_cons in Hin as [Hin|Hin].
        -- injection Hin as -> ->. exists t. split; [left|].
           apply keys_dict_set_iff in Hk as [?|?]; auto.
        -- destruct (Htree s' t' k Hin Hk) as (t0 & Hin0 & Hcase).
           exists t0. split; [by right|]. done.
    + destruct (IH (pre ++ [(s, t)]) h drops n)
        as (todo' & h' & b' & Heq & Hb' & Hk' & Hall & Htree); [|done|done|].
      { by rewrite <- app_assoc. }
      rewrite Heq. cbn [bind].
      assert (parent n ∉ keys t) as Hpt.
      { intros Hin. apply dict_get_is_Some in Hin as [x Hx]. congruence. }
      exists ((s, t) :: todo'), h', b'. split; [done|]. split.
      { rewrite Hb', all_keys_cons, elem_of_app. tauto. }
      split; [unfold keys in *; rewrite !fmap_cons; by rewrite Hk'|].
      split.
      * intros k. rewrite !all_keys_cons, !elem_of_app, Hall. tauto.
      * intros s' t' k Hin Hk.
        apply elem_of_cons in Hin as [Hin|Hin].
        -- injection Hin as -> ->. exists t. split; [left|by left].
        -- destruct (Htree s' t' k Hin Hk) as (t0 & Hin0 & Hcase).
           exists t0. split; [by right|]. done.
Qed.
End FlatPass.

Section FlatQueueRun.
Import Flat.

Lemma from_rows_relevelled rows (h h' : store) :
  relevelled h h' -> from_rows rows h -> from_rows rows h'.
Proof.
  intros Hr Hf a n' Ha.
  destruct (relevelled_back _ _ _ _ Hr Ha) as (n & Hn & ->).
  exact (Hf a n Hn).
Qed.

Lemma marked_cons idx (b : bool) flags :
  marked idx (b :: flags) = (if b then [idx] else []) ++ marked (S idx) flags.
Proof. by destruct b. Qed.

(** A pass over the queue, entry by entry: [flags] tells which entries
    were put into a tree. *)
Lemma scan_queue_run rows q : forall idx ps,
  flat_ok (p_heap ps) (p_trees ps) -> queue_ok (p_heap ps) q ->
  Forall (fun e => e.1 = 0) q -> from_rows rows (p_heap ps) ->
  (forall s t k, (s, t) ∈ p_trees ps -> k ∈ keys t -> below rows s k) ->
  exists ps' flags,
    scan_queue idx q ps = Ok ps'
    /\ length flags = length q
    /\ p_drop_idxs ps' = p_drop_idxs ps ++ marked idx flags
    /\ p_printed ps' = p_printed ps
    /\ flat_ok (p_heap ps') (p_trees ps')
    /\ relevelled (p_heap ps) (p_heap ps')
    /\ keys (p_trees ps') = keys (p_trees ps)
    /\ (forall s t k, (s, t) ∈ p_trees ps' -> k ∈ keys t -> below rows s k)
    /\ (forall k, k ∈ all_keys (p_trees ps')
          <-> k ∈ all_keys (p_trees ps)
              \/ exists j c a n,
                   q !! j = Some (c, a) /\ flags !! j = Some true
                   /\ p_heap ps !! a = Some n /\ k = id n)
    /\ (forall j c a n,
          q !! j = Some (c, a) -> p_heap ps !! a = Some n ->
          parent n ∈ all_keys (p_trees ps) -> flags !! j = Some true).
Proof.
  induction q as [|[c a] q IH]; intros idx ps Hok Hq Hz Hrows Hbelow.
  - exists ps, []. simpl. rewrite app_nil_r.
    do 5 (split; [done|]). split; [apply relevelled_refl|].
    do 2 (split; [done|]). split.
    + intros k. split; [by left|]. intros [?|(j & ? & ? & ? & ? & _)]; done.
    + intros j ? ? ? ?. done.
  - apply Forall_cons in Hz as [Hc Hz]. simpl in Hc. subst c.
    cbn [scan_queue]. change (20 <=? 0) with false. cbv iota.
    destruct (Hq 0 a ltac:(left)) as (n & Ha & Hp).
    destruct (scan_trees_run a idx (p_trees ps) [] (p_heap ps)
                (p_drop_idxs ps) n Hok Ha Hp)
      as (f1 & h1 & b & Heq & Hb & Hk1 & Hall1 & Htree1).
    rewrite Heq. cbn [bind].
    destruct (scan_trees_ok a idx (p_trees ps) [] (p_heap ps) _ _ _ _ Hok
                ltac:(intros n' Hn'; congruence) Heq) as [Hok1 Hr1].
    simpl in Hok1.
    assert (queue_ok (p_heap ps) q) as Hq'
      by (intros c' a' Hin; apply (Hq c'); by right).
    destruct (IH (S idx)
                (PassState h1 f1
                   (p_drop_idxs ps ++ (if b then [idx] else []))
                   (p_printed ps)))
      as (ps' & flags & Hrun & Hlen & Hdrops & Hpr & Hok' & Hr' & Hk' & Hbel'
          & Hall' & Hprog'); simpl.
    { done. }
    { by eapply queue_ok_relevelled. }
    { done. }
    { by eapply from_rows_relevelled. }
    { intros s t' k Hin Hkt.
      destruct (Htree1 s t' k Hin Hkt) as (t & Hst & [Hkold|[-> Hpt]]).
      - by eapply Hbelow.
      - destruct (Hrows a n Ha) as (r & Hr & Hi & Hpr0).
        apply (below_child rows s r); try done; [congruence|].
        rewrite <- Hpr0. by eapply Hbelow. }
    simpl in *. exists ps', (b :: flags). split; [done|].
    split; [simpl; by rewrite Hlen|].
    split; [by rewrite Hdrops, marked_cons, app_assoc|].
    split; [done|]. split; [done|].
    split; [by eapply relevelled_trans|].
    split; [congruence|]. split; [done|]. split.
    + intros k. rewrite Hall', Hall1. split.
      * intros [[Hold|[-> ->]]|(j & c' & a' & n' & Hj & Hf & Hn' & ->)].
        -- by left.
        -- right. exists 0%nat, 0, a, n. done.
        -- right. destruct (relevelled_back _ _ _ _ Hr1 Hn')
             as (n0 & Hn0 & ->).
           exists (S j), c', a', n0. done.
      * intros [Hold|(j & c' & a' & n' & Hj & Hf & Hn' & ->)];
          [by left; left|].
        destruct j as [|j]; simpl in Hj, Hf.
        -- injection Hj as <- <-. injection Hf as ->.
           assert (n' = n) as -> by congruence. left. by right.
        -- right. destruct Hr1 as [_ Hr1].
           destruct (Hr1 a' n' Hn') as (l & Hl).
           exists j, c', a', (set_level n' l). done.
    + intros j c' a' n' Hj Hn' Hpar. destruct j as [|j]; simpl in Hj |- *.
      * injection Hj as <- <-. assert (n' = n) as -> by congruence.
        f_equal. by apply Hb.
      * destruct Hr1 as [_ Hr1]. destruct (Hr1 a' n' Hn') as (l & Hl).
        apply (Hprog' j c' a' (set_level n' l)); try done.
        simpl. apply Hall1. by left.
Qed.
End FlatQueueRun.

Section FlatLoop.
Import Flat.

Lemma from_rows_read rows : from_rows rows (heap (read_rows rows)).
Proof.
  intros a n Ha. destruct (read_rows_made rows a n Ha) as (r & i & ? & ? & ->).
  exists r. done.
Qed.

Lemma queued_lookup (q : list (Z * addr)) a :
  a ∈ queued q -> exists j c, q !! j = Some (c, a).
Proof.
  intros Hin. apply list_elem_of_fmap in Hin as ([c a'] & -> & Hin).
  apply list_elem_of_lookup_1 in Hin as [j Hj]. eauto.
Qed.

(** One turn of the loop on a state in good order. *)
Lemma pass_run rows st :
  flat_inv rows st ->
  exists st' flags,
    pass st = Ok st' /\ flat_inv rows st'
    /\ length flags = length (to_process st)
    /\ to_process st' = unmarked (to_process st) flags
    /\ keys (trees st') = keys (trees st)
    /\ (forall j c a n,
          to_process st !! j = Some (c, a) -> heap st !! a = Some n ->
          parent n ∈ all_keys (trees st) -> flags !! j = Some true).
Proof.
  intros (Hok & Hq & Hz & Hnd & Hpart & Hbel & Hrel).
  assert (from_rows rows (heap st)) as Hrows
    by (eapply from_rows_relevelled; [exact Hrel|apply from_rows_read]).
  destruct (scan_queue_run rows (to_process st) 0
              (PassState (heap st) (trees st) [] (printed st)))
    as (ps' & flags & Hrun & Hlen & Hdrops & Hpr & Hok' & Hr' & Hk' & Hbel'
        & Hall' & Hprog); try done.
  simpl in *. unfold pass. rewrite Hrun. cbn [bind]. rewrite Hdrops.
  rewrite del_recorded by done. cbn [bind].
  eexists _, flags. split; [done|].
  pose proof (unmarked_sublist flags (to_process st)) as Hsub.
  split; [|done]. unfold flat_inv. simpl.
  split; [done|]. split.
  { eapply queue_ok_relevelled; [exact Hr'|].
    intros c a Hin. apply (Hq c a). eapply elem_of_sublist; eauto. }
  split.
  { apply Forall_forall. intros e He. rewrite Forall_forall in Hz.
    apply Hz. eapply elem_of_sublist; eauto. }
  split.
  { eapply sublist_NoDup; [exact Hnd|]. by apply fmap_sublist. }
  split; [|split; [done|by eapply relevelled_trans]].
  intros a n' Ha.
  destruct (relevelled_back _ _ _ _ Hr' Ha) as (n & Hn & ->). simpl.
  rewrite Hall'. split.
  - intros [Hold|(j & c & a' & n2 & Hj & Hf & Hn2 & Hid)].
    + apply (Hpart a n Hn) in Hold. intros Hin. apply Hold.
      eapply elem_of_sublist; [exact Hin|]. by apply fmap_sublist.
    + assert (a = a') as <-.
      { destruct Hok as (Hids & _). eapply lookup_id_inj; eauto. }
      exact (unmarked_drops snd flags (to_process st) j (c, a) Hnd Hj Hf).
  - intros Hout. destruct (decide (a ∈ queued (to_process st))) as [Hin|Hin].
    + right. apply queued_lookup in Hin as (j & c & Hj).
      assert (is_Some (flags !! j)) as [b Hb].
      { apply lookup_lt_is_Some. rewrite Hlen. eapply lookup_lt_Some; eauto. }
      destruct b.
      * exists j, c, a, n. done.
      * exfalso. apply Hout. apply list_elem_of_fmap. exists (c, a).
        split; [done|]. by eapply unmarked_keeps.
    + left. by apply (Hpart a n Hn).
Qed.

Lemma read_id_part r ids st i :
  read_ok ids st -> i ∉ ids -> read_part st -> read_part (read_id r st i).
Proof.
  intros (Hids & Hndk & Hsub & _) Hi (Hnd & Hlt & Hpart). unfold read_id.
  assert (forall a n, heap st !! a = Some n -> id n <> i) as Hold.
  { intros a n Ha Heq. apply Hi. rewrite <- Heq, <- Hids.
    apply list_elem_of_fmap. exists n. split; [done|].
    by eapply list_elem_of_lookup_2. }
  assert (length (heap st) ∉ queued (to_process st)) as Hfresh.
  { intros Hin. rewrite Forall_forall in Hlt. specialize (Hlt _ Hin). lia. }
  destruct (String.eqb_spec (r_parent r) "") as [Hroot|Hroot];
    unfold read_part; cbn [heap trees to_process printed].
  - split; [done|]. split.
    { eapply Forall_impl; [exact Hlt|]. simpl. intros a Ha.
      rewrite length_app. lia. }
    intros a n Ha. rewrite keys_dict_set_iff.
    apply lookup_app_Some in Ha as [Ha|[Hge Ha]].
    + rewrite <- (Hpart a n Ha). split; [intros [?|?]|by left]; [done|].
      by apply Hold in Ha.
    + apply list_lookup_singleton_Some in Ha as [Hz <-].
      assert (a = length (heap st)) as -> by lia.
      split; [done|]. intros _. by right.
  - unfold queued in *. rewrite fmap_app. simpl. split.
    { apply NoDup_app. split; [done|]. split; [|apply NoDup_singleton].
      intros a Ha Ha'. apply list_elem_of_singleton in Ha'. by subst. }
    split.
    { rewrite Forall_app. split.
      - eapply Forall_impl; [exact Hlt|]. simpl. intros a Ha.
        rewrite length_app. lia.
      - apply Forall_singleton. rewrite length_app. simpl. lia. }
    intros a n Ha. rewrite elem_of_app, list_elem_of_singleton.
    apply lookup_app_Some in Ha as [Ha|[Hge Ha]].
    + rewrite (Hpart a n Ha). apply lookup_lt_Some in Ha.
      split; [intros ? [?|?]; [done|lia]|tauto].
    + apply list_lookup_singleton_Some in Ha as [Hz <-].
      assert (a = length (heap st)) as -> by lia. simpl.
      split; [|tauto]. intros Hin. exfalso. apply Hi. by apply Hsub.
Qed.

Lemma read_row_part r : forall new ids st,
  read_ok ids st -> read_part st -> NoDup (ids ++ new) ->
  read_part (fold_left (read_id r) new st).
Proof.
  induction new as [|i new IH]; intros ids st Hok Hp Hnd; simpl; [done|].
  rewrite (cons_middle i ids new), app_assoc in Hnd.
  assert (i ∉ ids) as Hi.
  { apply NoDup_app in Hnd as (Hnd & _ & _).
    apply NoDup_app in Hnd as (_ & Hd & _).
    intros Hin. apply (Hd _ Hin). left. }
  apply (IH (ids ++ [i])); [by apply read_id_ok| |done].
  by eapply read_id_part.
Qed.

Lemma read_rows_part rows : forall ids st,
  read_ok ids st -> read_part st -> NoDup (ids ++ file_ids rows) ->
  read_part (fold_left read_row rows st).
Proof.
  induction rows as [|r rows IH]; intros ids st Hok Hp Hnd; simpl; [done|].
  unfold file_ids in *. rewrite fmap_cons in *. simpl in *.
  rewrite app_assoc in *.
  assert (NoDup (ids ++ r_ids r)) as Hnd' by (by apply NoDup_app in Hnd as (? & _)).
  apply (IH (ids ++ r_ids r)); [by apply read_row_ok| |done].
  by eapply read_row_part.
Qed.

Lemma read_ok_nil : read_ok [] (State [] [] [] []).
Proof.
  split; [done|]. split; [constructor|].
  split; [intros k Hk; by apply elem_of_nil in Hk|].
  split; [intros s t Hin; by apply elem_of_nil in Hin|].
  intros c a Hin. by apply elem_of_nil in Hin.
Qed.

Lemma read_rows_read_part rows :
  NoDup (file_ids rows) -> read_part (read_rows rows).
Proof.
  intros Hnd.
  apply (read_rows_part rows [] (State [] [] [] []) read_ok_nil); [|done].
  split; [constructor|]. split; [constructor|].
  intros a n Ha. simpl in Ha. by rewrite lookup_nil in Ha.
Qed.

(** After reading a file without a repeated id, the state is in good
    order. *)
Lemma read_rows_inv rows :
  NoDup (file_ids rows) -> flat_inv rows (read_rows rows).
Proof.
  intros Hnd. pose proof (read_rows_ok rows Hnd) as Hr.
  pose proof (read_ok_flat_ok _ _ Hr Hnd) as Hok.
  destruct (read_rows_read_part rows Hnd) as (Hndq & _ & Hpart).
  destruct (read_rows_queue rows) as [Hz _].
  pose proof Hr as (_ & _ & _ & Htrees & Hq).
  split; [done|]. split; [done|]. split; [done|]. split; [done|].
  split; [|split; [|apply relevelled_refl]].
  - intros a n Ha. rewrite all_keys_roots; [by apply Hpart|].
    intros s t Hin. destruct (Htrees s t Hin) as (a' & n' & ? & _). eauto.
  - intros s t k Hin Hk.
    destruct (Htrees s t Hin) as (a & n & -> & Ha & Hid & Hp & _).
    unfold keys in Hk. simpl in Hk. apply list_elem_of_singleton in Hk.
    subst k.
    destruct (read_rows_made rows a n Ha) as (r & i & Hr' & Hi & ->).
    simpl in *. subst i. by apply (below_root rows s r).
Qed.

Lemma loop_Ok_inv rows fuel : forall st st',
  flat_inv rows st -> loop fuel st = Ok st' ->
  flat_inv rows st' /\ to_process st' = []
  /\ keys (trees st') = keys (trees st).
Proof.
  induction fuel as [|fuel IH]; intros st st' Hinv H; [done|].
  cbn [loop] in H.
  destruct (pass_run rows st Hinv) as (st1 & flags & Hpass & Hinv1 & _ & _ & Hk & _).
  rewrite Hpass in H. cbn [bind] in H.
  destruct (to_process st1) eqn:E.
  - injection H as <-. done.
  - apply IH in H as (? & ? & ?); [|done]. split; [done|].
    split; [done|congruence].
Qed.
End FlatLoop.

Section FlatResult.
Import Flat.

Lemma elem_file_ids rows r i : r ∈ rows -> i ∈ r_ids r -> i ∈ file_ids rows.
Proof.
  intros Hr Hi. unfold file_ids. apply elem_of_concat. exists (r_ids r).
  split; [done|]. apply list_elem_of_fmap. by exists r.
Qed.

(* without a repeated id, an id is on one line only *)
Lemma row_unique rows r r' i :
  NoDup (file_ids rows) -> r ∈ rows -> r' ∈ rows ->
  i ∈ r_ids r -> i ∈ r_ids r' -> r = r'.
Proof.
  induction rows as [|r0 rows IH]; intros Hnd Hr Hr' Hi Hi'.
  - by apply elem_of_nil in Hr.
  - unfold file_ids in Hnd. rewrite fmap_cons in Hnd. simpl in Hnd.
    apply NoDup_app in Hnd as (_ & Hd & Hnd).
    apply elem_of_cons in Hr as [->|Hr], Hr' as [->|Hr']; [done| | |auto].
    + exfalso. apply (Hd i Hi). by eapply elem_file_ids.
    + exfalso. apply (Hd i Hi'). by eapply elem_file_ids.
Qed.

Lemma below_file_ids rows s i : below rows s i -> i ∈ file_ids rows.
Proof. destruct 1; by eapply elem_file_ids. Qed.

Lemma below_unique rows s s' i :
  NoDup (file_ids rows) -> below rows s i -> below rows s' i -> s = s'.
Proof.
  intros Hnd H. revert s'.
  induction H as [r Hr Hp Hs|r i Hr Hi Hp H IH]; intros s' H'.
  - inversion H' as [r' Hr' Hp' Hs'|r' i' Hr' Hi' Hp' H'']; [done|].
    subst. assert (r = r') as <- by (by eapply row_unique). done.
  - inversion H' as [r' Hr' Hp' Hs'|r' i' Hr' Hi' Hp' H''].
    + subst. assert (r = r') as <- by (by eapply row_unique). done.
    + subst. assert (r = r') as <- by (by eapply row_unique). auto.
Qed.

(* the object of a node of the file *)
Lemma node_of_row rows st r i :
  NoDup (file_ids rows) -> flat_inv rows st -> r ∈ rows -> i ∈ r_ids r ->
  exists a n, heap st !! a = Some n /\ id n = i /\ parent n = r_parent r.
Proof.
  intros Hnd (_ & _ & _ & _ & _ & _ & Hrel) Hr Hi.
  destruct (read_rows_ok rows Hnd) as (Hids & _).
  assert (i ∈ id <$> heap (read_rows rows)) as Hin
    by (rewrite Hids; by eapply elem_file_ids).
  apply list_elem_of_fmap in Hin as (n0 & -> & Hin).
  apply list_elem_of_lookup_1 in Hin as [a Ha].
  destruct (read_rows_made rows a n0 Ha) as (r' & i' & Hr' & Hi' & ->).
  simpl in Hi. assert (r' = r) as -> by (by eapply row_unique).
  destruct Hrel as [_ Hrel]. destruct (Hrel _ _ Ha) as (l & Hl).
  exists a, (set_level (make_node r i') l). done.
Qed.

(** As long as every id leads to a root, some queued node has its
    parent in a tree. *)
Lemma ready_entry rows st :
  NoDup (file_ids rows) -> flat_inv rows st ->
  (forall i, i ∈ file_ids rows -> leads_to_root rows i) ->
  to_process st <> [] ->
  exists j c a n,
    to_process st !! j = Some (c, a) /\ heap st !! a = Some n
    /\ parent n ∈ all_keys (trees st).
Proof.
  intros Hnd Hinv Hall Hne.
  pose proof Hinv as (Hok & Hq & _ & _ & Hpart & _ & Hrel).
  assert (forall s i, below rows s i ->
            i ∈ all_keys (trees st)
            \/ exists j c a n,
                 to_process st !! j = Some (c, a) /\ heap st !! a = Some n
                 /\ parent n ∈ all_keys (trees st)) as Hclaim.
  { intros s i H. induction H as [r Hr Hp Hs|r i Hr Hi Hp H IH].
    - destruct (node_of_row rows st r s Hnd Hinv Hr Hs) as (a & n & Ha & <- & Hpn).
      left. apply (Hpart a n Ha). intros Hin.
      apply queued_lookup in Hin as (j & c & Hj).
      destruct (Hq c a (list_elem_of_lookup_2 _ _ _ Hj)) as (n' & Hn' & Hne').
      congruence.
    - destruct IH as [IH|IH]; [|by right].
      destruct (node_of_row rows st r i Hnd Hinv Hr Hi) as (a & n & Ha & <- & Hpn).
      destruct (decide (a ∈ queued (to_process st))) as [Hin|Hin].
      + right. apply queued_lookup in Hin as (j & c & Hj).
        exists j, c, a, n. rewrite Hpn. done.
      + left. by apply (Hpart a n Ha). }
  destruct (to_process st) as [|[c a] q] eqn:E; [done|].
  destruct (Hq c a ltac:(left)) as (n & Ha & Hp).
  assert (from_rows rows (heap st)) as Hrows
    by (eapply from_rows_relevelled; [exact Hrel|apply from_rows_read]).
  destruct (Hrows a n Ha) as (r & Hr & Hi & _).
  destruct (Hall (id n) (elem_file_ids _ _ _ Hr Hi)) as [s Hs].
  destruct (Hclaim s (id n) Hs) as [Hin|?]; [|done].
  exfalso. apply (Hpart a n Ha) in Hin. apply Hin.
  unfold queued. rewrite fmap_cons. left.
Qed.

Lemma loop_returns rows :
  NoDup (file_ids rows) ->
  (forall i, i ∈ file_ids rows -> leads_to_root rows i) ->
  forall fuel st,
    flat_inv rows st -> (1 <= fuel)%nat ->
    (length (to_process st) <= fuel)%nat ->
    exists st', loop fuel st = Ok st'.
Proof.
  intros Hnd Hall. induction fuel as [|fuel IH]; intros st Hinv H1 Hlen; [lia|].
  cbn [loop].
  destruct (pass_run rows st Hinv)
    as (st1 & flags & Hpass & Hinv1 & Hfl & Hq1 & _ & Hprog).
  rewrite Hpass. cbn [bind].
  destruct (to_process st1) as [|e q1] eqn:E; [eauto|].
  assert (to_process st <> []) as Hne.
  { intros Hnil. rewrite Hnil in Hq1. destruct flags; simpl in Hq1; congruence. }
  destruct (ready_entry rows st Hnd Hinv Hall Hne)
    as (j & c & a & n & Hj & Ha & Hp).
  pose proof (length_unmarked flags (to_process st) j Hfl
                (Hprog j c a n Hj Ha Hp)) as Hlt.
  rewrite <- Hq1 in Hlt. simpl in Hlt.
  apply IH; [done|lia|]. rewrite E. simpl. lia.
Qed.

Lemma loop_stuck rows i :
  NoDup (file_ids rows) -> i ∈ file_ids rows -> ~ leads_to_root rows i ->
  forall fuel st, flat_inv rows st -> loop fuel st = OutOfFuel.
Proof.
  intros Hnd Hi Hno. induction fuel as [|fuel IH]; intros st Hinv; [done|].
  cbn [loop].
  destruct (pass_run rows st Hinv) as (st1 & flags & Hpass & Hinv1 & _).
  rewrite Hpass. cbn [bind].
  destruct (to_process st1) as [|e q1] eqn:E; [|by apply IH].
  exfalso. apply Hno.
  unfold file_ids in Hi. apply elem_of_concat in Hi as (l & Hil & Hl).
  apply list_elem_of_fmap in Hl as (r & -> & Hr).
  destruct (node_of_row rows st1 r i Hnd Hinv1 Hr Hil) as (a & n & Ha & <- & _).
  destruct Hinv1 as (_ & _ & _ & _ & Hpart & Hbel & _).
  assert (id n ∈ all_keys (trees st1)) as Hin.
  { apply (Hpart a n Ha). rewrite E. apply not_elem_of_nil. }
  apply all_keys_elem in Hin as (s & t & Hst & Hk).
  exists s. by eapply Hbel.
Qed.

Lemma length_queue_bound rows :
  NoDup (file_ids rows) ->
  (length (to_process (read_rows rows)) <= length (file_ids rows))%nat.
Proof.
  intros Hnd. destruct (read_rows_read_part rows Hnd) as (Hndq & Hlt & _).
  destruct (read_rows_ok rows Hnd) as (Hids & _).
  assert (length (queued (to_process (read_rows rows)))
          <= length (seq 0 (length (heap (read_rows rows)))))%nat as Hle.
  { apply submseteq_length, NoDup_submseteq; [done|].
    intros a Ha. rewrite Forall_forall in Hlt. apply elem_of_seq.
    specialize (Hlt a Ha). lia. }
  rewrite length_seq in Hle. unfold queued in Hle.
  rewrite length_fmap in Hle. rewrite <- Hids, length_fmap. exact Hle.
Qed.

(** X12: flat mode returns on the files that resolve.  When no id is
    repeated and every node leads to a root by following parent ids,
    the loop ends within as many passes as the file has nodes (one pass
    for a file without nodes). *)
Theorem flat_builder_returns :
  forall (rows : list row) (fuel : nat),
    NoDup (file_ids rows) ->
    (forall i, i ∈ file_ids rows -> leads_to_root rows i) ->
    (1 <= fuel)%nat -> (length (file_ids rows) <= fuel)%nat ->
    exists f h, build_non_separator_based_tree fuel rows = Ok (f, h).
Proof.
  intros rows fuel Hnd Hall H1 Hlen.
  destruct (loop_returns rows Hnd Hall fuel (read_rows rows)) as [st' Hst'];
    [by apply read_rows_inv|done| |].
  - pose proof (length_queue_bound rows Hnd). lia.
  - unfold build_non_separator_based_tree. rewrite Hst'. cbn. eauto.
Qed.

Lemma rows_chain_lead i :
  i ∈ file_ids rows_chain -> leads_to_root rows_chain i.
Proof.
  assert (below rows_chain "A" "A") as HA.
  { apply (below_root _ _ (line ["A"] "" "a" None "#000000"));
      [right; left|done|left]. }
  assert (below rows_chain "A" "B") as HB.
  { apply (below_child _ _ (line ["B"] "A" "b" None "#000000"));
      [right; right; left|left|done|exact HA]. }
  assert (below rows_chain "A" "C") as HC.
  { apply (below_child _ _ (line ["C"] "B" "c" None "#000000"));
      [left|left|done|exact HB]. }
  intros Hi. unfold file_ids in Hi. simpl in Hi.
  elems Hi; subst i; exists "A"; done.
Qed.

Lemma flat_builder_returns_witness :
  exists f h, build_non_separator_based_tree 3 rows_chain = Ok (f, h).
Proof.
  apply flat_builder_returns; [|apply rows_chain_lead|lia|simpl; lia].
  by apply NoDup_decide.
Defined.

(** X13: flat mode never returns on the other files.  When no id is
    repeated and some node does not lead to a root (its chain of parent
    ids ends in an id that is on no line, or runs in a circle), the loop
    has not ended after any number of passes: no exception, no forest. *)
Theorem flat_builder_loops :
  forall (rows : list row) (i : string),
    NoDup (file_ids rows) -> i ∈ file_ids rows -> ~ leads_to_root rows i ->
    forall fuel : nat, build_non_separator_based_tree fuel rows = OutOfFuel.
Proof.
  intros rows i Hnd Hi Hno fuel. unfold build_non_separator_based_tree.
  rewrite (loop_stuck rows i Hnd Hi Hno fuel (read_rows rows)); [done|].
  by apply read_rows_inv.
Qed.

Lemma rows_unresolved_stuck : ~ leads_to_root rows_unresolved "D".
Proof.
  intros [s H].
  inversion H as [r Hr Hp Hs|r i Hr Hi Hp H']; subst.
  - unfold rows_unresolved in Hr. elems Hr; subst r; simpl in *.
    + by apply list_elem_of_singleton in Hs.
    + done.
  - unfold rows_unresolved in Hr. elems Hr; subst r; simpl in *; [done|].
    inversion H' as [r Hr Hp' Hs|r i Hr Hi' Hp' H'']; subst.
    + unfold rows_unresolved in Hr. elems Hr; subst r; simpl in *;
        [by apply list_elem_of_singleton in Hs|done].
    + unfold rows_unresolved in Hr. elems Hr; subst r; simpl in *;
        by apply list_elem_of_singleton in Hi'.
Qed.

Lemma flat_builder_loops_witness :
  build_non_separator_based_tree 1000 rows_unresolved = OutOfFuel.
Proof.
  apply (flat_builder_loops rows_unresolved "D").
  - by apply NoDup_decide.
  - unfold file_ids. simpl. right. left.
  - apply rows_unresolved_stuck.
Defined.

(** X14: what the trees of flat mode hold.  When the builder returns on
    a file without a repeated id, every node of the file is in one tree
    and one only, and the tree filed under [s] holds exactly the nodes
    that lead to [s] by following parent ids. *)
Theorem flat_tree_contents :
  forall (rows : list row) (fuel : nat) (f : forest) (h : store),
    NoDup (file_ids rows) ->
    build_non_separator_based_tree fuel rows = Ok (f, h) ->
    all_keys f ≡ₚ file_ids rows
    /\ forall s t, (s, t) ∈ f -> forall k, k ∈ keys t <-> below rows s k.
Proof.
  intros rows fuel f h Hnd H. unfold build_non_separator_based_tree in H.
  inv_bind H. injection H as <- <-. rename x into st.
  destruct (loop_Ok_inv rows fuel _ _ (read_rows_inv rows Hnd) Hx)
    as (Hinv & Hempty & Hkeys).
  pose proof Hinv as (Hok & _ & _ & _ & Hpart & Hbel & _).
  assert (forall k, k ∈ file_ids rows -> k ∈ all_keys (trees st)) as Hplaced.
  { intros k Hk. unfold file_ids in Hk.
    apply elem_of_concat in Hk as (l & Hkl & Hl).
    apply list_elem_of_fmap in Hl as (r & -> & Hr).
    destruct (node_of_row rows st r k Hnd Hinv Hr Hkl) as (a & n & Ha & <- & _).
    apply (Hpart a n Ha). rewrite Hempty. apply not_elem_of_nil. }
  split.
  - apply NoDup_Permutation; [by destruct Hok as (_ & ? & _)|done|].
    intros k. split; [|by apply Hplaced].
    intros Hk. apply all_keys_elem in Hk as (s & t & Hst & Hk).
    eapply below_file_ids. by eapply Hbel.
  - intros s t Hst k. split; [by apply Hbel|]. intros Hb.
    pose proof (Hplaced k (below_file_ids _ _ _ Hb)) as Hk.
    apply all_keys_elem in Hk as (s' & t' & Hst' & Hk).
    assert (s' = s) as ->
      by (eapply below_unique; [exact Hnd|by eapply Hbel|exact Hb]).
    assert (t' = t) as ->; [|done].
    eapply dict_value_unique; [|exact Hst'|exact Hst].
    rewrite Hkeys. by destruct (read_rows_ok rows Hnd) as (_ & ? & _).
Qed.

Lemma flat_tree_contents_witness :
  exists f h,
    build_non_separator_based_tree 3 rows_chain = Ok (f, h)
    /\ all_keys f ≡ₚ file_ids rows_chain
    /\ forall s t, (s, t) ∈ f ->
         forall k, k ∈ keys t <-> below rows_chain s k.
Proof.
  assert (exists f h, build_non_separator_based_tree 3 rows_chain = Ok (f, h))
    as (f & h & H) by (eexists _, _; vm_compute; reflexivity).
  exists f, h. split; [exact H|].
  apply (flat_tree_contents rows_chain 3 f h); [|exact H].
  by apply NoDup_decide.
Defined.

(** *** The trees are the lines without parent *)

Lemma dict_set_head {V : Type} s (v0 : V) rest i v :
  exists v' rest', dict_set ((s, v0) :: rest) i v = (s, v') :: rest'.
Proof. simpl. destruct (String.eqb i s); eauto. Qed.

Lemma scan_trees_heads a idx : forall (f : forest) (h : store) drops f' h'
    drops',
  scan_trees a idx f h drops = Ok (f', h', drops') ->
  keys f' = keys f /\ (headed f -> headed f').
Proof.
  induction f as [|[s t] f IH]; intros h drops f' h' drops' H;
    cbn [scan_trees] in H.
  - by injection H as <- <- <-.
  - inv_bind H. rename x into n.
    assert (forall t1 f1, keys f1 = keys f -> (headed f -> headed f1) ->
              (forall a0 rest, t = (s, a0) :: rest ->
                 exists a1 rest1, t1 = (s, a1) :: rest1) ->
              keys ((s, t1) :: f1) = keys ((s, t) :: f)
              /\ (headed ((s, t) :: f) -> headed ((s, t1) :: f1))) as Hstep.
    { intros t1 f1 Hk Hh Ht. split.
      - unfold keys in *. rewrite !fmap_cons. by rewrite Hk.
      - intros Hhd s' t' Hin. apply elem_of_cons in Hin as [Hin|Hin].
        + injection Hin as -> ->.
          destruct (Hhd s t ltac:(left)) as (a0 & rest & Heq). eauto.
        + apply Hh; [|done]. intros s0 t0 H0. apply Hhd. by right. }
    destruct (dict_get t (parent n)) as [b|].
    + inv_bind H. inv_bind H. destruct x0 as [[f1 h2] d2].
      injection H as <- <- <-. apply IH in Hx1 as [Hk Hh].
      apply Hstep; [done|done|]. intros a0 rest ->. apply dict_set_head.
    + inv_bind H. destruct x as [[f1 h2] d2]. injection H as <- <- <-.
      apply IH in Hx0 as [Hk Hh]. apply Hstep; [done|done|]. eauto.
Qed.

Lemma scan_queue_heads q : forall idx ps ps',
  scan_queue idx q ps = Ok ps' ->
  keys (p_trees ps') = keys (p_trees ps)
  /\ (headed (p_trees ps) -> headed (p_trees ps')).
Proof.
  induction q as [|[attempts a] q IH]; intros idx ps ps' H;
    cbn [scan_queue] in H.
  - by injection H as <-.
  - destruct (20 <=? attempts).
    + inv_bind H. by apply IH in H.
    + inv_bind H. destruct x as [[f h] d].
      apply scan_trees_heads in Hx as [Hk Hh].
      apply IH in H as [Hk' Hh']. simpl in *. split; [congruence|auto].
Qed.

Lemma loop_heads fuel : forall st st',
  loop fuel st = Ok st' ->
  keys (trees st') = keys (trees st)
  /\ (headed (trees st) -> headed (trees st')).
Proof.
  induction fuel as [|fuel IH]; intros st st' H; [done|].
  cbn [loop] in H. inv_bind H. rename x into st1.
  assert (keys (trees st1) = keys (trees st)
          /\ (headed (trees st) -> headed (trees st1))) as [Hk Hh].
  { unfold pass in Hx. inv_bind Hx. inv_bind Hx. injection Hx as <-.
    by apply scan_queue_heads in Hx0. }
  destruct (to_process st1).
  - by injection H as <-.
  - apply IH in H as [Hk' Hh']. split; [congruence|auto].
Qed.

Lemma read_id_roots r st i :
  NoDup (keys (trees st)) -> headed (trees st) ->
  NoDup (keys (trees (read_id r st i)))
  /\ headed (trees (read_id r st i))
  /\ forall k, k ∈ keys (trees (read_id r st i))
               <-> k ∈ keys (trees st) \/ (r_parent r = "" /\ k = i).
Proof.
  intros Hnd Hhd. unfold read_id.
  destruct (String.eqb_spec (r_parent r) "") as [Hroot|Hroot]; simpl.
  - split; [by apply NoDup_keys_dict_set|]. split.
    + intros s t Hin.
      destruct (decide (i ∈ keys (trees st))) as [Hi|Hi].
      * destruct (decide (s = i)) as [->|Hne].
        -- assert (NoDup (keys (dict_set (trees st) i [(i, length (heap st))])))
             as Hnd' by (by apply NoDup_keys_dict_set).
           pose proof (elem_dict_get _ _ _ Hnd' Hin) as Hget.
           rewrite dict_get_set_eq in Hget. injection Hget as <-. eauto.
        -- apply Hhd. apply dict_get_Some_elem.
           assert (NoDup (keys (dict_set (trees st) i [(i, length (heap st))])))
             as Hnd' by (by apply NoDup_keys_dict_set).
           pose proof (elem_dict_get _ _ _ Hnd' Hin) as Hget.
           by rewrite dict_get_set_ne in Hget.
      * rewrite dict_set_new in Hin by done.
        apply elem_of_app in Hin as [Hin|Hin]; [by apply Hhd|].
        apply list_elem_of_singleton in Hin. injection Hin as -> ->. eauto.
    + intros k. rewrite keys_dict_set_iff. tauto.
  - split; [done|]. split; [done|]. intros k. tauto.
Qed.

Lemma read_row_roots r : forall ids st,
  NoDup (keys (trees st)) -> headed (trees st) ->
  NoDup (keys (trees (fold_left (read_id r) ids st)))
  /\ headed (trees (fold_left (read_id r) ids st))
  /\ forall k, k ∈ keys (trees (fold_left (read_id r) ids st))
               <-> k ∈ keys (trees st) \/ (r_parent r = "" /\ k ∈ ids).
Proof.
  induction ids as [|i ids IH]; intros st Hnd Hhd; simpl.
  - split; [done|]. split; [done|]. intros k. split; [by left|].
    intros [?|[_ H]]; [done|by apply elem_of_nil in H].
  - destruct (read_id_roots r st i Hnd Hhd) as (Hnd1 & Hhd1 & Hk1).
    destruct (IH _ Hnd1 Hhd1) as (Hnd2 & Hhd2 & Hk2).
    split; [done|]. split; [done|]. intros k.
    rewrite Hk2, Hk1, elem_of_cons. tauto.
Qed.

Lemma read_rows_roots rows : forall st,
  NoDup (keys (trees st)) -> headed (trees st) ->
  NoDup (keys (trees (fold_left read_row rows st)))
  /\ headed (trees (fold_left read_row rows st))
  /\ forall k, k ∈ keys (trees (fold_left read_row rows st))
               <-> k ∈ keys (trees st)
                   \/ exists r, r ∈ rows /\ r_parent r = "" /\ k ∈ r_ids r.
Proof.
  induction rows as [|r rows IH]; intros st Hnd Hhd; simpl.
  - split; [done|]. split; [done|]. intros k. split; [by left|].
    intros [?|(r & H & _)]; [done|by apply elem_of_nil in H].
  - destruct (read_row_roots r (r_ids r) st Hnd Hhd) as (Hnd1 & Hhd1 & Hk1).
    change (fold_left (read_id r) (r_ids r) st) with (read_row st r) in *.
    destruct (IH _ Hnd1 Hhd1) as (Hnd2 & Hhd2 & Hk2).
    split; [done|]. split; [done|]. intros k.
    rewrite Hk2, Hk1. split.
    + intros [[?|[? ?]]|(r' & ? & ?)]; [by left| |].
      * right. exists r. split; [left|done].
      * right. exists r'. split; [by right|done].
    + intros [?|(r' & Hr' & ? & ?)]; [by left; left|].
      apply elem_of_cons in Hr' as [->|Hr']; [left; right; done|].
      right. exists r'. done.
Qed.

(** X15: the trees of flat mode.  Whatever the file, the forest the
    builder returns has one tree per id of a line without parent, filed
    under that id (an id on two such lines keeps one tree), and the
    first node of a tree is the node it is named after.  The loop makes
    no tree and removes none. *)
Theorem flat_trees_are_root_lines :
  forall (rows : list row) (fuel : nat) (f : forest) (h : store),
    build_non_separator_based_tree fuel rows = Ok (f, h) ->
    NoDup (keys f)
    /\ (forall k, k ∈ keys f
                  <-> exists r, r ∈ rows /\ root_line r /\ k ∈ r_ids r)
    /\ forall s t, (s, t) ∈ f -> exists a rest, t = (s, a) :: rest.
Proof.
  intros rows fuel f h H. unfold build_non_separator_based_tree in H.
  inv_bind H. injection H as <- <-. rename x into st.
  apply loop_heads in Hx as [Hk Hh].
  destruct (read_rows_roots rows (State [] [] [] [])) as (Hnd & Hhd & Hkeys).
  { constructor. }
  { intros s t Hin. by apply elem_of_nil in Hin. }
  fold (read_rows rows) in Hnd, Hhd, Hkeys.
  split; [by rewrite Hk|]. split; [|by apply Hh].
  intros k. rewrite Hk, Hkeys. simpl. split; [|by right].
  intros [Hin|?]; [by apply elem_of_nil in Hin|done].
Qed.

Lemma flat_trees_are_root_lines_witness :
  exists f h,
    build_non_separator_based_tree 3 rows_chain = Ok (f, h)
    /\ NoDup (keys f)
    /\ (forall k, k ∈ keys f
                  <-> exists r, r ∈ rows_chain /\ root_line r /\ k ∈ r_ids r)
    /\ forall s t, (s, t) ∈ f -> exists a rest, t = (s, a) :: rest.
Proof.
  assert (exists f h, build_non_separator_based_tree 3 rows_chain = Ok (f, h))
    as (f & h & H) by (eexists _, _; vm_compute; reflexivity).
  exists f, h. split; [exact H|].
  exact (flat_trees_are_root_lines rows_chain 3 f h H).
Defined.
End FlatResult.

(** ** Strings: splitting and joining *)

Section Splitting.

Lemma split_nonempty s sep : Str.split s sep <> [].
Proof. unfold Str.split. by destruct (Str.split1 s sep). Qed.

Lemma prefix_nil s : String.prefix "" s = true.
Proof. by destruct s. Qed.

Lemma split_cons_sep c s :
  Str.split (String c s) (String c "") = "" :: Str.split s (String c "").
Proof.
  unfold Str.split, Str.split1. cbn [Str.split1_from String.prefix].
  destruct (Ascii.ascii_dec c c); [|done]. rewrite prefix_nil. simpl.
  by destruct (Str.split1_from _ 0 _).
Qed.

Lemma split_cons_other c x s :
  x <> c ->
  Str.split (String x s) (String c "")
  = match Str.split s (String c "") with
    | f :: fs => String x f :: fs
    | [] => []
    end.
Proof.
  intros Hne. unfold Str.split, Str.split1.
  cbn [Str.split1_from String.prefix].
  destruct (Ascii.ascii_dec c x); [congruence|].
  by destruct (Str.split1_from _ 0 s).
Qed.

Lemma split_field c f rest :
  c ∉ chars f ->
  Str.split (String.append f (String c rest)) (String c "")
  = f :: Str.split rest (String c "").
Proof.
  induction f as [|x f IH]; intros Hc.
  - apply split_cons_sep.
  - unfold chars in Hc. simpl in Hc. apply not_elem_of_cons in Hc as [Hx Hc].
    change (String.append (String x f) (String c rest))
      with (String x (String.append f (String c rest))).
    rewrite split_cons_other by congruence. by rewrite IH.
Qed.

Lemma split_last c f :
  c ∉ chars f -> Str.split f (String c "") = [f].
Proof.
  induction f as [|x f IH]; intros Hc; [done|].
  unfold chars in Hc. simpl in Hc. apply not_elem_of_cons in Hc as [Hx Hc].
  rewrite split_cons_other by congruence. by rewrite IH.
Qed.

Lemma join_cons sep f f' fs :
  Str.join sep (f :: f' :: fs)
  = String.append f (String.append sep (Str.join sep (f' :: fs))).
Proof. done. Qed.

(** Round trip: fields that do not hold the separator are got back from
    their join. *)
Lemma split_join c fs :
  fs <> [] -> Forall (fun f => c ∉ chars f) fs ->
  Str.split (Str.join (String c "") fs) (String c "") = fs.
Proof.
  induction fs as [|f fs IH]; intros Hne Hfs; [done|].
  apply Forall_cons in Hfs as [Hf Hfs]. destruct fs as [|f' fs].
  - simpl. by apply split_last.
  - rewrite join_cons.
    change (String.append (String c "") (Str.join (String c "") (f' :: fs)))
      with (String c (Str.join (String c "") (f' :: fs))).
    rewrite split_field by done. by rewrite IH.
Qed.

Lemma chars_append a b : chars (String.append a b) = chars a ++ chars b.
Proof. unfold chars. induction a; simpl; [done|]. by rewrite IHa. Qed.

Lemma chars_join c x fs :
  x <> c -> Forall (fun f => x ∉ chars f) fs ->
  x ∉ chars (Str.join (String c "") fs).
Proof.
  intros Hne. induction fs as [|f fs IH]; intros Hfs.
  - apply not_elem_of_nil.
  - apply Forall_cons in Hfs as [Hf Hfs]. destruct fs as [|f' fs]; [done|].
    rewrite join_cons. rewrite !chars_append. rewrite !not_elem_of_app.
    split; [done|]. split; [|by apply IH].
    unfold chars. simpl. rewrite not_elem_of_cons.
    split; [done|apply not_elem_of_nil].
Qed.

Lemma rstrip_plain c s : c ∉ chars s -> Str.rstrip s c = s.
Proof.
  induction s as [|x s IH]; intros Hc; [done|].
  unfold chars in Hc. simpl in Hc. apply not_elem_of_cons in Hc as [Hx Hc].
  simpl. rewrite IH by done. destruct s; [|done].
  assert (Ascii.eqb x c = false) as -> by (apply Ascii.eqb_neq; congruence).
  done.
Qed.

Lemma rstrip_newline c s :
  c ∉ chars s -> Str.rstrip (String.append s (String c "")) c = s.
Proof.
  induction s as [|x s IH]; intros Hc; simpl.
  - by rewrite Ascii.eqb_refl.
  - unfold chars in Hc. simpl in Hc. apply not_elem_of_cons in Hc as [Hx Hc].
    rewrite IH by done. destruct s; [|done].
    assert (Ascii.eqb x c = false) as -> by (apply Ascii.eqb_neq; congruence).
    done.
Qed.
End Splitting.

(** ** Flat mode: from the lines of the file to the data lines *)

Section FlatLines.
Variable int : string -> option Z.

Lemma read_nodes_ok node_ids p la d c col rest : forall todo st,
  FlatFile.read_nodes int node_ids (p :: la :: d :: c :: col :: rest) todo st
  = Ok (fold_left (Flat.read_id (Flat.Row node_ids p la d (int c) col)) todo st).
Proof.
  induction todo as [|i todo IH]; intros st; [done|].
  cbn [FlatFile.read_nodes]. unfold FlatFile.read_node, FlatFile.item.
  cbn [lookup list_lookup from_option bind fold_left]. apply IH.
Qed.

Lemma fields_split1 line :
  fields line
  = (Str.split1 (Str.rstrip line newline_char) Str.tab).1
    :: (Str.split1 (Str.rstrip line newline_char) Str.tab).2.
Proof.
  unfold fields, Str.split. by destruct (Str.split1 _ _).
Qed.

Lemma read_line_ok st line :
  (6 <= length (fields line))%nat ->
  FlatFile.read_line int st line = Ok (Flat.read_row st (row_of int line)).
Proof.
  intros Hlen. unfold row_of, field. rewrite fields_split1 in *.
  unfold FlatFile.read_line. fold newline_char.
  destruct (Str.split1 (Str.rstrip line newline_char) Str.tab)
    as [u line_data].
  simpl in Hlen |- *.
  destruct line_data as [|p [|la [|d [|c [|col rest]]]]]; simpl in Hlen;
    try lia.
  rewrite read_nodes_ok. done.
Qed.

Lemma read_line_short st line :
  (length (fields line) < 6)%nat ->
  FlatFile.read_line int st line = Raise IndexError.
Proof.
  intros Hlen. rewrite fields_split1 in Hlen.
  unfold FlatFile.read_line. fold newline_char.
  destruct (Str.split1 (Str.rstrip line newline_char) Str.tab)
    as [u line_data].
  simpl in Hlen.
  pose proof (split_nonempty u "|") as Hne.
  destruct (Str.split u "|") as [|i ids]; [done|].
  cbn [FlatFile.read_nodes]. unfold FlatFile.read_node, FlatFile.item.
  destruct line_data as [|p [|la [|d [|c [|col rest]]]]]; simpl in Hlen;
    try lia; done.
Qed.

Lemma read_lines_ok lines : forall st,
  Forall (fun l => (6 <= length (fields l))%nat) lines ->
  FlatFile.read_lines int lines st
  = Ok (fold_left Flat.read_row (row_of int <$> lines) st).
Proof.
  induction lines as [|l lines IH]; intros st Hall; [done|].
  apply Forall_cons in Hall as [Hl Hall].
  cbn [FlatFile.read_lines]. rewrite read_line_ok by done.
  cbn [bind]. rewrite IH by done. done.
Qed.

(** X16: a file whose data lines have six tab separated fields or more
    is the list of data lines that [row_of] reads from them: node ids
    separated by bars, parent, label, description, count and color.
    The first line of the file is skipped whatever it holds, and fields
    after the sixth are not looked at.  A file of one line or none
    gives the empty forest. *)
Theorem file_is_its_rows :
  forall (fuel : nat) (lines : list string),
    Forall (fun l => (6 <= length (fields l))%nat) (tail lines) ->
    FlatFile.build_non_separator_based_tree int fuel lines
    = Flat.build_non_separator_based_tree fuel (row_of int <$> tail lines)
    /\ (tail lines = [] ->
        FlatFile.build_non_separator_based_tree int (S fuel) lines
        = Ok ([], [])).
Proof.
  intros fuel lines Hall.
  unfold FlatFile.build_non_separator_based_tree, FlatFile.read_file.
  split.
  - rewrite read_lines_ok by done. done.
  - intros ->. reflexivity.
Qed.

(** X17: a data line with fewer than six tab separated fields (an empty
    line is one) stops the reading with [IndexError]; only [ValueError]
    is caught around the reading of the count. *)
Theorem short_line_raises :
  forall (fuel : nat) (header : string) (before : list string)
    (line : string) (after : list string),
    Forall (fun l => (6 <= length (fields l))%nat) before ->
    (length (fields line) < 6)%nat ->
    FlatFile.build_non_separator_based_tree int fuel
      (header :: before ++ line :: after)
    = Raise IndexError.
Proof.
  intros fuel header before line after Hall Hshort.
  unfold FlatFile.build_non_separator_based_tree, FlatFile.read_file.
  cbn [tail].
  assert (forall st, FlatFile.read_lines int (before ++ line :: after) st
                     = Raise IndexError) as ->; [|done].
  induction before as [|l before IH]; intros st.
  - cbn [app FlatFile.read_lines]. by rewrite read_line_short.
  - apply Forall_cons in Hall as [Hl Hall].
    cbn [app FlatFile.read_lines]. rewrite read_line_ok by done.
    cbn [bind]. by apply IH.
Qed.

(** X18: round trip of a line.  Node ids joined by bars, then parent,
    label, description, count, color and any further fields, joined by
    tabs and closed by a newline, are read back as these node ids and
    fields, as long as no field holds a tab or a newline (and no node
    id a bar). *)
Theorem line_round_trip :
  forall (st : Flat.state) (ids : list string)
    (parent label description count color : string) (extra : list string),
    ids <> [] ->
    Forall (fun f => plain f /\ bar_char ∉ chars f) ids ->
    Forall plain (parent :: label :: description :: count :: color :: extra) ->
    FlatFile.read_line int st
      (String.append
         (Str.join Str.tab
            (Str.join "|" ids
               :: parent :: label :: description :: count :: color :: extra))
         Str.newline)
    = Ok (Flat.read_row st
            (Flat.Row ids parent label description (int count) color)).
Proof.
  intros st ids p la d c col extra Hne Hids Hfs.
  set (fs := Str.join "|" ids :: p :: la :: d :: c :: col :: extra).
  assert (Forall plain fs) as Hplain.
  { constructor; [|done]. split.
    - apply (chars_join bar_char); [done|].
      eapply Forall_impl; [exact Hids|]. by intros f [[? ?] ?].
    - apply (chars_join bar_char); [done|].
      eapply Forall_impl; [exact Hids|]. by intros f [[? ?] ?]. }
  assert (fields (String.append (Str.join Str.tab fs) Str.newline) = fs)
    as Hfields.
  { unfold fields. change Str.newline with (String newline_char "").
    rewrite rstrip_newline.
    - apply (split_join tab_char); [done|].
      eapply Forall_impl; [exact Hplain|]. by intros f [? ?].
    - apply (chars_join tab_char); [done|].
      eapply Forall_impl; [exact Hplain|]. by intros f [? ?]. }
  rewrite read_line_ok by (rewrite Hfields; simpl; lia).
  unfold row_of, field. rewrite Hfields. simpl.
  rewrite (split_join bar_char); [done|done|].
  eapply Forall_impl; [exact Hids|]. by intros f [? ?].
Qed.
End FlatLines.

(* a field without tab and newline, by computation *)
Ltac decide_plain :=
  repeat match goal with
         | |- Forall _ _ => constructor
         | |- _ /\ _ => split
         | |- plain _ => unfold plain
         | |- _ ∉ _ => apply (bool_decide_unpack _); vm_compute; exact I
         | |- (_ <= _)%nat => vm_compute; lia
         | |- (_ < _)%nat => vm_compute; lia
         end.

Lemma file_is_its_rows_witness :
  FlatFile.build_non_separator_based_tree int_seven 3 file_chain
  = Flat.build_non_separator_based_tree 3
      (row_of int_seven <$> tail file_chain)
  /\ FlatFile.build_non_separator_based_tree int_seven 1 ["id"] = Ok ([], []).
Proof.
  split.
  - apply (file_is_its_rows int_seven 3 file_chain). simpl. decide_plain.
  - apply (file_is_its_rows int_seven 0 ["id"]); [constructor|done].
Defined.

Lemma short_line_raises_witness :
  FlatFile.build_non_separator_based_tree int_seven 3
    [ tsv ["id"; "parent"; "label"; "description"; "count"; "color"];
      tsv ["A"; ""; "a"; ""; "1"; "#000000"];
      Str.newline;
      tsv ["B"; "A"; "b"; ""; "1"; "#000000"] ]
  = Raise IndexError.
Proof.
  apply (short_line_raises int_seven 3
           (tsv ["id"; "parent"; "label"; "description"; "count"; "color"])
           [tsv ["A"; ""; "a"; ""; "1"; "#000000"]] Str.newline
           [tsv ["B"; "A"; "b"; ""; "1"; "#000000"]]); decide_plain.
Defined.

Lemma line_round_trip_witness :
  FlatFile.read_line int_seven (Flat.State [] [] [] [])
    (tsv ["A|B"; "R"; "a"; "d"; "12"; "#000000"; "more"])
  = Ok (Flat.read_row (Flat.State [] [] [] [])
          (Flat.Row ["A"; "B"] "R" "a" "d" (Some 7) "#000000")).
Proof.
  apply (line_round_trip int_seven (Flat.State [] [] [] []) ["A"; "B"]
           "R" "a" "d" "12" "#000000" ["more"]); [done| |]; decide_plain.
Defined.

(** ** The parser *)

Section Parser.
Import Parse.

Lemma index_None text : index text = None <-> "" ∉ text.
Proof.
  induction text as [|l text IH]; simpl.
  - split; [intros _; apply not_elem_of_nil|done].
  - destruct (String.eqb_spec l "") as [->|Hne].
    + split; [done|]. intros H. exfalso. apply H. left.
    + rewrite not_elem_of_cons, <- IH. destruct (index text); simpl.
      * split; [done|]. by intros [_ ?].
      * split; [|done]. intros _. split; [congruence|done].
Qed.

Lemma index_header header rest :
  Forall (fun l => l <> "") header ->
  index (header ++ "" :: rest) = Some (length header).
Proof.
  induction 1 as [|l header Hl _ IH]; [done|]. simpl.
  destruct (String.eqb_spec l ""); [done|]. by rewrite IH.
Qed.

Lemma drop_header {A : Type} (header : list A) x rest :
  drop (S (length header)) (header ++ x :: rest) = rest.
Proof. induction header as [|y header IH]; [done|]. exact IH. Qed.

Lemma split_text lines :
  lines <> [] -> Forall one_line lines ->
  Str.split (text_of lines) Str.newline = lines.
Proof. intros Hne Hl. by apply (split_join newline_char). Qed.

(** The text of a header, an empty line and further lines: the header
    is cut off and the further lines are read one by one. *)
Lemma parse_file_lines ex header rest :
  Forall header_line header -> Forall one_line rest ->
  parse_obo_file (text_of (header ++ "" :: rest)) ex
  = match parse_lines ex rest initial with
    | Parsed st => Parsed (raw_terms st, store st)
    | Fails e => Fails e
    end.
Proof.
  intros Hh Hr. unfold parse_obo_file. rewrite split_text.
  - rewrite index_header by (eapply Forall_impl; [exact Hh|]; by intros l [? ?]).
    by rewrite drop_header.
  - by destruct header.
  - apply Forall_app. split.
    + eapply Forall_impl; [exact Hh|]. by intros l [? ?].
    + constructor; [|done]. unfold one_line, chars. simpl.
      apply not_elem_of_nil.
Qed.

Lemma parse_lines_app ex l1 : forall l2 st,
  parse_lines ex (l1 ++ l2) st
  = match parse_lines ex l1 st with
    | Parsed st1 => parse_lines ex l2 st1
    | Fails e => Fails e
    end.
Proof.
  induction l1 as [|l l1 IH]; intros l2 st; [done|]. simpl.
  destruct (step ex st l); [apply IH|done].
Qed.

Lemma update_Term : update "[Term]" = None.
Proof. reflexivity. Qed.

Lemma update_blank : update "" = None.
Proof. reflexivity. Qed.

Lemma state_eta st t :
  new_entity st = Some t -> State (older st) (Some t) (raw_terms st) = st.
Proof. destruct st; simpl. by intros ->. Qed.

Lemma step_body ex st t l :
  new_entity st = Some t -> body_line l ->
  step ex st l
  = Parsed (State (older st)
              (Some (match update l with Some g => g t | None => t end))
              (raw_terms st)).
Proof.
  intros Hnew [HT Hb]. unfold step.
  destruct (String.eqb_spec l "[Term]"); [done|].
  destruct (update l) as [g|].
  - unfold assign. by rewrite Hnew.
  - destruct (String.eqb_spec l ""); [done|]. by rewrite state_eta.
Qed.

Lemma run_body ex body : forall st t,
  new_entity st = Some t -> Forall body_line body ->
  parse_lines ex body st
  = Parsed (State (older st) (Some (read_body t body)) (raw_terms st)).
Proof.
  induction body as [|l body IH]; intros st t Hnew Hb.
  - simpl. by rewrite state_eta.
  - apply Forall_cons in Hb as [Hl Hb]. cbn [parse_lines].
    rewrite (step_body ex st t l Hnew Hl).
    rewrite (IH (State (older st) _ (raw_terms st)) _ eq_refl Hb). done.
Qed.

Lemma step_blank ex st t :
  new_entity st = Some t ->
  step ex st ""
  = Parsed (if skipped ex t then st
            else State (older st) (Some t)
                   (file (raw_terms st) (id t) (length (older st)))).
Proof.
  intros Hnew. unfold step. change (String.eqb "" "[Term]") with false.
  rewrite update_blank. change (String.eqb "" "") with true. cbv iota.
  rewrite Hnew. unfold skipped. by destruct (ex && is_obsolete t).
Qed.

Lemma run_body_blank ex body st t :
  new_entity st = Some t -> Forall body_line body ->
  parse_lines ex (body ++ [""]) st
  = Parsed (State (older st) (Some (read_body t body))
              (if skipped ex (read_body t body) then raw_terms st
               else file (raw_terms st) (id (read_body t body))
                      (length (older st)))).
Proof.
  intros Hnew Hb. rewrite parse_lines_app, (run_body ex body st t Hnew Hb).
  cbn [parse_lines].
  rewrite (step_blank ex (State (older st) (Some (read_body t body))
                            (raw_terms st))
             (read_body t body) eq_refl).
  by destruct (skipped ex (read_body t body)).
Qed.

Lemma run_stanza ex body st :
  Forall body_line body ->
  parse_lines ex (stanza body) st = Parsed (after_stanza ex st body).
Proof.
  intros Hb. unfold stanza. cbn [parse_lines].
  unfold step at 1. change (String.eqb "[Term]" "[Term]") with true.
  cbv iota. rewrite parse_lines_app.
  rewrite (run_body ex body (State (store st) (Some fresh) (raw_terms st))
             fresh eq_refl Hb).
  cbn [parse_lines older raw_terms].
  rewrite (step_blank ex (State (store st) (Some (read_body fresh body))
                            (raw_terms st))
             (read_body fresh body) eq_refl).
  unfold after_stanza, term_of. simpl.
  by destruct (skipped ex (read_body fresh body)).
Qed.

Lemma run_stanzas ex bodies : forall st,
  Forall (Forall body_line) bodies ->
  parse_lines ex (concat (stanza <$> bodies)) st
  = Parsed (fold_left (after_stanza ex) bodies st).
Proof.
  induction bodies as [|body bodies IH]; intros st Hb; [done|].
  apply Forall_cons in Hb as [Hbody Hb].
  change (concat (stanza <$> body :: bodies))
    with (stanza body ++ concat (stanza <$> bodies)).
  rewrite parse_lines_app, run_stanza by done. simpl. by apply IH.
Qed.
End Parser.

Section ParserResult.
Import Parse.

Lemma NoDup_file d k a : NoDup d.*1 -> NoDup (file d k a).*1.
Proof.
  induction d as [|[k0 a0] d IH]; intros Hnd; simpl.
  - apply NoDup_singleton.
  - rewrite fmap_cons in Hnd. apply NoDup_cons in Hnd as [Hk Hnd].
    case_bool_decide; rewrite fmap_cons; simpl.
    + by apply NoDup_cons.
    + apply NoDup_cons. split; [|by apply IH].
      intros Hin. apply Hk.
      clear IH Hnd Hk. induction d as [|[k1 a1] d IH]; simpl in Hin.
      * apply list_elem_of_singleton in Hin. simpl in Hin. congruence.
      * case_bool_decide; rewrite fmap_cons in Hin |- *; simpl in *.
        -- done.
        -- apply elem_of_cons in Hin as [->|Hin]; [left|right; auto].
Qed.

Lemma file_elem d k a k' a' :
  NoDup d.*1 ->
  (k', a') ∈ file d k a
  <-> (k' = k /\ a' = a) \/ (k' <> k /\ (k', a') ∈ d).
Proof.
  induction d as [|[k0 a0] d IH]; intros Hnd; simpl.
  - rewrite list_elem_of_singleton. split.
    + intros [= -> ->]. by left.
    + intros [[-> ->]|[_ H]]; [done|by apply elem_of_nil in H].
  - rewrite fmap_cons in Hnd. apply NoDup_cons in Hnd as [Hk Hnd].
    simpl in Hk. case_bool_decide as Hkk; rewrite !elem_of_cons.
    + subst k0. split.
      * intros [[= -> ->]|Hin]; [by left|]. right.
        split; [|by right]. intros ->. apply Hk.
        apply list_elem_of_fmap. by exists (k, a').
      * intros [[-> ->]|[Hne [[= -> ->]|Hin]]]; [by left|done|by right].
    + rewrite (IH Hnd). split.
      * intros [[= -> ->]|[[-> ->]|[Hne Hin]]].
        -- right. split; [congruence|by left].
        -- by left.
        -- right. split; [done|by right].
      * intros [[-> ->]|[Hne [[= -> ->]|Hin]]].
        -- right. by left.
        -- by left.
        -- right. right. done.
Qed.

Lemma file_keeps d k a k' :
  (k, a) ∈ d -> (k, a) ∈ file d k' a.
Proof.
  induction d as [|[k0 a0] d IH]; intros Hin; simpl.
  - by apply elem_of_nil in Hin.
  - case_bool_decide as Hkk.
    + apply elem_of_cons in Hin as [[= -> ->]|Hin]; [left|by right].
    + apply elem_of_cons in Hin as [[= -> ->]|Hin]; [left|right; auto].
Qed.

Lemma file_has d k a : (k, a) ∈ file d k a.
Proof.
  induction d as [|[k0 a0] d IH]; simpl; [left|].
  case_bool_decide as Hkk; [subst; left|by right].
Qed.

Lemma store_after_stanza ex st body :
  store (after_stanza ex st body) = store st ++ [term_of body].
Proof. done. Qed.

(** One more stanza: the dictionary keeps, for every id, the last filed
    stanza that carries it. *)
Lemma after_stanza_inv ex seen st body :
  store st = term_of <$> seen -> NoDup (raw_terms st).*1 ->
  (forall k a, (k, a) ∈ raw_terms st <-> last_filed ex seen k a) ->
  store (after_stanza ex st body) = term_of <$> (seen ++ [body])
  /\ NoDup (raw_terms (after_stanza ex st body)).*1
  /\ forall k a, (k, a) ∈ raw_terms (after_stanza ex st body)
                 <-> last_filed ex (seen ++ [body]) k a.
Proof.
  intros Hstore Hnd Hraw.
  assert (length (store st) = length seen) as Hlen
    by (by rewrite Hstore, length_fmap).
  split; [by rewrite store_after_stanza, Hstore, fmap_app|].
  assert (forall a b, (seen ++ [body]) !! a = Some b ->
            (a < length seen /\ seen !! a = Some b)%nat
            \/ (a = length seen /\ b = body)) as Hlook.
  { intros a b Ha. apply lookup_app_Some in Ha as [Ha|[Hge Ha]].
    - left. split; [by eapply lookup_lt_Some|done].
    - right. apply list_lookup_singleton_Some in Ha as [Hz <-].
      split; [lia|done]. }
  unfold after_stanza. cbn [raw_terms].
  destruct (skipped ex (term_of body)) eqn:Hskip.
  - split; [done|]. intros k a. rewrite Hraw. split.
    + intros (b & Ha & Hid & Hs & Hlast). exists b.
      split; [by apply lookup_app_l_Some|]. do 2 (split; [done|]).
      intros a' b' Hlt Ha' Hs'.
      destruct (Hlook a' b' Ha') as [[_ Hold]|[_ ->]]; [eauto|congruence].
    + intros (b & Ha & Hid & Hs & Hlast).
      destruct (Hlook a b Ha) as [[_ Hold]|[_ ->]]; [|congruence].
      exists b. do 3 (split; [done|]).
      intros a' b' Hlt Ha' Hs'. apply (Hlast a' b' Hlt); [|done].
      by apply lookup_app_l_Some.
  - split; [by apply NoDup_file|]. intros k a.
    rewrite (file_elem _ _ _ _ _ Hnd), Hraw, Hlen. split.
    + intros [[-> ->]|[Hne (b & Ha & Hid & Hs & Hlast)]].
      * exists body. split; [apply lookup_last|]. do 2 (split; [done|]).
        intros a' b' Hlt Ha'. apply lookup_lt_Some in Ha'.
        rewrite length_app in Ha'. simpl in Ha'. lia.
      * exists b. split; [by apply lookup_app_l_Some|].
        do 2 (split; [done|]). intros a' b' Hlt Ha' Hs'.
        destruct (Hlook a' b' Ha') as [[_ Hold]|[_ ->]]; [eauto|].
        congruence.
    + intros (b & Ha & Hid & Hs & Hlast).
      destruct (Hlook a b Ha) as [[Hlt Hold]|[-> ->]]; [|by left].
      right. split.
      * intros ->. apply (Hlast (length seen) body Hlt (lookup_last _ _) Hskip).
        done.
      * exists b. do 3 (split; [done|]). intros a' b' Hlt' Ha' Hs'.
        apply (Hlast a' b' Hlt'); [|done]. by apply lookup_app_l_Some.
Qed.

Lemma fold_stanzas ex : forall bodies seen st,
  store st = term_of <$> seen -> NoDup (raw_terms st).*1 ->
  (forall k a, (k, a) ∈ raw_terms st <-> last_filed ex seen k a) ->
  store (fold_left (after_stanza ex) bodies st)
  = term_of <$> (seen ++ bodies)
  /\ NoDup (raw_terms (fold_left (after_stanza ex) bodies st)).*1
  /\ forall k a,
       (k, a) ∈ raw_terms (fold_left (after_stanza ex) bodies st)
       <-> last_filed ex (seen ++ bodies) k a.
Proof.
  induction bodies as [|body bodies IH]; intros seen st Hstore Hnd Hraw.
  - simpl. by rewrite app_nil_r.
  - simpl. rewrite (cons_middle body seen bodies), app_assoc.
    destruct (after_stanza_inv ex seen st body Hstore Hnd Hraw)
      as (H1 & H2 & H3).
    by apply IH.
Qed.

Lemma concat_stanza_lines bodies :
  Forall (Forall stanza_line) bodies ->
  Forall one_line (concat (stanza <$> bodies))
  /\ Forall (Forall body_line) bodies.
Proof.
  induction 1 as [|body bodies Hb _ [IH1 IH2]]; [by split|]. split.
  - rewrite fmap_cons. simpl concat. constructor.
    + unfold one_line. apply (bool_decide_unpack _). by vm_compute.
    + rewrite <- app_assoc. rewrite Forall_app. split.
      * eapply Forall_impl; [exact Hb|]. by intros l [? ?].
      * constructor; [|done]. unfold one_line, chars. simpl.
        apply not_elem_of_nil.
  - constructor; [|done]. eapply Forall_impl; [exact Hb|]. by intros l [? ?].
Qed.

(** X19: a text without an empty line cannot be parsed: looking for the
    end of the header raises [ValueError]. *)
Theorem text_without_empty_line :
  forall (text : string) (exclude_obsolete_terms : bool),
    "" ∉ Str.split text Str.newline ->
    parse_obo_file text exclude_obsolete_terms = Fails ValueError.
Proof.
  intros text ex Hno. unfold parse_obo_file.
  apply index_None in Hno. by rewrite Hno.
Qed.

Lemma text_without_empty_line_witness :
  parse_obo_file (text_of ["format-version: 1.2"; "[Term]"; "id: A"]) true
  = Fails ValueError.
Proof.
  apply text_without_empty_line. apply (bool_decide_unpack _). by vm_compute.
Defined.

(** X20: after the header, a line that assigns to the entity, or an
    empty line, raises [TypeError] when no [Term] line came before it:
    there is no entity yet.  A second empty line after the header is
    such a line. *)
Theorem line_before_first_term_fails :
  forall (exclude_obsolete_terms : bool) (header ignored : list string)
    (line : string) (rest : list string),
    Forall header_line header ->
    Forall (fun l => stanza_line l /\ update l = None) ignored ->
    line = "" \/ (is_Some (update line) /\ one_line line) ->
    Forall one_line rest ->
    parse_obo_file (text_of (header ++ "" :: ignored ++ line :: rest))
      exclude_obsolete_terms
    = Fails TypeError.
Proof.
  intros ex header ignored line rest Hh Hi Hline Hrest.
  assert (one_line line) as Hone.
  { destruct Hline as [->|[_ ?]]; [|done]. unfold one_line, chars. simpl.
    apply not_elem_of_nil. }
  rewrite parse_file_lines; [|done|].
  - assert (parse_lines ex (ignored ++ line :: rest) initial = Fails TypeError)
      as ->; [|done].
    clear Hrest Hone. induction Hi as [|l ignored [[[HT Hb] _] Hu] _ IH].
    + cbn [app parse_lines]. unfold step.
      destruct Hline as [->|[[g Hg] _]].
      * change (String.eqb "" "[Term]") with false. by rewrite update_blank.
      * destruct (String.eqb_spec line "[Term]") as [->|_].
        { rewrite update_Term in Hg. done. }
        by rewrite Hg.
    + cbn [app parse_lines]. unfold step at 1.
      destruct (String.eqb_spec l "[Term]"); [done|]. rewrite Hu.
      destruct (String.eqb_spec l ""); [done|]. exact IH.
  - apply Forall_app. split.
    + eapply Forall_impl; [exact Hi|]. by intros l [[_ ?] _].
    + by constructor.
Qed.

Lemma line_before_first_term_fails_witness :
  parse_obo_file
    (text_of ["format-version: 1.2"; ""; ""; "[Term]"; "id: A"; ""]) true
  = Fails TypeError.
Proof.
  apply (line_before_first_term_fails true ["format-version: 1.2"] [] ""
           ["[Term]"; "id: A"; ""]).
  - constructor; [|constructor]. split; [done|].
    unfold one_line. apply (bool_decide_unpack _). by vm_compute.
  - constructor.
  - by left.
  - repeat constructor; unfold one_line; apply (bool_decide_unpack _);
      by vm_compute.
Defined.

(* the result of parsing a header, an empty line and stanzas *)
Lemma parse_stanzas ex header bodies :
  Forall header_line header ->
  Forall (Forall stanza_line) bodies ->
  parse_obo_file (text_of (header ++ "" :: concat (stanza <$> bodies))) ex
  = Parsed (raw_terms (fold_left (after_stanza ex) bodies initial),
            store (fold_left (after_stanza ex) bodies initial)).
Proof.
  intros Hh Hb.
  destruct (concat_stanza_lines bodies Hb) as [Hone Hbody].
  rewrite parse_file_lines by done. by rewrite run_stanzas.
Qed.

Lemma stanzas_filed ex bodies :
  store (fold_left (after_stanza ex) bodies initial) = term_of <$> bodies
  /\ NoDup (raw_terms (fold_left (after_stanza ex) bodies initial)).*1
  /\ forall k a,
       (k, a) ∈ raw_terms (fold_left (after_stanza ex) bodies initial)
       <-> last_filed ex bodies k a.
Proof.
  apply (fold_stanzas ex bodies [] initial).
  - done.
  - constructor.
  - intros k a. split; [intros H; by apply elem_of_nil in H|].
    intros (b & Ha & _). done.
Qed.

(** X21: a text made of a header, an empty line and stanzas.  Every
    stanza makes one term, in the order of the text, read from the lines
    of its body.  [raw_terms] files a term under its id unless it is
    obsolete and obsolete terms are excluded; of two filed stanzas with
    the same id the later one is kept. *)
Theorem proper_file_parses :
  forall (exclude_obsolete_terms : bool) (header : list string)
    (bodies : list (list string)),
    Forall header_line header ->
    Forall (Forall stanza_line) bodies ->
    exists raw h,
      parse_obo_file (text_of (header ++ "" :: concat (stanza <$> bodies)))
        exclude_obsolete_terms
      = Parsed (raw, h)
      /\ h = term_of <$> bodies
      /\ NoDup raw.*1
      /\ forall k a,
           (k, a) ∈ raw <-> last_filed exclude_obsolete_terms bodies k a.
Proof.
  intros ex header bodies Hh Hb.
  rewrite (parse_stanzas ex header bodies Hh Hb).
  destruct (stanzas_filed ex bodies) as (Hs & Hnd & Hraw).
  eexists _, _. split; [reflexivity|].
  split; [exact Hs|]. split; [exact Hnd|exact Hraw].
Qed.

End ParserResult.

(* a line of a text, by computation *)
Ltac decide_lines :=
  repeat match goal with
         | |- Forall _ _ => constructor
         | |- _ /\ _ => split
         | |- header_line _ => unfold header_line
         | |- stanza_line _ => unfold stanza_line
         | |- body_line _ => unfold body_line
         | |- one_line _ => unfold one_line
         | |- _ ∉ _ => apply (bool_decide_unpack _); vm_compute; exact I
         | |- _ <> _ => discriminate
         end.

Lemma proper_file_parses_witness :
  exists raw h,
    Parse.parse_obo_file
      (text_of (["format-version: 1.2"] ++ ""
                  :: concat (stanza <$> [body_root; body_gone; body_child])))
      true
    = Parse.Parsed (raw, h)
    /\ h = term_of <$> [body_root; body_gone; body_child]
    /\ raw = [(Some "A:1", 0%nat); (Some "A:2", 2%nat)].
Proof.
  destruct (proper_file_parses true ["format-version: 1.2"]
              [body_root; body_gone; body_child])
    as (raw & h & Heq & Hh & _); [decide_lines..|].
  exists raw, h. split; [exact Heq|]. split; [exact Hh|].
  vm_compute in Heq. by injection Heq as <- _.
Defined.

Section ParserToBuilder.
Import Parse.

(* no line of a stanza leaves an empty [is_a] entry *)
Lemma update_is_a_nonempty l g t :
  update l = Some g ->
  Forall (fun e => e <> []) (is_a t) -> Forall (fun e => e <> []) (is_a (g t)).
Proof.
  unfold update. intros Hu Ht.
  repeat match type of Hu with
         | (if ?c then _ else _) = _ => destruct c
         end;
    try discriminate; injection Hu as <-; simpl; try done.
  apply Forall_app. split; [done|].
  constructor; [apply split_nonempty|constructor].
Qed.

Lemma read_body_is_a body : forall t,
  Forall (fun e => e <> []) (is_a t) ->
  Forall (fun e => e <> []) (is_a (read_body t body)).
Proof.
  induction body as [|l body IH]; intros t Ht; [done|].
  unfold read_body. simpl. apply IH.
  destruct (update l) as [g|] eqn:Hu; [|done].
  by eapply update_is_a_nonempty.
Qed.

Lemma to_entity_Some t i :
  id t = Some i ->
  exists e, to_entity t = Some e /\ Obo.id e = i /\ Obo.is_a e = is_a t.
Proof. intros Hi. unfold to_entity. rewrite Hi. eauto. Qed.

(** X22: from the parser to the builder.  On a text made of a header,
    an empty line and stanzas that all have an id line, the dictionary
    [parse_obo_file] returns is one the builder's properties are proved
    for: a key is the id of the term filed under it, and every [is_a]
    entry, the result of a [split], has a first element. *)
Theorem parsed_terms_fit_the_builder :
  forall (exclude_obsolete_terms : bool) (header : list string)
    (bodies : list (list string)),
    Forall header_line header ->
    Forall (Forall stanza_line) bodies ->
    Forall (fun body => is_Some (id (term_of body))) bodies ->
    exists raw' h' raw h,
      parse_obo_file (text_of (header ++ "" :: concat (stanza <$> bodies)))
        exclude_obsolete_terms
      = Parsed (raw', h')
      /\ to_terms raw' = Some raw /\ to_store h' = Some h
      /\ wf_raw raw h.
Proof.
  intros ex header bodies Hh Hb Hids.
  rewrite (parse_stanzas ex header bodies Hh Hb).
  destruct (stanzas_filed ex bodies) as (Hs & Hnd & Hraw).
  rewrite Hs. clear Hs.
  remember (raw_terms (fold_left (after_stanza ex) bodies initial)) as raw'
    eqn:E in *.
  clear E.
  assert (is_Some (to_store (term_of <$> bodies))) as [h Hstore].
  { apply mapM_is_Some_2. apply Forall_fmap.
    eapply Forall_impl; [exact Hids|]. intros body [i Hi]. simpl.
    destruct (to_entity_Some _ _ Hi) as (e & -> & _). eauto. }
  assert (is_Some (to_terms raw')) as [raw Hterms].
  { apply mapM_is_Some_2. apply Forall_forall. intros [k a] Hin. simpl.
    apply Hraw in Hin as (body & Ha & <- & _).
    rewrite Forall_forall in Hids.
    destruct (Hids body (list_elem_of_lookup_2 _ _ _ Ha)) as [i ->]. eauto. }
  exists raw', (term_of <$> bodies), raw, h. do 3 (split; [done|]).
  apply mapM_Some_1 in Hterms, Hstore.
  assert (forall k a, (k, a) ∈ raw -> (Some k, a) ∈ raw') as Hback.
  { intros k a Hin. apply list_elem_of_lookup_1 in Hin as [i Hi].
    destruct (Forall2_lookup_r _ _ _ _ _ Hterms Hi) as ([k' a'] & Hi' & Hf).
    simpl in Hf. destruct k' as [k'|]; [|done]. injection Hf as -> ->.
    by eapply list_elem_of_lookup_2. }
  split.
  - assert (raw'.*1 = Some <$> keys raw) as Hkeys.
    { clear Hraw Hnd Hback.
      induction Hterms as [|[k' a'] [k a] raw' raw Hf _ IH]; [done|].
      simpl in Hf. destruct k' as [k'|]; [|done]. injection Hf as -> ->.
      unfold keys in *. rewrite !fmap_cons. simpl. by rewrite IH. }
    rewrite Hkeys in Hnd. by apply NoDup_fmap in Hnd; [|apply _].
  - intros k a Hin. apply Hback, Hraw in Hin as (body & Ha & Hid & _).
    assert ((term_of <$> bodies) !! a = Some (term_of body)) as Ht
      by (by rewrite list_lookup_fmap, Ha).
    destruct (Forall2_lookup_l _ _ _ _ _ Hstore Ht) as (e & He & Hte).
    destruct (to_entity_Some _ _ Hid) as (e' & He' & Hide & Hisa).
    assert (e' = e) as -> by congruence.
    exists e. do 2 (split; [done|]). rewrite Hisa.
    by apply read_body_is_a.
Qed.

Lemma parsed_terms_fit_the_builder_witness :
  exists raw' h' raw h,
    parse_obo_file
      (text_of (["format-version: 1.2"] ++ ""
                  :: concat (stanza <$> [body_root; body_gone; body_child])))
      true
    = Parsed (raw', h')
    /\ to_terms raw' = Some raw /\ to_store h' = Some h
    /\ wf_raw raw h.
Proof.
  apply (parsed_terms_fit_the_builder true ["format-version: 1.2"]
           [body_root; body_gone; body_child]); [decide_lines..|].
  repeat constructor; vm_compute; eauto.
Defined.

Lemma fold_left_snoc {A B : Type} (g : A -> B -> A) l x a :
  fold_left g (l ++ [x]) a = g (fold_left g l a) x.
Proof. by rewrite fold_left_app. Qed.

(** X23: lines after the empty line of a stanza.  Lines that follow a
    stanza without a new [Term] line (a [Typedef] stanza is made of
    such lines) are read into the term of that stanza, the last one
    made, and the next empty line files it again, under the id it has
    by then.  With an id line among them the dictionary ends up with
    two ids for this one term, and under the first id a term is found
    that carries the second. *)
Theorem lines_after_a_stanza_change_its_term :
  forall (exclude_obsolete_terms : bool) (header : list string)
    (bodies : list (list string)) (body extra : list string),
    Forall header_line header ->
    Forall (Forall stanza_line) (bodies ++ [body]) ->
    Forall stanza_line extra ->
    skipped exclude_obsolete_terms (term_of body) = false ->
    skipped exclude_obsolete_terms (read_body (term_of body) extra) = false ->
    exists raw h,
      parse_obo_file
        (text_of (header ++ ""
                    :: concat (stanza <$> bodies ++ [body]) ++ extra ++ [""]))
        exclude_obsolete_terms
      = Parsed (raw, h)
      /\ h = (term_of <$> bodies) ++ [read_body (term_of body) extra]
      /\ (id (term_of body), length bodies) ∈ raw
      /\ (id (read_body (term_of body) extra), length bodies) ∈ raw.
Proof.
  intros ex header bodies body extra Hh Hb He Hs Hs'.
  destruct (concat_stanza_lines _ Hb) as [Hone Hbody].
  assert (Forall body_line extra) as Hextra
    by (eapply Forall_impl; [exact He|]; by intros l [? ?]).
  rewrite parse_file_lines; [|done|].
  - rewrite parse_lines_app, run_stanzas by done.
    rewrite fold_left_snoc.
    set (st0 := fold_left (after_stanza ex) bodies initial).
    destruct (stanzas_filed ex bodies) as (Hstore & _).
    fold st0 in Hstore.
    rewrite (run_body_blank ex extra (after_stanza ex st0 body) (term_of body)
               eq_refl Hextra).
    rewrite Hs'. unfold after_stanza. rewrite Hs. cbn.
    eexists _, _. split; [done|]. rewrite Hstore, length_fmap.
    split; [done|]. split; [apply file_keeps|]; apply file_has.
  - apply Forall_app. split; [done|]. apply Forall_app. split.
    + eapply Forall_impl; [exact He|]. by intros l [? ?].
    + constructor; [|done]. unfold one_line, chars. simpl.
      apply not_elem_of_nil.
Qed.

Lemma lines_after_a_stanza_change_its_term_witness :
  exists raw h,
    parse_obo_file
      (text_of (["format-version: 1.2"] ++ ""
                  :: concat (stanza <$> [body_root] ++ [body_child])
                       ++ body_typedef ++ [""]))
      true
    = Parsed (raw, h)
    /\ (Some "A:2", 1%nat) ∈ raw /\ (Some "part_of", 1%nat) ∈ raw
    /\ id <$> h !! 1%nat = Some (Some "part_of").
Proof.
  destruct (lines_after_a_stanza_change_its_term true
              ["format-version: 1.2"] [body_root] body_child body_typedef)
    as (raw & h & Heq & Hh & H1 & H2); [decide_lines..|done|done|].
  exists raw, h. split; [exact Heq|]. split; [exact H1|].
  split; [exact H2|]. by rewrite Hh.
Defined.

(** X24: a stanza that no empty line closes is not filed: when the text
    does not end with an empty line (the file does not end with a
    newline) the term of the last stanza is made and left out of
    [raw_terms]. *)
Theorem unclosed_stanza_is_not_filed :
  forall (exclude_obsolete_terms : bool) (header : list string)
    (bodies : list (list string)) (body : list string),
    Forall header_line header ->
    Forall (Forall stanza_line) bodies ->
    Forall stanza_line body ->
    exists raw h,
      parse_obo_file
        (text_of (header ++ ""
                    :: concat (stanza <$> bodies) ++ "[Term]" :: body))
        exclude_obsolete_terms
      = Parsed (raw, h ++ [term_of body])
      /\ parse_obo_file
           (text_of (header ++ "" :: concat (stanza <$> bodies)))
           exclude_obsolete_terms
         = Parsed (raw, h).
Proof.
  intros ex header bodies body Hh Hb Hbody.
  destruct (concat_stanza_lines _ Hb) as [Hone Hbodies].
  assert (Forall body_line body) as Hbl
    by (eapply Forall_impl; [exact Hbody|]; by intros l [? ?]).
  rewrite !parse_file_lines; try done.
  - rewrite parse_lines_app, run_stanzas by done.
    cbn [parse_lines]. unfold step at 1.
    change (String.eqb "[Term]" "[Term]") with true. cbv iota.
    rewrite (run_body ex body (State _ (Some fresh) _) fresh eq_refl Hbl).
    eexists _, _. split; [|done]. done.
  - apply Forall_app. split; [done|]. constructor.
    + unfold one_line. apply (bool_decide_unpack _). by vm_compute.
    + eapply Forall_impl; [exact Hbody|]. by intros l [? ?].
Qed.

Lemma unclosed_stanza_is_not_filed_witness :
  exists raw h,
    parse_obo_file
      (text_of (["format-version: 1.2"] ++ ""
                  :: concat (stanza <$> [body_root]) ++ "[Term]" :: body_child))
      true
    = Parsed (raw, h ++ [term_of body_child])
    /\ raw = [(Some "A:1", 0%nat)].
Proof.
  destruct (unclosed_stanza_is_not_filed true ["format-version: 1.2"]
              [body_root] body_child)
    as (raw & h & Heq & Heq'); [decide_lines..|].
  exists raw, h. split; [exact Heq|].
  vm_compute in Heq'. by injection Heq' as <- _.
Defined.
End ParserToBuilder.

Section TagLines.
Import Parse.

Lemma prefix_append p x : String.prefix p (String.append p x) = true.
Proof.
  induction p as [|c p IH]; simpl; [by destruct x|].
  destruct (Ascii.ascii_dec c c); [exact IH|done].
Qed.

Lemma replace_from_skip old new pre x :
  Str.replace_from old new (String.length pre) (String.append pre x)
  = Str.replace_from old new 0 x.
Proof. induction pre as [|c pre IH]; simpl; [by destruct x|exact IH]. Qed.

(* the tag at the head of a line goes, and the rest is searched on *)
Lemma replace_tag c tag x :
  Str.replace (String.append (String c tag) x) (String c tag) ""
  = Str.replace x (String c tag) "".
Proof.
  unfold Str.replace.
  change (String.append (String c tag) x) with (String c (String.append tag x)).
  cbn [Str.replace_from].
  change (String c (String.append tag x))
    with (String.append (String c tag) x).
  rewrite prefix_append.
  change (String.length (String c tag) - 1)%nat
    with (String.length tag - 0)%nat.
  rewrite Nat.sub_0_r, replace_from_skip. done.
Qed.

Lemma prefix_occurs p : forall s,
  String.prefix p s = true -> exists b, s = String.append p b.
Proof.
  induction p as [|c p IH]; intros s H; [by exists s|].
  destruct s as [|x s]; [done|]. simpl in H.
  destruct (Ascii.ascii_dec c x) as [->|]; [|done].
  destruct (IH s H) as [b ->]. by exists b.
Qed.

Lemma replace_absent old new s :
  old <> "" -> ~ occurs old s -> Str.replace s old new = s.
Proof.
  intros Hold. unfold Str.replace.
  induction s as [|c s IH]; intros Hno; [done|]. cbn [Str.replace_from].
  destruct (String.prefix old (String c s)) eqn:Hp.
  - exfalso. apply Hno. apply prefix_occurs in Hp as [b ->].
    exists "", b. done.
  - rewrite IH; [done|]. intros (a & b & ->). apply Hno.
    exists (String c a), b. done.
Qed.

Lemma update_tagged_id x :
  update (String.append "id: " x) = Some (set_id (Str.replace x "id: " "")).
Proof.
  unfold update, Str.startswith. rewrite prefix_append.
  by rewrite replace_tag.
Qed.

Lemma update_tagged_name x :
  update (String.append "name: " x)
  = Some (set_label (Str.replace x "name: " "")).
Proof.
  unfold update, Str.startswith.
  change (String.prefix "id: " (String.append "name: " x)) with false.
  cbv iota. rewrite prefix_append. by rewrite replace_tag.
Qed.

Lemma update_tagged_is_a x :
  update (String.append "is_a: " x)
  = Some (add_is_a (Str.split (Str.replace x "is_a: " "") " ! ")).
Proof.
  unfold update, Str.startswith.
  change (String.prefix "id: " (String.append "is_a: " x)) with false.
  change (String.prefix "name: " (String.append "is_a: " x)) with false.
  change (String.prefix "def: " (String.append "is_a: " x)) with false.
  change (String.prefix "comment: " (String.append "is_a: " x)) with false.
  change (String.prefix "xref: " (String.append "is_a: " x)) with false.
  cbv iota. rewrite prefix_append. by rewrite replace_tag.
Qed.

Lemma occursb_complete p s : occurs p s -> occursb p s = true.
Proof.
  intros (a & b & ->). induction a as [|c a IH].
  - change (String.append "" (String.append p b)) with (String.append p b).
    pose proof (prefix_append p b) as Hp.
    destruct (String.append p b); cbn [occursb]; by rewrite Hp.
  - change (String.append (String c a) (String.append p b))
      with (String c (String.append a (String.append p b))).
    cbn [occursb]. rewrite IH. apply orb_true_r.
Qed.

(** X25: the value of a line.  What an id, name or is_a line gives to
    the term is the text after the tag with every further occurrence of
    the tag text taken out of it: [replace] is not told to replace
    once.  A value that does not hold the tag text is kept as it is. *)
Theorem tag_text_is_deleted_everywhere :
  forall x : string,
    update (String.append "id: " x) = Some (set_id (Str.replace x "id: " ""))
    /\ update (String.append "name: " x)
       = Some (set_label (Str.replace x "name: " ""))
    /\ update (String.append "is_a: " x)
       = Some (add_is_a (Str.split (Str.replace x "is_a: " "") " ! "))
    /\ forall tag, tag <> "" -> ~ occurs tag x -> Str.replace x tag "" = x.
Proof.
  intros x. split; [apply update_tagged_id|].
  split; [apply update_tagged_name|]. split; [apply update_tagged_is_a|].
  intros tag. apply replace_absent.
Qed.

Lemma tag_text_is_deleted_everywhere_witness :
  update "name: gene name: p53" = Some (set_label "gene p53")
  /\ Str.replace "root" "name: " "" = "root".
Proof.
  split.
  - exact (proj1 (proj2 (tag_text_is_deleted_everywhere "gene name: p53"))).
  - apply (proj2 (proj2 (proj2 (tag_text_is_deleted_everywhere "root"))));
      [discriminate|].
    intros H. apply occursb_complete in H. discriminate.
Defined.
End TagLines.

(** ** Flat mode: an index recorded twice *)

Section RecordedTwice.
Import Flat.

Lemma scan_queue_app q1 : forall q2 idx ps,
  scan_queue idx (q1 ++ q2) ps
  = let* ps1 := scan_queue idx q1 ps in
    scan_queue (idx + length q1) q2 ps1.
Proof.
  induction q1 as [|[c a] q1 IH]; intros q2 idx ps.
  - simpl. by rewrite Nat.add_0_r.
  - cbn [app scan_queue length]. rewrite Nat.add_succ_r.
    destruct (20 <=? c).
    + destruct (p_heap ps !! a); [|done]. cbn [from_option bind].
      apply (IH q2 (S idx)).
    + destruct (scan_trees a idx (p_trees ps) (p_heap ps) (p_drop_idxs ps))
        as [[[f h] d]| |]; [|done|done].
      cbn [bind]. apply (IH q2 (S idx)).
Qed.

(* the indices a pass records are those of the entries it has seen *)
Lemma scan_trees_bound a idx : forall (f : forest) (h : store) drops f' h'
    drops' (P : nat -> Prop),
  scan_trees a idx f h drops = Ok (f', h', drops') ->
  Forall P drops -> P idx -> Forall P drops'.
Proof.
  induction f as [|[s t] f IH]; intros h drops f' h' drops' P H Hd Hi;
    cbn [scan_trees] in H.
  - by injection H as <- <- <-.
  - inv_bind H. destruct (dict_get t (parent x)).
    + inv_bind H. inv_bind H. destruct x1 as [[f1 h2] d2].
      injection H as <- <- <-. eapply IH; [exact Hx1| |done].
      apply Forall_app. split; [done|]. by apply Forall_singleton.
    + inv_bind H. destruct x0 as [[f1 h2] d2]. injection H as <- <- <-.
      eapply IH; eauto.
Qed.

Lemma scan_queue_bound q : forall idx ps ps',
  scan_queue idx q ps = Ok ps' ->
  Forall (fun i => (i < idx)%nat) (p_drop_idxs ps) ->
  Forall (fun i => (i < idx + length q)%nat) (p_drop_idxs ps').
Proof.
  induction q as [|[c a] q IH]; intros idx ps ps' H Hd; cbn [scan_queue] in H.
  - injection H as <-. simpl. by rewrite Nat.add_0_r.
  - cbn [length]. rewrite Nat.add_succ_r.
    assert (Forall (fun i => (i < S idx)%nat) (p_drop_idxs ps)) as Hd'
      by (eapply Forall_impl; [exact Hd|]; simpl; intros; lia).
    destruct (20 <=? c).
    + inv_bind H. apply (IH (S idx)) in H; [done|]. simpl.
      apply Forall_app. split; [done|]. apply Forall_singleton. lia.
    + inv_bind H. destruct x as [[f h] d]. apply (IH (S idx)) in H; [done|].
      simpl. eapply scan_trees_bound; [exact Hx|done|]. simpl. lia.
Qed.

(** One queued node against the trees, whatever the ids: its index is
    recorded once for every tree that holds its parent. *)
Lemma scan_trees_count a idx : forall (f : forest) (h : store) drops n,
  tree_refs_ok h f -> h !! a = Some n ->
  exists f' h',
    scan_trees a idx f h drops
    = Ok (f', h', drops ++ replicate (length (holders (parent n) f)) idx).
Proof.
  induction f as [|[s t] f IH]; intros h drops n Hrefs Ha.
  - exists [], h. simpl. by rewrite app_nil_r.
  - cbn [scan_trees]. rewrite Ha. cbn [from_option bind].
    assert (forall h1, length h1 = length h -> tree_refs_ok h1 f) as Hrest.
    { intros h1 Hlen s' t' k b Hin Hk.
      apply lookup_lt_is_Some. rewrite Hlen. apply lookup_lt_is_Some.
      apply (Hrefs s' t' k b); [by right|done]. }
    unfold holders. rewrite filter_cons. simpl.
    destruct (dict_get t (parent n)) as [b|] eqn:Hb.
    + destruct (Hrefs s t (parent n) b ltac:(left)
                  (dict_get_Some_elem _ _ _ Hb)) as [pn Hpn].
      rewrite Hpn. cbn [from_option bind].
      destruct (IH (<[a := set_level n (level pn + 1)]> h) (drops ++ [idx])
                  (set_level n (level pn + 1)))
        as (f' & h' & Heq).
      { apply Hrest, length_insert. }
      { apply list_lookup_insert_eq. eapply lookup_lt_Some; eauto. }
      simpl in Heq. rewrite Heq. cbn [bind].
      rewrite decide_True by (apply dict_get_is_Some; eauto).
      eexists _, _. simpl. by rewrite <- app_assoc.
    + destruct (IH h drops n (Hrest h eq_refl) Ha) as (f' & h' & Heq).
      rewrite Heq. cbn [bind].
      rewrite decide_False; [eauto|].
      intros Hin. apply dict_get_is_Some in Hin as [x Hx]. congruence.
Qed.

Lemma insert_desc_top L m d Y :
  (d < L)%nat ->
  insert_desc d (replicate m L ++ Y) = replicate m L ++ insert_desc d Y.
Proof.
  intros Hd. induction m as [|m IH]; [done|]. simpl.
  destruct (Nat.leb_spec L d); [lia|]. by rewrite IH.
Qed.

Lemma sorted_reverse_top L m drops :
  Forall (fun d => (d < L)%nat) drops ->
  sorted_reverse (drops ++ replicate m L)
  = replicate m L ++ sorted_reverse drops.
Proof.
  unfold sorted_reverse. induction 1 as [|d drops Hd _ IH]; simpl.
  - rewrite app_nil_r. induction m as [|m IH]; [done|]. simpl.
    rewrite IH. destruct m; simpl; [done|]. by rewrite Nat.leb_refl.
  - rewrite IH. by apply insert_desc_top.
Qed.

Lemma del_index_length {A : Type} (l : list A) :
  del_index l (length l) = Raise IndexError.
Proof. induction l as [|x l IH]; simpl; [done|]. by rewrite IH. Qed.

(** X26: a parent in two trees.  When the parent id of the last queued
    node is held by two trees or more (an id given on two lines, below
    two parents, puts a node into two trees), the index of that node
    is recorded once per tree, the second deletion at that index is out
    of range, and the builder stops with [IndexError]. *)
Theorem parent_in_two_trees_raises :
  forall (st : state) (q : list (Z * addr)) (c : Z) (a : addr)
    (ps : pass_state) (n : node),
    to_process st = q ++ [(c, a)] -> c < 20 ->
    scan_queue 0 q (PassState (heap st) (trees st) [] (printed st)) = Ok ps ->
    tree_refs_ok (p_heap ps) (p_trees ps) ->
    p_heap ps !! a = Some n ->
    (2 <= length (holders (parent n) (p_trees ps)))%nat ->
    pass st = Raise IndexError
    /\ forall fuel, loop (S fuel) st = Raise IndexError.
Proof.
  intros st q c a ps n Hq Hc Hscan Hrefs Ha Htwo.
  assert (pass st = Raise IndexError) as Hpass.
  { unfold pass. rewrite Hq, scan_queue_app, Hscan. cbn [bind scan_queue].
    change (0 + length q)%nat with (length q).
    destruct (Z.leb_spec 20 c); [lia|].
    destruct (scan_trees_count a (length q) (p_trees ps) (p_heap ps)
                (p_drop_idxs ps) n Hrefs Ha) as (f' & h' & Heq).
    rewrite Heq. cbn [bind p_drop_idxs].
    pose proof (scan_queue_bound q 0 _ _ Hscan ltac:(constructor)) as Hb.
    change (0 + length q)%nat with (length q) in Hb.
    rewrite (sorted_reverse_top _ _ _ Hb).
    destruct (length (holders (parent n) (p_trees ps))) as [|[|m]]; [lia..|].
    cbn [replicate app del_indices].
    rewrite (del_index_middle q (c, a) []), app_nil_r. cbn [bind].
    by rewrite del_index_length. }
  split; [done|]. intros fuel. cbn [loop]. by rewrite Hpass.
Qed.

Lemma parent_in_two_trees_raises_witness :
  build_non_separator_based_tree 5 rows_two_parents = Raise IndexError.
Proof.
  assert (exists ps,
            scan_queue 0 [(0, 2%nat); (0, 3%nat)]
              (PassState (heap (read_rows rows_two_parents))
                 (trees (read_rows rows_two_parents)) []
                 (printed (read_rows rows_two_parents))) = Ok ps
            /\ p_trees ps = [("A", [("A", 0%nat); ("X", 2%nat)]);
                             ("B", [("B", 1%nat); ("X", 3%nat)])]
            /\ length (p_heap ps) = 5%nat
            /\ parent <$> p_heap ps !! 4%nat = Some "X")
    as (ps & Hscan & Htrees & Hlen & Hpar).
  { eexists. split; [vm_compute; reflexivity|]. done. }
  destruct (p_heap ps !! 4%nat) as [n|] eqn:Hn; [|done].
  injection Hpar as Hpar.
  destruct (parent_in_two_trees_raises (read_rows rows_two_parents)
              [(0, 2%nat); (0, 3%nat)] 0 4%nat ps n eq_refl eq_refl Hscan)
    as [_ Hloop].
  - intros s t k b Hst Hk. apply lookup_lt_is_Some. rewrite Hlen.
    rewrite Htrees in Hst.
    assert (Forall (fun st : string * tree =>
                      Forall (fun kb => (kb.2 < 5)%nat) st.2)
              [("A", [("A", 0%nat); ("X", 2%nat)]);
               ("B", [("B", 1%nat); ("X", 3%nat)])]) as Hall
      by (repeat constructor; simpl; lia).
    rewrite Forall_forall in Hall. specialize (Hall _ Hst).
    rewrite Forall_forall in Hall. exact (Hall _ Hk).
  - exact Hn.
  - rewrite Hpar, Htrees. vm_compute. lia.
  - unfold build_non_separator_based_tree. by rewrite (Hloop 4%nat).
Defined.
End RecordedTwice.

Section LostNode.
Import Flat.

(* a tree gets no other new key than the id of the node *)
Lemma scan_trees_new_keys a idx : forall (f : forest) (h : store) drops f' h'
    drops' n,
  scan_trees a idx f h drops = Ok (f', h', drops') -> h !! a = Some n ->
  length h' = length h
  /\ Forall2 (fun st st' : string * tree =>
                (forall k, k ∈ keys st'.2 -> k ∈ keys st.2 \/ k = id n)
                /\ forall k b, (k, b) ∈ st'.2 -> (k, b) ∈ st.2 \/ b = a)
       f f'.
Proof.
  induction f as [|[s t] f IH]; intros h drops f' h' drops' n H Ha;
    cbn [scan_trees] in H.
  - injection H as <- <- <-. split; [done|constructor].
  - rewrite Ha in H. cbn [from_option bind] in H.
    destruct (dict_get t (parent n)) as [b|].
    + inv_bind H. inv_bind H. destruct x0 as [[f1 h2] d2].
      injection H as <- <- <-.
      apply (IH _ _ _ _ _ (set_level n (level x + 1))) in Hx0 as [Hlen Hf].
      * rewrite length_insert in Hlen. split; [done|].
        constructor; [|done]. simpl. split.
        -- intros k Hk. by apply keys_dict_set_iff in Hk.
        -- intros k b' Hin.
           destruct (decide (id n ∈ keys t)) as [Hi|Hi].
           ++ destruct (decide (b' = a)); [by right|]. left.
              clear -Hin n0. induction t as [|[k1 b1] t IHt]; simpl in Hin.
              ** apply list_elem_of_singleton in Hin. congruence.
              ** destruct (String.eqb (id n) k1).
                 --- apply elem_of_cons in Hin as [Hin|Hin];
                       [congruence|by right].
                 --- apply elem_of_cons in Hin as [Hin|Hin];
                       [rewrite Hin; left|right; auto].
           ++ rewrite dict_set_new in Hin by done.
              apply elem_of_app in Hin as [Hin|Hin]; [by left|].
              apply list_elem_of_singleton in Hin. injection Hin as _ ->.
              by right.
      * apply list_lookup_insert_eq. eapply lookup_lt_Some; eauto.
    + inv_bind H. destruct x as [[f1 h2] d2]. injection H as <- <- <-.
      apply (IH _ _ _ _ _ n) in Hx as [Hlen Hf]; [|done].
      split; [done|]. constructor; [|done]. simpl. split; auto.
Qed.

Lemma holders_nil p (f : forest) :
  holders p f = [] <-> p ∉ all_keys f.
Proof.
  unfold holders. induction f as [|[s t] f IH]; simpl.
  - split; [intros _; apply not_elem_of_nil|done].
  - rewrite filter_cons, all_keys_cons, not_elem_of_app. simpl.
    destruct (decide (p ∈ keys t)).
    + split; [done|]. by intros [? _].
    + rewrite IH. tauto.
Qed.

(* a node whose parent is in no tree is put into none *)
Lemma scan_trees_no_holder a idx n : forall (f : forest) (h : store) drops,
  h !! a = Some n -> holders (parent n) f = [] ->
  scan_trees a idx f h drops = Ok (f, h, drops).
Proof.
  induction f as [|[s t] f IH]; intros h drops Ha Hnone; [done|].
  cbn [scan_trees]. rewrite Ha. cbn [from_option bind].
  unfold holders in Hnone. rewrite filter_cons in Hnone. simpl in Hnone.
  destruct (decide (parent n ∈ keys t)) as [Hin|Hin]; [done|].
  destruct (dict_get t (parent n)) as [b|] eqn:Hb.
  - exfalso. apply Hin. apply dict_get_is_Some. eauto.
  - by rewrite (IH h drops Ha Hnone).
Qed.

(** X27: a parent in two trees, and the node after it.  When the last
    but one queued node has its parent in two trees and the last one
    has its parent in none, the two deletions at the index of the
    first take both out of the queue: the last node is in no tree and
    in no later queue, and nothing is printed.  The rest of the queue
    is handled as if the two had not been there. *)
Theorem node_after_a_double_record_is_lost :
  forall (st : state) (q : list (Z * addr)) (c c' : Z) (a a' : addr)
    (ps : pass_state) (n n' : node),
    to_process st = q ++ [(c, a); (c', a')] -> c < 20 -> c' < 20 ->
    scan_queue 0 q (PassState (heap st) (trees st) [] (printed st)) = Ok ps ->
    tree_refs_ok (p_heap ps) (p_trees ps) ->
    p_heap ps !! a = Some n -> p_heap ps !! a' = Some n' ->
    length (holders (parent n) (p_trees ps)) = 2%nat ->
    parent n' ∉ all_keys (p_trees ps) -> parent n' <> id n ->
    exists f' h',
      pass st
      = (let* q' := del_indices q (sorted_reverse (p_drop_idxs ps)) in
         Ok (State h' f' q' (p_printed ps)))
      /\ forall k, k ∈ all_keys f' -> k ∈ all_keys (p_trees ps) \/ k = id n.
Proof.
  intros st q c c' a a' ps n n' Hq Hc Hc' Hscan Hrefs Ha Ha' Htwo Hpar Hpn.
  destruct (scan_trees_count a (length q) (p_trees ps) (p_heap ps)
              (p_drop_idxs ps) n Hrefs Ha) as (f1 & h1 & Heq1).
  rewrite Htwo in Heq1.
  destruct (scan_trees_new_keys _ _ _ _ _ _ _ _ n Heq1 Ha) as [Hlen1 Hf1].
  assert (forall k, k ∈ all_keys f1 -> k ∈ all_keys (p_trees ps) \/ k = id n)
    as Hkeys1.
  { intros k Hk. apply all_keys_elem in Hk as (s & t & Hst & Hk).
    apply list_elem_of_lookup_1 in Hst as [i Hi].
    destruct (Forall2_lookup_r _ _ _ _ _ Hf1 Hi) as ([s0 t0] & Hi0 & Hk0 & _).
    destruct (Hk0 k Hk) as [?|?]; [left|by right].
    eapply elem_all_keys; [by eapply list_elem_of_lookup_2|done]. }
  assert (exists l, h1 !! a' = Some (set_level n' l)) as [l Ha1].
  { apply scan_trees_relevelled in Heq1 as [_ Hr]. by apply Hr. }
  assert (holders (parent (set_level n' l)) f1 = []) as Hnone.
  { apply holders_nil. intros Hin. destruct (Hkeys1 _ Hin); done. }
  exists f1, h1. split; [|done].
  unfold pass. rewrite Hq, scan_queue_app, Hscan. cbn [bind scan_queue].
  change (0 + length q)%nat with (length q).
  destruct (Z.leb_spec 20 c); [lia|]. destruct (Z.leb_spec 20 c'); [lia|].
  rewrite Heq1. cbn [bind p_heap p_trees p_drop_idxs p_printed].
  rewrite (scan_trees_no_holder a' _ _ f1 h1 _ Ha1 Hnone).
  cbn [bind p_heap p_trees p_drop_idxs p_printed].
  pose proof (scan_queue_bound q 0 _ _ Hscan ltac:(constructor)) as Hb.
  change (0 + length q)%nat with (length q) in Hb.
  rewrite (sorted_reverse_top _ 2 _ Hb). cbn [replicate app del_indices].
  rewrite (del_index_middle q (c, a) [(c', a')]). cbn [bind].
  rewrite (del_index_middle q (c', a') []), app_nil_r. cbn [bind].
  done.
Qed.

Lemma node_after_a_double_record_is_lost_witness :
  exists f' h',
    pass (read_rows rows_lost_node) = Ok (State h' f' [] [])
    /\ "Z" ∉ all_keys f'.
Proof.
  assert (exists ps,
            scan_queue 0 [(0, 2%nat); (0, 3%nat); (0, 4%nat)]
              (PassState (heap (read_rows rows_lost_node))
                 (trees (read_rows rows_lost_node)) []
                 (printed (read_rows rows_lost_node))) = Ok ps
            /\ p_trees ps
               = [("A", [("A", 0%nat); ("X", 2%nat); ("W", 4%nat)]);
                  ("B", [("B", 1%nat); ("X", 3%nat)])]
            /\ length (p_heap ps) = 7%nat
            /\ p_drop_idxs ps = [0; 1; 2]%nat
            /\ p_printed ps = []
            /\ (fun n => (id n, parent n)) <$> p_heap ps !! 5%nat
               = Some ("Y", "X")
            /\ (fun n => (id n, parent n)) <$> p_heap ps !! 6%nat
               = Some ("Z", "Q"))
    as (ps & Hscan & Htrees & Hlen & Hdrops & Hpr & HY & HZ).
  { eexists. split; [vm_compute; reflexivity|]. done. }
  destruct (p_heap ps !! 5%nat) as [n|] eqn:Hn; [|done].
  destruct (p_heap ps !! 6%nat) as [n'|] eqn:Hn'; [|done].
  injection HY as HYi HYp. injection HZ as HZi HZp.
  destruct (node_after_a_double_record_is_lost (read_rows rows_lost_node)
              [(0, 2%nat); (0, 3%nat); (0, 4%nat)] 0 0 5%nat 6%nat ps n n'
              eq_refl eq_refl eq_refl Hscan)
    as (f' & h' & Hpass & Hkeys).
  - intros s t k b Hst Hk. apply lookup_lt_is_Some. rewrite Hlen.
    rewrite Htrees in Hst.
    assert (Forall (fun st : string * tree =>
                      Forall (fun kb => (kb.2 < 7)%nat) st.2)
              [("A", [("A", 0%nat); ("X", 2%nat); ("W", 4%nat)]);
               ("B", [("B", 1%nat); ("X", 3%nat)])]) as Hall
      by (repeat constructor; simpl; lia).
    rewrite Forall_forall in Hall. specialize (Hall _ Hst).
    rewrite Forall_forall in Hall. exact (Hall _ Hk).
  - exact Hn.
  - exact Hn'.
  - rewrite HYp, Htrees. reflexivity.
  - rewrite HZp, Htrees. apply (bool_decide_unpack _). by vm_compute.
  - rewrite HZp, HYi. discriminate.
  - exists f', h'. rewrite Hdrops, Hpr in Hpass. split; [exact Hpass|].
    intros Hin. apply Hkeys in Hin as [Hin|Hin].
    + rewrite Htrees in Hin. revert Hin. apply (bool_decide_unpack _).
      by vm_compute.
    + rewrite HYi in Hin. discriminate.
Defined.
End LostNode.
